(** * Storage layout of spherical-harmonic coefficients and the scheduler
      that drives their rotation (ducc0: alm.h, threading.cc)

    A shallow embedding of [Alm_Base], [Alm<T>], [rotate_alm] and of the
    [Distribution] scheduler, with the machine arithmetic of the source
    written out: [size_t] is a 64-bit unsigned integer that wraps,
    [ptrdiff_t] a 64-bit signed integer, [int] a 32-bit signed integer,
    [double] an IEEE-754 binary64 number. *)

From Stdlib Require Import ZArith Lia Bool String.
From Stdlib Require Import Floats.SpecFloat.
From stdpp Require Import base tactics option numbers list.

Local Open Scope Z_scope.

(** ** Machine integers *)

Definition SIZE_MOD : Z := 18446744073709551616.
Definition SIZE_MAX : Z := 18446744073709551615.
Definition PTRDIFF_MAX : Z := 9223372036854775807.
Definition PTRDIFF_MIN : Z := -9223372036854775808.
Definition INT_MAX : Z := 2147483647.
Definition INT_MIN : Z := -2147483648.

(** The value of a [size_t] expression: reduction modulo 2^64. *)
Definition wrap (z : Z) : Z := z mod 18446744073709551616.

(** Conversion of a 64-bit pattern to [ptrdiff_t] (two's complement). *)
Definition to_signed (z : Z) : Z :=
  (z + 9223372036854775808) mod 18446744073709551616 - 9223372036854775808.

Definition is_size_t (z : Z) : Prop := 0 <= z <= SIZE_MAX.
Definition is_ptrdiff_t (z : Z) : Prop := PTRDIFF_MIN <= z <= PTRDIFF_MAX.

(** ** Outcomes

    [MR_assert] aborts with a message (the specification's ShapeError);
    the other failures are the undefined or non-returning behaviours of
    the C++ source, kept apart from assertion failures. *)

Inductive failure : Type :=
  | ShapeError (msg : string)
  | OutOfBounds
  | SignedOverflow
  | BadCast
  | NoNormalExit.

Inductive res (A : Type) : Type :=
  | Ok (a : A)
  | Err (f : failure).
Arguments Ok {A} a.
Arguments Err {A} f.

Definition bind {A B} (m : res A) (k : A -> res B) : res B :=
  match m with
  | Ok a => k a
  | Err f => Err f
  end.

Notation "x <- m ;; k" := (bind m (fun x => k))
  (at level 100, m at next level, right associativity).
Notation "'let*' p := m 'in' k" := (bind m (fun x => let p := x in k))
  (at level 10, p pattern, m at level 100, k at level 200).

Definition MR_assert (cond : bool) (msg : string) : res unit :=
  if cond then Ok tt else Err (ShapeError msg).

Definition is_shape_error {A} (r : res A) : bool :=
  match r with
  | Err (ShapeError _) => true
  | _ => false
  end.

Definition is_ok {A} (r : res A) : bool :=
  match r with
  | Ok _ => true
  | Err _ => false
  end.

(** Signed arithmetic on [ptrdiff_t]: overflow is undefined. *)
Definition ptr_check (z : Z) : res Z :=
  if (PTRDIFF_MIN <=? z) && (z <=? PTRDIFF_MAX) then Ok z else Err SignedOverflow.
Definition ptr_add (a b : Z) : res Z := ptr_check (a + b).
Definition ptr_sub (a b : Z) : res Z := ptr_check (a - b).

(** ** Vectors

    [std::vector] with [operator[]]: an access outside the vector is
    undefined behaviour, reported as [OutOfBounds]. *)

Section Vectors.
Context {A : Type}.

Definition vget (v : list A) (i : Z) : res A :=
  if 0 <=? i then
    match v !! Z.to_nat i with
    | Some a => Ok a
    | None => Err OutOfBounds
    end
  else Err OutOfBounds.

Definition vset (v : list A) (i : Z) (a : A) : res (list A) :=
  if (0 <=? i) && (i <? Z.of_nat (length v))
  then Ok (<[Z.to_nat i := a]> v)
  else Err OutOfBounds.

Definition vsize (v : list A) : Z := Z.of_nat (length v).

(** [v.back()] *)
Definition vback (v : list A) : res A :=
  match list.last v with
  | Some a => Ok a
  | None => Err OutOfBounds
  end.

End Vectors.

(** The 1-D array view [mav<T,1>] is a sequence of entries. *)
Abbreviation mav1 := list (only parsing).

(** Modelled from the spec: the operations of the 1-D array view
    [mav<T,1>] of ducc0/infra/mav.h, which is not among the sources; the
    specification gives the view a length and bounds-checked element
    access by flat index (read [alm(i)], write [alm.v(i)]). *)
Definition mav_size {T} (a : mav1 T) : Z := vsize a.
Definition mav_get {T} (a : mav1 T) (i : Z) : res T := vget a i.
Definition mav_set {T} (a : mav1 T) (i : Z) (x : T) : res (mav1 T) := vset a i x.

(** ** Counted loops

    [iterM n i body s] runs [body] at [i], [i+1], ..., [i+n-1], stopping at
    the first failure. *)
Fixpoint iterM {S : Type} (n : nat) (i : Z) (body : Z -> S -> res S) (s : S)
  : res S :=
  match n with
  | O => Ok s
  | Datatypes.S n' => s' <- body i s ;; iterM n' (i + 1) body s'
  end.

(** [for (size_t i = lo; i < hi; ++i) body] *)
Definition for_lt {S : Type} (lo hi : Z) (body : Z -> S -> res S) (s : S)
  : res S :=
  iterM (Z.to_nat (hi - lo)) lo body s.

(** [for (size_t i = lo; i <= hi; ++i) body]: when [hi] is the largest
    [size_t] the condition never becomes false: the counter wraps and the
    loop does not exit normally. *)
Definition for_le {S : Type} (lo hi : Z) (body : Z -> S -> res S) (s : S)
  : res S :=
  s' <- iterM (Z.to_nat (hi + 1 - lo)) lo body s ;;
  if hi =? SIZE_MAX then Err NoNormalExit else Ok s'.

(** ** Alm_Base: the storage layout *)

Record Alm_Base : Type := mkAlmBase {
  lmax : Z;
  arrsize : Z;
  mval : list Z;
  mstart : list Z
}.

(** [Alm_Base::Num_Alms] *)
Definition Num_Alms (l m : Z) : res Z :=
  _ <- MR_assert (m <=? l) "mmax must not be larger than lmax" ;;
  Ok (wrap (wrap (wrap (m + 1) * wrap (m + 2)) / 2
            + wrap (wrap (m + 1) * wrap (l - m)))).

(** The checks shared by the two sparse constructors. *)
Definition check_mval (lmax_ : Z) (mval_ : list Z) : res unit :=
  for_lt 0 (vsize mval_)
    (fun i _ =>
       mi <- vget mval_ i ;;
       _ <- MR_assert (mi <=? lmax_) "m >= lmax" ;;
       if 0 <? i then
         mp <- vget mval_ (i - 1) ;;
         MR_assert (mp <? mi) "m not strictly ascending"
       else Ok tt)
    tt.

(** The sentinel [-2*lmax] stored for absent columns, as a [ptrdiff_t]. *)
Definition sentinel (lmax_ : Z) : Z := to_signed (wrap (-2 * lmax_)).

(** [Alm_Base(lmax, mval, mstart)] *)
Definition Alm_Base_explicit (lmax_ : Z) (mval_ mstart_ : list Z)
  : res Alm_Base :=
  _ <- MR_assert (0 <? vsize mval_) "no m indices supplied" ;;
  _ <- MR_assert (vsize mstart_ =? vsize mval_)
         "mval and mstart have different sizes" ;;
  _ <- check_mval lmax_ mval_ ;;
  bk <- vback mval_ ;;
  let ms0 := replicate (Z.to_nat (wrap (bk + 1))) (sentinel lmax_) in
  let* (ms, asz) :=
    for_lt 0 (vsize mval_)
      (fun i '(ms, asz) =>
         mi <- vget mval_ i ;;
         si <- vget mstart_ i ;;
         ms' <- vset ms mi si ;;
         e <- ptr_add si (to_signed (wrap (lmax_ + 1))) ;;
         Ok (ms', wrap (Z.max (to_signed asz) e)))
      (ms0, 0) in
  Ok (mkAlmBase lmax_ asz mval_ ms).

(** The loop of [Alm_Base(lmax, mval)]:
    [for (size_t i=0, cnt=0; i<mval.size(); ++i, cnt+=lmax-mval[i]+1)].
    The step expression increments [i] first and then reads [mval[i]]; in
    the last round that read is one past the end of the vector, and
    [junk] stands for the indeterminate value it yields. *)
Fixpoint sparse_fill (junk lmax_ : Z) (mval_ : list Z) (n : nat) (i cnt : Z)
    (ms : list Z) : res (list Z) :=
  match n with
  | O => Ok ms
  | Datatypes.S n' =>
      mi <- vget mval_ i ;;
      v <- ptr_sub (to_signed cnt) (to_signed mi) ;;
      ms' <- vset ms mi v ;;
      let i' := i + 1 in
      let nxt := match vget mval_ i' with Ok x => x | Err _ => junk end in
      sparse_fill junk lmax_ mval_ n' i' (wrap (cnt + wrap (lmax_ - nxt + 1))) ms'
  end.

(** [Alm_Base(lmax, mval)] *)
Definition Alm_Base_sparse (junk lmax_ : Z) (mval_ : list Z) : res Alm_Base :=
  _ <- MR_assert (0 <? vsize mval_) "no m indices supplied" ;;
  _ <- check_mval lmax_ mval_ ;;
  bk <- vback mval_ ;;
  let ms0 := replicate (Z.to_nat (wrap (bk + 1))) (sentinel lmax_) in
  ms <- sparse_fill junk lmax_ mval_ (length mval_) 0 0 ms0 ;;
  b <- vback ms ;;
  e <- ptr_add b (to_signed (wrap (lmax_ + 1))) ;;
  Ok (mkAlmBase lmax_ (wrap e) mval_ ms).

(** One round of the loop of [Alm_Base(lmax, mmax)]. *)
Definition dense_step (lmax_ : Z) (m : Z) (st : list Z * list Z * Z)
  : res (list Z * list Z * Z) :=
  let '(mv, ms, idx) := st in
  mv' <- vset mv m m ;;
  ms' <- vset ms m (to_signed (wrap (idx - m))) ;;
  Ok (mv', ms', to_signed (wrap (idx + wrap (lmax_ - m + 1)))).

(** [Alm_Base(lmax, mmax)] *)
Definition Alm_Base_dense (lmax_ mmax_ : Z) : res Alm_Base :=
  let n := Z.to_nat (wrap (mmax_ + 1)) in
  let* (mv, ms, _) := for_le 0 mmax_ (dense_step lmax_)
                        (replicate n 0, replicate n 0, 0) in
  asz <- Num_Alms lmax_ mmax_ ;;
  Ok (mkAlmBase lmax_ asz mv ms).

Definition Lmax (b : Alm_Base) : Z := lmax b.
Definition Mmax (b : Alm_Base) : res Z := vback (mval b).
Definition n_entries (b : Alm_Base) : Z := arrsize b.

(** [index_l0]: the [ptrdiff_t] entry is returned as a [size_t]. *)
Definition index_l0 (b : Alm_Base) (m : Z) : res Z :=
  s <- vget (mstart b) m ;; Ok (wrap s).

Definition index (b : Alm_Base) (l m : Z) : res Z :=
  i0 <- index_l0 b m ;; Ok (wrap (i0 + l)).

Definition list_Z_eqb (a b : list Z) : bool := bool_decide (a = b).

Definition conformable (b other : Alm_Base) : bool :=
  (lmax b =? lmax other) && list_Z_eqb (mval b) (mval other)
  && list_Z_eqb (mstart b) (mstart other).

Definition complete (b : Alm_Base) : bool :=
  vsize (mval b) =? wrap (lmax b + 1).

(** [for (auto x : v) body] *)
Fixpoint foldM {S X : Type} (body : X -> S -> res S) (xs : list X) (s : S)
  : res S :=
  match xs with
  | [] => Ok s
  | x :: xs' => s' <- body x s ;; foldM body xs' s'
  end.

(** ** Alm<T>: the coefficient store *)

Record Alm (T : Type) : Type := mkAlm {
  base : Alm_Base;
  alm : mav1 T
}.
Arguments mkAlm {T} base alm.
Arguments base {T} a.
Arguments alm {T} a.

Section AlmStore.
Context {T T2 : Type}.
(** [v *= f] and [v += x] for a scalar of the second type, [v += w] on [T]. *)
Variable mul_assign : T -> T2 -> T.
Variable add_assign : T -> T2 -> T.
Variable add_T : T -> T -> T.
Variable zero_T : T.

(** [Alm(data, lmax, mmax)]: the base is built first, then the size of the
    view is compared with [Num_Alms]. *)
Definition Alm_new (data : mav1 T) (lmax_ mmax_ : Z) : res (Alm T) :=
  b <- Alm_Base_dense lmax_ mmax_ ;;
  n <- Num_Alms (lmax b) mmax_ ;;
  _ <- MR_assert (mav_size data =? n) "bad array size" ;;
  Ok (mkAlm b data).

(** [Alm(lmax, mmax)]: a fresh view of [Num_Alms(lmax, mmax)] entries. *)
Definition Alm_alloc (lmax_ mmax_ : Z) : res (Alm T) :=
  b <- Alm_Base_dense lmax_ mmax_ ;;
  n <- Num_Alms (lmax b) mmax_ ;;
  Ok (mkAlm b (replicate (Z.to_nat n) zero_T)).

(** One call [func(l, m, alm.v(index(l,m)))] of [applyLM]. *)
Definition visit (b : Alm_Base) (func : Z -> Z -> T -> res T) (l m : Z)
    (buf : mav1 T) : res (mav1 T) :=
  i <- index b l m ;;
  v <- mav_get buf i ;;
  v' <- func l m v ;;
  mav_set buf i v'.

(** [applyLM] *)
Definition applyLM (func : Z -> Z -> T -> res T) (a : Alm T) : res (Alm T) :=
  buf <- foldM (fun m buf => for_le m (lmax (base a))
                               (fun l buf => visit (base a) func l m buf) buf)
           (mval (base a)) (alm a) ;;
  Ok (mkAlm (base a) buf).

(** [SetToZero] *)
Definition SetToZero (a : Alm T) : Alm T :=
  mkAlm (base a) (replicate (length (alm a)) zero_T).

(** [Scale] *)
Definition Scale (factor : T2) (a : Alm T) : res (Alm T) :=
  buf <- for_lt 0 (mav_size (alm a))
           (fun m buf => v <- mav_get buf m ;; mav_set buf m (mul_assign v factor))
           (alm a) ;;
  Ok (mkAlm (base a) buf).

(** [ScaleL] *)
Definition ScaleL (factor : mav1 T2) (a : Alm T) : res (Alm T) :=
  _ <- MR_assert (lmax (base a) <? mav_size factor)
         "alm.ScaleL: factor array too short" ;;
  applyLM (fun l _ v => f <- mav_get factor l ;; Ok (mul_assign v f)) a.

(** [ScaleM] *)
Definition ScaleM (factor : mav1 T2) (a : Alm T) : res (Alm T) :=
  mm <- Mmax (base a) ;;
  _ <- MR_assert (mm <? mav_size factor)
         "alm.ScaleM: factor array too short" ;;
  applyLM (fun _ m v => f <- mav_get factor m ;; Ok (mul_assign v f)) a.

(** [Add(const T2 &num)] *)
Definition Add_num (num : T2) (a : Alm T) : res (Alm T) :=
  m0 <- vget (mval (base a)) 0 ;;
  _ <- MR_assert (m0 =? 0) "cannot add a constant: no m=0 mode present" ;;
  i <- index_l0 (base a) 0 ;;
  v <- mav_get (alm a) i ;;
  buf <- mav_set (alm a) i (add_assign v num) ;;
  Ok (mkAlm (base a) buf).

(** [operator()(l, m)], read and write. *)
Definition Alm_get (a : Alm T) (l m : Z) : res T :=
  i <- index (base a) l m ;; mav_get (alm a) i.

Definition Alm_put (a : Alm T) (l m : Z) (x : T) : res (Alm T) :=
  i <- index (base a) l m ;;
  buf <- mav_set (alm a) i x ;;
  Ok (mkAlm (base a) buf).

(** [Add(const Alm &other)] *)
Definition Add (other : Alm T) (a : Alm T) : res (Alm T) :=
  _ <- MR_assert (conformable (base a) (base other)) "A_lm are not conformable" ;;
  buf <- for_lt 0 (mav_size (alm a))
           (fun m buf =>
              v <- mav_get buf m ;;
              w <- mav_get (alm other) m ;;
              mav_set buf m (add_T v w))
           (alm a) ;;
  Ok (mkAlm (base a) buf).

End AlmStore.

(** ** Double precision

    [double] is IEEE-754 binary64, with the operations of the standard
    library's specification of floating-point arithmetic (round to nearest,
    ties to even). *)

Definition double : Type := spec_float.
Definition dmul : double -> double -> double := SFmul 53 1024.
Definition ddiv : double -> double -> double := SFdiv 53 1024.
Definition dadd : double -> double -> double := SFadd 53 1024.
Definition dsub : double -> double -> double := SFsub 53 1024.
Definition dneg : double -> double := SFopp.
Definition dsqrt : double -> double := SFsqrt 53 1024.
Definition dzero : double := S754_zero false.

(** [double(n)] for an integer [n]. *)
Definition double_of_Z (n : Z) : double := binary_normalize 53 1024 n 0 false.

(** [size_t(x)]: truncation toward zero; undefined when the truncated value
    is not a [size_t]. *)
Definition double_to_size_t (x : double) : res Z :=
  match x with
  | S754_zero _ => Ok 0
  | S754_finite s m e =>
      let mag := if 0 <=? e then Zpos m * 2 ^ e else Zpos m / 2 ^ (- e) in
      let v := if s then - mag else mag in
      if (0 <=? v) && (v <=? SIZE_MAX) then Ok v else Err BadCast
  | _ => Err BadCast
  end.

(** [size_t((fact_max_*double(rem))/double(nthreads_))] *)
Definition guided_estimate (fact_max : double) (rem nthreads : Z) : res Z :=
  double_to_size_t
    (ddiv (dmul fact_max (double_of_Z rem)) (double_of_Z nthreads)).

(** ** The scheduler (threading.cc) *)

(** Modelled from the spec: the range handed to a worker ([Range] of
    ducc0/infra/threading.h, which is not among the sources): a half-open
    interval [lo, hi); the default range is the empty range, and a range
    is non-empty when [lo < hi]. *)
Record Range : Type := mkRange { lo : Z; hi : Z }.
Definition Range0 : Range := mkRange 0 0.
Definition nonempty (r : Range) : bool := lo r <? hi r.

Inductive SchedMode : Type := SINGLE | STATIC | DYNAMIC.

Record Distribution : Type := mkDist {
  nthreads_ : Z;
  nwork_ : Z;
  cur_ : Z;
  chunksize_ : Z;
  fact_max_ : double;
  nextstart : list Z;
  mode : SchedMode;
  single_done : bool
}.

Definition set_nthreads (x : Z) (d : Distribution) : Distribution :=
  mkDist x (nwork_ d) (cur_ d) (chunksize_ d) (fact_max_ d) (nextstart d)
    (mode d) (single_done d).
Definition set_nwork (x : Z) (d : Distribution) : Distribution :=
  mkDist (nthreads_ d) x (cur_ d) (chunksize_ d) (fact_max_ d) (nextstart d)
    (mode d) (single_done d).
Definition set_cur (x : Z) (d : Distribution) : Distribution :=
  mkDist (nthreads_ d) (nwork_ d) x (chunksize_ d) (fact_max_ d) (nextstart d)
    (mode d) (single_done d).
Definition set_chunksize (x : Z) (d : Distribution) : Distribution :=
  mkDist (nthreads_ d) (nwork_ d) (cur_ d) x (fact_max_ d) (nextstart d)
    (mode d) (single_done d).
Definition set_fact_max (x : double) (d : Distribution) : Distribution :=
  mkDist (nthreads_ d) (nwork_ d) (cur_ d) (chunksize_ d) x (nextstart d)
    (mode d) (single_done d).
Definition set_nextstart (x : list Z) (d : Distribution) : Distribution :=
  mkDist (nthreads_ d) (nwork_ d) (cur_ d) (chunksize_ d) (fact_max_ d) x
    (mode d) (single_done d).
Definition set_mode (x : SchedMode) (d : Distribution) : Distribution :=
  mkDist (nthreads_ d) (nwork_ d) (cur_ d) (chunksize_ d) (fact_max_ d)
    (nextstart d) x (single_done d).
Definition set_single_done (x : bool) (d : Distribution) : Distribution :=
  mkDist (nthreads_ d) (nwork_ d) (cur_ d) (chunksize_ d) (fact_max_ d)
    (nextstart d) (mode d) x.

(** [Distribution dist;]: the position table starts empty; the scalar
    members are not initialised, and [garbage] stands for what they hold. *)
Definition Distribution_new (garbage : Distribution) : Distribution :=
  set_nextstart [] garbage.

(** [Distribution::getNext] *)
Definition getNext (thread_id : Z) (d : Distribution)
  : res (Range * Distribution) :=
  match mode d with
  | SINGLE =>
      if single_done d then Ok (Range0, d)
      else Ok (mkRange 0 (nwork_ d), set_single_done true d)
  | STATIC =>
      ns <- vget (nextstart d) thread_id ;;
      if nwork_ d <=? ns then Ok (Range0, d)
      else
        let lo := ns in
        let hi := Z.min (wrap (lo + chunksize_ d)) (nwork_ d) in
        ns' <- vset (nextstart d) thread_id
                 (wrap (ns + wrap (nthreads_ d * chunksize_ d))) ;;
        Ok (mkRange lo hi, set_nextstart ns' d)
  | DYNAMIC =>
      if nwork_ d <=? cur_ d then Ok (Range0, d)
      else
        let rem := wrap (nwork_ d - cur_ d) in
        tmp <- guided_estimate (fact_max_ d) rem (nthreads_ d) ;;
        let sz := Z.min rem (Z.max (chunksize_ d) tmp) in
        let lo := cur_ d in
        let cur' := wrap (cur_ d + sz) in
        Ok (mkRange lo cur', set_cur cur' d)
  end.

(** The worker handles [thread_map] creates: [MyScheduler(dist, i)] for
    [i < nthreads_] (only worker 0, inline, when [nthreads_ == 1]). *)
Definition thread_ids (d : Distribution) : list Z := seqZ 0 (nthreads_ d).

(** The [exec*] members set the distribution up and then call
    [thread_map(f)]; each is modelled by the state in which [thread_map]
    starts the workers.  [default_nthreads] is what [get_default_nthreads()]
    returns. *)
Section Exec.
Variable default_nthreads : Z.

Definition execSingle (nwork : Z) (d : Distribution) : res Distribution :=
  Ok (set_nthreads 1 (set_nwork nwork (set_single_done false (set_mode SINGLE d)))).

Definition execStatic (nwork nthreads chunksize : Z) (d : Distribution)
  : res Distribution :=
  let d := set_mode STATIC d in
  let d := set_nthreads (if nthreads =? 0 then default_nthreads else nthreads) d in
  let d := set_nwork nwork d in
  let d := set_chunksize
             (if chunksize <? 1
              then wrap (nwork_ d + nthreads_ d - 1) / nthreads_ d
              else chunksize) d in
  if nwork_ d <=? chunksize_ d then execSingle (nwork_ d) d
  else
    let ns0 := resize (Z.to_nat (nthreads_ d)) 0 (nextstart d) in
    ns <- for_lt 0 (vsize ns0)
            (fun i ns => vset ns i (wrap (i * chunksize_ d))) ns0 ;;
    Ok (set_nextstart ns d).

Definition execDynamic (nwork nthreads chunksize_min : Z) (fact_max : double)
    (d : Distribution) : res Distribution :=
  let d := set_mode DYNAMIC d in
  let d := set_nthreads (if nthreads =? 0 then default_nthreads else nthreads) d in
  let d := set_nwork nwork d in
  let d := set_chunksize (if chunksize_min <? 1 then 1 else chunksize_min) d in
  if nwork_ d <=? wrap (chunksize_ d * nthreads_ d)
  then execStatic nwork nthreads 0 d
  else Ok (set_cur 0 (set_fact_max fact_max d)).

Definition execParallel (nthreads : Z) (d : Distribution) : res Distribution :=
  let d := set_mode STATIC d in
  let d := set_nthreads (if nthreads =? 0 then default_nthreads else nthreads) d in
  let d := set_nwork (nthreads_ d) d in
  Ok (set_chunksize 1 d).

(** The free functions: a fresh [Distribution] per call. *)
Definition run_execSingle (g : Distribution) (nwork : Z) : res Distribution :=
  execSingle nwork (Distribution_new g).
Definition run_execStatic (g : Distribution) (nwork nthreads chunksize : Z)
  : res Distribution :=
  execStatic nwork nthreads chunksize (Distribution_new g).
Definition run_execDynamic (g : Distribution) (nwork nthreads chunksize_min : Z)
  : res Distribution :=
  execDynamic nwork nthreads chunksize_min dzero (Distribution_new g).
Definition run_execGuided (g : Distribution) (nwork nthreads chunksize_min : Z)
    (fact_max : double) : res Distribution :=
  execDynamic nwork nthreads chunksize_min fact_max (Distribution_new g).
Definition run_execParallel (g : Distribution) (nthreads : Z) : res Distribution :=
  execParallel nthreads (Distribution_new g).

End Exec.

(** The [getNext] calls of a fan-out in the order in which they happen,
    each named by the worker that makes it. *)
Fixpoint calls (sched : list Z) (d : Distribution)
  : res (list Range * Distribution) :=
  match sched with
  | [] => Ok ([], d)
  | t :: sched' =>
      let* (r, d') := getNext t d in
      let* (rs, d'') := calls sched' d' in
      Ok (r :: rs, d'')
  end.

(** [thread_map(f)]: with one worker [f] runs inline on the caller; with
    more, the workers' jobs are run here one after the other in the order
    of their numbers (one of the orders the pool allows). *)
Definition thread_map {S : Type} (f : Z -> Distribution * S -> res (Distribution * S))
    (d : Distribution) (s : S) : res (Distribution * S) :=
  foldM f (thread_ids d) (d, s).

(** [for (int i = lo; i <= hi; ++i) body]: incrementing an [int] beyond
    [INT_MAX] is undefined. *)
Definition for_int_le {S : Type} (lo hi : Z) (body : Z -> S -> res S) (s : S)
  : res S :=
  s' <- iterM (Z.to_nat (Z.min hi INT_MAX + 1 - lo)) lo body s ;;
  if INT_MAX <=? hi then Err SignedOverflow else Ok s'.

(** [for (int i = lo; i < hi; ++i) body] *)
Definition for_int_lt {S : Type} (lo hi : Z) (body : Z -> S -> res S) (s : S)
  : res S :=
  iterM (Z.to_nat (hi - lo)) lo body s.

(** ** The Wigner-d recursion (wigner_d_risbo_openmp) *)

(** Modelled from the spec: the 2-D array view [mav<double,2>] of
    ducc0/infra/mav.h, which is not among the sources: a [rows] x [cols]
    array, zero when allocated from a shape, with bounds-checked access by
    [(i, j)]. *)
Record mav2 : Type := mkMav2 { rows : Z; cols : Z; cells : list double }.

Definition mav2_new (r c : Z) : mav2 :=
  mkMav2 r c (replicate (Z.to_nat (r * c)) dzero).

Definition mav2_inside (a : mav2) (i j : Z) : bool :=
  (0 <=? i) && (i <? rows a) && (0 <=? j) && (j <? cols a).

Definition mat_get (a : mav2) (i j : Z) : res double :=
  if mav2_inside a i j then vget (cells a) (i * cols a + j) else Err OutOfBounds.

Definition mat_set (a : mav2) (i j : Z) (x : double) : res mav2 :=
  if mav2_inside a i j then
    c <- vset (cells a) (i * cols a + j) x ;;
    Ok (mkMav2 (rows a) (cols a) c)
  else Err OutOfBounds.

Record wigner_d_risbo_openmp : Type := mkWigner {
  w_p : double;
  w_q : double;
  w_sqt : list double;
  w_d : mav2;
  w_dd : mav2;
  w_n : Z
}.

Definition done_1 : double := double_of_Z 1.

Section Wigner.
(** [sin] and [cos] of the C library. *)
Variable dsin dcos : double -> double.

(** The constructor. *)
Definition wigner_new (lmax_ : Z) (ang : double) : res wigner_d_risbo_openmp :=
  let half := ddiv ang (double_of_Z 2) in
  let sqt0 := replicate (Z.to_nat (wrap (2 * lmax_ + 1))) dzero in
  sqt <- for_lt 0 (vsize sqt0)
           (fun m sqt => vset sqt m (dsqrt (double_of_Z m))) sqt0 ;;
  Ok (mkWigner (dsin half) (dcos half) sqt
        (mav2_new (wrap (lmax_ + 1)) (wrap (2 * lmax_ + 1)))
        (mav2_new (wrap (lmax_ + 1)) (wrap (2 * lmax_ + 1))) (-1)).

(** The padding loop of [recurse]: row [n] from row [n-2], reflected. *)
Definition wigner_pad (n : Z) (d : mav2) : res mav2 :=
  let* (d', _) :=
    for_int_le 0 (2 * n - 2)
      (fun i '(d, sign) =>
         x <- mat_get d (n - 2) (2 * n - 2 - i) ;;
         d' <- mat_set d n i (dmul (double_of_Z sign) x) ;;
         Ok (d', - sign))
      (d, if Z.odd n then -1 else 1) in
  Ok d'.

(** One half-step [j] of [recurse], from [xd] into [xdd]. *)
Definition wigner_half (p q : double) (sqt : list double) (n j : Z)
    (xd xdd : mav2) : res mav2 :=
  let xj := ddiv done_1 (double_of_Z j) in
  sj <- vget sqt j ;;
  x00 <- mat_get xd 0 0 ;;
  xdd <- mat_set xdd 0 0 (dmul q x00) ;;
  xdd <- for_int_lt 1 j
           (fun i xdd =>
              sji <- vget sqt (j - i) ;;
              si <- vget sqt i ;;
              a <- mat_get xd 0 i ;;
              b <- mat_get xd 0 (i - 1) ;;
              mat_set xdd 0 i
                (dmul (dmul xj sj)
                   (dsub (dmul (dmul q sji) a) (dmul (dmul p si) b))))
           xdd ;;
  x0j <- mat_get xd 0 (j - 1) ;;
  xdd <- mat_set xdd 0 j (dmul (dneg p) x0j) ;;
  for_int_le 1 n
    (fun k xdd =>
       sjk <- vget sqt (j - k) ;;
       sk <- vget sqt k ;;
       let t1 := dmul (dmul xj sjk) q in
       let t2 := dmul (dmul xj sjk) p in
       let t3 := dmul (dmul xj sk) p in
       let t4 := dmul (dmul xj sk) q in
       a <- mat_get xd k 0 ;;
       b <- mat_get xd (k - 1) 0 ;;
       xdd <- mat_set xdd k 0
                (dmul (dmul xj sj)
                   (dadd (dmul (dmul q sjk) a) (dmul (dmul p sk) b))) ;;
       xdd <- for_int_lt 1 j
                (fun i xdd =>
                   sji <- vget sqt (j - i) ;;
                   si <- vget sqt i ;;
                   a <- mat_get xd k i ;;
                   b <- mat_get xd k (i - 1) ;;
                   c <- mat_get xd (k - 1) i ;;
                   e <- mat_get xd (k - 1) (i - 1) ;;
                   mat_set xdd k i
                     (dadd
                        (dadd
                           (dsub (dmul (dmul t1 sji) a) (dmul (dmul t2 si) b))
                           (dmul (dmul t3 sji) c))
                        (dmul (dmul t4 si) e)))
                xdd ;;
       a <- mat_get xd k (j - 1) ;;
       b <- mat_get xd (k - 1) (j - 1) ;;
       mat_set xdd k j
         (dadd (dmul (dmul (dneg t2) sj) a) (dmul (dmul t4 sj) b)))
    xdd.

(** [recurse]: the next matrix is left in [w_d]. *)
Definition recurse (w : wigner_d_risbo_openmp) : res wigner_d_risbo_openmp :=
  n <- ptr_add (w_n w) 1 ;;
  let p := w_p w in
  let q := w_q w in
  if n =? 0 then
    d <- mat_set (w_d w) 0 0 done_1 ;;
    Ok (mkWigner p q (w_sqt w) d (w_dd w) n)
  else if n =? 1 then
    s2 <- vget (w_sqt w) 2 ;;
    d <- mat_set (w_d w) 0 0 (dmul q q) ;;
    d <- mat_set d 0 1 (dmul (dmul (dneg p) q) s2) ;;
    d <- mat_set d 0 2 (dmul p p) ;;
    x01 <- mat_get d 0 1 ;;
    d <- mat_set d 1 0 (dneg x01) ;;
    d <- mat_set d 1 1 (dsub (dmul q q) (dmul p p)) ;;
    x01 <- mat_get d 0 1 ;;
    d <- mat_set d 1 2 x01 ;;
    Ok (mkWigner p q (w_sqt w) d (w_dd w) n)
  else
    d <- wigner_pad n (w_d w) ;;
    let* (d, dd) :=
      for_int_le (2 * n - 1) (2 * n)
        (fun j '(d, dd) =>
           if Z.odd j then
             dd' <- wigner_half p q (w_sqt w) n j d dd ;; Ok (d, dd')
           else
             d' <- wigner_half p q (w_sqt w) n j dd d ;; Ok (d', dd))
        (d, w_dd w) in
    Ok (mkWigner p q (w_sqt w) d dd n).

End Wigner.

(** ** rotate_alm *)

Record Cplx (A : Type) : Type := mkC { re : A; im : A }.
Arguments mkC {A} re im.
Arguments re {A} c.
Arguments im {A} c.

Section Rotate.
Context {T : Type}.
Variable default_nthreads : Z.
Variable dsin dcos : double -> double.
(** The operations of [std::complex]: [polar], the product and the sum of
    two [complex<double>], the product with a [double], the conversions
    between [complex<T>] and [complex<double>], and [z *= w] for a
    [complex<T>] [z] and a [complex<double>] [w]. *)
Variable polar : double -> double -> Cplx double.
Variable cd_mul : Cplx double -> Cplx double -> Cplx double.
Variable cd_add : Cplx double -> Cplx double -> Cplx double.
Variable cd_scale : Cplx double -> double -> Cplx double.
Variable to_cd : Cplx T -> Cplx double.
Variable of_cd : Cplx double -> Cplx T.
Variable cT_mul_assign : Cplx T -> Cplx double -> Cplx T.

Definition czero : Cplx double := mkC dzero dzero.

(** The job of the fan-out for degree [l]: the contributions of all
    [mm >= 1] to [almtmp[m]] for the [m] of the worker's range. *)
Definition rotate_job (a : Alm (Cplx T)) (exppsi : list (Cplx double))
    (d : mav2) (l : Z) (tid : Z) (st : Distribution * list (Cplx double))
  : res (Distribution * list (Cplx double)) :=
  let '(dist, almtmp) := st in
  let* (rng, dist') := getNext tid dist in
  let* (almtmp', _) :=
    for_le 1 l
      (fun mm '(almtmp, flip) =>
         x <- Alm_get a l mm ;;
         e <- vget exppsi mm ;;
         let t1 := cd_mul (to_cd x) e in
         let* (almtmp', _) :=
           for_lt (lo rng) (hi rng)
             (fun m '(almtmp, flip2) =>
                x1 <- mat_get d (wrap (l - mm)) (wrap (l - m)) ;;
                x2 <- mat_get d (wrap (l - mm)) (wrap (l + m)) ;;
                let d1 := if flip2 : bool then dneg x1 else x1 in
                let d2 := if flip : bool then dneg x2 else x2 in
                let f1 := dadd d1 d2 in
                let f2 := dsub d1 d2 in
                old <- vget almtmp m ;;
                almtmp' <- vset almtmp m
                             (cd_add old (mkC (dmul (re t1) f1) (dmul (im t1) f2))) ;;
                Ok (almtmp', negb flip2))
             (almtmp, Z.odd (wrap (mm + lo rng))) in
         Ok (almtmp', negb flip))
      (almtmp, true) in
  Ok (dist', almtmp').

(** The rotation proper, for [theta != 0]. *)
Definition rotate_general (g : Distribution) (a : Alm (Cplx T))
    (psi theta phi : double) : res (Alm (Cplx T) * wigner_d_risbo_openmp) :=
  let lmax_ := Lmax (base a) in
  let n1 := Z.to_nat (wrap (lmax_ + 1)) in
  let* (exppsi, expphi) :=
    for_le 0 lmax_
      (fun m '(exppsi, expphi) =>
         exppsi' <- vset exppsi m (polar done_1 (dmul (dneg psi) (double_of_Z m))) ;;
         expphi' <- vset expphi m (polar done_1 (dmul (dneg phi) (double_of_Z m))) ;;
         Ok (exppsi', expphi'))
      (replicate n1 czero, replicate n1 czero) in
  let nthreads := 1 in
  rec <- wigner_new dsin dcos lmax_ theta ;;
  let* (a', rec', _) :=
    for_le 0 lmax_
      (fun l '(a, rec, almtmp) =>
         rec' <- recurse rec ;;
         let d := w_d rec' in
         a0 <- Alm_get a l 0 ;;
         almtmp <- for_le 0 l
                     (fun m almtmp =>
                        x <- mat_get d l (wrap (l + m)) ;;
                        vset almtmp m (cd_scale (to_cd a0) x))
                     almtmp ;;
         dist <- run_execStatic default_nthreads g (wrap (l + 1)) nthreads 0 ;;
         let* (_, almtmp) := thread_map (rotate_job a exppsi d l) dist almtmp in
         a' <- for_le 0 l
                 (fun m a =>
                    t <- vget almtmp m ;;
                    e <- vget expphi m ;;
                    Alm_put a l m (of_cd (cd_mul t e)))
                 a ;;
         Ok (a', rec', almtmp))
      (a, rec, replicate n1 czero) in
  Ok (a', rec').

(** The phase twist, for [theta == 0]. *)
Definition rotate_phase (a : Alm (Cplx T)) (psi phi : double)
  : res (Alm (Cplx T)) :=
  let lmax_ := Lmax (base a) in
  for_le 0 lmax_
    (fun m a =>
       let ang := polar done_1 (dmul (dneg (dadd psi phi)) (double_of_Z m)) in
       for_le m lmax_
         (fun l a =>
            x <- Alm_get a l m ;;
            Alm_put a l m (cT_mul_assign x ang))
         a)
    a.

(** [rotate_alm]: the result is the rotated store together with the
    Wigner recursion, when one was set up. *)
Definition rotate_alm (g : Distribution) (a : Alm (Cplx T))
    (psi theta phi : double)
  : res (Alm (Cplx T) * option wigner_d_risbo_openmp) :=
  _ <- MR_assert (complete (base a)) "rotate_alm: need complete A_lm set" ;;
  if negb (SFeqb theta dzero) then
    let* (a', rec) := rotate_general g a psi theta phi in
    Ok (a', Some rec)
  else
    a' <- rotate_phase a psi phi ;;
    Ok (a', None).

End Rotate.

(** ** The thread count, the latch and the work queue (threading.cc) *)

(** [max_threads_] and the atomic [default_nthreads_]; [hw] is what
    [std::thread::hardware_concurrency()] returns. *)
Record thread_config : Type := mkConfig {
  max_threads_ : Z;
  default_nthreads_ : Z
}.

Definition thread_config_init (hw : Z) : thread_config :=
  mkConfig (Z.max 1 hw) (Z.max 1 hw).

Definition get_default_nthreads (c : thread_config) : Z := default_nthreads_ c.

Definition set_default_nthreads (new_default_nthreads : Z) (c : thread_config)
  : thread_config :=
  mkConfig (max_threads_ c) (Z.max 1 new_default_nthreads).

Definition max_threads (c : thread_config) : Z := max_threads_ c.

(** [latch]: the atomic counter [num_left_]. *)
Record latch : Type := mkLatch { num_left_ : Z }.

Definition latch_new (n : Z) : latch := mkLatch n.

(** [count_down]: the decremented counter, and whether [notify_all] was
    called. *)
Definition count_down (l : latch) : latch * bool :=
  let n := wrap (num_left_ l - 1) in
  (mkLatch n, n =? 0).

Definition is_ready (l : latch) : bool := num_left_ l =? 0.

(** [concurrent_queue<T>]: the queue [q_], oldest entry first, and the
    atomic [size_]. *)
Record concurrent_queue (T : Type) : Type := mkQueue {
  q_ : list T;
  size_ : Z
}.
Arguments mkQueue {T} q_ size_.
Arguments q_ {T} c.
Arguments size_ {T} c.

Definition push {T : Type} (val : T) (c : concurrent_queue T)
  : concurrent_queue T :=
  mkQueue (q_ c ++ [val]) (wrap (size_ c + 1)).

(** [try_pop]: [Some x] when it returns true having stored [x] in [val],
    [None] when it returns false and leaves [val] alone. *)
Definition try_pop {T : Type} (c : concurrent_queue T)
  : option T * concurrent_queue T :=
  if size_ c =? 0 then (None, c)
  else
    match q_ c with
    | [] => (None, c)
    | x :: q' => (Some x, mkQueue q' (wrap (size_ c - 1)))
    end.

(** ** The build without threads ([DUCC0_NO_THREADING]) *)
Module NoThreading.

Definition get_default_nthreads : Z := 1.
Definition max_threads : Z := 1.

(** [MyScheduler]: its only member is [nwork_]. *)
Record MyScheduler : Type := mkSched { nwork_ : Z }.

Definition num_threads (s : MyScheduler) : Z := 1.
Definition thread_num (s : MyScheduler) : Z := 0.

Definition getNext (s : MyScheduler) : Range * MyScheduler :=
  (mkRange 0 (nwork_ s), mkSched 0).

(** The scheduler each entry point hands to [func]. *)
Definition execSingle (nwork : Z) : MyScheduler := mkSched nwork.
Definition execStatic (nwork nthreads chunksize : Z) : MyScheduler :=
  mkSched nwork.
Definition execDynamic (nwork nthreads chunksize_min : Z) : MyScheduler :=
  mkSched nwork.
Definition execGuided (nwork nthreads chunksize_min : Z) (fact_max : double)
  : MyScheduler :=
  mkSched nwork.
Definition execParallel (nthreads : Z) : MyScheduler := mkSched 1.

(** [n] successive [getNext] calls. *)
Fixpoint calls (n : nat) (s : MyScheduler) : list Range * MyScheduler :=
  match n with
  | O => ([], s)
  | Datatypes.S n' =>
      let '(r, s') := getNext s in
      let '(rs, s'') := calls n' s' in
      (r :: rs, s'')
  end.

End NoThreading.

(** * Properties *)

(** ** Modular arithmetic *)

Ltac zmod :=
  unfold wrap, to_signed, is_size_t, is_ptrdiff_t, SIZE_MAX, SIZE_MOD,
    PTRDIFF_MAX, PTRDIFF_MIN in *;
  Z.to_euclidean_division_equations; lia.

Lemma wrap_small z : 0 <= z < 18446744073709551616 -> wrap z = z.
Proof. intros. unfold wrap. by apply Z.mod_small. Qed.

Lemma wrap_range z : 0 <= wrap z < 18446744073709551616.
Proof. unfold wrap. by apply Z.mod_pos_bound. Qed.

Lemma wrap_wrap z : wrap (wrap z) = wrap z.
Proof. unfold wrap. by rewrite Zmod_mod. Qed.

Lemma wrap_add_l a b : wrap (wrap a + b) = wrap (a + b).
Proof. unfold wrap. by rewrite Zplus_mod_idemp_l. Qed.

Lemma wrap_add_r a b : wrap (a + wrap b) = wrap (a + b).
Proof. unfold wrap. by rewrite Zplus_mod_idemp_r. Qed.

Lemma wrap_sub_l a b : wrap (wrap a - b) = wrap (a - b).
Proof. unfold wrap. by rewrite Zminus_mod_idemp_l. Qed.

Lemma wrap_sub_r a b : wrap (a - wrap b) = wrap (a - b).
Proof. unfold wrap. by rewrite Zminus_mod_idemp_r. Qed.

Lemma wrap_mul_l a b : wrap (wrap a * b) = wrap (a * b).
Proof. unfold wrap. by rewrite Zmult_mod_idemp_l. Qed.

Lemma wrap_mul_r a b : wrap (a * wrap b) = wrap (a * b).
Proof. unfold wrap. by rewrite Zmult_mod_idemp_r. Qed.

Lemma wrap_to_signed z : wrap (to_signed z) = wrap z.
Proof. zmod. Qed.

Lemma to_signed_range z : PTRDIFF_MIN <= to_signed z <= PTRDIFF_MAX.
Proof. zmod. Qed.

Lemma to_signed_small z :
  -9223372036854775808 <= z <= 9223372036854775807 -> to_signed z = z.
Proof. intros. zmod. Qed.

Lemma wrap_signed_add_l a b : wrap (to_signed a + b) = wrap (a + b).
Proof. by rewrite <- wrap_add_l, wrap_to_signed, wrap_add_l. Qed.

Lemma wrap_signed_add_r a b : wrap (a + to_signed b) = wrap (a + b).
Proof. by rewrite <- wrap_add_r, wrap_to_signed, wrap_add_r. Qed.

Lemma wrap_signed_sub_l a b : wrap (to_signed a - b) = wrap (a - b).
Proof. by rewrite <- wrap_sub_l, wrap_to_signed, wrap_sub_l. Qed.

Lemma wrap_signed_sub_r a b : wrap (a - to_signed b) = wrap (a - b).
Proof. by rewrite <- wrap_sub_r, wrap_to_signed, wrap_sub_r. Qed.

Create Rewrite HintDb wrap_simpl.
#[export] Hint Rewrite wrap_wrap wrap_add_l wrap_add_r wrap_sub_l wrap_sub_r
  wrap_mul_l wrap_mul_r wrap_to_signed wrap_signed_add_l wrap_signed_add_r
  wrap_signed_sub_l wrap_signed_sub_r : wrap_simpl.

(** ** Loops *)

Lemma iterM_inv {S : Type} (I : Z -> S -> Prop) (body : Z -> S -> res S) n :
  forall i s,
    I i s ->
    (forall j t, i <= j < i + Z.of_nat n -> I j t ->
       exists t', body j t = Ok t' /\ I (j + 1) t') ->
    exists s', iterM n i body s = Ok s' /\ I (i + Z.of_nat n) s'.
Proof.
  induction n as [|n IH]; intros i s Hi Hstep.
  - exists s. simpl. by rewrite Z.add_0_r.
  - destruct (Hstep i s) as (t & Hb & Ht); [lia | done |].
    destruct (IH (i + 1) t) as (s' & Hs & HI'); [done | |].
    + intros j u Hj Hu. apply Hstep; [lia | done].
    + exists s'. simpl. rewrite Hb. simpl. split; [done |].
      by replace (i + Z.of_nat (Datatypes.S n)) with (i + 1 + Z.of_nat n) by lia.
Qed.

Lemma iterM_app {S : Type} (body : Z -> S -> res S) n1 n2 i s :
  iterM (n1 + n2) i body s =
  (s' <- iterM n1 i body s ;; iterM n2 (i + Z.of_nat n1) body s').
Proof.
  revert i s. induction n1 as [|n1 IH]; intros i s.
  - simpl. by rewrite Z.add_0_r.
  - simpl. destruct (body i s) as [t|f]; simpl; [|done].
    rewrite IH. by replace (i + 1 + Z.of_nat n1) with (i + Z.of_nat (Datatypes.S n1)) by lia.
Qed.

Lemma vget_ok {A} (v : list A) i a :
  0 <= i -> v !! Z.to_nat i = Some a -> vget v i = Ok a.
Proof.
  intros Hi Hl. unfold vget. destruct (Z.leb_spec 0 i); [|lia]. by rewrite Hl.
Qed.

Lemma vset_ok {A} (v : list A) i a :
  0 <= i < Z.of_nat (length v) -> vset v i a = Ok (<[Z.to_nat i := a]> v).
Proof.
  intros Hi. unfold vset.
  destruct (Z.leb_spec 0 i); [|lia]. destruct (Z.ltb_spec i (Z.of_nat (length v))); [done|lia].
Qed.

(** ** The dense layout *)

(** Number of coefficients in the columns before column [m]:
    the sum over [k < m] of [L - k + 1]. *)
Definition col_start (L m : Z) : Z := m * (L + 1) - (m * (m - 1)) / 2.

(** The mathematical number of coefficients for [(L, M)]. *)
Definition num_alms_exact (L M : Z) : Z :=
  ((M + 1) * (M + 2)) / 2 + (M + 1) * (L - M).

Lemma consecutive_even m : 2 * ((m * (m - 1)) / 2) = m * (m - 1).
Proof.
  assert (H : (m * (m - 1)) mod 2 = 0).
  { rewrite Z.mul_mod by lia.
    assert (Hm : m mod 2 = 0 \/ m mod 2 = 1) by (Z.to_euclidean_division_equations; lia).
    destruct Hm as [Hm|Hm].
    - rewrite Hm. reflexivity.
    - assert (Hm' : (m - 1) mod 2 = 0) by (Z.to_euclidean_division_equations; lia).
      rewrite Hm'. rewrite Z.mul_0_r. reflexivity. }
  pose proof (Z.div_mod (m * (m - 1)) 2 ltac:(lia)). lia.
Qed.

Lemma col_start_double L m : 2 * col_start L m = 2 * m * (L + 1) - m * (m - 1).
Proof. unfold col_start. pose proof (consecutive_even m). lia. Qed.

Lemma col_start_0 L : col_start L 0 = 0.
Proof. reflexivity. Qed.

Lemma col_start_succ L m : col_start L (m + 1) = col_start L m + (L - m + 1).
Proof.
  pose proof (col_start_double L m). pose proof (col_start_double L (m + 1)). nia.
Qed.

Lemma col_start_mono L m m' :
  0 <= m <= m' -> m' <= L + 1 -> col_start L m <= col_start L m'.
Proof.
  intros. pose proof (col_start_double L m). pose proof (col_start_double L m'). nia.
Qed.

Lemma num_alms_exact_col_start L M : num_alms_exact L M = col_start L (M + 1).
Proof.
  unfold num_alms_exact. pose proof (col_start_double L (M + 1)).
  pose proof (consecutive_even (M + 2)).
  replace ((M + 2) * (M + 2 - 1)) with ((M + 1) * (M + 2)) in * by lia. nia.
Qed.

Lemma col_start_nonneg L m : 0 <= m <= L + 1 -> 0 <= col_start L m.
Proof. intros. rewrite <- (col_start_0 L). apply col_start_mono; lia. Qed.

(** The state of the constructor's loop when it is about to run round [m]. *)
Definition dense_inv (L : Z) (n : nat) (m : Z) (st : list Z * list Z * Z) : Prop :=
  let '(mv, ms, idx) := st in
  length mv = n /\ length ms = n /\
  idx = to_signed (wrap (col_start L m)) /\
  forall k, 0 <= k < m ->
    mv !! Z.to_nat k = Some k /\
    ms !! Z.to_nat k = Some (to_signed (wrap (col_start L k - k))).

Lemma dense_step_inv L n m st :
  0 <= m < Z.of_nat n -> dense_inv L n m st ->
  exists st', dense_step L m st = Ok st' /\ dense_inv L n (m + 1) st'.
Proof.
  intros Hm. destruct st as [[mv ms] idx]. intros (Hlv & Hls & Hidx & Hcols).
  unfold dense_step. rewrite vset_ok by lia. simpl. rewrite vset_ok by lia. simpl.
  eexists. split; [reflexivity|]. unfold dense_inv.
  rewrite !length_insert. split; [done|]. split; [done|]. split.
  - rewrite Hidx. autorewrite with wrap_simpl. f_equal. f_equal.
    rewrite col_start_succ. lia.
  - intros k Hk. destruct (decide (k = m)) as [->|Hne].
    + rewrite !list_lookup_insert_eq by lia. rewrite Hidx.
      by autorewrite with wrap_simpl.
    + rewrite !list_lookup_insert_ne by lia. apply Hcols. lia.
Qed.

Lemma Num_Alms_exact L M :
  0 <= M <= L -> (M + 1) * (M + 2) < SIZE_MOD -> num_alms_exact L M < SIZE_MOD ->
  Num_Alms L M = Ok (num_alms_exact L M).
Proof.
  unfold SIZE_MOD. intros HM Hp Hn. unfold Num_Alms, MR_assert.
  destruct (Z.leb_spec M L); [|lia]. simpl. f_equal.
  unfold num_alms_exact in *.
  assert (0 <= (M + 1) * (M + 2) / 2) by (apply Z.div_pos; nia).
  assert (0 <= (M + 1) * (L - M)) by nia.
  rewrite (wrap_small (M + 1)) by nia. rewrite (wrap_small (M + 2)) by nia.
  rewrite (wrap_small (L - M)) by nia.
  rewrite (wrap_small ((M + 1) * (M + 2))) by nia.
  rewrite (wrap_small ((M + 1) * (L - M))) by nia.
  apply wrap_small. lia.
Qed.

Lemma dense_loop L M :
  0 <= M < SIZE_MAX ->
  exists ms idx,
    for_le 0 M (dense_step L)
      (replicate (Z.to_nat (wrap (M + 1))) 0,
       replicate (Z.to_nat (wrap (M + 1))) 0, 0)
    = Ok (seqZ 0 (M + 1), ms, idx) /\
    length ms = Z.to_nat (M + 1) /\
    forall m, 0 <= m <= M ->
      ms !! Z.to_nat m = Some (to_signed (wrap (col_start L m - m))).
Proof.
  unfold SIZE_MAX. intros HM. unfold for_le.
  rewrite (wrap_small (M + 1)) by lia.
  set (n := Z.to_nat (M + 1)).
  destruct (iterM_inv (dense_inv L n) (dense_step L) (Z.to_nat (M + 1 - 0)) 0
              (replicate n 0, replicate n 0, 0)) as (st & Hrun & Hinv).
  - unfold dense_inv. rewrite !length_replicate. split; [done|]. split; [done|].
    split; [by rewrite col_start_0 | intros; lia].
  - intros j t Hj Ht. apply dense_step_inv; [lia | done].
  - rewrite Hrun. cbn [bind].
    destruct (Z.eqb_spec M SIZE_MAX) as [HMx|_]; [unfold SIZE_MAX in *; lia|].
    destruct st as [[mv ms] idx]. destruct Hinv as (Hlv & Hls & _ & Hcols).
    exists ms, idx. split; [|split; [done|]].
    + do 3 f_equal. apply list_eq. intros i.
      destruct (decide (i < n)%nat) as [Hi|Hi].
      * rewrite lookup_seqZ_lt by lia.
        destruct (Hcols (Z.of_nat i)) as [Hk _]; [lia|].
        rewrite Nat2Z.id in Hk. by rewrite Hk.
      * rewrite lookup_seqZ_ge by lia. apply lookup_ge_None. lia.
    + intros m Hm. apply Hcols. lia.
Qed.

(** The constructor succeeds whenever [Num_Alms] does and [mmax + 1] is a
    [size_t]. *)
Lemma Alm_Base_dense_run L M :
  0 <= M < SIZE_MAX ->
  exists ms,
    Alm_Base_dense L M
    = (asz <- Num_Alms L M ;; Ok (mkAlmBase L asz (seqZ 0 (M + 1)) ms)) /\
    length ms = Z.to_nat (M + 1) /\
    forall m, 0 <= m <= M ->
      ms !! Z.to_nat m = Some (to_signed (wrap (col_start L m - m))).
Proof.
  intros HM. destruct (dense_loop L M HM) as (ms & idx & E & Hlen & Hms).
  exists ms. split; [|done]. unfold Alm_Base_dense. cbv zeta. rewrite E. done.
Qed.

Lemma Alm_Base_dense_layout L M :
  0 <= M <= L -> (M + 1) * (M + 2) < SIZE_MOD -> num_alms_exact L M < SIZE_MOD ->
  exists b,
    Alm_Base_dense L M = Ok b /\
    lmax b = L /\ arrsize b = num_alms_exact L M /\
    mval b = seqZ 0 (M + 1) /\
    length (mstart b) = Z.to_nat (M + 1) /\
    forall m, 0 <= m <= M ->
      mstart b !! Z.to_nat m = Some (to_signed (wrap (col_start L m - m))).
Proof.
  intros HM Hp Hn.
  assert (HM1 : 0 <= M < SIZE_MAX) by (unfold SIZE_MOD, SIZE_MAX in *; nia).
  destruct (Alm_Base_dense_run L M HM1) as (ms & E & Hlen & Hms).
  rewrite Num_Alms_exact in E by done. eexists. split; [exact E|]. done.
Qed.

Lemma Num_Alms_exact_inv L M :
  0 <= M <= L -> Num_Alms L M = Ok (num_alms_exact L M) ->
  (M + 1) * (M + 2) < SIZE_MOD /\ num_alms_exact L M < SIZE_MOD.
Proof.
  intros HM. unfold Num_Alms, MR_assert. destruct (Z.leb_spec M L); [|lia].
  cbn [bind]. intros [= E]. revert E. unfold num_alms_exact.
  autorewrite with wrap_simpl.
  assert (HP : 0 <= (M + 1) * (M + 2)) by nia.
  assert (HQ : 0 <= (M + 1) * (L - M)) by nia.
  generalize dependent ((M + 1) * (M + 2)). intros P.
  generalize dependent ((M + 1) * (L - M)). intros Q.
  unfold SIZE_MOD. intros. zmod.
Qed.

(** The property of the dense layout for [(L, M)]: [Num_Alms] returns the
    number of coefficients, and the constructor's [index] sends the pairs
    [(l, m)] with [0 <= m <= M], [m <= l <= L] to distinct slots below it. *)
Definition dense_layout_ok (L M : Z) : Prop :=
  Num_Alms L M = Ok (num_alms_exact L M) /\
  exists b,
    Alm_Base_dense L M = Ok b /\
    (forall l m, 0 <= m <= M -> m <= l <= L ->
       exists s i, mstart b !! Z.to_nat m = Some s /\
                   index b l m = Ok i /\ i = wrap (s + l) /\
                   0 <= i < num_alms_exact L M) /\
    (forall l m l' m' i,
       0 <= m <= M -> m <= l <= L -> 0 <= m' <= M -> m' <= l' <= L ->
       index b l m = Ok i -> index b l' m' = Ok i -> l = l' /\ m = m').

Lemma dense_slot_bounds L M l m :
  0 <= m <= M -> M <= L -> m <= l <= L ->
  col_start L m <= col_start L m - m + l < col_start L (m + 1) /\
  col_start L (m + 1) <= num_alms_exact L M.
Proof.
  intros. rewrite num_alms_exact_col_start. split.
  - rewrite col_start_succ. lia.
  - apply col_start_mono; lia.
Qed.

Lemma dense_index L M b l m :
  0 <= M <= L -> num_alms_exact L M < SIZE_MOD ->
  mstart b !! Z.to_nat m = Some (to_signed (wrap (col_start L m - m))) ->
  0 <= m <= M -> m <= l <= L ->
  index b l m = Ok (col_start L m - m + l).
Proof.
  intros HM Hn Hs Hm Hl. unfold index, index_l0.
  rewrite (vget_ok (mstart b) m _ (proj1 Hm) Hs). simpl. f_equal.
  autorewrite with wrap_simpl.
  destruct (dense_slot_bounds L M l m) as [? ?]; [lia..|].
  assert (0 <= col_start L m) by (apply col_start_nonneg; lia).
  apply wrap_small. unfold SIZE_MOD in *. lia.
Qed.

Lemma dense_layout_holds L M :
  0 <= M <= L -> (M + 1) * (M + 2) < SIZE_MOD -> num_alms_exact L M < SIZE_MOD ->
  dense_layout_ok L M.
Proof.
  intros HM Hp Hn. split; [by apply Num_Alms_exact|].
  destruct (Alm_Base_dense_layout L M HM Hp Hn) as (b & Hb & _ & _ & _ & _ & Hms).
  exists b. split; [done|]. split.
  - intros l m Hm Hl. eexists _, _. split; [by apply Hms|].
    split; [apply (dense_index L M); auto|].
    destruct (dense_slot_bounds L M l m) as [? ?]; [lia..|].
    assert (0 <= col_start L m) by (apply col_start_nonneg; lia).
    split; [|lia].
    autorewrite with wrap_simpl. symmetry. apply wrap_small.
    unfold SIZE_MOD in *. lia.
  - intros l m l' m' i Hm Hl Hm' Hl' Hi Hi'.
    rewrite (dense_index L M b l m) in Hi by auto.
    rewrite (dense_index L M b l' m') in Hi' by auto.
    destruct (dense_slot_bounds L M l m) as [? _]; [lia..|].
    destruct (dense_slot_bounds L M l' m') as [? _]; [lia..|].
    assert (m = m') as <-.
    { destruct (Z.lt_trichotomy m m') as [Hlt|[Heq|Hgt]]; [|done|].
      - assert (col_start L (m + 1) <= col_start L m') by (apply col_start_mono; lia).
        simplify_eq. lia.
      - assert (col_start L (m' + 1) <= col_start L m) by (apply col_start_mono; lia).
        simplify_eq. lia. }
    simplify_eq. split; [lia|done].
Qed.

(** ** Conversion of a positive [size_t] to [double] is finite *)

Lemma digits2_pos_size p : digits2_pos p = Pos.size p.
Proof. induction p; simpl; congruence. Qed.

Lemma digits2_pos_bound p :
  Zpos p < 18446744073709551616 -> Zpos (digits2_pos p) <= 64.
Proof.
  intros Hp. rewrite digits2_pos_size.
  pose proof (Pos.size_le p) as Hle.
  destruct (Z.le_gt_cases (Zpos (Pos.size p)) 64) as [|Hgt]; [done|exfalso].
  apply Pos2Z.pos_le_pos in Hle. rewrite Pos2Z.inj_pow in Hle.
  assert (H65 : 2 ^ 65 <= 2 ^ Zpos (Pos.size p)) by (apply Z.pow_le_mono_r; lia).
  change (2 ^ 65) with 36893488147419103232 in H65. lia.
Qed.

Lemma shr_1_digits q r s :
  1 < Zpos (digits2_pos q) ->
  exists q' r' s',
    shr_1 (Build_shr_record (Zpos q) r s) = Build_shr_record (Zpos q') r' s' /\
    Zpos (digits2_pos q) = Zpos (digits2_pos q') + 1.
Proof.
  intros Hq. destruct q as [q|q|]; simpl in *; [| |lia];
    (eexists _, _, _; split; [reflexivity|lia]).
Qed.

Lemma iter_shr_1_digits k :
  forall q r s,
    Zpos k < Zpos (digits2_pos q) ->
    exists q' r' s',
      SpecFloat.iter_pos shr_1 k (Build_shr_record (Zpos q) r s)
      = Build_shr_record (Zpos q') r' s' /\
      Zpos (digits2_pos q) = Zpos (digits2_pos q') + Zpos k.
Proof.
  induction k as [k IH|k IH|]; intros q r s Hk; cbn [SpecFloat.iter_pos].
  - destruct (shr_1_digits q r s) as (q1 & r1 & s1 & E1 & D1); [lia|].
    rewrite E1.
    destruct (IH q1 r1 s1) as (q2 & r2 & s2 & E2 & D2); [lia|]. rewrite E2.
    destruct (IH q2 r2 s2) as (q3 & r3 & s3 & E3 & D3); [lia|]. rewrite E3.
    eexists _, _, _. split; [reflexivity|lia].
  - destruct (IH q r s) as (q2 & r2 & s2 & E2 & D2); [lia|]. rewrite E2.
    destruct (IH q2 r2 s2) as (q3 & r3 & s3 & E3 & D3); [lia|]. rewrite E3.
    eexists _, _, _. split; [reflexivity|lia].
  - destruct (shr_1_digits q r s) as (q1 & r1 & s1 & E1 & D1); [lia|].
    rewrite E1. eexists _, _, _. split; [reflexivity|lia].
Qed.

Lemma digits2_pos_iter_xO k p :
  Zpos (digits2_pos (Pos.iter xO p k)) = Zpos (digits2_pos p) + Zpos k.
Proof.
  revert p. induction k as [|k IH] using Pos.peano_ind; intros p.
  - simpl. lia.
  - rewrite Pos.iter_succ. simpl. rewrite Pos2Z.inj_succ, IH. lia.
Qed.

Lemma digits2_pos_succ q :
  Zpos (digits2_pos q) <= Zpos (digits2_pos (Pos.succ q)) <= Zpos (digits2_pos q) + 1.
Proof. induction q; simpl; lia. Qed.

Lemma shr_digits q r s e n :
  0 <= n < Zpos (digits2_pos q) ->
  exists q' r' s',
    shr (Build_shr_record (Zpos q) r s) e n
    = (Build_shr_record (Zpos q') r' s', e + n) /\
    Zpos (digits2_pos q) = Zpos (digits2_pos q') + n.
Proof.
  intros Hn. destruct n as [|k|k]; [| |lia].
  - exists q, r, s. split; [|lia]. unfold shr. f_equal. lia.
  - destruct (iter_shr_1_digits k q r s) as (q' & r' & s' & E & D); [lia|].
    exists q', r', s'. split; [|done]. unfold shr. by rewrite E.
Qed.

Lemma shr_fexp_digits q ex l :
  53 <= Zpos (digits2_pos q) -> -1021 <= Zpos (digits2_pos q) + ex ->
  exists q' r' s',
    shr_fexp 53 1024 (Zpos q) ex l
    = (Build_shr_record (Zpos q') r' s', ex + (Zpos (digits2_pos q) - 53)) /\
    Zpos (digits2_pos q') = 53.
Proof.
  intros HD He. unfold shr_fexp.
  assert (Hn : fexp 53 1024 (Zdigits2 (Zpos q) + ex) - ex
               = Zpos (digits2_pos q) - 53).
  { unfold fexp, emin. simpl Zdigits2. lia. }
  rewrite Hn.
  assert (Hrec : exists r s, shr_record_of_loc (Zpos q) l
                             = Build_shr_record (Zpos q) r s).
  { destruct l as [|[]]; simpl; eauto. }
  destruct Hrec as (r & s & ->).
  destruct (shr_digits q r s ex (Zpos (digits2_pos q) - 53))
    as (q' & r' & s' & E & D); [lia|].
  exists q', r', s'. split; [done|lia].
Qed.

Lemma binary_round_aux_finite sx q ex l :
  53 <= Zpos (digits2_pos q) -> -1021 <= Zpos (digits2_pos q) + ex ->
  Zpos (digits2_pos q) + ex <= 1000 ->
  exists m e, binary_round_aux 53 1024 sx (Zpos q) ex l = S754_finite sx m e.
Proof.
  intros HD Hlo Hhi. unfold binary_round_aux.
  destruct (shr_fexp_digits q ex l HD Hlo) as (q1 & r1 & s1 & -> & D1).
  cbn [shr_m].
  assert (Hrnd : exists q2,
            round_nearest_even (Zpos q1)
              (loc_of_shr_record (Build_shr_record (Zpos q1) r1 s1)) = Zpos q2 /\
            53 <= Zpos (digits2_pos q2) <= 54).
  { pose proof (digits2_pos_succ q1) as Hs.
    assert (Hq1 : Zpos q1 + 1 = Zpos (Pos.succ q1)) by lia.
    unfold round_nearest_even, loc_of_shr_record.
    destruct r1, s1; try destruct (Z.even (Zpos q1));
      rewrite ?Hq1; eexists; (split; [reflexivity|lia]). }
  destruct Hrnd as (q2 & -> & D2).
  destruct (shr_fexp_digits q2 (ex + (Zpos (digits2_pos q) - 53)) loc_Exact)
    as (q3 & r3 & s3 & -> & D3); [lia | lia |].
  cbn [shr_m].
  destruct (Z.leb_spec (ex + (Zpos (digits2_pos q) - 53)
                        + (Zpos (digits2_pos q2) - 53)) (1024 - 53)); [|lia].
  eauto.
Qed.

Lemma double_of_Z_finite n :
  0 < n < SIZE_MOD -> exists m e, double_of_Z n = S754_finite false m e.
Proof.
  unfold SIZE_MOD. intros Hn. destruct n as [|p|p]; [lia| |lia].
  unfold double_of_Z, binary_normalize, binary_round.
  pose proof (digits2_pos_bound p ltac:(lia)) as Hd.
  assert (H1 : 1 <= Zpos (digits2_pos p)) by lia.
  assert (Hf : fexp 53 1024 (Zpos (digits2_pos p) + 0) = Zpos (digits2_pos p) - 53).
  { unfold fexp, emin. lia. }
  rewrite Hf. unfold shl_align.
  destruct (Zpos (digits2_pos p) - 53 - 0) as [|k|k] eqn:Hk.
  - apply binary_round_aux_finite; lia.
  - apply binary_round_aux_finite; lia.
  - pose proof (digits2_pos_iter_xO k p) as Hi.
    apply binary_round_aux_finite; lia.
Qed.

(** With [fact_max] zero the guided estimate is zero: the products and
    quotients of a zero with finite non-zero doubles are zeros. *)
Lemma guided_estimate_zero sz rem n :
  0 < rem < SIZE_MOD -> 0 < n < SIZE_MOD ->
  guided_estimate (S754_zero sz) rem n = Ok 0.
Proof.
  intros Hr Hn. unfold guided_estimate.
  destruct (double_of_Z_finite rem Hr) as (m1 & e1 & ->).
  destruct (double_of_Z_finite n Hn) as (m2 & e2 & ->).
  reflexivity.
Qed.

(** ** SINGLE scheduling *)

Lemma calls_single_done sched d :
  mode d = SINGLE -> single_done d = true ->
  calls sched d = Ok (replicate (length sched) Range0, d).
Proof.
  intros Hm Hd. induction sched as [|t sched IH]; [done|].
  simpl. unfold getNext. rewrite Hm, Hd. simpl. by rewrite IH.
Qed.

Lemma calls_single t sched d :
  mode d = SINGLE -> single_done d = false ->
  calls (t :: sched) d
  = Ok (mkRange 0 (nwork_ d) :: replicate (length sched) Range0,
        set_single_done true d).
Proof.
  intros Hm Hd. simpl. unfold getNext. rewrite Hm, Hd. simpl.
  by rewrite calls_single_done.
Qed.

(** The claim as it is worded: whatever [nwork] is, the first range is
    [0, nwork), it is non-empty, and every later range is empty. *)
Definition single_claim (nwork : Z) : Prop :=
  forall g t sched, exists d d' rs,
    run_execSingle g nwork = Ok d /\
    calls (t :: sched) d = Ok (mkRange 0 nwork :: rs, d') /\
    nonempty (mkRange 0 nwork) = true /\
    Forall (fun r => nonempty r = false) rs.

(** ** STATIC scheduling *)

(** The number of workers and the chunk size the scheduler works with. *)
Definition eff_threads (dflt nthreads : Z) : Z :=
  if nthreads =? 0 then dflt else nthreads.
Definition eff_chunk (nwork n chunksize : Z) : Z :=
  if chunksize <? 1 then (nwork + n - 1) / n else chunksize.

(** The [k]-th range of worker [t] (counting from 0): the stripe
    [(t + k*n)*C, (t + k*n + 1)*C) clamped to [nwork], or the empty range
    once the stripe starts at or beyond [nwork]. *)
Definition static_range (nwork n C t k : Z) : Range :=
  let start := (t + k * n) * C in
  if nwork <=? start then Range0 else mkRange start (Z.min (start + C) nwork).

Definition in_range (x : Z) (r : Range) : Prop := lo r <= x < hi r.

(** How many of the first [i] calls of a schedule worker [t] made. *)
Definition calls_before (t : Z) (i : nat) (sched : list Z) : Z :=
  Z.of_nat (length (filter (fun u => u = t) (take i sched))).

(** STATIC scheduling as the claim words it. *)
Definition static_ok (dflt nwork nthreads chunksize : Z) : Prop :=
  let n := eff_threads dflt nthreads in
  let C := eff_chunk nwork n chunksize in
  forall g,
    if nwork <=? C then
      exists d, run_execStatic dflt g nwork nthreads chunksize = Ok d /\
                mode d = SINGLE /\ nwork_ d = nwork /\ single_done d = false
    else
      exists d,
        run_execStatic dflt g nwork nthreads chunksize = Ok d /\
        mode d = STATIC /\ thread_ids d = seqZ 0 n /\
        (forall sched, Forall (fun t => 0 <= t < n) sched ->
           exists rs d',
             calls sched d = Ok (rs, d') /\ length rs = length sched /\
             forall i t, sched !! i = Some t ->
               rs !! i = Some (static_range nwork n C t (calls_before t i sched))) /\
        (forall t k k', 0 <= t < n -> 0 <= k < k' ->
           nonempty (static_range nwork n C t k') = true ->
           nonempty (static_range nwork n C t k) = true /\
           hi (static_range nwork n C t k) <= lo (static_range nwork n C t k')) /\
        (forall x, 0 <= x < nwork ->
           exists t k, 0 <= t < n /\ 0 <= k /\
             in_range x (static_range nwork n C t k) /\
             forall t' k', 0 <= t' < n -> 0 <= k' ->
               in_range x (static_range nwork n C t' k') -> t' = t /\ k' = k) /\
        (forall t k x, 0 <= t < n -> 0 <= k ->
           in_range x (static_range nwork n C t k) -> 0 <= x < nwork).

(** The [size_t] computations of the STATIC set-up and of its [getNext]
    stay below 2^64. *)
Definition static_fits (nwork n chunksize : Z) : Prop :=
  (chunksize = 0 -> nwork + n - 1 <= SIZE_MAX) /\
  (eff_chunk nwork n chunksize < nwork ->
   nwork + n * eff_chunk nwork n chunksize <= SIZE_MAX).

(** Where worker [t] stands after [c] calls. *)
Fixpoint static_pos (nwork n C t : Z) (c : nat) : Z :=
  match c with
  | O => t * C
  | Datatypes.S c' =>
      let p := static_pos nwork n C t c' in
      if nwork <=? p then p else p + n * C
  end.

Lemma static_pos_spec nwork n C t c :
  0 <= n -> 0 <= C ->
  static_pos nwork n C t c = (t + Z.of_nat c * n) * C \/
  nwork <= static_pos nwork n C t c <= (t + Z.of_nat c * n) * C.
Proof.
  intros Hn HC. induction c as [|c IH]; [left; simpl; lia|].
  cbn [static_pos]. destruct (Z.leb_spec nwork (static_pos nwork n C t c)) as [Hge|Hlt].
  - right. destruct IH as [IH|IH]; nia.
  - left. destruct IH as [IH|IH]; nia.
Qed.

Lemma static_pos_range nwork n C t c :
  0 <= n -> 0 <= C ->
  static_range nwork n C t (Z.of_nat c) =
  let p := static_pos nwork n C t c in
  if nwork <=? p then Range0 else mkRange p (Z.min (p + C) nwork).
Proof.
  intros Hn HC. unfold static_range. cbv zeta.
  destruct (static_pos_spec nwork n C t c Hn HC) as [->|[H1 H2]]; [done|].
  destruct (Z.leb_spec nwork (static_pos nwork n C t c)); [|lia].
  destruct (Z.leb_spec nwork ((t + Z.of_nat c * n) * C)); [done|lia].
Qed.

Lemma static_pos_bound nwork n C t c :
  0 <= n -> 0 <= C -> 0 <= t -> t * C < nwork + n * C ->
  0 <= static_pos nwork n C t c < nwork + n * C.
Proof.
  intros Hn HC Ht H0. induction c as [|c IH]; [simpl; nia|].
  cbn [static_pos]. destruct (Z.leb_spec nwork (static_pos nwork n C t c)); nia.
Qed.

Definition static_inv (nwork n C : Z) (cnt : Z -> nat) (d : Distribution) : Prop :=
  mode d = STATIC /\ nwork_ d = nwork /\ nthreads_ d = n /\ chunksize_ d = C /\
  length (nextstart d) = Z.to_nat n /\
  forall t, 0 <= t < n ->
    nextstart d !! Z.to_nat t = Some (static_pos nwork n C t (cnt t)).

Definition bump (cnt : Z -> nat) (t : Z) : Z -> nat :=
  fun u => if decide (u = t) then Datatypes.S (cnt u) else cnt u.

Lemma getNext_static nwork n C cnt d t :
  1 <= n -> 1 <= C -> 0 <= nwork -> nwork + n * C <= SIZE_MAX ->
  static_inv nwork n C cnt d -> 0 <= t < n ->
  exists d',
    getNext t d = Ok (static_range nwork n C t (Z.of_nat (cnt t)), d') /\
    static_inv nwork n C (bump cnt t) d'.
Proof.
  unfold SIZE_MAX. intros Hn HC Hw Hfit (Hm & Hnw & Hnt & Hcs & Hlen & Hpos) Ht.
  unfold getNext. rewrite Hm.
  rewrite (vget_ok _ t _ (proj1 Ht) (Hpos t Ht)). cbn [bind].
  rewrite static_pos_range by lia. cbv zeta. rewrite Hnw, Hnt, Hcs.
  pose proof (static_pos_bound nwork n C t (cnt t)) as Hb.
  destruct (Z.leb_spec nwork (static_pos nwork n C t (cnt t))) as [Hge|Hlt].
  - eexists. split; [reflexivity|].
    repeat (split; [done|]). intros u Hu. rewrite (Hpos u Hu). f_equal.
    unfold bump. destruct (decide (u = t)) as [->|]; [|done].
    cbn [static_pos]. destruct (Z.leb_spec nwork (static_pos nwork n C t (cnt t))); [done|lia].
  - rewrite vset_ok by lia. cbn [bind].
    assert (Hp : 0 <= static_pos nwork n C t (cnt t)) by (apply Hb; nia).
    rewrite (wrap_small (n * C)) by nia.
    rewrite (wrap_small (static_pos nwork n C t (cnt t) + C)) by nia.
    rewrite (wrap_small (static_pos nwork n C t (cnt t) + n * C)) by nia.
    eexists. split; [reflexivity|].
    unfold static_inv. cbn. rewrite length_insert.
    repeat (split; [done|]). intros u Hu. unfold bump.
    destruct (decide (u = t)) as [->|Hne].
    + rewrite list_lookup_insert_eq by lia. cbn [static_pos].
      destruct (Z.leb_spec nwork (static_pos nwork n C t (cnt t))); [lia|done].
    + rewrite list_lookup_insert_ne by lia. by apply Hpos.
Qed.

Lemma calls_before_0 t sched : calls_before t 0 sched = 0.
Proof. unfold calls_before. by rewrite take_0. Qed.

Lemma calls_before_cons t u i sched :
  calls_before t (Datatypes.S i) (u :: sched)
  = (if decide (u = t) then 1 else 0) + calls_before t i sched.
Proof.
  unfold calls_before. cbn [take]. destruct (decide (u = t)) as [->|Hne].
  - rewrite filter_cons_True by done. cbn [length]. lia.
  - rewrite filter_cons_False by done. lia.
Qed.

Lemma calls_static nwork n C sched :
  1 <= n -> 1 <= C -> 0 <= nwork -> nwork + n * C <= SIZE_MAX ->
  forall cnt d,
    static_inv nwork n C cnt d -> Forall (fun t => 0 <= t < n) sched ->
    exists rs d',
      calls sched d = Ok (rs, d') /\ length rs = length sched /\
      forall i t, sched !! i = Some t ->
        rs !! i = Some (static_range nwork n C t
                          (Z.of_nat (cnt t) + calls_before t i sched)).
Proof.
  intros Hn HC Hw Hfit. induction sched as [|u sched IH]; intros cnt d Hinv Hall.
  - exists [], d. split; [done|]. split; [done|].
    intros i t Hi. by rewrite lookup_nil in Hi.
  - apply Forall_cons_1 in Hall as [Hu Hall].
    destruct (getNext_static nwork n C cnt d u Hn HC Hw Hfit Hinv Hu) as (d1 & E1 & Hinv1).
    destruct (IH (bump cnt u) d1 Hinv1 Hall) as (rs & d2 & E2 & Hlen & Hrs).
    exists (static_range nwork n C u (Z.of_nat (cnt u)) :: rs), d2.
    split; [|split].
    + cbn [calls]. rewrite E1. cbn. rewrite E2. done.
    + cbn. by rewrite Hlen.
    + intros [|i] t Hi.
      * cbn in Hi. simplify_eq. rewrite calls_before_0.
        rewrite lookup_cons. do 2 f_equal. lia.
      * cbn in Hi. rewrite lookup_cons. rewrite (Hrs i t Hi). do 2 f_equal.
        rewrite calls_before_cons. unfold bump.
        destruct (decide (t = u)) as [->|Hne].
        -- destruct (decide (u = u)); [lia|done].
        -- destruct (decide (u = t)); [congruence|lia].
Qed.

Lemma static_range_inside nwork n C t k x :
  1 <= n -> 1 <= C -> 0 <= t -> 0 <= k ->
  in_range x (static_range nwork n C t k) ->
  (t + k * n) * C <= x < (t + k * n) * C + C /\ 0 <= x < nwork.
Proof.
  intros Hn HC Ht Hk. unfold in_range, static_range. cbv zeta.
  destruct (Z.leb_spec nwork ((t + k * n) * C)); cbn [lo hi Range0]; [lia|].
  intros Hx. nia.
Qed.

Lemma static_range_cover nwork n C x :
  1 <= n -> 1 <= C -> 0 <= x < nwork ->
  0 <= (x / C) mod n < n /\ 0 <= (x / C) / n /\
  in_range x (static_range nwork n C ((x / C) mod n) ((x / C) / n)).
Proof.
  intros Hn HC Hx.
  assert (Hj : 0 <= x / C) by (apply Z.div_pos; lia).
  split; [apply Z.mod_pos_bound; lia|]. split; [apply Z.div_pos; lia|].
  unfold in_range, static_range. cbv zeta.
  replace ((x / C) mod n + (x / C) / n * n) with (x / C)
    by (rewrite (Z.div_mod (x / C) n) at 1 by lia; lia).
  pose proof (Z.div_mod x C ltac:(lia)) as Hd.
  pose proof (Z.mod_pos_bound x C ltac:(lia)) as Hm.
  destruct (Z.leb_spec nwork (x / C * C)); cbn [lo hi]; nia.
Qed.

Lemma static_range_unique nwork n C t k x :
  1 <= n -> 1 <= C -> 0 <= t < n -> 0 <= k ->
  in_range x (static_range nwork n C t k) ->
  t = (x / C) mod n /\ k = (x / C) / n.
Proof.
  intros Hn HC Ht Hk Hin.
  destruct (static_range_inside nwork n C t k x Hn HC (proj1 Ht) Hk Hin) as [Hs _].
  assert (Hj : x / C = t + k * n).
  { symmetry. apply (Z.div_unique x C (t + k * n) (x - (t + k * n) * C)); lia. }
  rewrite Hj. split.
  - symmetry. rewrite Z.mod_add by lia. apply Z.mod_small. lia.
  - symmetry. rewrite Z.div_add by lia.
    rewrite (Z.div_small t n) by lia. lia.
Qed.

Lemma static_range_ascending nwork n C t k k' :
  1 <= n -> 1 <= C -> 0 <= t -> 0 <= k < k' ->
  nonempty (static_range nwork n C t k') = true ->
  nonempty (static_range nwork n C t k) = true /\
  hi (static_range nwork n C t k) <= lo (static_range nwork n C t k').
Proof.
  intros Hn HC Ht Hk. unfold nonempty, static_range. cbv zeta.
  assert (Hmono : (t + k * n) * C + C <= (t + k' * n) * C).
  { assert (k * n + 1 <= k' * n) by nia. nia. }
  destruct (Z.leb_spec nwork ((t + k' * n) * C)); cbn [lo hi Range0]; [done|].
  intros _. destruct (Z.leb_spec nwork ((t + k * n) * C)); cbn [lo hi Range0]; [lia|].
  split; [apply Z.ltb_lt; lia|lia].
Qed.

Lemma static_table n C l :
  0 <= n -> 0 <= C -> n * C <= SIZE_MAX ->
  exists ns,
    for_lt 0 (vsize (resize (Z.to_nat n) 0 l))
      (fun i ns => vset ns i (wrap (i * C))) (resize (Z.to_nat n) 0 l) = Ok ns /\
    length ns = Z.to_nat n /\
    forall t, 0 <= t < n -> ns !! Z.to_nat t = Some (t * C).
Proof.
  unfold SIZE_MAX. intros Hn HC Hfit. unfold for_lt, vsize. rewrite length_resize.
  destruct (iterM_inv
              (fun j (ns : list Z) =>
                 length ns = Z.to_nat n /\
                 forall t, 0 <= t < j -> ns !! Z.to_nat t = Some (t * C))
              (fun i ns => vset ns i (wrap (i * C)))
              (Z.to_nat (Z.of_nat (Z.to_nat n) - 0)) 0
              (resize (Z.to_nat n) 0 l)) as (ns & E & Hlen & Hns).
  - split; [by rewrite length_resize|]. intros; lia.
  - intros j ns Hj [Hlen Hns]. rewrite vset_ok by lia.
    eexists. split; [reflexivity|]. rewrite length_insert. split; [done|].
    intros t Ht. destruct (decide (t = j)) as [->|Hne].
    + rewrite list_lookup_insert_eq by lia. f_equal. apply wrap_small. nia.
    + rewrite list_lookup_insert_ne by lia. apply Hns. lia.
  - exists ns. split; [done|]. split; [done|]. intros t Ht. apply Hns. lia.
Qed.

Lemma eff_chunk_default nwork n :
  1 <= n -> 0 <= nwork -> nwork + n - 1 <= SIZE_MAX ->
  wrap (nwork + n - 1) / n = eff_chunk nwork n 0.
Proof.
  unfold SIZE_MAX. intros. unfold eff_chunk. cbn. by rewrite wrap_small by lia.
Qed.

Lemma eff_chunk_pos nwork n chunksize :
  1 <= n -> 0 <= chunksize -> eff_chunk nwork n chunksize < nwork ->
  1 <= eff_chunk nwork n chunksize.
Proof.
  intros Hn Hc. unfold eff_chunk. destruct (Z.ltb_spec chunksize 1); [|lia].
  intros Hlt. destruct (Z.le_gt_cases nwork 0) as [Hw|Hw].
  - exfalso. assert (nwork <= (nwork + n - 1) / n); [|lia].
    apply Z.div_le_lower_bound; nia.
  - apply Z.div_le_lower_bound; lia.
Qed.

Ltac dist_simpl :=
  cbn [nthreads_ nwork_ cur_ chunksize_ fact_max_ nextstart mode single_done
       set_nthreads set_nwork set_cur set_chunksize set_fact_max set_nextstart
       set_mode set_single_done Distribution_new].

Lemma eff_threads_pos dflt nthreads :
  1 <= dflt -> 0 <= nthreads -> 1 <= eff_threads dflt nthreads.
Proof. intros. unfold eff_threads. destruct (Z.eqb_spec nthreads 0); lia. Qed.

Lemma execStatic_chunk dflt nwork nthreads chunksize :
  1 <= dflt -> 0 <= nthreads -> 0 <= nwork -> 0 <= chunksize ->
  (chunksize = 0 -> nwork + eff_threads dflt nthreads - 1 <= SIZE_MAX) ->
  (if chunksize <? 1
   then wrap (nwork + eff_threads dflt nthreads - 1) / eff_threads dflt nthreads
   else chunksize) = eff_chunk nwork (eff_threads dflt nthreads) chunksize.
Proof.
  intros Hd Hn Hw Hc Hfit. pose proof (eff_threads_pos dflt nthreads Hd Hn).
  unfold eff_chunk. destruct (Z.ltb_spec chunksize 1); [|done].
  rewrite wrap_small; [done|]. unfold SIZE_MAX in *. lia.
Qed.

Lemma static_holds dflt nwork nthreads chunksize :
  is_size_t nwork -> is_size_t nthreads -> is_size_t chunksize ->
  1 <= dflt <= SIZE_MAX ->
  static_fits nwork (eff_threads dflt nthreads) chunksize ->
  static_ok dflt nwork nthreads chunksize.
Proof.
  intros Hw Hn Hc Hd [Hf1 Hf2]. unfold static_ok. cbv zeta. intros g.
  pose proof (eff_threads_pos dflt nthreads (proj1 Hd) (proj1 Hn)) as Hn1.
  pose proof (execStatic_chunk dflt nwork nthreads chunksize
                (proj1 Hd) (proj1 Hn) (proj1 Hw) (proj1 Hc) Hf1) as Hchunk.
  unfold run_execStatic, execStatic. cbv zeta. dist_simpl.
  fold (eff_threads dflt nthreads). rewrite Hchunk.
  set (n := eff_threads dflt nthreads) in *.
  set (C := eff_chunk nwork n chunksize) in *.
  destruct (Z.leb_spec nwork C) as [Hge|Hlt].
  - eexists. split; [reflexivity|]. done.
  - specialize (Hf2 Hlt).
    pose proof (eff_chunk_pos nwork n chunksize Hn1 (proj1 Hc) Hlt) as HC1.
    fold C in HC1.
    destruct (static_table n C []) as (ns & -> & Hlen & Hns);
      [lia | lia | unfold is_size_t in *; lia |].
    cbn [bind]. eexists. split; [reflexivity|]. dist_simpl.
    split; [done|]. split; [done|]. split; [|split; [|split]].
    + intros sched Hall.
      destruct (calls_static nwork n C sched Hn1 HC1 (proj1 Hw) Hf2
                  (fun _ => O)
                  (mkDist n nwork (cur_ g) C (fact_max_ g) ns STATIC (single_done g)))
        as (rs & d' & E & Hl & Hrs); [|done|].
      * repeat (split; [done|]). intros t Ht. cbn. by apply Hns.
      * exists rs, d'. split; [exact E|]. split; [done|].
        intros i t Hi. rewrite (Hrs i t Hi). done.
    + intros t k k' Ht Hk. apply static_range_ascending; lia.
    + intros x Hx.
      destruct (static_range_cover nwork n C x Hn1 HC1 Hx) as (Ht & Hk & Hin).
      exists ((x / C) mod n), (x / C / n). repeat (split; [done|]).
      intros t' k' Ht' Hk' Hin'. by apply (static_range_unique nwork n C t' k' x).
    + intros t k x Ht Hk Hin.
      by apply (static_range_inside nwork n C t k x Hn1 HC1 (proj1 Ht) Hk).
Qed.

(** ** DYNAMIC scheduling *)

Definition is_zero_double (x : double) : Prop :=
  match x with
  | S754_zero _ => True
  | _ => False
  end.

(** The integer part of [fact * rem / n] over the reals, [fact] standing
    for the number it denotes. *)
Definition floor_scaled (fact : double) (rem n : Z) : res Z :=
  match fact with
  | S754_finite s m e =>
      let num := (if s then -1 else 1) * Zpos m * rem in
      Ok (if 0 <=? e then (num * 2 ^ e) / n else num / (n * 2 ^ (- e)))
  | _ => Ok 0
  end.

(** A chain of non-empty ranges that leads from [a] to [b]. *)
Fixpoint tiles (rs : list Range) (a b : Z) : Prop :=
  match rs with
  | [] => a = b
  | r :: rs' => lo r = a /\ lo r < hi r /\ tiles rs' (hi r) b
  end.

(** DYNAMIC scheduling with smallest chunk [c] and estimate [est]: the
    call that hands the work to STATIC scheduling, the size of every chunk,
    the chunks when [fact_max] is zero, and the chunks as a partition of
    [0, nwork). *)
Definition dynamic_ok (c : Z) (est : double -> Z -> Z -> res Z)
    (dflt nwork nthreads chunkMin : Z) (fact : double) : Prop :=
  let n := eff_threads dflt nthreads in
  forall g,
    if nwork <=? c * n then
      run_execGuided dflt g nwork nthreads chunkMin fact
      = run_execStatic dflt g nwork nthreads 0
    else
      exists d,
        run_execGuided dflt g nwork nthreads chunkMin fact = Ok d /\
        mode d = DYNAMIC /\
        (forall sched rs d1 t, calls sched d = Ok (rs, d1) ->
           if nwork <=? cur_ d1 then getNext t d1 = Ok (Range0, d1)
           else forall tmp, est fact (nwork - cur_ d1) n = Ok tmp ->
             let sz := Z.min (nwork - cur_ d1) (Z.max c tmp) in
             getNext t d1 = Ok (mkRange (cur_ d1) (cur_ d1 + sz),
                                set_cur (cur_ d1 + sz) d1)) /\
        (is_zero_double fact ->
           (forall rem, 0 < rem <= nwork -> est fact rem n = Ok 0) /\
           forall sched rs d1 t r d2,
             calls sched d = Ok (rs, d1) -> getNext t d1 = Ok (r, d2) ->
             cur_ d2 < nwork -> hi r - lo r = c) /\
        (forall sched,
           (forall rem, 0 < rem <= nwork -> is_ok (est fact rem n) = true) ->
           exists rs d1 j,
             calls sched d = Ok (rs, d1) /\
             tiles (take j rs) 0 (cur_ d1) /\
             Forall (fun r => r = Range0) (drop j rs) /\
             cur_ d1 <= nwork /\
             ((j < length sched)%nat -> cur_ d1 = nwork)).

Definition dyn_inv (nwork n c : Z) (fact : double) (d : Distribution) : Prop :=
  mode d = DYNAMIC /\ nwork_ d = nwork /\ nthreads_ d = n /\
  chunksize_ d = c /\ fact_max_ d = fact /\ 0 <= cur_ d <= nwork.

Lemma getNext_dynamic_done nwork n c fact d t :
  dyn_inv nwork n c fact d -> nwork <= cur_ d ->
  getNext t d = Ok (Range0, d).
Proof.
  intros (Hm & Hw & _) Hge. unfold getNext. rewrite Hm, Hw.
  destruct (Z.leb_spec nwork (cur_ d)); [done|lia].
Qed.

Lemma getNext_dynamic_step nwork n c fact d t tmp :
  nwork <= SIZE_MAX -> 1 <= c ->
  dyn_inv nwork n c fact d -> cur_ d < nwork ->
  guided_estimate fact (nwork - cur_ d) n = Ok tmp ->
  let sz := Z.min (nwork - cur_ d) (Z.max c tmp) in
  getNext t d = Ok (mkRange (cur_ d) (cur_ d + sz), set_cur (cur_ d + sz) d) /\
  dyn_inv nwork n c fact (set_cur (cur_ d + sz) d) /\ 1 <= sz.
Proof.
  intros Hfit Hc Hinv Hlt Hest sz. unfold SIZE_MAX in Hfit.
  destruct Hinv as (Hm & Hw & Hn & Hcs & Hf & Hcur).
  unfold getNext. rewrite Hm, Hw, Hn, Hcs, Hf.
  destruct (Z.leb_spec nwork (cur_ d)); [lia|].
  rewrite (wrap_small (nwork - cur_ d)) by lia. rewrite Hest. cbn [bind].
  fold sz. assert (1 <= sz <= nwork - cur_ d) by (subst sz; lia).
  rewrite (wrap_small (cur_ d + sz)) by lia.
  split; [done|]. split; [|lia]. unfold dyn_inv. dist_simpl.
  repeat (split; [done|]). lia.
Qed.

Lemma calls_dynamic_reach nwork n c fact sched :
  nwork <= SIZE_MAX -> 1 <= c ->
  forall d rs d1,
    dyn_inv nwork n c fact d -> calls sched d = Ok (rs, d1) ->
    dyn_inv nwork n c fact d1.
Proof.
  intros Hfit Hc. induction sched as [|t sched IH]; intros d rs d1 Hinv E.
  - cbn in E. by simplify_eq.
  - cbn [calls] in E.
    destruct (Z.le_gt_cases nwork (cur_ d)) as [Hge|Hlt].
    + rewrite (getNext_dynamic_done nwork n c fact d t Hinv Hge) in E.
      cbn [bind] in E.
      destruct (calls sched d) as [[rs' d']|] eqn:E'; [|done].
      cbn in E. simplify_eq. by eapply IH.
    + destruct (guided_estimate fact (nwork - cur_ d) n) as [tmp|f] eqn:Hest.
      * pose proof (getNext_dynamic_step nwork n c fact d t tmp Hfit Hc Hinv
                      ltac:(lia) Hest) as Hstep.
        cbv zeta in Hstep. destruct Hstep as (E1 & Hinv1 & _).
        rewrite E1 in E. cbn [bind] in E.
        destruct (calls sched _) as [[rs' d']|] eqn:E'; [|done].
        cbn in E. simplify_eq. by eapply IH.
      * exfalso. unfold getNext in E. destruct Hinv as (Hm & Hw & Hn & Hcs & Hf & Hcur).
        rewrite Hm, Hw, Hn, Hf in E.
        destruct (Z.leb_spec nwork (cur_ d)); [lia|].
        rewrite (wrap_small (nwork - cur_ d)) in E by (unfold SIZE_MAX in *; lia).
        by rewrite Hest in E.
Qed.

Lemma calls_dynamic_done nwork n c fact sched d :
  dyn_inv nwork n c fact d -> nwork <= cur_ d ->
  calls sched d = Ok (replicate (length sched) Range0, d).
Proof.
  intros Hinv Hge. induction sched as [|t sched IH]; [done|].
  cbn [calls]. rewrite (getNext_dynamic_done nwork n c fact d t Hinv Hge).
  cbn [bind]. rewrite IH. done.
Qed.

Lemma calls_dynamic_tiles nwork n c fact sched :
  nwork <= SIZE_MAX -> 1 <= c ->
  (forall rem, 0 < rem <= nwork -> is_ok (guided_estimate fact rem n) = true) ->
  forall d,
    dyn_inv nwork n c fact d ->
    exists rs d1 j,
      calls sched d = Ok (rs, d1) /\
      tiles (take j rs) (cur_ d) (cur_ d1) /\
      Forall (fun r => r = Range0) (drop j rs) /\
      cur_ d1 <= nwork /\
      ((j < length sched)%nat -> cur_ d1 = nwork).
Proof.
  intros Hfit Hc Hest. induction sched as [|t sched IH]; intros d Hinv.
  - exists [], d, O. split; [done|]. split; [done|]. split; [done|].
    split; [apply Hinv|]. cbn. lia.
  - destruct (Z.le_gt_cases nwork (cur_ d)) as [Hge|Hlt].
    + exists (replicate (length (t :: sched)) Range0), d, O.
      split; [by eapply calls_dynamic_done|]. split; [done|].
      split; [|split].
      * rewrite drop_0. by apply Forall_replicate.
      * apply Hinv.
      * intros _. destruct Hinv as (_ & _ & _ & _ & _ & Hcur). lia.
    + specialize (Hest (nwork - cur_ d)).
      destruct (guided_estimate fact (nwork - cur_ d) n) as [tmp|f] eqn:Etmp;
        [|destruct Hinv as (_ & _ & _ & _ & _ & Hcur); cbn in Hest;
          discriminate Hest; lia].
      pose proof (getNext_dynamic_step nwork n c fact d t tmp Hfit Hc Hinv
                    ltac:(lia) Etmp) as Hstep.
      cbv zeta in Hstep. destruct Hstep as (E1 & Hinv1 & Hsz).
      destruct (IH _ Hinv1) as (rs & d1 & j & E2 & Ht & Hd & Hle & Hj).
      eexists (_ :: rs), d1, (Datatypes.S j).
      split; [cbn [calls]; rewrite E1; cbn [bind]; rewrite E2; reflexivity|].
      split; [|split; [|split]].
      * cbn [take tiles lo hi]. split; [done|]. split; [lia|]. exact Ht.
      * exact Hd.
      * exact Hle.
      * intros Hlt'. apply Hj. cbn in Hlt'. lia.
Qed.

Lemma dynamic_holds dflt nwork nthreads chunkMin fact :
  is_size_t nwork -> is_size_t nthreads -> is_size_t chunkMin ->
  1 <= dflt <= SIZE_MAX ->
  Z.max 1 chunkMin * eff_threads dflt nthreads <= SIZE_MAX ->
  dynamic_ok (Z.max 1 chunkMin) guided_estimate dflt nwork nthreads chunkMin fact.
Proof.
  intros Hw Hn Hc Hd Hfit. unfold dynamic_ok. cbv zeta. intros g.
  pose proof (eff_threads_pos dflt nthreads (proj1 Hd) (proj1 Hn)) as Hn1.
  assert (Hn2 : eff_threads dflt nthreads <= SIZE_MAX).
  { unfold eff_threads. destruct (nthreads =? 0); [apply Hd|apply Hn]. }
  unfold run_execGuided, run_execStatic, execDynamic. cbv zeta. dist_simpl.
  fold (eff_threads dflt nthreads).
  set (n := eff_threads dflt nthreads) in *.
  assert (Hcs : (if chunkMin <? 1 then 1 else chunkMin) = Z.max 1 chunkMin).
  { destruct (Z.ltb_spec chunkMin 1); lia. }
  rewrite Hcs. set (c := Z.max 1 chunkMin) in *.
  rewrite (wrap_small (c * n)) by (unfold SIZE_MAX in *; nia).
  destruct (Z.leb_spec nwork (c * n)) as [Hge|Hlt]; [reflexivity|].
  eexists. split; [reflexivity|]. dist_simpl. split; [done|].
  set (d0 := set_cur 0 _).
  assert (Hinv0 : dyn_inv nwork n c fact d0).
  { unfold dyn_inv, d0. dist_simpl. repeat (split; [done|]). apply Hw. }
  split; [|split].
  - intros sched rs d1 t E.
    pose proof (calls_dynamic_reach nwork n c fact sched (proj2 Hw) ltac:(lia)
                  d0 rs d1 Hinv0 E) as Hinv1.
    destruct (Z.leb_spec nwork (cur_ d1)) as [Hge1|Hlt1].
    + by eapply getNext_dynamic_done.
    + intros tmp Etmp.
      by apply (getNext_dynamic_step nwork n c fact d1 t tmp (proj2 Hw) ltac:(lia)).
  - intros Hz. destruct fact as [sz| | |]; try done. split.
    + intros rem Hrem. apply guided_estimate_zero; unfold SIZE_MOD, is_size_t, SIZE_MAX in *; lia.
    + intros sched rs d1 t r d2 E E2 Hlt2.
      pose proof (calls_dynamic_reach nwork n c _ sched (proj2 Hw) ltac:(lia)
                    d0 rs d1 Hinv0 E) as Hinv1.
      destruct (Z.le_gt_cases nwork (cur_ d1)) as [Hge1|Hlt1].
      * rewrite (getNext_dynamic_done nwork n c _ d1 t Hinv1 Hge1) in E2.
        simplify_eq. lia.
      * assert (Etmp : guided_estimate (S754_zero sz) (nwork - cur_ d1) n = Ok 0).
        { apply guided_estimate_zero;
            destruct Hinv1 as (_ & _ & _ & _ & _ & Hcur);
            unfold SIZE_MOD, is_size_t, SIZE_MAX in *; lia. }
        pose proof (getNext_dynamic_step nwork n c _ d1 t 0 (proj2 Hw) ltac:(lia)
                      Hinv1 ltac:(lia) Etmp) as Hstep.
        cbv zeta in Hstep. destruct Hstep as (E1 & _ & _).
        rewrite E1 in E2. simplify_eq. revert Hlt2. dist_simpl. cbn [lo hi]. lia.
  - intros sched Hest.
    destruct (calls_dynamic_tiles nwork n c fact sched (proj2 Hw) ltac:(lia) Hest
                d0 Hinv0) as (rs & d1 & j & E & Ht & Hdrop & Hle & Hj).
    exists rs, d1, j. done.
Qed.

(** Some contents for the uninitialised members of a fresh [Distribution]. *)
Definition garbage0 : Distribution := mkDist 7 7 7 7 dzero [] DYNAMIC true.

(** DYNAMIC scheduling as the claim words it: the smallest chunk is
    [chunkMin] itself and the estimate is the exact integer part. *)
Definition dynamic_claim (dflt nwork nthreads chunkMin : Z) (fact : double) : Prop :=
  dynamic_ok chunkMin floor_scaled dflt nwork nthreads chunkMin fact.

Lemma single_nwork_zero : ~ single_claim 0.
Proof.
  intros H. destruct (H garbage0 0 []) as (d & d' & rs & _ & _ & Hne & _).
  discriminate Hne.
Qed.

Lemma single_ranges g nwork t sched :
  exists d d',
    run_execSingle g nwork = Ok d /\
    calls (t :: sched) d
    = Ok (mkRange 0 nwork :: replicate (length sched) Range0, d') /\
    (nonempty (mkRange 0 nwork) = true <-> 0 < nwork) /\
    Forall (fun r => nonempty r = false) (replicate (length sched) Range0).
Proof.
  eexists _, _. split; [reflexivity|]. split; [by apply calls_single|].
  split; [apply Z.ltb_lt|]. by apply Forall_replicate.
Qed.

Lemma static_overflow : ~ static_ok 1 18446744073709551615 2 0.
Proof.
  intros H. specialize (H garbage0). cbv zeta in H.
  assert (E0 : (18446744073709551615
                <=? eff_chunk 18446744073709551615 (eff_threads 1 2) 0) = false)
    by (vm_compute; reflexivity).
  rewrite E0 in H. destruct H as (d & E & _ & _ & Hcalls & _).
  vm_compute in E. injection E as <-.
  destruct (Hcalls [0]) as (rs & d' & E2 & _ & Hrs).
  { constructor; [vm_compute; intuition discriminate|constructor]. }
  vm_compute in E2. injection E2 as <- <-.
  specialize (Hrs O 0 eq_refl). vm_compute in Hrs. discriminate Hrs.
Qed.

Lemma dynamic_chunkMin_zero : ~ dynamic_claim 1 2 1 0 dzero.
Proof.
  intros H. specialize (H garbage0). cbv zeta in H.
  assert (E0 : (2 <=? 0 * eff_threads 1 1) = false) by reflexivity.
  rewrite E0 in H. destruct H as (d & E & _ & Hstep & _).
  vm_compute in E. injection E as <-.
  specialize (Hstep [] [] _ 0 eq_refl). cbn [cur_] in Hstep.
  assert (E1 : (2 <=? 0) = false) by reflexivity. rewrite E1 in Hstep.
  specialize (Hstep 0 eq_refl). vm_compute in Hstep. discriminate Hstep.
Qed.

Lemma execParallel_getNext_oob dflt g nthreads t :
  exists d, run_execParallel dflt g nthreads = Ok d /\
            mode d = STATIC /\ nextstart d = [] /\
            getNext t d = Err OutOfBounds.
Proof.
  eexists. split; [reflexivity|]. dist_simpl. split; [done|]. split; [done|].
  unfold getNext. dist_simpl. unfold vget.
  destruct (0 <=? t); [|done]. by rewrite lookup_nil.
Qed.

(** ** The coefficient store *)

Lemma iterM_foldM {S : Type} (body : Z -> S -> res S) n i s :
  iterM n i body s = foldM body (seqZ i (Z.of_nat n)) s.
Proof.
  revert i s. induction n as [|n IH]; intros i s; [done|].
  rewrite seqZ_cons by lia. cbn [iterM foldM].
  destruct (body i s) as [s'|f]; [|done]. cbn [bind]. rewrite IH.
  do 2 f_equal; lia.
Qed.

Lemma foldM_app {S X : Type} (body : X -> S -> res S) xs ys s :
  foldM body (xs ++ ys) s = (s' <- foldM body xs s ;; foldM body ys s').
Proof.
  revert s. induction xs as [|x xs IH]; intros s; [done|].
  cbn [app foldM]. destruct (body x s) as [s'|f]; [|done]. cbn [bind]. apply IH.
Qed.

(** A loop that rewrites slot [i] in round [i] rewrites every slot. *)
Lemma pointwise_loop {A : Type} (body : Z -> list A -> res (list A))
    (g : nat -> A -> A) (l : list A) :
  (forall i buf v,
     length buf = length l -> buf !! i = Some v -> l !! i = Some v ->
     body (Z.of_nat i) buf = Ok (<[i := g i v]> buf)) ->
  for_lt 0 (vsize l) body l = Ok (imap g l).
Proof.
  intros Hbody. unfold for_lt, vsize. rewrite Z.sub_0_r, Nat2Z.id.
  destruct (iterM_inv
              (fun j (buf : list A) =>
                 length buf = length l /\
                 forall k, buf !! k = if decide (Z.of_nat k < j)
                                      then g k <$> l !! k else l !! k)
              body (length l) 0 l) as (buf & E & Hlen & Hbuf).
  - split; [done|]. intros k. destruct (decide (Z.of_nat k < 0)); [lia|done].
  - intros j buf Hj [Hlen Hbuf].
    assert (Hjn : j = Z.of_nat (Z.to_nat j)) by lia.
    destruct (lookup_lt_is_Some_2 l (Z.to_nat j)) as [v Hv]; [lia|].
    assert (Hbv : buf !! Z.to_nat j = Some v).
    { rewrite Hbuf. destruct (decide (Z.of_nat (Z.to_nat j) < j)); [lia|done]. }
    exists (<[Z.to_nat j := g (Z.to_nat j) v]> buf). split.
    + rewrite <- (Hbody (Z.to_nat j) buf v Hlen Hbv Hv). f_equal. lia.
    + rewrite length_insert. split; [done|].
      intros k. destruct (decide (k = Z.to_nat j)) as [->|Hne].
      * rewrite list_lookup_insert_eq by lia.
        destruct (decide (Z.of_nat (Z.to_nat j) < j + 1)); [|lia]. by rewrite Hv.
      * rewrite list_lookup_insert_ne by done. rewrite Hbuf.
        destruct (decide (Z.of_nat k < j)), (decide (Z.of_nat k < j + 1)); done || lia.
  - rewrite E. f_equal. apply list_eq. intros k. rewrite Hbuf, list_lookup_imap.
    destruct (decide (Z.of_nat k < 0 + Z.of_nat (length l))) as [|Hge]; [done|].
    rewrite lookup_ge_None_2 by lia. done.
Qed.

(** The pairs [(l, m)] a layout stores, in the order of [applyLM]. *)
Definition pairs_of (L : Z) (ms : list Z) : list (Z * Z) :=
  mjoin ((fun m => (fun l => (l, m)) <$> seqZ m (L + 1 - m)) <$> ms).
Definition stored_pairs (b : Alm_Base) : list (Z * Z) :=
  pairs_of (lmax b) (mval b).


Section StoreProps.
Context {T T2 : Type}.
Variable mul_assign : T -> T2 -> T.
Variable add_T : T -> T -> T.

Lemma Scale_map (factor : T2) (a : Alm T) :
  Scale mul_assign factor a
  = Ok (mkAlm (base a) (map (fun v => mul_assign v factor) (alm a))).
Proof.
  unfold Scale, mav_size.
  rewrite (pointwise_loop _ (fun _ v => mul_assign v factor)).
  - cbn [bind]. do 2 f_equal. apply list_eq. intros k.
    by rewrite list_lookup_imap, list_lookup_fmap.
  - intros i buf v Hlen Hv _. unfold mav_get, mav_set.
    rewrite (vget_ok buf (Z.of_nat i) v) by (lia || by rewrite Nat2Z.id).
    cbn [bind]. rewrite vset_ok, Nat2Z.id; [done|].
    apply lookup_lt_Some in Hv. lia.
Qed.

Lemma Add_zip (other a : Alm T) :
  conformable (base a) (base other) = true ->
  length (alm other) = length (alm a) ->
  Add add_T other a = Ok (mkAlm (base a) (zip_with add_T (alm a) (alm other))).
Proof.
  intros Hc Hlen. unfold Add, MR_assert. rewrite Hc. cbn [bind]. unfold mav_size.
  rewrite (pointwise_loop _
             (fun i v => match alm other !! i with
                         | Some w => add_T v w
                         | None => v
                         end)).
  - cbn [bind]. do 2 f_equal. apply list_eq. intros k.
    rewrite list_lookup_imap, lookup_zip_with.
    destruct (alm a !! k) as [v|] eqn:Ev; [|reflexivity].
    destruct (lookup_lt_is_Some_2 (alm other) k) as [w Hw].
    { apply lookup_lt_Some in Ev. lia. }
    rewrite Hw. reflexivity.
  - intros i buf v Hl Hv Hv0. unfold mav_get, mav_set.
    rewrite (vget_ok buf (Z.of_nat i) v) by (lia || by rewrite Nat2Z.id).
    cbn [bind].
    destruct (lookup_lt_is_Some_2 (alm other) i) as [w Hw].
    { apply lookup_lt_Some in Hv0. lia. }
    rewrite (vget_ok (alm other) (Z.of_nat i) w) by (lia || by rewrite Nat2Z.id).
    cbn [bind]. rewrite Hw. rewrite vset_ok, Nat2Z.id; [done|].
    apply lookup_lt_Some in Hv. lia.
Qed.

End StoreProps.

Lemma bind_ok {A : Type} (m : res A) : (x <- m ;; Ok x) = m.
Proof. by destruct m. Qed.

Lemma for_le_foldM {S : Type} (body : Z -> S -> res S) lo hi s :
  hi <> SIZE_MAX ->
  for_le lo hi body s = foldM body (seqZ lo (hi + 1 - lo)) s.
Proof.
  intros Hhi. unfold for_le. destruct (Z.eqb_spec hi SIZE_MAX); [done|].
  rewrite bind_ok, iterM_foldM. destruct (Z.le_gt_cases 0 (hi + 1 - lo)).
  - by rewrite Z2Nat.id.
  - rewrite (seqZ_nil _ (hi + 1 - lo)) by lia. by rewrite seqZ_nil by lia.
Qed.

Lemma foldM_concat_map {S X Y : Type} (body : Y -> S -> res S)
    (f : X -> list Y) xs s :
  foldM body (mjoin (f <$> xs)) s = foldM (fun x s => foldM body (f x) s) xs s.
Proof.
  revert s. induction xs as [|x xs IH]; intros s; [done|].
  rewrite fmap_cons. change (mjoin (f x :: (f <$> xs))) with (f x ++ mjoin (f <$> xs)).
  cbn [foldM]. rewrite foldM_app.
  destruct (foldM body (f x) s) as [s'|e]; [|done]. cbn [bind]. apply IH.
Qed.

Lemma foldM_map {S X Y : Type} (body : Y -> S -> res S) (f : X -> Y) xs s :
  foldM body (f <$> xs) s = foldM (fun x s => body (f x) s) xs s.
Proof.
  revert s. induction xs as [|x xs IH]; intros s; [done|].
  rewrite fmap_cons. cbn [foldM]. destruct (body (f x) s); [|done]. cbn [bind]. apply IH.
Qed.

Lemma foldM_ext {S X : Type} (f g : X -> S -> res S) xs s :
  (forall x s, f x s = g x s) -> foldM f xs s = foldM g xs s.
Proof.
  intros H. revert s. induction xs as [|x xs IH]; intros s; [done|].
  cbn [foldM]. rewrite H. destruct (g x s); [|done]. cbn [bind]. apply IH.
Qed.

Lemma elem_of_pairs_of L ms l m :
  (l, m) ∈ pairs_of L ms <-> m ∈ ms /\ m <= l <= L.
Proof.
  unfold pairs_of. rewrite list_elem_of_join. split.
  - intros (ps & Hin & Hps). apply list_elem_of_fmap in Hps as (m' & -> & Hm').
    apply list_elem_of_fmap in Hin as (l' & Heq & Hl'). simplify_eq.
    apply elem_of_seqZ in Hl'. split; [done|lia].
  - intros [Hm Hl]. eexists. split; [|apply list_elem_of_fmap; eauto].
    apply list_elem_of_fmap. exists l. split; [done|]. apply elem_of_seqZ. lia.
Qed.


Lemma NoDup_pairs_of L ms : NoDup ms -> NoDup (pairs_of L ms).
Proof.
  induction ms as [|m ms IH]; intros Hnd; [constructor|].
  apply NoDup_cons in Hnd as [Hm Hnd].
  change (pairs_of L (m :: ms))
    with (((fun l => (l, m)) <$> seqZ m (L + 1 - m)) ++ pairs_of L ms).
  apply NoDup_app. split; [|split; [|by apply IH]].
  - apply NoDup_fmap_2; [|apply NoDup_seqZ]. intros l l' [=]. done.
  - intros [l m'] Hin Hin'.
    apply list_elem_of_fmap in Hin as (l' & [= -> ->] & _).
    apply elem_of_pairs_of in Hin' as [Hin' _]. done.
Qed.

Section Visits.
Context {T : Type}.
Variable b : Alm_Base.
Variable func : Z -> Z -> T -> res T.

(** The calls [func(l, m, alm.v(index(l,m)))] for a list of pairs. *)
Definition visits (pairs : list (Z * Z)) (buf : list T) : res (list T) :=
  foldM (fun p buf => visit b func p.1 p.2 buf) pairs buf.

Lemma visit_inv l m buf buf' :
  visit b func l m buf = Ok buf' ->
  exists i v v', index b l m = Ok i /\ 0 <= i < Z.of_nat (length buf) /\
                 buf !! Z.to_nat i = Some v /\ func l m v = Ok v' /\
                 buf' = <[Z.to_nat i := v']> buf.
Proof.
  unfold visit, mav_get, mav_set, vget, vset.
  destruct (index b l m) as [i|] eqn:Ei; [|done]. cbn [bind].
  destruct (Z.leb_spec 0 i); [|done].
  destruct (buf !! Z.to_nat i) as [v|] eqn:Ev; [|done]. cbn [bind].
  destruct (func l m v) as [v'|] eqn:Ef; [|done]. cbn [bind].
  pose proof (lookup_lt_Some _ _ _ Ev).
  destruct (Z.ltb_spec i (Z.of_nat (length buf))); [|lia]. cbn.
  intros [= <-]. exists i, v, v'. split; [done|]. split; [lia|]. done.
Qed.

Lemma visit_ok l m buf i v v' :
  index b l m = Ok i -> 0 <= i -> buf !! Z.to_nat i = Some v ->
  func l m v = Ok v' ->
  visit b func l m buf = Ok (<[Z.to_nat i := v']> buf).
Proof.
  intros Hi Hi0 Hv Hf. unfold visit, mav_get, mav_set. rewrite Hi. cbn [bind].
  rewrite (vget_ok buf i v Hi0 Hv). cbn [bind]. rewrite Hf. cbn [bind].
  apply vset_ok. pose proof (lookup_lt_Some _ _ _ Hv). lia.
Qed.

(** Slots that belong to none of the visited pairs keep their value. *)
Lemma visits_frame pairs :
  forall buf buf',
    visits pairs buf = Ok buf' ->
    length buf' = length buf /\
    forall j, (forall l m, (l, m) ∈ pairs -> index b l m <> Ok (Z.of_nat j)) ->
              buf' !! j = buf !! j.
Proof.
  induction pairs as [|[l m] ps IH]; intros buf buf' E.
  - cbn in E. by simplify_eq.
  - unfold visits in E. cbn [foldM fst snd] in E.
    destruct (visit b func l m buf) as [buf1|] eqn:E1; [|done]. cbn [bind] in E.
    destruct (visit_inv l m buf buf1 E1) as (i & v & v' & Hi & Hb & Hv & Hf & ->).
    destruct (IH _ _ E) as [Hlen Hfr]. rewrite length_insert in Hlen.
    split; [done|]. intros j Hj. rewrite Hfr.
    + apply list_lookup_insert_ne. intros Heq. apply (Hj l m); [left|].
      rewrite Hi. f_equal. lia.
    + intros l' m' Hin. apply Hj. by right.
Qed.

(** When the visited pairs have distinct slots inside the buffer, every
    one of them is rewritten once. *)
Lemma visits_spec (g : Z -> Z -> T -> T) pairs :
  (forall l m v, (l, m) ∈ pairs -> func l m v = Ok (g l m v)) ->
  NoDup pairs ->
  (forall l m l' m' i, (l, m) ∈ pairs -> (l', m') ∈ pairs ->
     index b l m = Ok i -> index b l' m' = Ok i -> (l, m) = (l', m')) ->
  forall buf,
    (forall l m, (l, m) ∈ pairs ->
       exists i, index b l m = Ok i /\ 0 <= i < Z.of_nat (length buf)) ->
    exists buf',
      visits pairs buf = Ok buf' /\ length buf' = length buf /\
      forall l m i v, (l, m) ∈ pairs -> index b l m = Ok i ->
        buf !! Z.to_nat i = Some v -> buf' !! Z.to_nat i = Some (g l m v).
Proof.
  intros Hf. induction pairs as [|[l0 m0] ps IH]; intros Hnd Hinj buf Hin.
  - exists buf. split; [done|]. split; [done|]. intros l m i v H. by apply elem_of_nil in H.
  - apply NoDup_cons in Hnd as [Hnotin Hnd].
    destruct (Hin l0 m0) as (i0 & Hi0 & Hb0); [left|].
    destruct (lookup_lt_is_Some_2 buf (Z.to_nat i0)) as [v0 Hv0]; [lia|].
    pose proof (visit_ok l0 m0 buf i0 v0 (g l0 m0 v0) Hi0 (proj1 Hb0) Hv0
                  (Hf l0 m0 v0 ltac:(left))) as E1.
    assert (Hf' : forall l m v, (l, m) ∈ ps -> func l m v = Ok (g l m v))
      by (intros l m v H; apply Hf; by right).
    assert (Hinj' : forall l m l' m' i, (l, m) ∈ ps -> (l', m') ∈ ps ->
              index b l m = Ok i -> index b l' m' = Ok i -> (l, m) = (l', m'))
      by (intros l m l' m' i H H'; apply Hinj; by right).
    assert (Hin' : forall l m, (l, m) ∈ ps ->
              exists i, index b l m = Ok i /\
                0 <= i < Z.of_nat (length (<[Z.to_nat i0 := g l0 m0 v0]> buf)))
      by (intros l m H; rewrite length_insert; apply Hin; by right).
    destruct (IH Hf' Hnd Hinj' _ Hin') as (buf' & E & Hlen & Hspec).
    exists buf'. split; [|split].
    + unfold visits. cbn [foldM fst snd]. rewrite E1. cbn [bind]. exact E.
    + by rewrite Hlen, length_insert.
    + intros l m i v H Hi Hv. apply elem_of_cons in H as [Heq|H].
      * injection Heq as -> ->. rewrite Hi0 in Hi. injection Hi as <-.
        rewrite Hv0 in Hv. injection Hv as <-.
        destruct (visits_frame ps _ _ E) as [_ Hfr].
        rewrite Hfr.
        -- apply list_lookup_insert_eq. lia.
        -- intros l m H Hi'. apply Hnotin. rewrite Z2Nat.id in Hi' by lia.
           assert (Heq : (l, m) = (l0, m0)); [|by rewrite <- Heq].
           apply (Hinj l m l0 m0 i0); [by right|left|done|done].
      * apply Hspec; [done|done|].
        rewrite list_lookup_insert_ne; [done|].
        intros Heq. apply Hnotin.
        assert (i = i0).
        { destruct (Hin l m) as (i' & Hi' & Hb'); [by right|].
          rewrite Hi in Hi'. injection Hi' as <-. lia. }
        subst i.
        assert (Heq' : (l0, m0) = (l, m)); [|by rewrite Heq'].
        apply (Hinj l0 m0 l m i0); [left|by right|done|done].
Qed.

End Visits.

Lemma foldM_alm {T X : Type} (f : Alm_Base -> X -> list T -> res (list T)) xs :
  forall a : Alm T,
    foldM (fun x a => buf <- f (base a) x (alm a) ;; Ok (mkAlm (base a) buf)) xs a
    = (buf <- foldM (f (base a)) xs (alm a) ;; Ok (mkAlm (base a) buf)).
Proof.
  induction xs as [|x xs IH]; intros [b buf]; [done|].
  cbn [foldM base alm]. destruct (f b x buf) as [buf'|]; [|done].
  cbn [bind]. by rewrite IH.
Qed.

Lemma get_put_visit {T : Type} (f : T -> T) (a : Alm T) l m :
  (x <- Alm_get a l m ;; Alm_put a l m (f x))
  = (buf <- visit (base a) (fun _ _ v => Ok (f v)) l m (alm a) ;;
     Ok (mkAlm (base a) buf)).
Proof.
  unfold Alm_get, Alm_put, visit.
  destruct (index (base a) l m) as [i|]; [|done]. cbn [bind].
  destruct (mav_get (alm a) i); [|done]. done.
Qed.

Section ApplyProps.
Context {T : Type}.

Lemma applyLM_visits (func : Z -> Z -> T -> res T) (a : Alm T) :
  lmax (base a) <> SIZE_MAX ->
  applyLM func a
  = (buf <- visits (base a) func (stored_pairs (base a)) (alm a) ;;
     Ok (mkAlm (base a) buf)).
Proof.
  intros Hl. unfold applyLM, visits, stored_pairs, pairs_of. f_equal.
  rewrite foldM_concat_map. apply foldM_ext. intros m buf.
  rewrite for_le_foldM by done. by rewrite foldM_map.
Qed.

End ApplyProps.

Section PhaseProps.
Context {T : Type}.
Variable polar : double -> double -> Cplx double.
Variable cT_mul_assign : Cplx T -> Cplx double -> Cplx T.

(** The factor of column [m] in the phase twist. *)
Definition phase_factor (psi phi : double) (m : Z) : Cplx double :=
  polar done_1 (dmul (dneg (dadd psi phi)) (double_of_Z m)).

Lemma rotate_phase_visits (a : Alm (Cplx T)) psi phi :
  lmax (base a) <> SIZE_MAX ->
  rotate_phase polar cT_mul_assign a psi phi
  = (buf <- visits (base a)
              (fun _ m v => Ok (cT_mul_assign v (phase_factor psi phi m)))
              (pairs_of (lmax (base a)) (seqZ 0 (lmax (base a) + 1))) (alm a) ;;
     Ok (mkAlm (base a) buf)).
Proof.
  intros Hl. unfold rotate_phase, Lmax. cbv zeta.
  rewrite for_le_foldM by done.
  rewrite (foldM_ext _
             (fun m (a0 : Alm (Cplx T)) =>
                buf <- foldM (fun l buf =>
                                visit (base a0)
                                  (fun _ m v => Ok (cT_mul_assign v (phase_factor psi phi m)))
                                  l m buf)
                         (seqZ m (lmax (base a) + 1 - m)) (alm a0) ;;
                Ok (mkAlm (base a0) buf))).
  - rewrite (foldM_alm
               (fun b m buf =>
                  foldM (fun l buf =>
                           visit b (fun _ m v => Ok (cT_mul_assign v (phase_factor psi phi m)))
                             l m buf)
                    (seqZ m (lmax (base a) + 1 - m)) buf)).
    rewrite Z.sub_0_r. f_equal. unfold visits, pairs_of.
    rewrite foldM_concat_map. apply foldM_ext. intros m buf. by rewrite foldM_map.
  - intros m a0. rewrite for_le_foldM by done.
    rewrite (foldM_ext _
               (fun l (a1 : Alm (Cplx T)) =>
                  buf <- visit (base a1)
                           (fun _ _ v => Ok (cT_mul_assign v (phase_factor psi phi m)))
                           l m (alm a1) ;;
                  Ok (mkAlm (base a1) buf))).
    + rewrite (foldM_alm
                 (fun b l buf =>
                    visit b (fun _ _ v => Ok (cT_mul_assign v (phase_factor psi phi m)))
                      l m buf)).
      done.
    + intros l a1. apply get_put_visit.
Qed.

End PhaseProps.

(** ** Construction of a store *)

Lemma Alm_Base_dense_lmax L M b : Alm_Base_dense L M = Ok b -> lmax b = L.
Proof.
  unfold Alm_Base_dense. cbv zeta.
  destruct (for_le 0 M _ _) as [[[mv ms] idx]|]; [|done]. cbn [bind].
  destruct (Num_Alms L M); [|done]. cbn [bind]. by intros [= <-].
Qed.

Lemma Alm_new_inv {T : Type} (data : list T) L M a :
  Alm_new data L M = Ok a ->
  Alm_Base_dense L M = Ok (base a) /\ alm a = data /\
  lmax (base a) = L /\ Num_Alms L M = Ok (mav_size data).
Proof.
  unfold Alm_new. destruct (Alm_Base_dense L M) as [b|] eqn:Eb; [|done].
  cbn [bind]. rewrite (Alm_Base_dense_lmax L M b Eb).
  destruct (Num_Alms L M) as [n|]; [|done]. cbn [bind]. unfold MR_assert.
  destruct (Z.eqb_spec (mav_size data) n) as [->|]; [|done]. cbn [bind].
  intros [= <-]. cbn. repeat split; try done. by eapply Alm_Base_dense_lmax.
Qed.

Lemma Alm_new_run {T : Type} (data : list T) L M :
  0 <= M < SIZE_MAX ->
  exists ms,
    Alm_new data L M
    = (n <- Num_Alms L M ;;
       _ <- MR_assert (mav_size data =? n) "bad array size" ;;
       Ok (mkAlm (mkAlmBase L n (seqZ 0 (M + 1)) ms) data)).
Proof.
  intros HM. destruct (Alm_Base_dense_run L M HM) as (ms & E & _).
  exists ms. unfold Alm_new. rewrite E.
  destruct (Num_Alms L M) as [n|] eqn:En; [|done]. cbn [bind lmax].
  rewrite En. done.
Qed.

(** The claim as it is worded: any view with at least [Num_Alms] entries
    is accepted, and only a smaller one is refused. *)
Definition alm_new_claim {T : Type} (data : list T) (L M : Z) : Prop :=
  forall n, Num_Alms L M = Ok n ->
    (n <= mav_size data -> is_ok (Alm_new data L M) = true) /\
    (is_shape_error (Alm_new data L M) = true -> mav_size data < n).

Lemma alm_new_larger_buffer : ~ alm_new_claim [tt; tt] 0 0.
Proof.
  intros H. destruct (H 1 eq_refl) as [Hok _].
  assert (E : is_ok (Alm_new [tt; tt] 0 0) = false) by (vm_compute; reflexivity).
  rewrite Hok in E; [discriminate E|]. vm_compute. discriminate.
Qed.

Lemma alm_new_exact_size {T : Type} (data : list T) L M :
  0 <= M <= L -> M < SIZE_MAX ->
  exists n,
    Num_Alms L M = Ok n /\
    (mav_size data = n ->
     exists a, Alm_new data L M = Ok a /\ alm a = data /\
               lmax (base a) = L /\ n_entries (base a) = n) /\
    (mav_size data <> n ->
     Alm_new data L M = Err (ShapeError "bad array size")).
Proof.
  intros HM HM1. destruct (Alm_new_run data L M ltac:(lia)) as (ms & E).
  rewrite E. destruct (Num_Alms L M) as [n|f] eqn:En.
  - exists n. split; [done|]. cbn [bind]. unfold MR_assert. split.
    + intros ->. rewrite Z.eqb_refl. cbn [bind].
      eexists. split; [reflexivity|]. done.
    + intros Hne. destruct (Z.eqb_spec (mav_size data) n); done.
  - exfalso. unfold Num_Alms, MR_assert in En.
    destruct (Z.leb_spec M L); [done|lia].
Qed.

(** ** The phase twist *)

Section PhaseTwist.
Context {T : Type}.
Variable default_nthreads : Z.
Variable dsin dcos : double -> double.
Variable polar : double -> double -> Cplx double.
Variable cd_mul : Cplx double -> Cplx double -> Cplx double.
Variable cd_add : Cplx double -> Cplx double -> Cplx double.
Variable cd_scale : Cplx double -> double -> Cplx double.
Variable to_cd : Cplx T -> Cplx double.
Variable of_cd : Cplx double -> Cplx T.
Variable cT_mul_assign : Cplx T -> Cplx double -> Cplx T.

Lemma complete_dense_store (data : list (Cplx T)) L a :
  0 <= L -> Alm_new data L L = Ok a -> mav_size data = num_alms_exact L L ->
  L < SIZE_MAX /\ lmax (base a) = L /\ mval (base a) = seqZ 0 (L + 1) /\
  complete (base a) = true /\ alm a = data /\
  (forall l m, 0 <= m <= L -> m <= l <= L ->
     exists i, index (base a) l m = Ok i /\ 0 <= i < Z.of_nat (length data)) /\
  (forall l m l' m' i,
     0 <= m <= L -> m <= l <= L -> 0 <= m' <= L -> m' <= l' <= L ->
     index (base a) l m = Ok i -> index (base a) l' m' = Ok i ->
     l = l' /\ m = m').
Proof.
  intros HL Ha Hsz. destruct (Alm_new_inv data L L a Ha) as (Hb & Hd & Hl & Hn).
  rewrite Hsz in Hn.
  destruct (Num_Alms_exact_inv L L ltac:(lia) Hn) as [Hp Hx].
  destruct (Alm_Base_dense_layout L L ltac:(lia) Hp Hx)
    as (b & Eb & _ & _ & Hmv & _ & _).
  destruct (dense_layout_holds L L ltac:(lia) Hp Hx) as [_ (b' & Eb' & Hidx & Hinj)].
  rewrite Hb in Eb, Eb'. injection Eb as <-. injection Eb' as <-.
  assert (HL1 : L < SIZE_MAX) by (unfold SIZE_MOD, SIZE_MAX in *; nia).
  split; [done|]. split; [done|]. split; [done|]. split; [|split; [done|split]].
  - unfold complete, vsize. rewrite Hmv, length_seqZ, Hl.
    rewrite wrap_small by (unfold SIZE_MAX in *; lia). apply Z.eqb_eq. lia.
  - intros l m Hm Hlm. destruct (Hidx l m Hm Hlm) as (s & i & _ & Hi & _ & Hb').
    exists i. split; [done|]. unfold mav_size, vsize in Hsz. lia.
  - exact Hinj.
Qed.

(** The complete store of band-limit [L] over [data], twisted by
    [psi + phi]: the rotation for [theta == 0]. *)
Lemma rotate_phase_dense (data : list (Cplx T)) L a psi phi :
  0 <= L -> Alm_new data L L = Ok a -> mav_size data = num_alms_exact L L ->
  exists a',
    rotate_phase polar cT_mul_assign a psi phi = Ok a' /\
    base a' = base a /\ length (alm a') = length (alm a) /\
    forall l m, 0 <= m <= l -> l <= L ->
      exists i v,
        index (base a) l m = Ok i /\ alm a !! Z.to_nat i = Some v /\
        alm a' !! Z.to_nat i
        = Some (cT_mul_assign v (phase_factor polar psi phi m)).
Proof.
  intros HL Ha Hsz.
  destruct (complete_dense_store data L a HL Ha Hsz)
    as (HL1 & Hl & Hmv & _ & Hd & Hidx & Hinj).
  rewrite rotate_phase_visits by (rewrite Hl; lia). rewrite Hl, Hd.
  assert (Hdom : forall l m, (l, m) ∈ pairs_of L (seqZ 0 (L + 1)) ->
                             0 <= m <= L /\ m <= l <= L).
  { intros l m Hin. apply elem_of_pairs_of in Hin as [Hin ?].
    apply elem_of_seqZ in Hin. lia. }
  destruct (visits_spec (base a)
              (fun _ m v => Ok (cT_mul_assign v (phase_factor polar psi phi m)))
              (fun _ m v => cT_mul_assign v (phase_factor polar psi phi m))
              (pairs_of L (seqZ 0 (L + 1)))) with (buf := data)
    as (buf' & E & Hlen & Hspec).
  - done.
  - apply NoDup_pairs_of, NoDup_seqZ.
  - intros l m l' m' i Hin Hin' Hi Hi'.
    destruct (Hdom l m Hin), (Hdom l' m' Hin').
    destruct (Hinj l m l' m' i) as [-> ->]; done.
  - intros l m Hin. destruct (Hdom l m Hin). by apply Hidx.
  - rewrite E. cbn [bind]. eexists. split; [reflexivity|]. cbn [base alm].
    split; [done|]. split; [done|]. intros l m Hm Hlm.
    destruct (Hidx l m ltac:(lia) ltac:(lia)) as (i & Hi & Hb).
    destruct (lookup_lt_is_Some_2 data (Z.to_nat i)) as [v Hv]; [lia|].
    exists i, v. split; [done|]. split; [done|].
    apply (Hspec l m i v); [|done|done].
    apply elem_of_pairs_of. split; [apply elem_of_seqZ|]; lia.
Qed.

End PhaseTwist.

(** ** Only the completeness check of rotate_alm is an assertion *)

Definition no_shape {A : Type} (r : res A) : Prop := is_shape_error r = false.

Lemma no_shape_ok {A : Type} (a : A) : no_shape (Ok a).
Proof. done. Qed.

Lemma no_shape_bind {A B : Type} (m : res A) (k : A -> res B) :
  no_shape m -> (forall a, no_shape (k a)) -> no_shape (bind m k).
Proof. intros Hm Hk. destruct m as [a|f]; [apply Hk|exact Hm]. Qed.

Lemma no_shape_iterM {S : Type} (body : Z -> S -> res S) n :
  (forall i s, no_shape (body i s)) -> forall i s, no_shape (iterM n i body s).
Proof.
  intros Hb. induction n as [|n IH]; intros i s; [done|].
  cbn [iterM]. apply no_shape_bind; [apply Hb|intros; apply IH].
Qed.

Lemma no_shape_foldM {S X : Type} (body : X -> S -> res S) xs :
  (forall x s, no_shape (body x s)) -> forall s, no_shape (foldM body xs s).
Proof.
  intros Hb. induction xs as [|x xs IH]; intros s; [done|].
  cbn [foldM]. apply no_shape_bind; [apply Hb|intros; apply IH].
Qed.

Lemma no_shape_for_lt {S : Type} lo hi (body : Z -> S -> res S) s :
  (forall i s, no_shape (body i s)) -> no_shape (for_lt lo hi body s).
Proof. intros. by apply no_shape_iterM. Qed.

Lemma no_shape_for_le {S : Type} lo hi (body : Z -> S -> res S) s :
  (forall i s, no_shape (body i s)) -> no_shape (for_le lo hi body s).
Proof.
  intros. apply no_shape_bind; [by apply no_shape_iterM|].
  intros. by destruct (hi =? SIZE_MAX).
Qed.

Lemma no_shape_for_int_lt {S : Type} lo hi (body : Z -> S -> res S) s :
  (forall i s, no_shape (body i s)) -> no_shape (for_int_lt lo hi body s).
Proof. intros. by apply no_shape_iterM. Qed.

Lemma no_shape_for_int_le {S : Type} lo hi (body : Z -> S -> res S) s :
  (forall i s, no_shape (body i s)) -> no_shape (for_int_le lo hi body s).
Proof.
  intros. apply no_shape_bind; [by apply no_shape_iterM|].
  intros. by destruct (INT_MAX <=? hi).
Qed.

Lemma no_shape_vget {A : Type} (v : list A) i : no_shape (vget v i).
Proof. unfold vget. destruct (0 <=? i); [|done]. by destruct (v !! Z.to_nat i). Qed.

Lemma no_shape_vset {A : Type} (v : list A) i a : no_shape (vset v i a).
Proof. unfold vset. by destruct (_ && _). Qed.

Lemma no_shape_ptr_add a b : no_shape (ptr_add a b).
Proof. unfold ptr_add, ptr_check. by destruct (_ && _). Qed.

Lemma no_shape_mat_get a i j : no_shape (mat_get a i j).
Proof. unfold mat_get. destruct (mav2_inside a i j); [apply no_shape_vget|done]. Qed.

Lemma no_shape_mat_set a i j x : no_shape (mat_set a i j x).
Proof.
  unfold mat_set. destruct (mav2_inside a i j); [|done].
  apply no_shape_bind; [apply no_shape_vset|done].
Qed.

Lemma no_shape_index b l m : no_shape (index b l m).
Proof.
  unfold index, index_l0.
  repeat (apply no_shape_bind; [|done]). apply no_shape_vget.
Qed.

Lemma no_shape_Alm_get {T : Type} (a : Alm T) l m : no_shape (Alm_get a l m).
Proof.
  unfold Alm_get. apply no_shape_bind; [apply no_shape_index|].
  intros. apply no_shape_vget.
Qed.

Lemma no_shape_Alm_put {T : Type} (a : Alm T) l m x : no_shape (Alm_put a l m x).
Proof.
  unfold Alm_put. apply no_shape_bind; [apply no_shape_index|]. intros.
  apply no_shape_bind; [apply no_shape_vset|done].
Qed.

Lemma no_shape_double_to_size_t x : no_shape (double_to_size_t x).
Proof. unfold double_to_size_t. destruct x; try done. by destruct (_ && _). Qed.

Lemma no_shape_getNext t d : no_shape (getNext t d).
Proof.
  unfold getNext. destruct (mode d).
  - by destruct (single_done d).
  - apply no_shape_bind; [apply no_shape_vget|]. intros ns.
    destruct (nwork_ d <=? ns); [done|].
    apply no_shape_bind; [apply no_shape_vset|done].
  - destruct (nwork_ d <=? cur_ d); [done|].
    apply no_shape_bind; [apply no_shape_double_to_size_t|done].
Qed.

Lemma no_shape_execStatic dflt nwork nthreads chunksize d :
  no_shape (execStatic dflt nwork nthreads chunksize d).
Proof.
  unfold execStatic. cbv zeta. destruct (_ <=? _); [done|].
  apply no_shape_bind; [|done]. apply no_shape_for_lt. intros. apply no_shape_vset.
Qed.

(** A tactic for code that is built from the operations above. *)
Ltac no_shape_step :=
  first
    [ apply no_shape_ok
    | apply no_shape_vget | apply no_shape_vset | apply no_shape_ptr_add
    | apply no_shape_mat_get | apply no_shape_mat_set
    | apply no_shape_Alm_get | apply no_shape_Alm_put
    | apply no_shape_getNext | apply no_shape_execStatic
    | apply no_shape_for_le; intros ? ?
    | apply no_shape_for_lt; intros ? ?
    | apply no_shape_for_int_le; intros ? ?
    | apply no_shape_for_int_lt; intros ? ?
    | apply no_shape_foldM; intros ? ?
    | apply no_shape_bind; [|intros ?]
    | match goal with
      | |- no_shape (match ?x with (_, _) => _ end) => destruct x
      | |- no_shape (if ?c then _ else _) => destruct c
      | |- no_shape (let _ := _ in _) => cbv zeta
      end ].

Ltac no_shape_tac := repeat no_shape_step.

Lemma no_shape_wigner_half p q sqt n j xd xdd :
  no_shape (wigner_half p q sqt n j xd xdd).
Proof. unfold wigner_half. no_shape_tac. Qed.

Lemma no_shape_recurse w : no_shape (recurse w).
Proof.
  unfold recurse, wigner_pad. no_shape_tac; apply no_shape_wigner_half.
Qed.

Section NoShape.
Context {T : Type}.
Variable default_nthreads : Z.
Variable dsin dcos : double -> double.
Variable polar : double -> double -> Cplx double.
Variable cd_mul : Cplx double -> Cplx double -> Cplx double.
Variable cd_add : Cplx double -> Cplx double -> Cplx double.
Variable cd_scale : Cplx double -> double -> Cplx double.
Variable to_cd : Cplx T -> Cplx double.
Variable of_cd : Cplx double -> Cplx T.
Variable cT_mul_assign : Cplx T -> Cplx double -> Cplx T.

Lemma no_shape_rotate_job (a : Alm (Cplx T)) exppsi d l tid st :
  no_shape (rotate_job cd_mul cd_add to_cd a exppsi d l tid st).
Proof. unfold rotate_job. destruct st. no_shape_tac. Qed.

Lemma no_shape_rotate_general g (a : Alm (Cplx T)) psi theta phi :
  no_shape (rotate_general default_nthreads dsin dcos polar cd_mul cd_add
              cd_scale to_cd of_cd g a psi theta phi).
Proof.
  unfold rotate_general, wigner_new, thread_map, run_execStatic.
  no_shape_tac; first [apply no_shape_recurse | apply no_shape_rotate_job].
Qed.

Lemma no_shape_rotate_phase (a : Alm (Cplx T)) psi phi :
  no_shape (rotate_phase polar cT_mul_assign a psi phi).
Proof. unfold rotate_phase. no_shape_tac. Qed.

End NoShape.

(** ** rotate_alm keeps the layout and the size of the buffer *)

Lemma iterM_preserve {S : Type} (P : S -> Prop) (body : Z -> S -> res S) n :
  (forall i s s', body i s = Ok s' -> P s -> P s') ->
  forall i s s', iterM n i body s = Ok s' -> P s -> P s'.
Proof.
  intros Hb. induction n as [|n IH]; intros i s s' E Hs.
  - cbn in E. by simplify_eq.
  - cbn [iterM] in E. destruct (body i s) as [t|] eqn:Et; [|done].
    cbn [bind] in E. eapply IH; [exact E|]. by eapply Hb.
Qed.

Lemma for_le_preserve {S : Type} (P : S -> Prop) lo hi (body : Z -> S -> res S) s s' :
  (forall i s s', body i s = Ok s' -> P s -> P s') ->
  for_le lo hi body s = Ok s' -> P s -> P s'.
Proof.
  intros Hb E. unfold for_le in E.
  destruct (iterM _ lo body s) as [t|] eqn:Et; [|done]. cbn [bind] in E.
  destruct (hi =? SIZE_MAX); [done|]. injection E as <-.
  by eapply iterM_preserve.
Qed.

(** Two stores with the same layout and buffers of the same length. *)
Definition same_shape {T : Type} (a a' : Alm T) : Prop :=
  base a' = base a /\ length (alm a') = length (alm a).

Lemma Alm_put_shape {T : Type} (a a' : Alm T) l m x :
  Alm_put a l m x = Ok a' -> same_shape a a'.
Proof.
  unfold Alm_put, mav_set, vset. destruct (index (base a) l m) as [i|]; [|done].
  cbn [bind]. destruct (_ && _); [|done]. cbn [bind]. intros [= <-].
  split; [done|]. cbn. by rewrite length_insert.
Qed.

Lemma same_shape_trans {T : Type} (a b c : Alm T) :
  same_shape a b -> same_shape b c -> same_shape a c.
Proof. intros [? ?] [? ?]. split; congruence. Qed.

Section Shape.
Context {T : Type}.
Variable default_nthreads : Z.
Variable dsin dcos : double -> double.
Variable polar : double -> double -> Cplx double.
Variable cd_mul : Cplx double -> Cplx double -> Cplx double.
Variable cd_add : Cplx double -> Cplx double -> Cplx double.
Variable cd_scale : Cplx double -> double -> Cplx double.
Variable to_cd : Cplx T -> Cplx double.
Variable of_cd : Cplx double -> Cplx T.
Variable cT_mul_assign : Cplx T -> Cplx double -> Cplx T.

Lemma rotate_phase_shape (a a' : Alm (Cplx T)) psi phi :
  rotate_phase polar cT_mul_assign a psi phi = Ok a' -> same_shape a a'.
Proof.
  unfold rotate_phase. cbv zeta. intros E.
  apply (for_le_preserve (same_shape a) _ _ _ _ _) in E; [done| |done].
  intros m a1 a2 E1 H1.
  apply (for_le_preserve (same_shape a) _ _ _ _ _) in E1; [done| |done].
  intros l a3 a4 E3 H3. destruct (Alm_get a3 l m); [|done]. cbn [bind] in E3.
  eapply same_shape_trans; [exact H3|]. by eapply Alm_put_shape.
Qed.

Lemma rotate_general_shape g (a a' : Alm (Cplx T)) psi theta phi w :
  rotate_general default_nthreads dsin dcos polar cd_mul cd_add cd_scale
    to_cd of_cd g a psi theta phi = Ok (a', w) ->
  same_shape a a'.
Proof.
  unfold rotate_general. cbv zeta. intros E.
  destruct (for_le 0 (Lmax (base a)) _ (_, _)) as [[exppsi expphi]|]; [|done].
  cbn [bind] in E. destruct (wigner_new _ _ _ _) as [rec|]; [|done].
  cbn [bind] in E.
  destruct (for_le 0 (Lmax (base a)) _ (a, rec, _)) as [[[a1 rec1] tmp1]|] eqn:E1;
    [|done].
  cbn [bind] in E. injection E as <- <-.
  apply (for_le_preserve
           (fun st : Alm (Cplx T) * wigner_d_risbo_openmp * list (Cplx double) =>
              same_shape a st.1.1) _ _ _ _ _) in E1; [done| |done].
  intros l [[a2 rec2] tmp2] [[a3 rec3] tmp3] E2 H2. cbn [fst] in *.
  destruct (recurse rec2) as [rec'|]; [|done]. cbn [bind] in E2.
  destruct (Alm_get a2 l 0); [|done]. cbn [bind] in E2.
  destruct (for_le 0 l _ tmp2) as [tmp|]; [|done]. cbn [bind] in E2.
  destruct (run_execStatic _ _ _ _ _) as [dist|]; [|done]. cbn [bind] in E2.
  destruct (thread_map _ dist tmp) as [[dist' tmp']|]; [|done]. cbn [bind] in E2.
  destruct (for_le 0 l _ a2) as [a4|] eqn:E4; [|done]. cbn [bind] in E2.
  injection E2 as <- <- <-.
  apply (for_le_preserve (same_shape a) _ _ _ _ _) in E4; [done| |done].
  intros m a5 a6 E5 H5.
  destruct (vget tmp' m); [|done]. cbn [bind] in E5.
  destruct (vget expphi m); [|done]. cbn [bind] in E5.
  eapply same_shape_trans; [exact H5|]. by eapply Alm_put_shape.
Qed.

(** [rotate_alm] and the completeness check. *)
Lemma rotate_alm_guard g (a : Alm (Cplx T)) psi theta phi :
  let r := rotate_alm default_nthreads dsin dcos polar cd_mul cd_add cd_scale
             to_cd of_cd cT_mul_assign g a psi theta phi in
  (complete (base a) = false ->
   r = Err (ShapeError "rotate_alm: need complete A_lm set")) /\
  (complete (base a) = true ->
   is_shape_error r = false /\
   r = if negb (SFeqb theta dzero)
       then let* (a', rec) :=
              rotate_general default_nthreads dsin dcos polar cd_mul cd_add
                cd_scale to_cd of_cd g a psi theta phi in
            Ok (a', Some rec)
       else a' <- rotate_phase polar cT_mul_assign a psi phi ;; Ok (a', None)) /\
  (forall a' w, r = Ok (a', w) -> same_shape a a').
Proof.
  cbv zeta. unfold rotate_alm, MR_assert.
  destruct (complete (base a)); cbn [bind].
  - split; [done|]. split.
    + intros _. split; [|done]. destruct (negb (SFeqb theta dzero)).
      * apply no_shape_bind; [apply no_shape_rotate_general|]. by intros [].
      * apply no_shape_bind; [apply no_shape_rotate_phase|]. done.
    + intros a' w. destruct (negb (SFeqb theta dzero)).
      * destruct (rotate_general _ _ _ _ _ _ _ _ _ _ _ _ _ _) as [[a1 rec]|] eqn:E;
          [|done].
        cbn [bind]. intros [= <- <-]. by eapply rotate_general_shape.
      * destruct (rotate_phase _ _ _ _ _) as [a1|] eqn:E; [|done].
        cbn [bind]. intros [= <- <-]. by eapply rotate_phase_shape.
  - split; [done|]. split; [done|]. done.
Qed.

End Shape.

(** ** Frame of applyLM *)



Section Frame.
Context {T T2 : Type}.
Variable mul_assign : T -> T2 -> T.





End Frame.

(** ** The sparse constructor with implicit offsets *)

Fixpoint sum_list_Z (xs : list Z) : Z :=
  match xs with
  | [] => 0
  | x :: xs' => x + sum_list_Z xs'
  end.

(** Columns packed one after the other in the order of [mv]. *)
Definition packs_consecutively (L : Z) (mv : list Z) (b : Alm_Base) : Prop :=
  (forall m0, mv !! O = Some m0 -> index b m0 m0 = Ok 0) /\
  (forall i m m', mv !! i = Some m -> mv !! Datatypes.S i = Some m' ->
     exists s, index b L m = Ok s /\ index b m' m' = Ok (s + 1)) /\
  arrsize b = sum_list_Z ((fun m => L - m + 1) <$> mv).

Lemma Alm_Base_dense_max L : Alm_Base_dense L SIZE_MAX = Err OutOfBounds.
Proof.
  unfold Alm_Base_dense, for_le. cbv zeta.
  assert (E0 : Z.to_nat (wrap (SIZE_MAX + 1)) = O) by reflexivity. rewrite E0.
  assert (E1 : exists n, Z.to_nat (SIZE_MAX + 1 - 0) = Datatypes.S n).
  { exists (Z.to_nat SIZE_MAX). unfold SIZE_MAX. lia. }
  destruct E1 as [n ->]. reflexivity.
Qed.

Lemma complete_built {T : Type} (data : list T) L M a :
  is_size_t L -> is_size_t M -> Alm_new data L M = Ok a ->
  mval (base a) = seqZ 0 (M + 1) /\
  (complete (base a) = true <-> vsize (mval (base a)) = L + 1).
Proof.
  unfold is_size_t. intros HL HM Ha.
  destruct (Alm_new_inv data L M a Ha) as (Hb & _ & Hl & _).
  assert (HM1 : M < SIZE_MAX).
  { assert (Hne : M <> SIZE_MAX); [|lia].
    clear Ha. intros ->. rewrite Alm_Base_dense_max in Hb. discriminate Hb. }
  destruct (Alm_Base_dense_run L M ltac:(lia)) as (ms & E & _).
  rewrite Hb in E. destruct (Num_Alms L M) as [n|]; [|done]. cbn [bind] in E.
  injection E as E. rewrite E. cbn [mval lmax base]. split; [done|].
  unfold complete, vsize. cbn [mval lmax]. rewrite length_seqZ.
  rewrite Z.eqb_eq. unfold SIZE_MAX in *.
  destruct (decide (L = 18446744073709551615)) as [->|].
  - assert (E0 : wrap (18446744073709551615 + 1) = 0) by reflexivity.
    rewrite E0. lia.
  - rewrite wrap_small by lia. lia.
Qed.

Lemma theta_zero_returns {T : Type} (default_nthreads : Z)
    (dsin dcos : double -> double) (polar : double -> double -> Cplx double)
    (cd_mul cd_add : Cplx double -> Cplx double -> Cplx double)
    (cd_scale : Cplx double -> double -> Cplx double)
    (to_cd : Cplx T -> Cplx double) (of_cd : Cplx double -> Cplx T)
    (cT_mul_assign : Cplx T -> Cplx double -> Cplx T)
    (g : Distribution) (data : list (Cplx T)) (L : Z) (a : Alm (Cplx T))
    (psi theta phi : double) :
  0 <= L -> Alm_new data L L = Ok a -> mav_size data = num_alms_exact L L ->
  SFeqb theta dzero = true ->
  exists a',
    rotate_alm default_nthreads dsin dcos polar cd_mul cd_add cd_scale to_cd
      of_cd cT_mul_assign g a psi theta phi = Ok (a', None).
Proof.
  intros HL Ha Hsz Hth.
  destruct (complete_dense_store data L a HL Ha Hsz) as (_ & _ & _ & Hc & _).
  destruct (rotate_phase_dense polar cT_mul_assign data L a psi phi HL Ha Hsz)
    as (a' & E & _).
  exists a'. unfold rotate_alm, MR_assert.
  rewrite Hc, Hth. cbn [bind negb]. rewrite E. done.
Qed.

(** ** The rotation runs to its end

    Every array access of the Wigner recursion and of the rotation lies
    within the arrays, for band-limits below 2^30, where the [int] counters
    of [recurse] do not overflow. *)

Lemma vget_total {A : Type} (v : list A) i :
  0 <= i < vsize v -> exists a, vget v i = Ok a.
Proof.
  intros Hi. unfold vsize in Hi.
  destruct (lookup_lt_is_Some_2 v (Z.to_nat i)) as [a Ha]; [lia|].
  exists a. apply vget_ok; [lia|done].
Qed.

Lemma vset_total {A : Type} (v : list A) i a n :
  vsize v = n -> 0 <= i < n ->
  exists v', vset v i a = Ok v' /\ vsize v' = n.
Proof.
  intros <- Hi. eexists. split; [apply vset_ok; apply Hi|].
  unfold vsize. by rewrite length_insert.
Qed.

(** A matrix of [R] rows and [C] columns. *)
Definition mat_ok (R C : Z) (a : mav2) : Prop :=
  rows a = R /\ cols a = C /\ vsize (cells a) = R * C.

Lemma mav2_new_ok R C : 0 <= R -> 0 <= C -> mat_ok R C (mav2_new R C).
Proof.
  intros HR HC. unfold mat_ok, mav2_new, vsize. cbn.
  rewrite length_replicate. split; [done|]. split; [done|]. nia.
Qed.

Lemma mav2_inside_true R C a i j :
  mat_ok R C a -> 0 <= i < R -> 0 <= j < C -> mav2_inside a i j = true.
Proof.
  intros (<- & <- & _) Hi Hj. unfold mav2_inside.
  destruct (Z.leb_spec 0 i); [|lia]. destruct (Z.ltb_spec i (rows a)); [|lia].
  destruct (Z.leb_spec 0 j); [|lia]. destruct (Z.ltb_spec j (cols a)); [done|lia].
Qed.

Lemma mat_get_total R C a i j :
  mat_ok R C a -> 0 <= i < R -> 0 <= j < C -> exists x, mat_get a i j = Ok x.
Proof.
  intros Ha Hi Hj. unfold mat_get. rewrite (mav2_inside_true R C) by done.
  destruct Ha as (<- & <- & Hc). apply vget_total. nia.
Qed.

Lemma mat_set_total R C a i j x :
  mat_ok R C a -> 0 <= i < R -> 0 <= j < C ->
  exists a', mat_set a i j x = Ok a' /\ mat_ok R C a'.
Proof.
  intros Ha Hi Hj. unfold mat_set. rewrite (mav2_inside_true R C) by done.
  destruct Ha as (HR & HC & Hc).
  destruct (vset_total (cells a) (i * cols a + j) x (R * C)) as (c & -> & Hc');
    [done|nia|].
  cbn [bind]. eexists. split; [reflexivity|]. done.
Qed.

(** Loops whose body succeeds and keeps [P] succeed and keep [P]. *)
Lemma iterM_total {S : Type} (P : S -> Prop) (body : Z -> S -> res S) n i s :
  P s ->
  (forall j t, i <= j < i + Z.of_nat n -> P t ->
     exists t', body j t = Ok t' /\ P t') ->
  exists s', iterM n i body s = Ok s' /\ P s'.
Proof.
  intros Hs Hstep.
  destruct (iterM_inv (fun _ => P) body n i s Hs) as (s' & E & Hs'); [|by exists s'].
  intros j t Hj Ht. by apply Hstep.
Qed.

Lemma for_lt_total {S : Type} (P : S -> Prop) lo hi (body : Z -> S -> res S) s :
  P s ->
  (forall j t, lo <= j < hi -> P t -> exists t', body j t = Ok t' /\ P t') ->
  exists s', for_lt lo hi body s = Ok s' /\ P s'.
Proof.
  intros Hs Hstep. apply iterM_total; [done|].
  intros j t Hj. apply Hstep. lia.
Qed.

Lemma for_le_total {S : Type} (P : S -> Prop) lo hi (body : Z -> S -> res S) s :
  hi < SIZE_MAX -> P s ->
  (forall j t, lo <= j <= hi -> P t -> exists t', body j t = Ok t' /\ P t') ->
  exists s', for_le lo hi body s = Ok s' /\ P s'.
Proof.
  intros Hhi Hs Hstep. unfold for_le.
  destruct (iterM_total P body (Z.to_nat (hi + 1 - lo)) lo s Hs) as (s' & -> & Hs').
  { intros j t Hj. apply Hstep. lia. }
  cbn [bind]. destruct (Z.eqb_spec hi SIZE_MAX); [lia|]. by exists s'.
Qed.

Lemma for_int_lt_total {S : Type} (P : S -> Prop) lo hi
    (body : Z -> S -> res S) s :
  P s ->
  (forall j t, lo <= j < hi -> P t -> exists t', body j t = Ok t' /\ P t') ->
  exists s', for_int_lt lo hi body s = Ok s' /\ P s'.
Proof.
  intros Hs Hstep. apply iterM_total; [done|].
  intros j t Hj. apply Hstep. lia.
Qed.

Lemma for_int_le_total {S : Type} (P : S -> Prop) lo hi
    (body : Z -> S -> res S) s :
  hi < INT_MAX -> P s ->
  (forall j t, lo <= j <= hi -> P t -> exists t', body j t = Ok t' /\ P t') ->
  exists s', for_int_le lo hi body s = Ok s' /\ P s'.
Proof.
  intros Hhi Hs Hstep. unfold for_int_le.
  destruct (iterM_total P body (Z.to_nat (Z.min hi INT_MAX + 1 - lo)) lo s Hs)
    as (s' & -> & Hs').
  { intros j t Hj. apply Hstep. lia. }
  cbn [bind]. destruct (Z.leb_spec INT_MAX hi); [lia|]. by exists s'.
Qed.

(** One operation of a sequence: it succeeds, and the sequence goes on. *)
Ltac run_vget :=
  lazymatch goal with
  | |- context [bind (vget ?v ?i) _] =>
      let x := fresh "x" in
      destruct (vget_total v i) as [x ->]; [lia|cbn [bind]]
  end.

Ltac run_mat_get R C :=
  lazymatch goal with
  | |- context [bind (mat_get ?a ?i ?j) _] =>
      let x := fresh "x" in
      destruct (mat_get_total R C a i j) as [x ->];
      [assumption|lia|lia|cbn [bind]]
  end.

Ltac run_mat_set R C :=
  lazymatch goal with
  | |- context [bind (mat_set ?a ?i ?j ?v) _] =>
      let x := fresh "m" in
      let H := fresh "Hm" in
      destruct (mat_set_total R C a i j v) as (x & -> & H);
      [assumption|lia|lia|cbn [bind]]
  end.

Ltac run_mat R C :=
  repeat first [run_vget | run_mat_get R C | run_mat_set R C].

Ltac run_for_lt P :=
  lazymatch goal with
  | |- context [bind (for_lt ?lo ?hi ?body ?s) _] =>
      let s' := fresh "s" in
      let H := fresh "Hs" in
      destruct (for_lt_total P lo hi body s) as (s' & -> & H); [| |cbn [bind]]
  end.

Ltac run_for_le P :=
  lazymatch goal with
  | |- context [bind (for_le ?lo ?hi ?body ?s) _] =>
      let s' := fresh "s" in
      let H := fresh "Hs" in
      destruct (for_le_total P lo hi body s) as (s' & -> & H); [| | |cbn [bind]]
  end.

Ltac run_for_int_lt P :=
  lazymatch goal with
  | |- context [bind (for_int_lt ?lo ?hi ?body ?s) _] =>
      let s' := fresh "s" in
      let H := fresh "Hs" in
      destruct (for_int_lt_total P lo hi body s) as (s' & -> & H); [| |cbn [bind]]
  end.

Ltac run_for_int_le P :=
  lazymatch goal with
  | |- context [bind (for_int_le ?lo ?hi ?body ?s) _] =>
      let s' := fresh "s" in
      let H := fresh "Hs" in
      destruct (for_int_le_total P lo hi body s) as (s' & -> & H); [| | |cbn [bind]]
  end.

(** The recursion for band-limit [L] after the matrix of degree [k]. *)
Definition wigner_ok (L k : Z) (w : wigner_d_risbo_openmp) : Prop :=
  vsize (w_sqt w) = 2 * L + 1 /\
  mat_ok (L + 1) (2 * L + 1) (w_d w) /\
  mat_ok (L + 1) (2 * L + 1) (w_dd w) /\
  w_n w = k.

Lemma wigner_new_total dsin dcos L ang :
  0 <= L < 1073741824 ->
  exists w, wigner_new dsin dcos L ang = Ok w /\ wigner_ok L (-1) w.
Proof.
  intros HL. unfold wigner_new. cbv zeta.
  rewrite !wrap_small by lia.
  run_for_lt (fun v : list double => vsize v = 2 * L + 1).
  - unfold vsize. rewrite length_replicate. lia.
  - intros m v Hm Hv. apply vset_total; [done|].
    unfold vsize in Hm. rewrite length_replicate in Hm. lia.
  - eexists. split; [reflexivity|]. split; [done|].
    split; [apply mav2_new_ok; lia|]. split; [apply mav2_new_ok; lia|done].
Qed.

Lemma wigner_pad_total L n d :
  mat_ok (L + 1) (2 * L + 1) d -> 2 <= n <= L -> L < 1073741824 ->
  exists d', wigner_pad n d = Ok d' /\ mat_ok (L + 1) (2 * L + 1) d'.
Proof.
  intros Hd Hn HL. unfold wigner_pad.
  run_for_int_le (fun st : mav2 * Z => mat_ok (L + 1) (2 * L + 1) st.1).
  - unfold INT_MAX. lia.
  - done.
  - intros i [d1 sg] Hi Hd1. cbn [fst] in Hd1. cbv beta iota.
    run_mat (L + 1) (2 * L + 1). eexists. split; [reflexivity|]. done.
  - destruct s as [d' sg]. cbv beta iota. by exists d'.
Qed.

Lemma wigner_half_total L p q sqt n j xd xdd :
  vsize sqt = 2 * L + 1 ->
  mat_ok (L + 1) (2 * L + 1) xd -> mat_ok (L + 1) (2 * L + 1) xdd ->
  2 <= n <= L -> L < 1073741824 -> 2 * n - 1 <= j <= 2 * n ->
  exists xdd',
    wigner_half p q sqt n j xd xdd = Ok xdd' /\
    mat_ok (L + 1) (2 * L + 1) xdd'.
Proof.
  intros Hsq Hxd Hxdd Hn HL Hj. unfold wigner_half. cbv zeta.
  run_mat (L + 1) (2 * L + 1).
  run_for_int_lt (mat_ok (L + 1) (2 * L + 1)).
  - done.
  - intros i y Hi Hy. cbv beta. run_mat (L + 1) (2 * L + 1).
    apply (mat_set_total (L + 1) (2 * L + 1)); [done|lia|lia].
  - run_mat (L + 1) (2 * L + 1).
    apply for_int_le_total; [unfold INT_MAX; lia|done|].
    intros k y Hk Hy. cbv beta. run_mat (L + 1) (2 * L + 1).
    run_for_int_lt (mat_ok (L + 1) (2 * L + 1)).
    + done.
    + intros i z Hi Hz. cbv beta. run_mat (L + 1) (2 * L + 1).
      apply (mat_set_total (L + 1) (2 * L + 1)); [done|lia|lia].
    + run_mat (L + 1) (2 * L + 1).
      apply (mat_set_total (L + 1) (2 * L + 1)); [done|lia|lia].
Qed.

Lemma recurse_total L k w :
  wigner_ok L k w -> -1 <= k < L -> L < 1073741824 ->
  exists w', recurse w = Ok w' /\ wigner_ok L (k + 1) w'.
Proof.
  intros (Hsq & Hd & Hdd & Hn) Hk HL. unfold recurse, ptr_add, ptr_check.
  rewrite Hn.
  destruct (Z.leb_spec PTRDIFF_MIN (k + 1)); [|unfold PTRDIFF_MIN in *; lia].
  destruct (Z.leb_spec (k + 1) PTRDIFF_MAX); [|unfold PTRDIFF_MAX in *; lia].
  cbn [andb bind]. cbv zeta.
  destruct (Z.eqb_spec (k + 1) 0) as [E0|N0].
  - run_mat (L + 1) (2 * L + 1). eexists. split; [reflexivity|]. done.
  - destruct (Z.eqb_spec (k + 1) 1) as [E1|N1].
    + run_mat (L + 1) (2 * L + 1). eexists. split; [reflexivity|]. done.
    + destruct (wigner_pad_total L (k + 1) (w_d w)) as (d1 & -> & Hd1);
        [done|lia|done|].
      cbn [bind].
      run_for_int_le (fun st : mav2 * mav2 =>
                        mat_ok (L + 1) (2 * L + 1) st.1 /\
                        mat_ok (L + 1) (2 * L + 1) st.2).
      * unfold INT_MAX. lia.
      * done.
      * intros j [y yy] Hj [Hy Hyy]. cbn [fst snd] in Hy, Hyy. cbv beta iota.
        destruct (Z.odd j).
        -- destruct (wigner_half_total L (w_p w) (w_q w) (w_sqt w) (k + 1) j y yy)
             as (z & -> & Hz); [done|done|done|lia|done|lia|].
           cbn [bind]. eexists. split; [reflexivity|]. done.
        -- destruct (wigner_half_total L (w_p w) (w_q w) (w_sqt w) (k + 1) j yy y)
             as (z & -> & Hz); [done|done|done|lia|done|lia|].
           cbn [bind]. eexists. split; [reflexivity|]. done.
      * destruct s as [y yy]. destruct Hs as [Hy Hyy]. cbv beta iota.
        eexists. split; [reflexivity|]. done.
Qed.

Lemma for_le_inv {S : Type} (I : Z -> S -> Prop) lo hi (body : Z -> S -> res S) s :
  lo <= hi + 1 -> hi < SIZE_MAX -> I lo s ->
  (forall j t, lo <= j <= hi -> I j t ->
     exists t', body j t = Ok t' /\ I (j + 1) t') ->
  exists s', for_le lo hi body s = Ok s' /\ I (hi + 1) s'.
Proof.
  intros Hlo Hhi Hs Hstep. unfold for_le.
  destruct (iterM_inv I body (Z.to_nat (hi + 1 - lo)) lo s Hs) as (s' & -> & Hs').
  { intros j t Hj. apply Hstep. lia. }
  cbn [bind]. destruct (Z.eqb_spec hi SIZE_MAX); [lia|]. exists s'.
  split; [done|]. by replace (hi + 1) with (lo + Z.of_nat (Z.to_nat (hi + 1 - lo))) by lia.
Qed.

Lemma for_le_first {S : Type} lo hi (body : Z -> S -> res S) s :
  lo <= hi ->
  for_le lo hi body s = (s' <- body lo s ;; for_le (lo + 1) hi body s').
Proof.
  intros Hlo. unfold for_le.
  replace (Z.to_nat (hi + 1 - lo)) with (Datatypes.S (Z.to_nat (hi + 1 - (lo + 1))))
    by lia.
  cbn [iterM]. by destruct (body lo s).
Qed.

Lemma for_le_none {S : Type} lo hi (body : Z -> S -> res S) s :
  hi < lo -> hi <> SIZE_MAX -> for_le lo hi body s = Ok s.
Proof.
  intros Hlo Hhi. unfold for_le.
  replace (Z.to_nat (hi + 1 - lo)) with O by lia. cbn [iterM bind].
  by destruct (Z.eqb_spec hi SIZE_MAX).
Qed.

Ltac run_vset n :=
  lazymatch goal with
  | |- context [bind (vset ?v ?i ?x) _] =>
      let v' := fresh "v" in
      let H := fresh "Hv" in
      destruct (vset_total v i x n) as (v' & -> & H); [assumption|lia|cbn [bind]]
  end.

(** Every coefficient a(l, m) with 0 <= m <= l <= L has its slot in the
    buffer. *)
Definition addressable {T : Type} (L : Z) (a : Alm T) : Prop :=
  forall l m, 0 <= m <= l -> l <= L ->
    exists i, index (base a) l m = Ok i /\ 0 <= i < vsize (alm a).

Lemma Alm_get_total {T : Type} L (a : Alm T) l m :
  addressable L a -> 0 <= m <= l -> l <= L -> exists x, Alm_get a l m = Ok x.
Proof.
  intros Ha Hm Hl. destruct (Ha l m Hm Hl) as (i & E & Hi).
  unfold Alm_get, mav_get. rewrite E. cbn [bind]. by apply vget_total.
Qed.

Lemma Alm_put_total {T : Type} L (a : Alm T) l m x :
  addressable L a -> 0 <= m <= l -> l <= L ->
  exists a', Alm_put a l m x = Ok a' /\ addressable L a'.
Proof.
  intros Ha Hm Hl. destruct (Ha l m Hm Hl) as (i & E & Hi).
  unfold Alm_put, mav_set. rewrite E. cbn [bind].
  destruct (vset_total (alm a) i x (vsize (alm a))) as (buf & -> & Hbuf);
    [done|done|].
  cbn [bind]. eexists. split; [reflexivity|].
  intros l' m' Hm' Hl'. cbn [base alm]. rewrite Hbuf. by apply Ha.
Qed.

(** [execStatic(nwork, 1, 0, f)] runs [f] once, inline, and hands it the
    whole of [0, nwork). *)
Lemma run_execStatic_one dflt g nwork t :
  0 <= nwork <= SIZE_MAX ->
  exists d d',
    run_execStatic dflt g nwork 1 0 = Ok d /\ thread_ids d = [0] /\
    getNext t d = Ok (mkRange 0 nwork, d').
Proof.
  intros Hw. unfold run_execStatic, execStatic, execSingle. cbv zeta. dist_simpl.
  change (1 =? 0) with false. change (0 <? 1) with true. cbv iota.
  rewrite Z.div_1_r. replace (nwork + 1 - 1) with nwork by lia.
  rewrite wrap_small by (unfold SIZE_MAX in Hw; lia).
  rewrite Z.leb_refl. eexists _, _. split; [reflexivity|]. split; reflexivity.
Qed.

Section Total.
Context {T : Type}.
Variable default_nthreads : Z.
Variable dsin dcos : double -> double.
Variable polar : double -> double -> Cplx double.
Variable cd_mul : Cplx double -> Cplx double -> Cplx double.
Variable cd_add : Cplx double -> Cplx double -> Cplx double.
Variable cd_scale : Cplx double -> double -> Cplx double.
Variable to_cd : Cplx T -> Cplx double.
Variable of_cd : Cplx double -> Cplx T.
Variable cT_mul_assign : Cplx T -> Cplx double -> Cplx T.

Lemma rotate_job_total L (a : Alm (Cplx T)) exppsi d l tid dist dist' almtmp :
  addressable L a -> vsize exppsi = L + 1 ->
  mat_ok (L + 1) (2 * L + 1) d -> vsize almtmp = L + 1 ->
  0 <= l <= L -> L < 1073741824 ->
  getNext tid dist = Ok (mkRange 0 (l + 1), dist') ->
  exists st',
    rotate_job cd_mul cd_add to_cd a exppsi d l tid (dist, almtmp) = Ok st' /\
    vsize st'.2 = L + 1.
Proof.
  intros Ha He Hd Ht Hl HL Hnext. unfold rotate_job. rewrite Hnext.
  cbn [bind]. cbv beta iota. cbn [lo hi].
  run_for_le (fun st : list (Cplx double) * bool => vsize st.1 = L + 1).
  - unfold SIZE_MAX. lia.
  - done.
  - intros mm [tmp fl] Hmm Htmp. cbn [fst] in Htmp. cbv beta iota.
    destruct (Alm_get_total L a l mm) as [x ->]; [done|lia|lia|].
    cbn [bind]. run_vget. cbv zeta.
    run_for_lt (fun st : list (Cplx double) * bool => vsize st.1 = L + 1).
    + done.
    + intros m [tmp2 fl2] Hm Htmp2. cbn [fst] in Htmp2. cbv beta iota.
      rewrite !wrap_small by lia. run_mat (L + 1) (2 * L + 1). cbv zeta.
      run_vset (L + 1). eexists. split; [reflexivity|]. done.
    + destruct s as [tmp3 fl3]. cbv beta iota. eexists. split; [reflexivity|].
      done.
  - destruct s as [tmp4 fl4]. cbv beta iota. eexists. split; [reflexivity|].
    done.
Qed.

Lemma rotate_general_total L g (a : Alm (Cplx T)) psi theta phi :
  0 <= L < 1073741824 -> Lmax (base a) = L -> addressable L a ->
  exists a' w,
    rotate_general default_nthreads dsin dcos polar cd_mul cd_add cd_scale
      to_cd of_cd g a psi theta phi = Ok (a', w) /\
    addressable L a' /\ wigner_ok L L w.
Proof.
  intros HL HLm Ha. unfold rotate_general. cbv zeta. rewrite HLm.
  rewrite !wrap_small by lia.
  run_for_le (fun st : list (Cplx double) * list (Cplx double) =>
                vsize st.1 = L + 1 /\ vsize st.2 = L + 1).
  { unfold SIZE_MAX. lia. }
  { unfold vsize. cbn [fst snd]. rewrite length_replicate. lia. }
  { intros m [e1 e2] Hm [H1 H2]. cbn [fst snd] in H1, H2. cbv beta iota.
    run_vset (L + 1). run_vset (L + 1). eexists. split; [reflexivity|]. done. }
  destruct s as [exppsi expphi]. destruct Hs as [Hpsi Hphi].
  cbn [fst snd] in Hpsi, Hphi. cbv beta iota.
  destruct (wigner_new_total dsin dcos L theta HL) as (rec & -> & Hrec).
  cbn [bind].
  lazymatch goal with
  | |- context [bind (for_le ?lo ?hi ?body ?s) _] =>
      destruct (for_le_inv
                  (fun l (st : Alm (Cplx T) * wigner_d_risbo_openmp
                               * list (Cplx double)) =>
                     addressable L st.1.1 /\ wigner_ok L (l - 1) st.1.2 /\
                     vsize st.2 = L + 1)
                  lo hi body s)
        as ([[a' w] tmp] & -> & Ha' & Hw & _)
  end.
  { lia. }
  { unfold SIZE_MAX. lia. }
  { cbn [fst snd]. split; [done|]. split; [done|].
    unfold vsize. rewrite length_replicate. lia. }
  { intros l [[a1 rec1] tmp1] Hl (Ha1 & Hrec1 & Htmp1).
    cbn [fst snd] in Ha1, Hrec1, Htmp1. cbv beta iota.
    destruct (recurse_total L (l - 1) rec1 Hrec1) as (rec' & -> & Hrec');
      [lia|lia|].
    replace (l - 1 + 1) with l in Hrec' by lia.
    pose proof Hrec' as (_ & Hd & _ & _).
    cbn [bind]. cbv zeta.
    destruct (Alm_get_total L a1 l 0) as [a0 ->]; [done|lia|lia|].
    cbn [bind].
    run_for_le (fun v : list (Cplx double) => vsize v = L + 1).
    { unfold SIZE_MAX. lia. }
    { done. }
    { intros m v Hm Hv. cbv beta. rewrite !wrap_small by lia.
      run_mat (L + 1) (2 * L + 1). by apply vset_total; [|lia]. }
    rewrite !wrap_small by lia.
    destruct (run_execStatic_one default_nthreads g (l + 1) 0)
      as (dist & dist' & -> & Hids & Hnext); [unfold SIZE_MAX; lia|].
    cbn [bind]. unfold thread_map. rewrite Hids. cbn [foldM].
    destruct (rotate_job_total L a1 exppsi (w_d rec') l 0 dist dist' s)
      as ([dist2 tmp2] & -> & Htmp2); [done|done|done|done|lia|lia|done|].
    cbn [snd] in Htmp2. cbn [bind]. cbv beta iota.
    run_for_le (addressable (T:=Cplx T) L).
    { unfold SIZE_MAX. lia. }
    { done. }
    { intros m a2 Hm Ha2. cbv beta. run_vget. run_vget.
      apply Alm_put_total; [done|lia|lia]. }
    eexists. split; [reflexivity|]. cbn [fst snd].
    replace (l + 1 - 1) with l by lia. done. }
  cbn [fst snd] in Ha', Hw. cbn [bind]. cbv beta iota.
  replace (L + 1 - 1) with L in Hw by lia.
  exists a', w. done.
Qed.

End Total.

(** On a complete store of band-limit below 2^30 built by [Alm(data, L, L)]
    the rotation returns, for every angle. *)
Lemma rotate_alm_returns {T : Type} (default_nthreads : Z)
    (dsin dcos : double -> double) (polar : double -> double -> Cplx double)
    (cd_mul cd_add : Cplx double -> Cplx double -> Cplx double)
    (cd_scale : Cplx double -> double -> Cplx double)
    (to_cd : Cplx T -> Cplx double) (of_cd : Cplx double -> Cplx T)
    (cT_mul_assign : Cplx T -> Cplx double -> Cplx T)
    (g : Distribution) (data : list (Cplx T)) (L : Z) (a : Alm (Cplx T))
    (psi theta phi : double) :
  0 <= L < 1073741824 -> Alm_new data L L = Ok a ->
  exists a' w,
    rotate_alm default_nthreads dsin dcos polar cd_mul cd_add cd_scale to_cd
      of_cd cT_mul_assign g a psi theta phi = Ok (a', w) /\
    (w = None <-> SFeqb theta dzero = true).
Proof.
  intros HL Ha.
  assert (Hsz : mav_size data = num_alms_exact L L).
  { destruct (Alm_new_inv data L L a Ha) as (_ & _ & _ & Hn).
    rewrite Num_Alms_exact in Hn.
    - by injection Hn.
    - lia.
    - unfold SIZE_MOD. nia.
    - unfold num_alms_exact, SIZE_MOD.
      assert ((L + 1) * (L + 2) / 2 <= (L + 1) * (L + 2))
        by (apply Z.div_le_upper_bound; nia).
      nia. }
  destruct (complete_dense_store data L a ltac:(lia) Ha Hsz)
    as (_ & Hl & _ & Hc & Hd & Hidx & _).
  unfold rotate_alm, MR_assert. rewrite Hc. cbn [bind].
  destruct (SFeqb theta dzero); cbn [negb].
  - destruct (rotate_phase_dense polar cT_mul_assign data L a psi phi
                ltac:(lia) Ha Hsz) as (a' & -> & _).
    cbn [bind]. by exists a', None.
  - destruct (rotate_general_total default_nthreads dsin dcos polar cd_mul
                cd_add cd_scale to_cd of_cd L g a psi theta phi HL Hl)
      as (a' & w & -> & _).
    { intros l m Hm Hlm. destruct (Hidx l m ltac:(lia) ltac:(lia)) as (i & E & Hi).
      exists i. split; [done|]. rewrite Hd. unfold vsize. lia. }
    cbn [bind]. exists a', (Some w). done.
Qed.

(** ** Two sparse columns

    [Alm_Base(L, {m0, m1})]: the second column starts [L - m1 + 1] slots
    after the first, the length of the second column and not of the
    first. *)
Lemma sparse_two_columns junk L m0 m1 :
  0 <= m0 < m1 -> m1 <= L -> L < 4611686018427387904 ->
  exists b,
    Alm_Base_sparse junk L [m0; m1] = Ok b /\
    (forall l, m0 <= l <= L -> index b l m0 = Ok (l - m0)) /\
    (forall l, m1 <= l <= L -> index b l m1 = Ok (L - 2 * m1 + 1 + l)) /\
    n_entries b = 2 * (L - m1 + 1).
Proof.
  intros Hm0 Hm1 HL.
  assert (Hchk : check_mval L [m0; m1] = Ok tt).
  { unfold check_mval, for_lt, MR_assert.
    change (Z.to_nat (vsize [m0; m1] - 0)) with 2%nat. cbn [iterM].
    change (vget [m0; m1] 0) with (Ok m0).
    change (vget [m0; m1] (0 + 1)) with (Ok m1).
    change (vget [m0; m1] (0 + 1 - 1)) with (Ok m0).
    change (0 <? 0) with false. change (0 <? 0 + 1) with true. cbn [bind].
    destruct (Z.leb_spec m0 L); [|lia]. destruct (Z.leb_spec m1 L); [|lia].
    cbn [bind]. destruct (Z.ltb_spec m0 m1); [done|lia]. }
  set (s := sentinel L).
  set (ms0 := replicate (Z.to_nat (m1 + 1)) s).
  set (ms2 := <[Z.to_nat m1 := L - 2 * m1 + 1]> (<[Z.to_nat m0 := - m0]> ms0)).
  assert (Hlen0 : Z.of_nat (length ms0) = m1 + 1).
  { unfold ms0. rewrite length_replicate. lia. }
  assert (Hfill : sparse_fill junk L [m0; m1] 2 0 0 ms0 = Ok ms2).
  { cbn [sparse_fill].
    change (vget [m0; m1] 0) with (Ok m0).
    change (vget [m0; m1] (0 + 1)) with (Ok m1).
    change (vget [m0; m1] (0 + 1 + 1)) with (@Err Z OutOfBounds).
    cbn [bind]. unfold ptr_sub, ptr_check.
    change (to_signed 0) with 0.
    rewrite (to_signed_small m0), (to_signed_small m1) by lia.
    rewrite Z.add_0_l, wrap_wrap, (wrap_small (L - m1 + 1)) by lia.
    rewrite (to_signed_small (L - m1 + 1)) by lia.
    unfold PTRDIFF_MIN, PTRDIFF_MAX.
    destruct (Z.leb_spec (-9223372036854775808) (0 - m0)); [|lia].
    destruct (Z.leb_spec (0 - m0) 9223372036854775807); [|lia].
    destruct (Z.leb_spec (-9223372036854775808) (L - m1 + 1 - m1)); [|lia].
    destruct (Z.leb_spec (L - m1 + 1 - m1) 9223372036854775807); [|lia].
    cbn [andb bind]. rewrite vset_ok by lia. cbn [bind].
    rewrite vset_ok by (rewrite length_insert; lia). cbn [bind].
    unfold ms2. replace (L - m1 + 1 - m1) with (L - 2 * m1 + 1) by lia.
    by replace (0 - m0) with (- m0) by lia. }
  assert (Hlen2 : length ms2 = Datatypes.S (Z.to_nat m1)).
  { unfold ms2. rewrite !length_insert. lia. }
  assert (H1 : ms2 !! Z.to_nat m1 = Some (L - 2 * m1 + 1)).
  { unfold ms2. apply list_lookup_insert_eq. rewrite length_insert. lia. }
  assert (H0 : ms2 !! Z.to_nat m0 = Some (- m0)).
  { unfold ms2. rewrite list_lookup_insert_ne by lia.
    apply list_lookup_insert_eq. lia. }
  exists (mkAlmBase L (2 * (L - m1 + 1)) [m0; m1] ms2).
  split; [|split; [|split]].
  - unfold Alm_Base_sparse, MR_assert, vback.
    change (0 <? vsize [m0; m1]) with true. cbn [bind]. rewrite Hchk.
    cbn [bind]. change (list.last [m0; m1]) with (Some m1). cbn [bind].
    rewrite (wrap_small (m1 + 1)) by lia. fold s. fold ms0.
    change (length [m0; m1]) with 2%nat. rewrite Hfill. cbn [bind].
    rewrite last_lookup, Hlen2. cbn [Nat.pred]. rewrite H1. cbn [bind].
    rewrite (wrap_small (L + 1)), (to_signed_small (L + 1)) by lia.
    unfold ptr_add, ptr_check, PTRDIFF_MIN, PTRDIFF_MAX.
    destruct (Z.leb_spec (-9223372036854775808) (L - 2 * m1 + 1 + (L + 1)));
      [|lia].
    destruct (Z.leb_spec (L - 2 * m1 + 1 + (L + 1)) 9223372036854775807); [|lia].
    cbn [andb bind]. rewrite wrap_small by lia. do 2 f_equal. lia.
  - intros l Hl. unfold index, index_l0. cbn [mstart].
    rewrite (vget_ok ms2 m0 _ ltac:(lia) H0). cbn [bind].
    autorewrite with wrap_simpl. rewrite wrap_small by lia. f_equal. lia.
  - intros l Hl. unfold index, index_l0. cbn [mstart].
    rewrite (vget_ok ms2 m1 _ ltac:(lia) H1). cbn [bind].
    autorewrite with wrap_simpl. rewrite wrap_small by lia. f_equal.
  - reflexivity.
Qed.

(** ** Stores whose number of coefficients wraps *)

Lemma iterM_fails {S : Type} (I : Z -> S -> Prop) (body : Z -> S -> res S)
    (n k : nat) i s e :
  (k < n)%nat -> I i s ->
  (forall j t, i <= j < i + Z.of_nat k -> I j t ->
     exists t', body j t = Ok t' /\ I (j + 1) t') ->
  (forall t, I (i + Z.of_nat k) t -> body (i + Z.of_nat k) t = Err e) ->
  iterM n i body s = Err e.
Proof.
  intros Hk Hs Hstep Hfail.
  replace n with (k + Datatypes.S (n - k - 1))%nat by lia.
  rewrite iterM_app.
  destruct (iterM_inv I body k i s Hs Hstep) as (s' & -> & Hs').
  cbn [bind iterM]. by rewrite (Hfail s' Hs').
Qed.

Section ShortBuffer.
Context {T : Type}.
Variable polar : double -> double -> Cplx double.
Variable cT_mul_assign : Cplx T -> Cplx double -> Cplx T.

(** A store whose column m = 0 starts at slot 0 and whose buffer has at
    most lmax entries: the phase twist leaves the buffer while it walks
    that column. *)
Lemma rotate_phase_short_buffer (a : Alm (Cplx T)) psi phi :
  vsize (alm a) <= lmax (base a) -> lmax (base a) < SIZE_MAX ->
  mstart (base a) !! O = Some 0 ->
  rotate_phase polar cT_mul_assign a psi phi = Err OutOfBounds.
Proof.
  intros Hshort HL Hms. unfold rotate_phase, Lmax. cbv zeta.
  set (L := lmax (base a)) in *.
  assert (HL0 : 0 <= L) by (unfold vsize in Hshort; lia).
  rewrite for_le_first by lia.
  assert (Hidx : forall (s : Alm (Cplx T)) j,
            base s = base a -> 0 <= j <= L -> index (base s) j 0 = Ok j).
  { intros s j Hb Hj. unfold index, index_l0. rewrite Hb.
    rewrite (vget_ok (mstart (base a)) 0 0 ltac:(lia) Hms). cbn [bind].
    change (wrap 0) with 0. rewrite Z.add_0_l. f_equal. apply wrap_small.
    unfold SIZE_MAX in HL. lia. }
  assert (E : for_le 0 L
                (fun l a0 => x <- Alm_get a0 l 0 ;;
                   Alm_put a0 l 0
                     (cT_mul_assign x
                        (polar done_1 (dmul (dneg (dadd psi phi)) (double_of_Z 0)))))
                a = Err OutOfBounds).
  { unfold for_le.
    rewrite (iterM_fails (fun _ s => same_shape a s) _ _ (length (alm a)) 0 a
               OutOfBounds); [done| | | |].
    - unfold vsize in Hshort. lia.
    - by split.
    - intros j s Hj [Hb Hlen].
      destruct (lookup_lt_is_Some_2 (alm s) (Z.to_nat j)) as [x Hx]; [lia|].
      unfold Alm_get, Alm_put, mav_get, mav_set.
      rewrite Hidx by (done || unfold vsize in Hshort; lia). cbn [bind].
      rewrite (vget_ok (alm s) j x ltac:(lia) Hx). cbn [bind].
      rewrite vset_ok by lia. cbn [bind]. eexists. split; [reflexivity|].
      split; [done|]. cbn [alm]. by rewrite length_insert.
    - intros s [Hb Hlen]. rewrite Z.add_0_l.
      unfold Alm_get, mav_get.
      rewrite Hidx by (done || unfold vsize in Hshort; lia). cbn [bind].
      unfold vget. destruct (Z.leb_spec 0 (Z.of_nat (length (alm a)))); [|lia].
      rewrite Nat2Z.id. rewrite lookup_ge_None_2 by lia. done. }
  rewrite E. done.
Qed.

End ShortBuffer.

(** The store [Alm(data, L, L)] for L = 2^32 - 1: (L+1)(L+2) exceeds 2^64,
    [Num_Alms] wraps to 2^31, and a buffer of 2^31 entries is accepted for
    2^63 + 2^31 coefficients. *)
Lemma wrapped_count_store {T : Type} (data : list T) :
  mav_size data = 2147483648 ->
  exists a,
    Alm_new data 4294967295 4294967295 = Ok a /\
    complete (base a) = true /\ lmax (base a) = 4294967295 /\
    alm a = data /\ mstart (base a) !! O = Some 0.
Proof.
  intros Hsz.
  destruct (Alm_Base_dense_run 4294967295 4294967295) as (ms & E & _ & Hms).
  { unfold SIZE_MAX. lia. }
  assert (En : Num_Alms 4294967295 4294967295 = Ok 2147483648)
    by (vm_compute; reflexivity).
  rewrite En in E. cbn [bind] in E.
  eexists. split.
  - unfold Alm_new. rewrite E. cbn [bind lmax]. rewrite En. cbn [bind].
    unfold MR_assert. rewrite Hsz. change (2147483648 =? 2147483648) with true.
    cbn [bind]. reflexivity.
  - cbn [base alm lmax mval mstart]. split; [|split; [done|split; [done|]]].
    + unfold complete, vsize. cbn [mval lmax]. rewrite length_seqZ.
      apply Z.eqb_eq. rewrite wrap_small by lia. lia.
    + specialize (Hms 0 ltac:(lia)). rewrite col_start_0 in Hms. exact Hms.
Qed.

Lemma replicate_size {A : Type} (n : Z) (x : A) :
  0 <= n -> mav_size (replicate (Z.to_nat n) x) = n.
Proof.
  intros Hn. unfold mav_size, vsize. rewrite length_replicate. by apply Z2Nat.id.
Qed.

(** The rotation with theta = 0 of that store leaves the buffer. *)
Lemma wrapped_count_rotation {T : Type} (default_nthreads : Z)
    (dsin dcos : double -> double) (polar : double -> double -> Cplx double)
    (cd_mul cd_add : Cplx double -> Cplx double -> Cplx double)
    (cd_scale : Cplx double -> double -> Cplx double)
    (to_cd : Cplx T -> Cplx double) (of_cd : Cplx double -> Cplx T)
    (cT_mul_assign : Cplx T -> Cplx double -> Cplx T)
    (data : list (Cplx T)) :
  mav_size data = 2147483648 ->
  exists a,
    Alm_new data 4294967295 4294967295 = Ok a /\
    complete (base a) = true /\
    forall g psi phi,
      rotate_alm default_nthreads dsin dcos polar cd_mul cd_add cd_scale to_cd
        of_cd cT_mul_assign g a psi dzero phi = Err OutOfBounds.
Proof.
  intros Hsz.
  destruct (wrapped_count_store data Hsz) as (a & Ha & Hc & Hl & Hd & Hms).
  exists a. split; [exact Ha|]. split; [exact Hc|].
  intros g psi phi. unfold rotate_alm, MR_assert. rewrite Hc.
  change (SFeqb dzero dzero) with true. cbn [bind negb].
  rewrite rotate_phase_short_buffer; [done| |rewrite Hl; unfold SIZE_MAX; lia|done].
  rewrite Hl, Hd. unfold mav_size in Hsz. rewrite Hsz. lia.
Qed.

(** When neither (M+1)(M+2) nor the number of coefficients wraps, the
    buffer accepted by [Alm(data, L, M)] holds exactly that number. *)
Lemma Alm_new_exact_count {T : Type} (data : list T) L M (a : Alm T) :
  0 <= M <= L -> (M + 1) * (M + 2) < SIZE_MOD -> num_alms_exact L M < SIZE_MOD ->
  Alm_new data L M = Ok a -> mav_size data = num_alms_exact L M.
Proof.
  intros HM Hp Hx Ha. destruct (Alm_new_inv data L M a Ha) as (_ & _ & _ & Hn).
  rewrite Num_Alms_exact in Hn by done. by injection Hn.
Qed.

Lemma complete_count_fits L :
  0 <= L -> (L + 1) * (L + 2) < SIZE_MOD -> num_alms_exact L L < SIZE_MOD.
Proof.
  intros HL Hp. unfold num_alms_exact.
  assert ((L + 1) * (L + 2) / 2 <= (L + 1) * (L + 2))
    by (apply Z.div_le_upper_bound; nia).
  lia.
Qed.

(** ** What the rotation computes *)

(** The store built by [Alm(data, L, M)] over a buffer of the
    mathematical number of coefficients. *)
Lemma dense_store_facts {T : Type} (data : list T) L M (a : Alm T) :
  0 <= M <= L -> Alm_new data L M = Ok a ->
  mav_size data = num_alms_exact L M ->
  L < SIZE_MAX /\ lmax (base a) = L /\ mval (base a) = seqZ 0 (M + 1) /\
  alm a = data /\ n_entries (base a) = num_alms_exact L M /\
  (forall l m, 0 <= m <= M -> m <= l <= L ->
     index (base a) l m = Ok (col_start L m - m + l) /\
     0 <= col_start L m - m + l < Z.of_nat (length data)) /\
  (forall l m l' m' i,
     0 <= m <= M -> m <= l <= L -> 0 <= m' <= M -> m' <= l' <= L ->
     index (base a) l m = Ok i -> index (base a) l' m' = Ok i ->
     l = l' /\ m = m').
Proof.
  intros HM Ha Hsz. destruct (Alm_new_inv data L M a Ha) as (Hb & Hd & Hl & Hn).
  rewrite Hsz in Hn.
  destruct (Num_Alms_exact_inv L M HM Hn) as [Hp Hx].
  destruct (Alm_Base_dense_layout L M HM Hp Hx)
    as (b & Eb & _ & Harr & Hmv & _ & Hms).
  destruct (dense_layout_holds L M HM Hp Hx) as [_ (b' & Eb' & _ & Hinj)].
  rewrite Hb in Eb, Eb'. injection Eb as <-. injection Eb' as <-.
  assert (HL1 : L < SIZE_MAX).
  { destruct (dense_slot_bounds L M L 0) as [H1 H2]; [lia..|].
    rewrite col_start_0 in H1. unfold SIZE_MOD, SIZE_MAX in *. lia. }
  split; [done|]. split; [done|]. split; [done|]. split; [done|].
  split; [done|]. split; [|exact Hinj].
  intros l m Hm Hlm. split.
  - apply (dense_index L M); [done|done|by apply Hms|done|done].
  - destruct (dense_slot_bounds L M l m) as [H1 H2]; [lia..|].
    assert (0 <= col_start L m) by (apply col_start_nonneg; lia).
    unfold mav_size, vsize in Hsz. lia.
Qed.

(** [k] successive calls of [recurse]. *)
Fixpoint recurses (k : nat) (w : wigner_d_risbo_openmp)
  : res wigner_d_risbo_openmp :=
  match k with
  | O => Ok w
  | Datatypes.S k' => w' <- recurses k' w ;; recurse w'
  end.

Lemma foldM_ext_in {S X : Type} (f g : X -> S -> res S) xs s :
  (forall x s, x ∈ xs -> f x s = g x s) -> foldM f xs s = foldM g xs s.
Proof.
  revert s. induction xs as [|x xs IH]; intros s H; [done|].
  cbn [foldM]. rewrite H by left. destruct (g x s); [|done]. cbn [bind].
  apply IH. intros y t Hy. apply H. by right.
Qed.

(** A store [st] with the layout and the buffer length of the store built
    by [Alm(data, L, M)] over the exact number of coefficients: every
    coefficient has its slot, a write to a(l, m) is read back, and it
    changes no other coefficient. *)
Lemma same_shape_addressable {T : Type} (data : list T) L (a st : Alm T) :
  0 <= L -> Alm_new data L L = Ok a -> mav_size data = num_alms_exact L L ->
  same_shape a st -> addressable L st.
Proof.
  intros HL Ha Hsz [Hb Hlen] l m Hm Hl.
  destruct (dense_store_facts data L L a ltac:(lia) Ha Hsz)
    as (_ & _ & _ & Hd & _ & Hidx & _).
  destruct (Hidx l m ltac:(lia) ltac:(lia)) as [Ei Hi].
  eexists. rewrite Hb. split; [exact Ei|]. unfold vsize. rewrite Hlen, Hd. lia.
Qed.

Lemma Alm_put_get {T : Type} (data : list T) L M (a st : Alm T) l m x :
  0 <= M <= L -> Alm_new data L M = Ok a ->
  mav_size data = num_alms_exact L M ->
  same_shape a st -> 0 <= m <= M -> m <= l <= L ->
  exists st',
    Alm_put st l m x = Ok st' /\ same_shape a st' /\ Alm_get st' l m = Ok x /\
    forall l' m', 0 <= m' <= M -> m' <= l' <= L -> (l', m') <> (l, m) ->
      Alm_get st' l' m' = Alm_get st l' m'.
Proof.
  intros HM Ha Hsz [Hb Hlen] Hm Hl.
  destruct (dense_store_facts data L M a HM Ha Hsz)
    as (_ & _ & _ & Hd & _ & Hidx & Hinj).
  destruct (Hidx l m Hm Hl) as [Ei Hi].
  set (i := col_start L m - m + l) in *.
  unfold Alm_put, mav_set. rewrite Hb, Ei. cbn [bind].
  rewrite vset_ok by (rewrite Hlen, Hd; lia). cbn [bind].
  eexists. split; [reflexivity|]. split; [|split].
  - split; [done|]. cbn [alm]. by rewrite length_insert.
  - unfold Alm_get, mav_get. cbn [base alm]. rewrite Ei. cbn [bind].
    apply vget_ok; [lia|]. apply list_lookup_insert_eq. rewrite Hlen, Hd. lia.
  - intros l' m' Hm' Hl' Hne. destruct (Hidx l' m' Hm' Hl') as [Ei' Hi'].
    set (i' := col_start L m' - m' + l') in *.
    assert (Hii : i' <> i).
    { intros Heq. rewrite Heq in Ei'.
      destruct (Hinj l' m' l m i Hm' Hl' Hm Hl Ei' Ei) as [-> ->]. done. }
    unfold Alm_get, mav_get. cbn [base alm]. rewrite Hb, Ei'. cbn [bind].
    unfold vget. destruct (Z.leb_spec 0 i'); [|done].
    rewrite list_lookup_insert_ne by lia. done.
Qed.

Lemma for_lt_inv {S : Type} (I : Z -> S -> Prop) lo hi (body : Z -> S -> res S) s :
  lo <= hi -> I lo s ->
  (forall j t, lo <= j < hi -> I j t ->
     exists t', body j t = Ok t' /\ I (j + 1) t') ->
  exists s', for_lt lo hi body s = Ok s' /\ I hi s'.
Proof.
  intros Hlo Hs Hstep. unfold for_lt.
  destruct (iterM_inv I body (Z.to_nat (hi - lo)) lo s Hs) as (s' & -> & Hs').
  { intros j t Hj. apply Hstep. lia. }
  exists s'. split; [done|].
  replace (lo + Z.of_nat (Z.to_nat (hi - lo))) with hi in Hs' by lia. exact Hs'.
Qed.

Lemma mat_get_wrap_total R C a i j :
  mat_ok R C a -> 0 <= i < R -> 0 <= j < C -> R < SIZE_MOD -> C < SIZE_MOD ->
  exists x, mat_get a i j = Ok x /\ mat_get a (wrap i) (wrap j) = Ok x.
Proof.
  intros Ha Hi Hj HR HC. unfold SIZE_MOD in *. rewrite !wrap_small by lia.
  destruct (mat_get_total R C a i j Ha Hi Hj) as [x E]. by exists x.
Qed.

Lemma seqZ_snoc (a n : Z) : 0 <= n -> seqZ a (n + 1) = seqZ a n ++ [a + n].
Proof.
  intros Hn. replace (n + 1) with (Z.of_nat (Datatypes.S (Z.to_nat n))) by lia.
  rewrite seqZ_S. by rewrite Z2Nat.id by lia.
Qed.

Section RotationSpec.
Context {T : Type}.
Variable default_nthreads : Z.
Variable dsin dcos : double -> double.
Variable polar : double -> double -> Cplx double.
Variable cd_mul : Cplx double -> Cplx double -> Cplx double.
Variable cd_add : Cplx double -> Cplx double -> Cplx double.
Variable cd_scale : Cplx double -> double -> Cplx double.
Variable to_cd : Cplx T -> Cplx double.
Variable of_cd : Cplx double -> Cplx T.

(** What a(l, mm), mm >= 1, already multiplied by its phase to [t1], adds
    to the rotated a(l, m): [x1] is d(l-mm, l-m) and [x2] is d(l-mm, l+m);
    the first changes sign when mm + m is odd, the second when mm is. *)
Definition job_term (t1 : Cplx double) (x1 x2 : double) (mm m : Z)
  : Cplx double :=
  let d1 := if Z.odd (mm + m) then dneg x1 else x1 in
  let d2 := if Z.odd mm then dneg x2 else x2 in
  mkC (dmul (re t1) (dadd d1 d2)) (dmul (im t1) (dsub d1 d2)).

Definition job_step (a : Alm (Cplx T)) (psi : double) (d : mav2) (l m mm : Z)
    (acc : Cplx double) : res (Cplx double) :=
  x <- Alm_get a l mm ;;
  x1 <- mat_get d (l - mm) (l - m) ;;
  x2 <- mat_get d (l - mm) (l + m) ;;
  Ok (cd_add acc
        (job_term (cd_mul (to_cd x) (polar done_1 (dmul (dneg psi) (double_of_Z mm))))
           x1 x2 mm m)).

(** The rotated coefficient a(l, m), computed from the coefficients of
    degree l of the store [a] and from the Wigner matrix [d] of degree l:
    the term of a(l, 0), then the terms of a(l, 1), ..., a(l, l) in this
    order, and the phase of column m. *)
Definition rotated_coeff (a : Alm (Cplx T)) (psi phi : double) (d : mav2)
    (l m : Z) : res (Cplx T) :=
  a0 <- Alm_get a l 0 ;;
  x <- mat_get d l (l + m) ;;
  t <- foldM (job_step a psi d l m) (seqZ 1 l) (cd_scale (to_cd a0) x) ;;
  Ok (of_cd (cd_mul t (polar done_1 (dmul (dneg phi) (double_of_Z m))))).

Lemma rotate_job_spec L (a : Alm (Cplx T)) psi exppsi d l tid dist dist' almtmp :
  addressable L a -> vsize exppsi = L + 1 ->
  (forall mm, 0 <= mm <= L ->
     exppsi !! Z.to_nat mm
     = Some (polar done_1 (dmul (dneg psi) (double_of_Z mm)))) ->
  mat_ok (L + 1) (2 * L + 1) d -> vsize almtmp = L + 1 ->
  0 <= l <= L -> L < 1073741824 ->
  getNext tid dist = Ok (mkRange 0 (l + 1), dist') ->
  exists tmp',
    rotate_job cd_mul cd_add to_cd a exppsi d l tid (dist, almtmp)
    = Ok (dist', tmp') /\
    vsize tmp' = L + 1 /\
    forall m, 0 <= m <= l ->
      exists v v',
        almtmp !! Z.to_nat m = Some v /\
        foldM (job_step a psi d l m) (seqZ 1 l) v = Ok v' /\
        tmp' !! Z.to_nat m = Some v'.
Proof.
  intros Ha He Hpsi Hd Ht Hl HL Hnext. unfold rotate_job. rewrite Hnext.
  cbn [bind]. cbv beta iota. cbn [lo hi].
  lazymatch goal with
  | |- context [bind (for_le ?lo ?hi ?body ?s) _] =>
      destruct (for_le_inv
                  (fun mm (st : list (Cplx double) * bool) =>
                     vsize st.1 = L + 1 /\ st.2 = Z.odd mm /\
                     forall m, 0 <= m <= l ->
                       exists v v',
                         almtmp !! Z.to_nat m = Some v /\
                         foldM (job_step a psi d l m) (seqZ 1 (mm - 1)) v = Ok v' /\
                         st.1 !! Z.to_nat m = Some v')
                  lo hi body s)
        as ([tmp' fl'] & -> & Htmp' & _ & Hspec)
  end.
  { lia. }
  { unfold SIZE_MAX. lia. }
  { cbn [fst snd]. split; [done|]. split; [done|]. intros m Hm.
    destruct (lookup_lt_is_Some_2 almtmp (Z.to_nat m)) as [v Hv].
    { unfold vsize in Ht. lia. }
    exists v, v. done. }
  { intros mm [tmp fl] Hmm (Htmp & Hfl & Hacc). cbn [fst snd] in Htmp, Hfl, Hacc.
    cbv beta iota.
    destruct (Alm_get_total L a l mm) as [x Ex]; [done|lia|lia|].
    rewrite Ex. cbn [bind].
    rewrite (vget_ok exppsi mm _ ltac:(lia) (Hpsi mm ltac:(lia))). cbn [bind].
    cbv zeta. rewrite Z.add_0_r, (wrap_small mm) by lia.
    set (t1 := cd_mul (to_cd x) (polar done_1 (dmul (dneg psi) (double_of_Z mm)))).
    lazymatch goal with
    | |- context [bind (for_lt ?lo ?hi ?body ?s) _] =>
        destruct (for_lt_inv
                    (fun m (st : list (Cplx double) * bool) =>
                       vsize st.1 = L + 1 /\ st.2 = Z.odd (mm + m) /\
                       forall m', 0 <= m' <= l ->
                         exists v v',
                           almtmp !! Z.to_nat m' = Some v /\
                           foldM (job_step a psi d l m')
                             (seqZ 1 (if m' <? m then mm else mm - 1)) v = Ok v' /\
                           st.1 !! Z.to_nat m' = Some v')
                    lo hi body s)
          as ([tmp2 fl2] & -> & Htmp2 & _ & Hacc2)
    end.
    { lia. }
    { cbn [fst snd]. split; [done|]. split; [by rewrite Z.add_0_r|].
      intros m' Hm'. destruct (Z.ltb_spec m' 0); [lia|]. by apply Hacc. }
    { intros m [tmp3 fl3] Hm (Htmp3 & Hfl3 & Hacc3).
      cbn [fst snd] in Htmp3, Hfl3, Hacc3. cbv beta iota.
      destruct (mat_get_wrap_total (L + 1) (2 * L + 1) d (l - mm) (l - m) Hd)
        as (x1 & E1 & ->); [lia|lia|unfold SIZE_MOD; lia|unfold SIZE_MOD; lia|].
      cbn [bind].
      destruct (mat_get_wrap_total (L + 1) (2 * L + 1) d (l - mm) (l + m) Hd)
        as (x2 & E2 & ->); [lia|lia|unfold SIZE_MOD; lia|unfold SIZE_MOD; lia|].
      cbn [bind]. cbv zeta.
      destruct (Hacc3 m ltac:(lia)) as (v & v' & Hv & Hfold & Hv').
      destruct (Z.ltb_spec m m) as [|_]; [lia|].
      rewrite (vget_ok tmp3 m v' ltac:(lia) Hv'). cbn [bind].
      rewrite vset_ok by (unfold vsize in Htmp3; lia). cbn [bind].
      eexists. split; [reflexivity|]. cbn [fst snd].
      split; [unfold vsize; rewrite length_insert; exact Htmp3|]. split.
      { rewrite Hfl3. replace (mm + (m + 1)) with (Z.succ (mm + m)) by lia.
        by rewrite Z.odd_succ, <- Z.negb_odd. }
      intros m' Hm'. destruct (decide (m' = m)) as [->|Hne].
      - exists v. eexists. split; [exact Hv|].
        destruct (Z.ltb_spec m (m + 1)) as [_|]; [|lia].
        split; [|apply list_lookup_insert_eq; unfold vsize in Htmp3; lia].
        replace mm with (mm - 1 + 1) at 1 by lia.
        rewrite seqZ_snoc by lia. rewrite foldM_app, Hfold. cbn [bind foldM].
        replace (1 + (mm - 1)) with mm by lia.
        unfold job_step. rewrite Ex. cbn [bind]. rewrite E1. cbn [bind].
        rewrite E2. cbn [bind]. unfold job_term. fold t1.
        rewrite Hfl3, Hfl. done.
      - destruct (Hacc3 m' Hm') as (w & w' & Hw & Hfw & Hw').
        exists w, w'. split; [exact Hw|]. split.
        + destruct (Z.ltb_spec m' m), (Z.ltb_spec m' (m + 1)); done || lia.
        + rewrite list_lookup_insert_ne by lia. exact Hw'. }
    cbn [fst snd] in Htmp2, Hacc2. cbv beta iota.
    eexists. split; [reflexivity|]. cbn [fst snd]. split; [done|]. split.
    { rewrite Hfl. replace (mm + 1) with (Z.succ mm) by lia.
      by rewrite Z.odd_succ, <- Z.negb_odd. }
    intros m Hm. destruct (Hacc2 m Hm) as (v & v' & Hv & Hfold & Hv').
    destruct (Z.ltb_spec m (l + 1)) as [_|]; [|lia].
    exists v, v'. replace (mm + 1 - 1) with mm by lia. done. }
  cbn [fst snd] in Htmp', Hspec. cbv beta iota.
  exists tmp'. split; [reflexivity|]. split; [done|].
  intros m Hm. destruct (Hspec m Hm) as (v & v' & Hv & Hfold & Hv').
  exists v, v'. replace (l + 1 - 1) with l in Hfold by lia. done.
Qed.

Lemma rotated_coeff_ext (a a' : Alm (Cplx T)) psi phi d l m :
  0 <= l ->
  (forall mm, 0 <= mm <= l -> Alm_get a' l mm = Alm_get a l mm) ->
  rotated_coeff a' psi phi d l m = rotated_coeff a psi phi d l m.
Proof.
  intros Hl H. unfold rotated_coeff. rewrite H by lia.
  destruct (Alm_get a l 0) as [a0|]; [|done]. cbn [bind].
  destruct (mat_get d l (l + m)) as [x|]; [|done]. cbn [bind].
  rewrite (foldM_ext_in (job_step a' psi d l m) (job_step a psi d l m)); [done|].
  intros mm acc Hmm. apply elem_of_seqZ in Hmm. unfold job_step.
  by rewrite H by lia.
Qed.

(** The rotation for theta != 0 of the complete store of band-limit L
    below 2^30: it returns, and every coefficient of the result is the
    rotated coefficient computed from the store it was given and from the
    Wigner matrix of its degree. *)
Lemma rotate_general_spec (data : list (Cplx T)) L g (a : Alm (Cplx T))
    psi theta phi :
  0 <= L < 1073741824 -> Alm_new data L L = Ok a ->
  mav_size data = num_alms_exact L L ->
  exists a' w w0,
    rotate_general default_nthreads dsin dcos polar cd_mul cd_add cd_scale
      to_cd of_cd g a psi theta phi = Ok (a', w) /\
    same_shape a a' /\
    wigner_new dsin dcos L theta = Ok w0 /\
    recurses (Z.to_nat (L + 1)) w0 = Ok w /\
    forall l m, 0 <= m <= l -> l <= L ->
      exists wl x,
        recurses (Z.to_nat (l + 1)) w0 = Ok wl /\
        rotated_coeff a psi phi (w_d wl) l m = Ok x /\
        Alm_get a' l m = Ok x.
Proof.
  intros HL Ha Hsz.
  assert (HL0 : 0 <= L) by lia.
  destruct (dense_store_facts data L L a ltac:(lia) Ha Hsz) as (_ & Hl & _).
  unfold rotate_general. cbv zeta. unfold Lmax. rewrite Hl.
  rewrite !wrap_small by lia.
  (* the phase tables *)
  lazymatch goal with
  | |- context [bind (for_le ?lo ?hi ?body ?s) _] =>
      destruct (for_le_inv
                  (fun m (st : list (Cplx double) * list (Cplx double)) =>
                     vsize st.1 = L + 1 /\ vsize st.2 = L + 1 /\
                     forall k, 0 <= k < m ->
                       st.1 !! Z.to_nat k
                       = Some (polar done_1 (dmul (dneg psi) (double_of_Z k))) /\
                       st.2 !! Z.to_nat k
                       = Some (polar done_1 (dmul (dneg phi) (double_of_Z k))))
                  lo hi body s)
        as ([exppsi expphi] & -> & Hpsi & Hphi & Htab)
  end.
  { lia. }
  { unfold SIZE_MAX. lia. }
  { unfold vsize. cbn [fst snd]. rewrite length_replicate.
    split; [lia|]. split; [lia|]. intros; lia. }
  { intros m [e1 e2] Hm (H1 & H2 & H3). cbn [fst snd] in H1, H2, H3.
    cbv beta iota. rewrite vset_ok by (unfold vsize in H1; lia). cbn [bind].
    rewrite vset_ok by (unfold vsize in H2; lia). cbn [bind].
    eexists. split; [reflexivity|]. cbn [fst snd].
    split; [unfold vsize; rewrite length_insert; exact H1|].
    split; [unfold vsize; rewrite length_insert; exact H2|].
    intros k Hk. destruct (decide (k = m)) as [->|Hne].
    - rewrite !list_lookup_insert_eq by (unfold vsize in H1, H2; lia). done.
    - rewrite !list_lookup_insert_ne by lia. apply H3. lia. }
  cbn [fst snd] in Hpsi, Hphi, Htab. cbn [bind]. cbv beta iota.
  destruct (wigner_new_total dsin dcos L theta HL) as (w0 & -> & Hw0).
  cbn [bind].
  lazymatch goal with
  | |- context [bind (for_le ?lo ?hi ?body ?s) _] =>
      destruct (for_le_inv
                  (fun l (st : Alm (Cplx T) * wigner_d_risbo_openmp
                               * list (Cplx double)) =>
                     same_shape a st.1.1 /\
                     recurses (Z.to_nat l) w0 = Ok st.1.2 /\
                     wigner_ok L (l - 1) st.1.2 /\ vsize st.2 = L + 1 /\
                     (forall l' m', 0 <= m' <= l' -> l' <= L -> l <= l' ->
                        Alm_get st.1.1 l' m' = Alm_get a l' m') /\
                     (forall l' m', 0 <= m' <= l' -> l' < l ->
                        exists wl x,
                          recurses (Z.to_nat (l' + 1)) w0 = Ok wl /\
                          rotated_coeff a psi phi (w_d wl) l' m' = Ok x /\
                          Alm_get st.1.1 l' m' = Ok x))
                  lo hi body s)
        as ([[a' w] tmp] & -> & Hs' & Hrec' & _ & _ & _ & Hdone)
  end.
  { lia. }
  { unfold SIZE_MAX. lia. }
  { cbn [fst snd]. split; [by split|]. split; [done|]. split; [done|].
    split; [unfold vsize; rewrite length_replicate; lia|].
    split; [done|]. intros; lia. }
  { intros l [[a1 rec1] tmp1] Hll (Hs1 & Hrs1 & Hrec1 & Htmp1 & Hkeep & Hrot).
    cbn [fst snd] in Hs1, Hrs1, Hrec1, Htmp1, Hkeep, Hrot. cbv beta iota.
    pose proof (same_shape_addressable data L a a1 HL0 Ha Hsz Hs1) as Haddr.
    destruct (recurse_total L (l - 1) rec1 Hrec1) as (rec' & Erec & Hrec');
      [lia|lia|].
    rewrite Erec. replace (l - 1 + 1) with l in Hrec' by lia.
    assert (Hrs' : recurses (Z.to_nat (l + 1)) w0 = Ok rec').
    { replace (Z.to_nat (l + 1)) with (Datatypes.S (Z.to_nat l)) by lia.
      cbn [recurses]. rewrite Hrs1. exact Erec. }
    pose proof Hrec' as (_ & Hd & _ & _).
    cbn [bind]. cbv zeta.
    destruct (Alm_get_total L a1 l 0) as [a0 Ea0]; [done|lia|lia|].
    rewrite Ea0. cbn [bind].
    (* the terms of a(l, 0) *)
    lazymatch goal with
    | |- context [bind (for_le ?lo ?hi ?body ?s) _] =>
        destruct (for_le_inv
                    (fun m (v : list (Cplx double)) =>
                       vsize v = L + 1 /\
                       forall k, 0 <= k < m ->
                         exists x, mat_get (w_d rec') l (l + k) = Ok x /\
                                   v !! Z.to_nat k = Some (cd_scale (to_cd a0) x))
                    lo hi body s)
          as (tmp2 & -> & Htmp2 & Hinit)
    end.
    { lia. }
    { unfold SIZE_MAX. lia. }
    { split; [done|]. intros; lia. }
    { intros m v Hm [Hv Hk]. cbv beta.
      destruct (mat_get_wrap_total (L + 1) (2 * L + 1) (w_d rec') l (l + m) Hd)
        as (x & Ex & Ex'); [lia|lia|unfold SIZE_MOD; lia|unfold SIZE_MOD; lia|].
      rewrite (wrap_small l) in Ex' by lia. rewrite Ex'. cbn [bind].
      rewrite vset_ok by (unfold vsize in Hv; lia).
      eexists. split; [reflexivity|].
      split; [unfold vsize; rewrite length_insert; exact Hv|].
      intros k Hk'. destruct (decide (k = m)) as [->|Hne].
      - exists x. split; [done|]. apply list_lookup_insert_eq.
        unfold vsize in Hv. lia.
      - destruct (Hk k ltac:(lia)) as (y & Ey & Hy). exists y. split; [done|].
        rewrite list_lookup_insert_ne by lia. done. }
    cbn [bind]. rewrite !wrap_small by lia.
    destruct (run_execStatic_one default_nthreads g (l + 1) 0)
      as (dist & dist' & -> & Hids & Hnext); [unfold SIZE_MAX; lia|].
    cbn [bind]. unfold thread_map. rewrite Hids. cbn [foldM].
    destruct (rotate_job_spec L a1 psi exppsi (w_d rec') l 0 dist dist' tmp2)
      as (tmp3 & -> & Htmp3 & Hjob); [done|done| |done|done|lia|lia|done|].
    { intros mm Hmm. apply Htab. lia. }
    cbn [bind]. cbv beta iota.
    (* the coefficients of degree l are replaced *)
    lazymatch goal with
    | |- context [bind (for_le ?lo ?hi ?body ?s) _] =>
        destruct (for_le_inv
                    (fun m (st : Alm (Cplx T)) =>
                       same_shape a st /\
                       (forall l' m', 0 <= m' <= l' -> l' <= L ->
                          l' <> l \/ m <= m' ->
                          Alm_get st l' m' = Alm_get a1 l' m') /\
                       (forall k, 0 <= k < m ->
                          exists t, tmp3 !! Z.to_nat k = Some t /\
                            Alm_get st l k
                            = Ok (of_cd (cd_mul t
                                    (polar done_1 (dmul (dneg phi) (double_of_Z k)))))))
                    lo hi body s)
          as (a2 & -> & Hs2 & Hkeep2 & Hnew2)
    end.
    { lia. }
    { unfold SIZE_MAX. lia. }
    { split; [done|]. split; [done|]. intros; lia. }
    { intros m st Hm (Hst & Hk1 & Hk2). cbv beta.
      destruct (lookup_lt_is_Some_2 tmp3 (Z.to_nat m)) as [t Ht].
      { unfold vsize in Htmp3. lia. }
      rewrite (vget_ok tmp3 m t ltac:(lia) Ht). cbn [bind].
      destruct (Htab m ltac:(lia)) as [_ Hph].
      rewrite (vget_ok expphi m _ ltac:(lia) Hph). cbn [bind].
      destruct (Alm_put_get data L L a st l m
                  (of_cd (cd_mul t (polar done_1 (dmul (dneg phi) (double_of_Z m)))))
                  ltac:(lia) Ha Hsz Hst ltac:(lia) ltac:(lia))
        as (st' & -> & Hst' & Hget' & Hother).
      exists st'. split; [done|]. split; [done|]. split.
      - intros l' m' Hm' Hl' Hor. rewrite Hother; [|lia|lia|].
        + apply Hk1; [done|done|]. destruct Hor; [by left|right; lia].
        + intros [= -> ->]. lia.
      - intros k Hk. destruct (decide (k = m)) as [->|Hne].
        + exists t. done.
        + destruct (Hk2 k ltac:(lia)) as (t' & Ht' & Hg').
          exists t'. split; [done|]. rewrite Hother; [done|lia|lia|].
          intros [= ?]. lia. }
    cbn [bind].
    eexists. split; [reflexivity|]. cbn [fst snd].
    replace (l + 1 - 1) with l by lia.
    split; [done|]. split; [done|]. split; [done|]. split; [done|]. split.
    - intros l' m' Hm' Hl' Hge. rewrite Hkeep2; [|done|done|left; lia].
      apply Hkeep; [done|done|lia].
    - intros l' m' Hm' Hlt. destruct (decide (l' = l)) as [->|Hne].
      + destruct (Hnew2 m' ltac:(lia)) as (t & Ht & Hg).
        destruct (Hjob m' ltac:(lia)) as (v & v' & Hv & Hfold & Hv').
        rewrite Ht in Hv'. injection Hv' as <-.
        destruct (Hinit m' ltac:(lia)) as (x & Ex & Hx).
        rewrite Hv in Hx. injection Hx as ->.
        exists rec'. eexists. split; [exact Hrs'|]. split; [|exact Hg].
        rewrite <- (rotated_coeff_ext a a1 psi phi (w_d rec') l m');
          [|lia|intros mm Hmm; apply Hkeep; lia].
        unfold rotated_coeff. rewrite Ea0. cbn [bind]. rewrite Ex. cbn [bind].
        rewrite Hfold. done.
      + destruct (Hrot l' m' Hm' ltac:(lia)) as (wl & x & Hwl & Hx & Hg).
        exists wl, x. split; [done|]. split; [done|].
        rewrite Hkeep2; [done|done|lia|left; done]. }
  cbn [fst snd] in Hs', Hrec', Hdone. cbn [bind]. cbv beta iota.
  exists a', w, w0. split; [done|]. split; [done|]. split; [done|].
  split; [done|]. intros l m Hm Hlm. apply Hdone; lia.
Qed.

End RotationSpec.

(** ** What ScaleL and ScaleM compute *)

Section ScaleProps.
Context {T T2 : Type}.
Variable mul_assign : T -> T2 -> T.







End ScaleProps.

(** * The claims *)

(** Stand-ins for the operations of [std::complex] on doubles, used where
    the development is applied to concrete data. *)
Definition sample_polar (rho theta : double) : Cplx double :=
  mkC (dmul rho theta) (dmul rho (dadd theta theta)).
Definition sample_mul (a b : Cplx double) : Cplx double :=
  mkC (dsub (dmul (re a) (re b)) (dmul (im a) (im b)))
      (dadd (dmul (re a) (im b)) (dmul (im a) (re b))).
Definition sample_add (a b : Cplx double) : Cplx double :=
  mkC (dadd (re a) (re b)) (dadd (im a) (im b)).
Definition sample_scale (a : Cplx double) (x : double) : Cplx double :=
  mkC (dmul (re a) x) (dmul (im a) x).
Definition sample_data : list (Cplx double) :=
  [mkC (double_of_Z 3) (double_of_Z 4); mkC (double_of_Z 1) dzero;
   mkC dzero (double_of_Z 2)].
Definition sample_store : Alm (Cplx double) :=
  mkAlm (mkAlmBase 1 3 [0; 1] [0; 1]) sample_data.

(** C1 (the code departs from the claim).  [Alm_Base(L, {m0, m1})] with
    m0 < m1 <= L (L below 2^62): the claim places a(m1, m1) in the slot
    after a(L, m0), slot L - m0 + 1, and counts
    (L - m0 + 1) + (L - m1 + 1) entries; the constructor places it in slot
    L - m1 + 1, which lies within column m0, where it is the slot of
    a(L - m1 + 1 + m0, m0), and counts 2 (L - m1 + 1) entries, whatever
    the read past the end of [mval] yields. *)
Theorem C1_sparse_columns_overlap (junk L m0 m1 : Z) :
  0 <= m0 < m1 -> m1 <= L -> L < 4611686018427387904 ->
  exists b,
    Alm_Base_sparse junk L [m0; m1] = Ok b /\
    index b L m0 = Ok (L - m0) /\
    index b m1 m1 = Ok (L - m1 + 1) /\
    index b (L - m1 + 1 + m0) m0 = Ok (L - m1 + 1) /\
    n_entries b = 2 * (L - m1 + 1) /\
    ~ packs_consecutively L [m0; m1] b.
Proof.
  intros Hm0 Hm1 HL.
  destruct (sparse_two_columns junk L m0 m1 Hm0 Hm1 HL)
    as (b & E & Hc0 & Hc1 & Hn).
  exists b. split; [exact E|].
  assert (E0 : index b L m0 = Ok (L - m0)) by (apply Hc0; lia).
  assert (E1 : index b m1 m1 = Ok (L - m1 + 1)).
  { rewrite Hc1 by lia. f_equal. lia. }
  split; [exact E0|]. split; [exact E1|]. split.
  { rewrite Hc0 by lia. f_equal. lia. }
  split; [exact Hn|].
  intros (_ & Hnext & _).
  destruct (Hnext O m0 m1 eq_refl eq_refl) as (s & Hs & Hs').
  rewrite E0 in Hs. rewrite E1 in Hs'. injection Hs as <-.
  injection Hs' as Hs'. lia.
Qed.

(** [Alm_Base(1, {0, 1})]: a(1, 1) and a(1, 0) share slot 1, and two
    entries are counted for three coefficients. *)
Lemma C1_sparse_columns_overlap_witness :
  0 <= 0 < 1 /\ 1 <= 1 /\ 1 < 4611686018427387904 /\
  exists b,
    Alm_Base_sparse 0 1 [0; 1] = Ok b /\
    index b 1 0 = Ok (1 - 0) /\
    index b 1 1 = Ok (1 - 1 + 1) /\
    index b (1 - 1 + 1 + 0) 0 = Ok (1 - 1 + 1) /\
    n_entries b = 2 * (1 - 1 + 1) /\
    ~ packs_consecutively 1 [0; 1] b.
Proof.
  assert (H1 : 0 <= 0 < 1) by lia.
  assert (H2 : 1 <= 1) by lia.
  assert (H3 : 1 < 4611686018427387904) by lia.
  exact (conj H1 (conj H2 (conj H3
    (C1_sparse_columns_overlap 0 1 0 1 H1 H2 H3)))).
Defined.

(** C2 (the code departs from the claim).  After [execParallel] the
    position table is still empty, so that every [getNext] of every worker
    reads it out of bounds instead of returning [t, t+1). *)
Theorem C2_execParallel_position_table_empty
    (dflt : Z) (g : Distribution) (nthreads t : Z) :
  exists d,
    run_execParallel dflt g nthreads = Ok d /\
    mode d = STATIC /\ nextstart d = [] /\
    getNext t d = Err OutOfBounds.
Proof. apply execParallel_getNext_oob. Qed.

(** C3, as the claim states it, fails at L = M = 2^32: [Num_Alms] returns
    the count modulo 2^64. *)
Lemma C3_num_alms_wraps : ~ dense_layout_ok 4294967296 4294967296.
Proof. intros [H _]. vm_compute in H. discriminate H. Qed.

(** C3 (amended).  For M <= L such that (M+1)(M+2) and the number of
    coefficients (M+1)(M+2)/2 + (M+1)(L-M) are below 2^64: [Num_Alms(L, M)]
    is that number, and for the layout built by [Alm_Base(L, M)] the index
    [mstart[m] + l] of every pair with 0 <= m <= M, m <= l <= L lies below
    it, distinct pairs having distinct indices. *)
Theorem C3_dense_layout (L M : Z) :
  0 <= M <= L -> (M + 1) * (M + 2) < SIZE_MOD -> num_alms_exact L M < SIZE_MOD ->
  dense_layout_ok L M.
Proof. apply dense_layout_holds. Qed.

Lemma C3_dense_layout_witness :
  0 <= 2 <= 3 /\ (2 + 1) * (2 + 2) < SIZE_MOD /\ num_alms_exact 3 2 < SIZE_MOD /\
  dense_layout_ok 3 2.
Proof.
  assert (H1 : 0 <= 2 <= 3) by lia.
  assert (H2 : (2 + 1) * (2 + 2) < SIZE_MOD) by (unfold SIZE_MOD; lia).
  assert (H3 : num_alms_exact 3 2 < SIZE_MOD) by (vm_compute; reflexivity).
  exact (conj H1 (conj H2 (conj H3 (C3_dense_layout 3 2 H1 H2 H3)))).
Defined.

(** The claim as it is worded, for a store [a]: if [a] is complete, the
    rotation with theta = 0 returns, whatever the other two angles, with
    every a(l, m), 0 <= m <= l <= lmax, multiplied by the factor of its
    column, and without a Wigner recursion. *)
Definition theta_zero_claim {T : Type} (default_nthreads : Z)
    (dsin dcos : double -> double) (polar : double -> double -> Cplx double)
    (cd_mul cd_add : Cplx double -> Cplx double -> Cplx double)
    (cd_scale : Cplx double -> double -> Cplx double)
    (to_cd : Cplx T -> Cplx double) (of_cd : Cplx double -> Cplx T)
    (cT_mul_assign : Cplx T -> Cplx double -> Cplx T)
    (a : Alm (Cplx T)) : Prop :=
  complete (base a) = true ->
  forall g psi phi,
    exists a',
      rotate_alm default_nthreads dsin dcos polar cd_mul cd_add cd_scale to_cd
        of_cd cT_mul_assign g a psi dzero phi = Ok (a', None) /\
      forall l m, 0 <= m <= l -> l <= lmax (base a) ->
        exists i v,
          index (base a) l m = Ok i /\ alm a !! Z.to_nat i = Some v /\
          alm a' !! Z.to_nat i
          = Some (cT_mul_assign v
                    (polar done_1 (dmul (dneg (dadd psi phi)) (double_of_Z m)))).

(** C4, as the claim states it, fails for the complete store of band-limit
    L = 2^32 - 1: (L+1)(L+2) is 2^64 + 2^32, so that [Num_Alms(L, L)] wraps
    to 2^31 and [Alm(data, L, L)] accepts a buffer of 2^31 entries for
    2^63 + 2^31 coefficients; the store is complete, and the rotation with
    theta = 0 leaves the buffer in column m = 0, at l = 2^31, for all
    angles psi and phi. *)
Lemma C4_count_wraps :
  exists a : Alm (Cplx double),
    Alm_new (replicate (Z.to_nat 2147483648) czero) 4294967295 4294967295
    = Ok a /\
    complete (base a) = true /\
    (forall g psi phi,
       rotate_alm 1 (fun x => x) (fun x => x) sample_polar sample_mul
         sample_add sample_scale (fun z => z) (fun z => z) sample_mul g a
         psi dzero phi = Err OutOfBounds) /\
    ~ theta_zero_claim 1 (fun x => x) (fun x => x) sample_polar sample_mul
        sample_add sample_scale (fun z => z) (fun z => z) sample_mul a.
Proof.
  destruct (wrapped_count_rotation 1 (fun x => x) (fun x => x) sample_polar
              sample_mul sample_add sample_scale (fun z => z) (fun z => z)
              sample_mul (replicate (Z.to_nat 2147483648) czero))
    as (a & Ha & Hc & Hfail).
  { apply replicate_size. discriminate. }
  exists a. split; [exact Ha|]. split; [exact Hc|]. split; [exact Hfail|].
  intros Hclaim. destruct (Hclaim Hc garbage0 dzero dzero) as (a' & E & _).
  rewrite Hfail in E. discriminate E.
Qed.

(** C4 (amended).  For a complete store built by [Alm(data, L, M)], which
    completeness forces to be [Alm(data, L, L)], with (L+1)(L+2) below 2^64
    and theta equal to zero, [rotate_alm] returns the store in which every
    a(l, m), 0 <= m <= l <= L, has been multiplied by
    polar(1, -(psi+phi)*m), a factor that depends on m only, and sets up no
    Wigner recursion. *)
Theorem C4_rotate_theta_zero {T : Type} (default_nthreads : Z)
    (dsin dcos : double -> double) (polar : double -> double -> Cplx double)
    (cd_mul cd_add : Cplx double -> Cplx double -> Cplx double)
    (cd_scale : Cplx double -> double -> Cplx double)
    (to_cd : Cplx T -> Cplx double) (of_cd : Cplx double -> Cplx T)
    (cT_mul_assign : Cplx T -> Cplx double -> Cplx T)
    (g : Distribution) (data : list (Cplx T)) (L M : Z) (a : Alm (Cplx T))
    (psi theta phi : double) :
  is_size_t L -> is_size_t M -> Alm_new data L M = Ok a ->
  complete (base a) = true -> (L + 1) * (L + 2) < SIZE_MOD ->
  SFeqb theta dzero = true ->
  M = L /\
  exists a',
    rotate_alm default_nthreads dsin dcos polar cd_mul cd_add cd_scale to_cd
      of_cd cT_mul_assign g a psi theta phi = Ok (a', None) /\
    base a' = base a /\ length (alm a') = length (alm a) /\
    forall l m, 0 <= m <= l -> l <= L ->
      exists i v,
        index (base a) l m = Ok i /\ alm a !! Z.to_nat i = Some v /\
        alm a' !! Z.to_nat i
        = Some (cT_mul_assign v
                  (polar done_1 (dmul (dneg (dadd psi phi)) (double_of_Z m)))).
Proof.
  intros HL HM Ha Hc Hp Hth.
  destruct (complete_built data L M a HL HM Ha) as [Hmv Hiff].
  assert (HML : M = L).
  { apply Hiff in Hc. rewrite Hmv in Hc. unfold vsize in Hc.
    rewrite length_seqZ in Hc. unfold is_size_t in *. lia. }
  split; [exact HML|]. subst M.
  assert (HL0 : 0 <= L) by apply HL.
  pose proof (Alm_new_exact_count data L L a ltac:(lia) Hp
                (complete_count_fits L HL0 Hp) Ha) as Hsz.
  destruct (rotate_phase_dense polar cT_mul_assign data L a psi phi HL0 Ha Hsz)
    as (a' & E & Hb & Hlen & Hspec).
  exists a'. split; [|done]. unfold rotate_alm, MR_assert.
  rewrite Hc, Hth. cbn [bind negb]. rewrite E. done.
Qed.

Lemma C4_rotate_theta_zero_witness :
  is_size_t 1 /\ Alm_new sample_data 1 1 = Ok sample_store /\
  complete (base sample_store) = true /\ (1 + 1) * (1 + 2) < SIZE_MOD /\
  SFeqb dzero dzero = true /\
  exists a',
    rotate_alm 1 (fun x => x) (fun x => x) sample_polar sample_mul sample_add
      sample_scale (fun z => z) (fun z => z) sample_mul garbage0 sample_store
      (double_of_Z 1) dzero (double_of_Z 2) = Ok (a', None) /\
    base a' = base sample_store /\
    length (alm a') = length (alm sample_store) /\
    forall l m, 0 <= m <= l -> l <= 1 ->
      exists i v,
        index (base sample_store) l m = Ok i /\
        alm sample_store !! Z.to_nat i = Some v /\
        alm a' !! Z.to_nat i
        = Some (sample_mul v
                  (sample_polar done_1
                     (dmul (dneg (dadd (double_of_Z 1) (double_of_Z 2)))
                        (double_of_Z m)))).
Proof.
  assert (H1 : is_size_t 1) by (unfold is_size_t, SIZE_MAX; lia).
  assert (H2 : Alm_new sample_data 1 1 = Ok sample_store) by reflexivity.
  assert (H3 : complete (base sample_store) = true) by reflexivity.
  assert (H4 : (1 + 1) * (1 + 2) < SIZE_MOD) by (unfold SIZE_MOD; lia).
  assert (H5 : SFeqb dzero dzero = true) by reflexivity.
  exact (conj H1 (conj H2 (conj H3 (conj H4 (conj H5
    (proj2 (C4_rotate_theta_zero 1 (fun x => x) (fun x => x) sample_polar
       sample_mul sample_add sample_scale (fun z => z) (fun z => z) sample_mul
       garbage0 sample_data 1 1 sample_store (double_of_Z 1) dzero
       (double_of_Z 2) H1 H1 H2 H3 H4 H5))))))).
Defined.

(** C5, as the claim states it, fails for L = M = 0 and a view of two
    entries: [Num_Alms(0, 0)] is 1, and the constructor refuses the
    larger view. *)
Lemma C5_larger_buffer_refused : ~ alm_new_claim [tt; tt] 0 0.
Proof. exact alm_new_larger_buffer. Qed.

(** C5 (amended).  For M <= L and M below 2^64 - 1 (so that the M + 1
    entries of the tables are counted in a [size_t]), [Alm(data, L, M)]
    succeeds exactly when the view has [Num_Alms(L, M)] entries; with any
    other length, smaller or larger, it fails with the assertion
    "bad array size". *)
Theorem C5_alm_new_exact_size {T : Type} (data : list T) (L M : Z) :
  0 <= M <= L -> M < SIZE_MAX ->
  exists n,
    Num_Alms L M = Ok n /\
    (mav_size data = n ->
     exists a, Alm_new data L M = Ok a /\ alm a = data /\
               lmax (base a) = L /\ n_entries (base a) = n) /\
    (mav_size data <> n ->
     Alm_new data L M = Err (ShapeError "bad array size")).
Proof. apply alm_new_exact_size. Qed.

Lemma C5_alm_new_exact_size_witness :
  0 <= 1 <= 2 /\ 1 < SIZE_MAX /\
  exists n,
    Num_Alms 2 1 = Ok n /\
    (mav_size [1; 2; 3; 4; 5] = n ->
     exists a, Alm_new [1; 2; 3; 4; 5] 2 1 = Ok a /\ alm a = [1; 2; 3; 4; 5] /\
               lmax (base a) = 2 /\ n_entries (base a) = n) /\
    (mav_size [1; 2; 3; 4; 5] <> n ->
     Alm_new [1; 2; 3; 4; 5] 2 1 = Err (ShapeError "bad array size")).
Proof.
  assert (H1 : 0 <= 1 <= 2) by lia.
  assert (H2 : 1 < SIZE_MAX) by (unfold SIZE_MAX; lia).
  exact (conj H1 (conj H2 (C5_alm_new_exact_size [1; 2; 3; 4; 5] 2 1 H1 H2))).
Defined.

(** C6, as the claim states it, fails for [execDynamic(2, 1, 0)] with
    [fact_max] zero: the claimed chunk has size min(2, max(0, 0)) = 0, the
    scheduler raises the smallest chunk to 1 and hands out [0, 1). *)
Lemma C6_chunk_min_zero : ~ dynamic_claim 1 2 1 0 dzero.
Proof. exact dynamic_chunkMin_zero. Qed.

(** C6 (amended).  With c = max(1, chunkMin), n the number of workers and
    c * n below 2^64: when nwork <= c * n the call is the STATIC one with
    chunk size 0; otherwise every [getNext] with cur >= nwork returns the
    empty range, and any other returns [cur, cur + sz) with
    sz = min(rem, max(c, tmp)), rem = nwork - cur, tmp the value of
    fact_max * rem / n computed in double precision and truncated, and
    advances cur by sz; with fact_max zero tmp is 0 and every chunk that is
    not the last has size c; and, when tmp is defined for every rem, the
    ranges returned up to the first empty one chain from 0 to nwork. *)
Theorem C6_dynamic_schedule (dflt nwork nthreads chunkMin : Z) (fact : double) :
  is_size_t nwork -> is_size_t nthreads -> is_size_t chunkMin ->
  1 <= dflt <= SIZE_MAX ->
  Z.max 1 chunkMin * eff_threads dflt nthreads <= SIZE_MAX ->
  dynamic_ok (Z.max 1 chunkMin) guided_estimate dflt nwork nthreads chunkMin fact.
Proof. apply dynamic_holds. Qed.

Definition quarter : double := ddiv (double_of_Z 1) (double_of_Z 4).

Lemma C6_dynamic_schedule_witness :
  is_size_t 1000 /\ is_size_t 8 /\ is_size_t 1 /\ 1 <= 1 <= SIZE_MAX /\
  Z.max 1 1 * eff_threads 1 8 <= SIZE_MAX /\
  dynamic_ok (Z.max 1 1) guided_estimate 1 1000 8 1 quarter.
Proof.
  assert (H1 : is_size_t 1000) by (unfold is_size_t, SIZE_MAX; lia).
  assert (H2 : is_size_t 8) by (unfold is_size_t, SIZE_MAX; lia).
  assert (H3 : is_size_t 1) by (unfold is_size_t, SIZE_MAX; lia).
  assert (H4 : 1 <= 1 <= SIZE_MAX) by (unfold SIZE_MAX; lia).
  assert (H5 : Z.max 1 1 * eff_threads 1 8 <= SIZE_MAX)
    by (vm_compute; discriminate).
  exact (conj H1 (conj H2 (conj H3 (conj H4 (conj H5
    (C6_dynamic_schedule 1 1000 8 1 quarter H1 H2 H3 H4 H5)))))).
Defined.

(** C7, as the claim states it, fails for nwork = 2^64 - 1, two workers
    and chunk size 0: the default chunk size is computed as
    (nwork + nthreads - 1) / nthreads in [size_t], which wraps to 0, and
    worker 0 is handed the empty range instead of [0, 2^63). *)
Lemma C7_static_overflow : ~ static_ok 1 18446744073709551615 2 0.
Proof. exact static_overflow. Qed.

(** C7 (amended).  When nwork + nthreads - 1 (for a defaulted chunk size)
    and nwork + nthreads * C stay below 2^64, with C the chunk size, or
    the integer part of (nwork + nthreads - 1) / nthreads when it is given
    as 0: for C >= nwork the call is the SINGLE one; otherwise, in every
    order of the workers' calls, the k-th call of worker t returns the
    stripe [(t + k*nthreads)*C, (t + k*nthreads + 1)*C) clamped to nwork, or
    the empty range once the stripe starts at nwork or beyond; the ranges
    of a worker ascend, and every index below nwork lies in exactly one
    range. *)
Theorem C7_static_schedule (dflt nwork nthreads chunksize : Z) :
  is_size_t nwork -> is_size_t nthreads -> is_size_t chunksize ->
  1 <= dflt <= SIZE_MAX ->
  static_fits nwork (eff_threads dflt nthreads) chunksize ->
  static_ok dflt nwork nthreads chunksize.
Proof. apply static_holds. Qed.

Lemma C7_static_schedule_witness :
  is_size_t 100 /\ is_size_t 4 /\ is_size_t 7 /\ 1 <= 1 <= SIZE_MAX /\
  static_fits 100 (eff_threads 1 4) 7 /\
  static_ok 1 100 4 7.
Proof.
  assert (H1 : is_size_t 100) by (unfold is_size_t, SIZE_MAX; lia).
  assert (H2 : is_size_t 4) by (unfold is_size_t, SIZE_MAX; lia).
  assert (H3 : is_size_t 7) by (unfold is_size_t, SIZE_MAX; lia).
  assert (H4 : 1 <= 1 <= SIZE_MAX) by (unfold SIZE_MAX; lia).
  assert (H5 : static_fits 100 (eff_threads 1 4) 7).
  { split; [intros H; discriminate H|intros _; vm_compute; discriminate]. }
  exact (conj H1 (conj H2 (conj H3 (conj H4 (conj H5
    (C7_static_schedule 1 100 4 7 H1 H2 H3 H4 H5)))))).
Defined.

(** C8, as the claim states it, fails for nwork = 0: the first range,
    [0, 0), is empty as well. *)
Lemma C8_single_nwork_zero : ~ single_claim 0.
Proof. exact single_nwork_zero. Qed.

(** C8 (amended).  Under SINGLE scheduling the first [getNext] returns
    [0, nwork), which is non-empty exactly when nwork > 0, and every later
    call returns the empty range. *)
Theorem C8_single_ranges (g : Distribution) (nwork t : Z) (sched : list Z) :
  exists d d',
    run_execSingle g nwork = Ok d /\
    calls (t :: sched) d
    = Ok (mkRange 0 nwork :: replicate (length sched) Range0, d') /\
    (nonempty (mkRange 0 nwork) = true <-> 0 < nwork) /\
    Forall (fun r => nonempty r = false) (replicate (length sched) Range0).
Proof. apply single_ranges. Qed.

(** The claim as it is worded, for a store [a]: if [a] is complete, the
    rotation goes through and returns the modified store, whatever the
    angles. *)
Definition rotation_proceeds_claim {T : Type} (default_nthreads : Z)
    (dsin dcos : double -> double) (polar : double -> double -> Cplx double)
    (cd_mul cd_add : Cplx double -> Cplx double -> Cplx double)
    (cd_scale : Cplx double -> double -> Cplx double)
    (to_cd : Cplx T -> Cplx double) (of_cd : Cplx double -> Cplx T)
    (cT_mul_assign : Cplx T -> Cplx double -> Cplx T)
    (a : Alm (Cplx T)) : Prop :=
  complete (base a) = true ->
  forall g psi theta phi,
    exists a' w,
      rotate_alm default_nthreads dsin dcos polar cd_mul cd_add cd_scale to_cd
        of_cd cT_mul_assign g a psi theta phi = Ok (a', w).

(** C9, as the claim states it, fails for the store of band-limit
    L = 2^32 - 1 that [Alm(data, L, L)] builds over 2^31 entries, the value
    to which [Num_Alms(L, L)] wraps: the store holds L + 1 values of m and
    is complete, the assertion of [rotate_alm] passes, and the rotation
    (theta = 0) then leaves the buffer in column m = 0 instead of returning
    the rotated store. *)
Lemma C9_complete_store_not_rotated :
  exists a : Alm (Cplx double),
    Alm_new (replicate (Z.to_nat 2147483648) czero) 4294967295 4294967295
    = Ok a /\
    vsize (mval (base a)) = 4294967295 + 1 /\
    complete (base a) = true /\
    (forall g psi phi,
       rotate_alm 1 (fun x => x) (fun x => x) sample_polar sample_mul
         sample_add sample_scale (fun z => z) (fun z => z) sample_mul g a
         psi dzero phi = Err OutOfBounds) /\
    ~ rotation_proceeds_claim 1 (fun x => x) (fun x => x) sample_polar
        sample_mul sample_add sample_scale (fun z => z) (fun z => z)
        sample_mul a.
Proof.
  destruct (wrapped_count_rotation 1 (fun x => x) (fun x => x) sample_polar
              sample_mul sample_add sample_scale (fun z => z) (fun z => z)
              sample_mul (replicate (Z.to_nat 2147483648) czero))
    as (a & Ha & Hc & Hfail).
  { apply replicate_size. discriminate. }
  exists a. split; [exact Ha|]. split.
  { pose proof Hc as Hc'. unfold complete in Hc'. apply Z.eqb_eq in Hc'.
    destruct (Alm_new_inv _ _ _ _ Ha) as (_ & _ & Hl & _).
    rewrite Hl in Hc'. rewrite Hc'. reflexivity. }
  split; [exact Hc|]. split; [exact Hfail|].
  intros Hclaim. destruct (Hclaim Hc garbage0 dzero dzero dzero) as (a' & w & E).
  rewrite Hfail in E. discriminate E.
Qed.

(** C9 (amended).  [rotate_alm] fails with its assertion exactly when the
    store is not complete; [complete()] compares the number of stored m
    with lmax + 1 computed in [size_t], which for a store built by
    [Alm(data, L, M)] means that this number is L + 1; on a complete store
    the rotation itself runs, it raises no assertion, and a store it
    returns has the layout and the buffer length of the one it was given.
    On a complete store built by [Alm(data, L, M)] with L below 2^30 the
    rotation returns, for every angle, with a Wigner recursion exactly
    when theta is not zero, and the store is modified: for theta equal to
    zero (where (L+1)(L+2) below 2^64 suffices) every a(l, m) has been
    multiplied by polar(1, -(psi+phi)*m); for theta not zero the recursion
    has been advanced L + 1 times and every a(l, m) has been replaced by
    the rotated coefficient [rotated_coeff], computed from the a(l, 0),
    ..., a(l, l) of the store before the call and from the Wigner matrix
    after l + 1 calls of [recurse]. *)
Theorem C9_rotate_alm_guard {T : Type} (default_nthreads : Z)
    (dsin dcos : double -> double) (polar : double -> double -> Cplx double)
    (cd_mul cd_add : Cplx double -> Cplx double -> Cplx double)
    (cd_scale : Cplx double -> double -> Cplx double)
    (to_cd : Cplx T -> Cplx double) (of_cd : Cplx double -> Cplx T)
    (cT_mul_assign : Cplx T -> Cplx double -> Cplx T)
    (g : Distribution) (a : Alm (Cplx T)) (psi theta phi : double) :
  let r := rotate_alm default_nthreads dsin dcos polar cd_mul cd_add cd_scale
             to_cd of_cd cT_mul_assign g a psi theta phi in
  (is_shape_error r = true <-> complete (base a) = false) /\
  (complete (base a) = true <->
   vsize (mval (base a)) = wrap (lmax (base a) + 1)) /\
  (complete (base a) = false ->
   r = Err (ShapeError "rotate_alm: need complete A_lm set")) /\
  (complete (base a) = true ->
   r = if negb (SFeqb theta dzero)
       then let* (a', rec) :=
              rotate_general default_nthreads dsin dcos polar cd_mul cd_add
                cd_scale to_cd of_cd g a psi theta phi in
            Ok (a', Some rec)
       else a' <- rotate_phase polar cT_mul_assign a psi phi ;; Ok (a', None)) /\
  (forall a' w, r = Ok (a', w) -> same_shape a a') /\
  (forall data L M,
     is_size_t L -> is_size_t M -> Alm_new data L M = Ok a ->
     (complete (base a) = true <-> vsize (mval (base a)) = L + 1) /\
     (complete (base a) = true -> L < 1073741824 ->
      exists a' w, r = Ok (a', w) /\ same_shape a a' /\
                   (w = None <-> SFeqb theta dzero = true)) /\
     (complete (base a) = true -> (L + 1) * (L + 2) < SIZE_MOD ->
      SFeqb theta dzero = true ->
      exists a',
        r = Ok (a', None) /\
        forall l m, 0 <= m <= l -> l <= L ->
          exists v,
            Alm_get a l m = Ok v /\
            Alm_get a' l m
            = Ok (cT_mul_assign v
                    (polar done_1 (dmul (dneg (dadd psi phi)) (double_of_Z m))))) /\
     (complete (base a) = true -> L < 1073741824 ->
      SFeqb theta dzero = false ->
      exists a' w w0,
        r = Ok (a', Some w) /\
        wigner_new dsin dcos L theta = Ok w0 /\
        recurses (Z.to_nat (L + 1)) w0 = Ok w /\
        forall l m, 0 <= m <= l -> l <= L ->
          exists wl x,
            recurses (Z.to_nat (l + 1)) w0 = Ok wl /\
            rotated_coeff polar cd_mul cd_add cd_scale to_cd of_cd a psi phi
              (w_d wl) l m = Ok x /\
            Alm_get a' l m = Ok x)).
Proof.
  cbv zeta.
  destruct (rotate_alm_guard default_nthreads dsin dcos polar cd_mul cd_add
              cd_scale to_cd of_cd cT_mul_assign g a psi theta phi)
    as (Hno & Hyes & Hshape).
  split; [|split; [|split; [exact Hno|split; [|split; [exact Hshape|]]]]].
  - destruct (complete (base a)) eqn:Hc.
    + destruct (Hyes eq_refl) as [-> _]. done.
    + rewrite (Hno eq_refl). done.
  - unfold complete. apply Z.eqb_eq.
  - intros Hc. by destruct (Hyes Hc).
  - intros data L M HL HM Ha.
    destruct (complete_built data L M a HL HM Ha) as [Hmv Hiff].
    assert (HML : complete (base a) = true -> M = L).
    { intros Hc. apply Hiff in Hc. rewrite Hmv in Hc. unfold vsize in Hc.
      rewrite length_seqZ in Hc. unfold is_size_t in *. lia. }
    split; [exact Hiff|]. split; [|split].
    + intros Hc HL30. rewrite (HML Hc) in Ha.
      destruct (rotate_alm_returns default_nthreads dsin dcos polar cd_mul
                  cd_add cd_scale to_cd of_cd cT_mul_assign g data L a psi
                  theta phi) as (a' & w & E & Hw); [split; [apply HL|done]|done|].
      exists a', w. split; [done|]. split; [by apply (Hshape a' w)|done].
    + intros Hc Hp Hth. rewrite (HML Hc) in Ha.
      assert (HL0 : 0 <= L) by apply HL.
      pose proof (Alm_new_exact_count data L L a ltac:(lia) Hp
                    (complete_count_fits L HL0 Hp) Ha) as Hsz.
      destruct (rotate_phase_dense polar cT_mul_assign data L a psi phi HL0 Ha Hsz)
        as (a' & E & Hb & Hlen & Hspec).
      exists a'. split.
      * unfold rotate_alm, MR_assert. rewrite Hc, Hth. cbn [bind negb].
        rewrite E. done.
      * intros l m Hm Hl. destruct (Hspec l m Hm Hl) as (i & v & Ei & Hv & Hv').
        assert (Hi : 0 <= i).
        { revert Ei. unfold index. destruct (index_l0 _ _); [|done]. cbn [bind].
          intros [= <-]. apply wrap_range. }
        exists v. unfold Alm_get, mav_get. rewrite Hb, Ei. cbn [bind].
        split; apply vget_ok; done.
    + intros Hc HL30 Hth. rewrite (HML Hc) in Ha.
      assert (HL0 : 0 <= L < 1073741824) by (split; [apply HL|done]).
      assert (Hp : (L + 1) * (L + 2) < SIZE_MOD) by (unfold SIZE_MOD; nia).
      pose proof (Alm_new_exact_count data L L a ltac:(lia) Hp
                    (complete_count_fits L ltac:(lia) Hp) Ha) as Hsz.
      destruct (rotate_general_spec default_nthreads dsin dcos polar cd_mul
                  cd_add cd_scale to_cd of_cd data L g a psi theta phi HL0 Ha Hsz)
        as (a' & w & w0 & E & _ & Ew0 & Ew & Hspec).
      exists a', w, w0. split; [|done].
      unfold rotate_alm, MR_assert. rewrite Hc, Hth. cbn [bind negb].
      rewrite E. done.
Qed.

(** A store with the single column m = 1, [Alm_Base(1, {1}, {0})], which is
    not complete. *)
Definition column_store : Alm (Cplx double) :=
  mkAlm (mkAlmBase 1 2 [1] [-2; 0]) [mkC (double_of_Z 1) dzero; mkC dzero dzero].

(** [rotate_alm] refuses [column_store]; it rotates [sample_store], the
    complete store of band-limit 1, by angles (1, 1, 2), with a Wigner
    recursion, and every coefficient of the result is the rotated
    coefficient of [sample_store]. *)
Lemma C9_rotate_alm_guard_witness :
  Alm_Base_explicit 1 [1] [0] = Ok (base column_store) /\
  rotate_alm 1 (fun x => x) (fun x => x) sample_polar sample_mul sample_add
    sample_scale (fun z => z) (fun z => z) sample_mul garbage0 column_store
    (double_of_Z 1) (double_of_Z 1) (double_of_Z 2)
  = Err (ShapeError "rotate_alm: need complete A_lm set") /\
  exists a' w w0,
    rotate_alm 1 (fun x => x) (fun x => x) sample_polar sample_mul sample_add
      sample_scale (fun z => z) (fun z => z) sample_mul garbage0 sample_store
      (double_of_Z 1) (double_of_Z 1) (double_of_Z 2) = Ok (a', Some w) /\
    same_shape sample_store a' /\
    wigner_new (fun x => x) (fun x => x) 1 (double_of_Z 1) = Ok w0 /\
    forall l m, 0 <= m <= l -> l <= 1 ->
      exists wl x,
        recurses (Z.to_nat (l + 1)) w0 = Ok wl /\
        rotated_coeff sample_polar sample_mul sample_add sample_scale
          (fun z => z) (fun z => z) sample_store (double_of_Z 1) (double_of_Z 2)
          (w_d wl) l m = Ok x /\
        Alm_get a' l m = Ok x.
Proof.
  split; [reflexivity|]. split.
  - pose proof (C9_rotate_alm_guard 1 (fun x => x) (fun x => x) sample_polar
                  sample_mul sample_add sample_scale (fun z => z) (fun z => z)
                  sample_mul garbage0 column_store (double_of_Z 1)
                  (double_of_Z 1) (double_of_Z 2)) as (_ & _ & Hno & _).
    exact (Hno eq_refl).
  - pose proof (C9_rotate_alm_guard 1 (fun x => x) (fun x => x) sample_polar
                  sample_mul sample_add sample_scale (fun z => z) (fun z => z)
                  sample_mul garbage0 sample_store (double_of_Z 1)
                  (double_of_Z 1) (double_of_Z 2))
      as (_ & _ & _ & _ & Hshape & Hb).
    assert (H1 : is_size_t 1) by (unfold is_size_t, SIZE_MAX; lia).
    destruct (Hb sample_data 1 1 H1 H1 eq_refl) as (_ & _ & _ & Hrot).
    destruct (Hrot eq_refl ltac:(lia) eq_refl) as (a' & w & w0 & E & Ew0 & _ & Hspec).
    exists a', w, w0. split; [exact E|]. split; [exact (Hshape a' (Some w) E)|].
    split; [exact Ew0|exact Hspec].
Defined.




(** * Further properties of the code *)

(** ** The default thread count *)

(** The thread count after a start with [hw] hardware threads and any
    sequence of [set_default_nthreads] calls. *)
Definition config_after (hw : Z) (sets : list Z) : thread_config :=
  foldl (fun c n => set_default_nthreads n c) (thread_config_init hw) sets.

Lemma config_after_snoc hw sets n :
  config_after hw (sets ++ [n]) = set_default_nthreads n (config_after hw sets).
Proof. unfold config_after. by rewrite foldl_app. Qed.

(** X1.  Whatever the hardware reports and whatever is passed to
    [set_default_nthreads], [get_default_nthreads()] is at least 1: it is
    max(1, n) for the last n that was set, max(1, hw) when none was, while
    [max_threads()] stays max(1, hw); hence the worker count of every
    distribution that [execStatic], [execDynamic] or [execParallel] sets up
    with this default is at least 1, also for [nthreads == 0]. *)
Theorem default_nthreads_at_least_one (hw : Z) (sets : list Z) :
  let c := config_after hw sets in
  1 <= get_default_nthreads c /\
  get_default_nthreads c
  = Z.max 1 (match list.last sets with Some n => n | None => hw end) /\
  max_threads c = Z.max 1 hw /\
  (forall g nwork nthreads chunksize d,
     0 <= nthreads ->
     run_execStatic (get_default_nthreads c) g nwork nthreads chunksize = Ok d ->
     1 <= nthreads_ d) /\
  (forall g nwork nthreads chunkMin fact d,
     0 <= nthreads ->
     run_execGuided (get_default_nthreads c) g nwork nthreads chunkMin fact
     = Ok d ->
     1 <= nthreads_ d) /\
  (forall g nthreads d,
     0 <= nthreads ->
     run_execParallel (get_default_nthreads c) g nthreads = Ok d ->
     1 <= nthreads_ d).
Proof.
  cbv zeta.
  assert (Hget : get_default_nthreads (config_after hw sets)
                 = Z.max 1 (match list.last sets with Some n => n | None => hw end)).
  { induction sets as [|n sets _] using rev_ind; [done|].
    rewrite config_after_snoc, last_snoc. done. }
  assert (Hmax : max_threads (config_after hw sets) = Z.max 1 hw).
  { clear Hget. induction sets as [|n sets IH] using rev_ind; [done|].
    rewrite config_after_snoc. exact IH. }
  set (dflt := get_default_nthreads (config_after hw sets)) in *.
  assert (Hpos : 1 <= dflt) by lia.
  assert (Hstatic : forall nwork nthreads chunksize d0 d,
            0 <= nthreads ->
            execStatic dflt nwork nthreads chunksize d0 = Ok d -> 1 <= nthreads_ d).
  { intros nwork nthreads chunksize d0 d Hn. unfold execStatic, execSingle.
    cbv zeta. dist_simpl.
    destruct (_ <=? _).
    - intros [= <-]. dist_simpl. lia.
    - destruct (for_lt _ _ _ _) as [ns|]; [|done]. cbn [bind].
      intros [= <-]. dist_simpl. destruct (Z.eqb_spec nthreads 0); lia. }
  split; [done|]. split; [done|]. split; [done|]. split; [|split].
  - intros g nwork nthreads chunksize d Hn. apply Hstatic, Hn.
  - intros g nwork nthreads chunkMin fact d Hn.
    unfold run_execGuided, execDynamic. cbv zeta. dist_simpl.
    destruct (_ <=? _).
    + apply Hstatic, Hn.
    + intros [= <-]. dist_simpl. destruct (Z.eqb_spec nthreads 0); lia.
  - intros g nthreads d Hn. unfold run_execParallel, execParallel. cbv zeta.
    intros [= <-]. dist_simpl. destruct (Z.eqb_spec nthreads 0); lia.
Qed.

(** ** The latch *)

(** [k] successive [count_down] calls: the latch they leave, and for each
    call whether it notified the waiting threads. *)
Fixpoint count_downs (k : nat) (l : latch) : latch * list bool :=
  match k with
  | O => (l, [])
  | Datatypes.S k' =>
      let '(l', b) := count_down l in
      let '(l'', bs) := count_downs k' l' in
      (l'', b :: bs)
  end.

Lemma count_downs_step k l :
  count_downs (Datatypes.S k) l
  = ((count_downs k (count_down l).1).1,
     (count_down l).2 :: (count_downs k (count_down l).1).2).
Proof.
  cbn [count_downs]. destruct (count_down l) as [l' b]. cbn [fst snd].
  by destruct (count_downs k l') as [l'' bs].
Qed.

Lemma count_down_new n :
  1 <= n <= SIZE_MAX -> count_down (latch_new n) = (latch_new (n - 1), n - 1 =? 0).
Proof.
  intros Hn. unfold count_down, latch_new. cbn [num_left_].
  by rewrite wrap_small by (unfold SIZE_MAX in Hn; lia).
Qed.

Lemma count_downs_spec k : forall n,
  Z.of_nat k <= n <= SIZE_MAX ->
  (count_downs k (latch_new n)).1 = latch_new (n - Z.of_nat k) /\
  length (count_downs k (latch_new n)).2 = k /\
  forall i : nat, (i < k)%nat ->
    (count_downs k (latch_new n)).2 !! i = Some (n - 1 - Z.of_nat i =? 0).
Proof.
  induction k as [|k IH]; intros n Hn.
  - cbn. rewrite Z.sub_0_r. split; [done|]. split; [done|]. lia.
  - rewrite count_downs_step, count_down_new by lia. cbn [fst snd].
    destruct (IH (n - 1)) as (H1 & H2 & H3); [lia|].
    split; [rewrite H1; f_equal; lia|]. split; [cbn; by rewrite H2|].
    intros [|i] Hi; cbn.
    + by rewrite Z.sub_0_r.
    + rewrite H3 by lia. do 2 f_equal. lia.
Qed.

(** X2.  A latch created for [n] is ready after exactly [n] [count_down]
    calls and not before, and it is the n-th call, and no earlier one,
    that notifies the waiting threads; counting down a latch that is
    already at zero wraps the counter to 2^64 - 1, after which the latch
    is not ready any more. *)
Theorem latch_ready_after_exactly_n (n : Z) (k : nat) :
  0 <= n <= SIZE_MAX -> Z.of_nat k <= n ->
  (is_ready (count_downs k (latch_new n)).1 = true <-> Z.of_nat k = n) /\
  length (count_downs k (latch_new n)).2 = k /\
  (forall i : nat,
     (count_downs k (latch_new n)).2 !! i = Some true <->
     (i < k)%nat /\ Z.of_nat i + 1 = n) /\
  (is_ready (latch_new n) = true ->
   count_down (latch_new n) = (latch_new SIZE_MAX, false) /\
   is_ready (count_down (latch_new n)).1 = false).
Proof.
  intros Hn Hk. destruct (count_downs_spec k n) as (H1 & H2 & H3); [lia|].
  split; [|split; [done|split]].
  - rewrite H1. unfold is_ready, latch_new. cbn [num_left_]. rewrite Z.eqb_eq. lia.
  - intros i. destruct (decide (i < k)%nat) as [Hi|Hi].
    + rewrite H3 by done. split.
      * intros [= E]. apply Z.eqb_eq in E. lia.
      * intros [_ E]. f_equal. apply Z.eqb_eq. lia.
    + rewrite lookup_ge_None_2 by lia. split; [done|lia].
  - unfold is_ready, latch_new. cbn [num_left_]. intros E%Z.eqb_eq. subst n.
    split; reflexivity.
Qed.

Lemma latch_ready_after_exactly_n_witness :
  0 <= 3 <= SIZE_MAX /\ Z.of_nat 3 <= 3 /\
  is_ready (count_downs 3 (latch_new 3)).1 = true /\
  (count_downs 3 (latch_new 3)).2 = [false; false; true].
Proof.
  assert (H1 : 0 <= 3 <= SIZE_MAX) by (unfold SIZE_MAX; lia).
  assert (H2 : Z.of_nat 3 <= 3) by lia.
  pose proof (latch_ready_after_exactly_n 3 3 H1 H2) as (Hr & _).
  split; [exact H1|]. split; [exact H2|]. split; [|reflexivity].
  apply Hr. reflexivity.
Defined.

(** ** The work queue *)

(** The counter [size_] is the number of queued entries. *)
Definition queue_ok {T : Type} (c : concurrent_queue T) : Prop :=
  size_ c = Z.of_nat (length (q_ c)).

Definition pushes {T : Type} (xs : list T) (c : concurrent_queue T)
  : concurrent_queue T :=
  foldl (fun c x => push x c) c xs.

(** [k] successive [try_pop] calls and their results. *)
Fixpoint pops {T : Type} (k : nat) (c : concurrent_queue T)
  : list (option T) * concurrent_queue T :=
  match k with
  | O => ([], c)
  | Datatypes.S k' =>
      let '(r, c') := try_pop c in
      let '(rs, c'') := pops k' c' in
      (r :: rs, c'')
  end.

Lemma pushes_spec {T : Type} (xs : list T) : forall c,
  queue_ok c -> Z.of_nat (length (q_ c) + length xs) <= SIZE_MAX ->
  queue_ok (pushes xs c) /\ q_ (pushes xs c) = q_ c ++ xs.
Proof.
  induction xs as [|x xs IH]; intros c Hc Hlen.
  - cbn. by rewrite app_nil_r.
  - cbn [pushes foldl]. cbn [length] in Hlen.
    destruct (IH (push x c)) as [H1 H2].
    + unfold queue_ok, push in *. cbn [q_ size_]. rewrite length_app. cbn [length].
      rewrite Hc. rewrite wrap_small by (unfold SIZE_MAX in Hlen; lia). lia.
    + unfold push. cbn [q_]. rewrite length_app. cbn [length]. lia.
    + split; [exact H1|]. unfold pushes in H2. rewrite H2. unfold push.
      cbn [q_]. by rewrite <- app_assoc.
Qed.

Lemma pops_spec {T : Type} (k : nat) : forall c : concurrent_queue T,
  queue_ok c -> Z.of_nat (length (q_ c)) <= SIZE_MAX -> (k <= length (q_ c))%nat ->
  pops k c
  = (Some <$> take k (q_ c),
     mkQueue (drop k (q_ c)) (size_ c - Z.of_nat k)).
Proof.
  induction k as [|k IH]; intros c Hc Hlen Hk.
  - cbn. rewrite Z.sub_0_r. by destruct c.
  - destruct c as [[|x q] sz]; cbn [q_ size_ length] in *; [lia|].
    unfold queue_ok in Hc. cbn [q_ size_ length] in Hc.
    cbn [pops]. unfold try_pop. cbn [q_ size_].
    destruct (Z.eqb_spec sz 0) as [E|_]; [lia|].
    rewrite wrap_small by (unfold SIZE_MAX in Hlen; lia).
    rewrite IH; cbn [q_ size_].
    + cbn [take drop]. rewrite fmap_cons. f_equal. f_equal. lia.
    + unfold queue_ok. cbn [q_ size_]. lia.
    + lia.
    + lia.
Qed.

(** X3.  The queue is first-in first-out: after the entries [xs] have been
    pushed onto a queue that holds [q], any k <= |q| + |xs| [try_pop] calls
    all succeed and return the first k entries of [q ++ xs] in that order;
    the counter keeps telling the number of queued entries; and once the
    queue has been emptied [try_pop] returns false and changes nothing. *)
Theorem queue_first_in_first_out {T : Type} (c : concurrent_queue T)
    (xs : list T) (k : nat) :
  queue_ok c -> Z.of_nat (length (q_ c) + length xs) <= SIZE_MAX ->
  (k <= length (q_ c) + length xs)%nat ->
  let all := q_ c ++ xs in
  pops k (pushes xs c)
  = (Some <$> take k all,
     mkQueue (drop k all) (Z.of_nat (length all) - Z.of_nat k)) /\
  queue_ok (pops k (pushes xs c)).2 /\
  try_pop (pops (length all) (pushes xs c)).2
  = (None, mkQueue [] 0).
Proof.
  intros Hc Hlen Hk. cbv zeta.
  destruct (pushes_spec xs c Hc Hlen) as [Hok Hq].
  assert (Hall : length (q_ c ++ xs) = (length (q_ c) + length xs)%nat)
    by apply length_app.
  assert (Hpops : forall j, (j <= length (q_ c) + length xs)%nat ->
            pops j (pushes xs c)
            = (Some <$> take j (q_ c ++ xs),
               mkQueue (drop j (q_ c ++ xs))
                 (Z.of_nat (length (q_ c ++ xs)) - Z.of_nat j))).
  { intros j Hj. rewrite pops_spec; [|done|rewrite Hq, Hall; lia|rewrite Hq; lia].
    rewrite Hok, Hq. done. }
  split; [by apply Hpops|]. split.
  - rewrite Hpops by done. unfold queue_ok. cbn [snd q_ size_].
    rewrite length_drop. lia.
  - rewrite Hpops by lia. cbn [snd]. rewrite drop_all, Z.sub_diag. reflexivity.
Qed.

Lemma queue_first_in_first_out_witness :
  queue_ok (mkQueue [1; 2] 2) /\
  pops 3 (pushes [3; 4] (mkQueue [1; 2] 2))
  = ([Some 1; Some 2; Some 3], mkQueue [4] 1).
Proof.
  assert (H1 : queue_ok (mkQueue [1; 2] 2)) by reflexivity.
  assert (H2 : Z.of_nat (length (q_ (mkQueue [1; 2] 2)) + length [3; 4])
               <= SIZE_MAX) by (vm_compute; discriminate).
  assert (H3 : (3 <= length (q_ (mkQueue [1; 2] 2)) + length [3; 4])%nat)
    by (cbn; lia).
  split; [exact H1|].
  exact (proj1 (queue_first_in_first_out (mkQueue [1; 2] 2) [3; 4] 3 H1 H2 H3)).
Defined.

(** ** The build without threads *)

Lemma nothreading_calls_done k :
  NoThreading.calls k (NoThreading.mkSched 0)
  = (replicate k Range0, NoThreading.mkSched 0).
Proof.
  induction k as [|k IH]; [done|].
  cbn [NoThreading.calls]. unfold NoThreading.getNext at 1.
  cbn [NoThreading.nwork_]. by rewrite IH.
Qed.

Lemma nothreading_calls_first k nwork :
  NoThreading.calls (Datatypes.S k) (NoThreading.mkSched nwork)
  = (mkRange 0 nwork :: replicate k Range0, NoThreading.mkSched 0).
Proof.
  cbn [NoThreading.calls]. unfold NoThreading.getNext at 1.
  cbn [NoThreading.nwork_]. by rewrite nothreading_calls_done.
Qed.

(** X4.  The scheduler of the build without threads hands out the same
    ranges as the threaded build does under SINGLE scheduling, and as the
    threaded [execStatic(nwork, 1, 0, f)] used by [rotate_alm] does: first
    [0, nwork), then empty ranges, whichever workers ask; and its
    [execParallel] hands out [0, 1) and then empty ranges. *)
Theorem nothreading_ranges_as_single (g : Distribution) (dflt nwork : Z)
    (sched : list Z) (nthreads chunksize : Z) :
  0 <= nwork <= SIZE_MAX ->
  let rs := (NoThreading.calls (length sched)
               (NoThreading.execStatic nwork nthreads chunksize)).1 in
  rs = take (length sched) (mkRange 0 nwork :: replicate (length sched) Range0) /\
  (exists d d', run_execSingle g nwork = Ok d /\ calls sched d = Ok (rs, d')) /\
  (exists d d',
     run_execStatic dflt g nwork 1 0 = Ok d /\ calls sched d = Ok (rs, d')) /\
  (NoThreading.calls (length sched) (NoThreading.execParallel nthreads)).1
  = take (length sched) (mkRange 0 1 :: replicate (length sched) Range0).
Proof.
  intros Hw. cbv zeta. unfold NoThreading.execStatic, NoThreading.execParallel.
  assert (Hd : exists d, run_execStatic dflt g nwork 1 0 = Ok d /\
                         mode d = SINGLE /\ single_done d = false /\
                         nwork_ d = nwork).
  { unfold run_execStatic, execStatic, execSingle. cbv zeta. dist_simpl.
    change (1 =? 0) with false. change (0 <? 1) with true. cbv iota.
    rewrite Z.div_1_r. replace (nwork + 1 - 1) with nwork by lia.
    rewrite wrap_small by (unfold SIZE_MAX in Hw; lia).
    rewrite Z.leb_refl. eexists. split; [reflexivity|]. done. }
  destruct Hd as (ds & Es & Hm & Hsd & Hnw).
  destruct sched as [|t sched].
  - cbn. split; [done|]. split; [|split; [|done]].
    + eexists _, _. split; reflexivity.
    + exists ds, ds. done.
  - cbn [length]. rewrite !nothreading_calls_first. cbn [fst take].
    rewrite take_replicate.
    replace (length sched `min` Datatypes.S (length sched))%nat
      with (length sched) by lia.
    split; [done|]. split; [|split; [|done]].
    + eexists _, _. split; [reflexivity|]. by apply calls_single.
    + exists ds. eexists. split; [exact Es|].
      rewrite (calls_single t sched ds Hm Hsd), Hnw. reflexivity.
Qed.

Lemma nothreading_ranges_as_single_witness :
  0 <= 5 <= SIZE_MAX /\
  (NoThreading.calls 3 (NoThreading.execStatic 5 4 2)).1
  = [mkRange 0 5; Range0; Range0] /\
  exists d d',
    run_execStatic 8 garbage0 5 1 0 = Ok d /\
    calls [0; 0; 0] d = Ok ([mkRange 0 5; Range0; Range0], d').
Proof.
  assert (H1 : 0 <= 5 <= SIZE_MAX) by (unfold SIZE_MAX; lia).
  pose proof (nothreading_ranges_as_single garbage0 8 5 [0; 0; 0] 4 2 H1)
    as (Hr & _ & Hs & _).
  split; [exact H1|]. split; [reflexivity|]. exact Hs.
Defined.

(** ** What [getNext] writes *)

(** X5.  A [getNext] call that returns leaves the set-up of the
    distribution (worker count, amount of work, chunk size, growth factor,
    mode) as it was; under SINGLE it writes [single_done] only, under
    DYNAMIC [cur_] only, and under STATIC only the position of the calling
    worker, which is a worker of the table: the positions of all other
    workers stay as they were. *)
Theorem getNext_writes_own_state (t : Z) (d d' : Distribution) (r : Range) :
  getNext t d = Ok (r, d') ->
  nthreads_ d' = nthreads_ d /\ nwork_ d' = nwork_ d /\
  chunksize_ d' = chunksize_ d /\ fact_max_ d' = fact_max_ d /\
  mode d' = mode d /\
  match mode d with
  | SINGLE =>
      single_done d' = true /\ cur_ d' = cur_ d /\ nextstart d' = nextstart d
  | STATIC =>
      single_done d' = single_done d /\ cur_ d' = cur_ d /\
      0 <= t < vsize (nextstart d) /\
      vsize (nextstart d') = vsize (nextstart d) /\
      forall u, u <> t -> vget (nextstart d') u = vget (nextstart d) u
  | DYNAMIC =>
      single_done d' = single_done d /\ nextstart d' = nextstart d
  end.
Proof.
  unfold getNext. destruct (mode d) eqn:Hm.
  - destruct (single_done d) eqn:Hs; intros [= <- <-]; dist_simpl; by rewrite ?Hm.
  - unfold vget at 1. destruct (Z.leb_spec 0 t) as [Ht|]; [|done].
    destruct (nextstart d !! Z.to_nat t) as [ns|] eqn:Ens; [|done].
    pose proof (lookup_lt_Some _ _ _ Ens) as Hlt. cbn [bind].
    assert (Hin : 0 <= t < vsize (nextstart d)) by (unfold vsize; lia).
    destruct (nwork_ d <=? ns).
    + intros [= <- <-]. by rewrite Hm.
    + cbv zeta. rewrite vset_ok by (unfold vsize in Hin; lia). cbn [bind].
      intros [= <- <-]. dist_simpl. rewrite Hm.
      repeat (split; [done|]). split; [unfold vsize; by rewrite length_insert|].
      intros u Hu. unfold vget. destruct (Z.leb_spec 0 u); [|done].
      rewrite list_lookup_insert_ne by lia. done.
  - destruct (nwork_ d <=? cur_ d).
    + intros [= <- <-]. by rewrite Hm.
    + cbv zeta. destruct (guided_estimate _ _ _) as [tmp|]; [|done].
      cbn [bind]. intros [= <- <-]. dist_simpl. by rewrite Hm.
Qed.

Lemma getNext_writes_own_state_witness :
  getNext 1 (mkDist 2 10 0 3 dzero [0; 3] STATIC false)
  = Ok (mkRange 3 6, mkDist 2 10 0 3 dzero [0; 9] STATIC false) /\
  vget [0; 9] 0 = vget [0; 3] 0.
Proof.
  assert (E : getNext 1 (mkDist 2 10 0 3 dzero [0; 3] STATIC false)
              = Ok (mkRange 3 6, mkDist 2 10 0 3 dzero [0; 9] STATIC false))
    by reflexivity.
  pose proof (getNext_writes_own_state 1 _ _ _ E) as (_ & _ & _ & _ & _ & H).
  cbn [mode] in H. destruct H as (_ & _ & _ & _ & H).
  split; [exact E|]. apply (H 0). lia.
Defined.

(** ** The checks of the sparse constructors *)

(** The entries of [mv] do not exceed [L] and ascend strictly. *)
Definition ascending_below (L : Z) (mv : list Z) : Prop :=
  (forall i m, mv !! i = Some m -> m <= L) /\
  (forall i m m', mv !! i = Some m -> mv !! Datatypes.S i = Some m' -> m < m').

Lemma iterM_unit (body : Z -> unit -> res unit) n : forall i,
  (iterM n i body tt = Ok tt <->
   forall j, i <= j < i + Z.of_nat n -> body j tt = Ok tt) /\
  (forall f, iterM n i body tt = Err f ->
     exists j, i <= j < i + Z.of_nat n /\ body j tt = Err f).
Proof.
  induction n as [|n IH]; intros i.
  - cbn. split; [|done]. split; [lia|done].
  - cbn [iterM]. destruct (IH (i + 1)) as [IH1 IH2].
    destruct (body i tt) as [[]|f0] eqn:E; cbn [bind].
    + split.
      * rewrite IH1. split.
        -- intros H j Hj. destruct (decide (j = i)) as [->|]; [done|].
           apply H. lia.
        -- intros H j Hj. apply H. lia.
      * intros f Hf. destruct (IH2 f Hf) as (j & Hj & Ej).
        exists j. split; [lia|done].
    + split.
      * split; [done|]. intros H. rewrite H in E by lia. done.
      * intros f [= <-]. exists i. split; [lia|done].
Qed.

Lemma check_mval_spec L mv :
  (check_mval L mv = Ok tt <-> ascending_below L mv) /\
  (check_mval L mv = Ok tt \/
   check_mval L mv = Err (ShapeError "m >= lmax") \/
   check_mval L mv = Err (ShapeError "m not strictly ascending")).
Proof.
  unfold check_mval, for_lt. rewrite Z.sub_0_r. unfold vsize. rewrite Nat2Z.id.
  set (body := fun (i : Z) (_ : unit) => _).
  assert (Hbody : forall j : nat, (j < length mv)%nat ->
            exists mi, mv !! j = Some mi /\
              body (Z.of_nat j) tt
              = (if mi <=? L
                 then match j with
                      | O => Ok tt
                      | Datatypes.S j' =>
                          match mv !! j' with
                          | Some mp =>
                              if mp <? mi then Ok tt
                              else Err (ShapeError "m not strictly ascending")
                          | None => Err OutOfBounds
                          end
                      end
                 else Err (ShapeError "m >= lmax"))).
  { intros j Hj. destruct (lookup_lt_is_Some_2 mv j Hj) as [mi Hmi].
    exists mi. split; [done|]. unfold body, MR_assert.
    rewrite (vget_ok mv (Z.of_nat j) mi) by (rewrite ?Nat2Z.id; first [lia|done]).
    cbn [bind]. destruct (mi <=? L); [|done]. cbn [bind].
    destruct j as [|j']; [done|].
    destruct (Z.ltb_spec 0 (Z.of_nat (Datatypes.S j'))); [|lia].
    replace (Z.of_nat (Datatypes.S j') - 1) with (Z.of_nat j') by lia.
    unfold vget. destruct (Z.leb_spec 0 (Z.of_nat j')); [|lia].
    rewrite Nat2Z.id. by destruct (mv !! j'). }
  destruct (iterM_unit body (length mv) 0) as [Hok Herr].
  split.
  - rewrite Hok. split.
    + intros H. split.
      * intros i m Hi. pose proof (lookup_lt_Some _ _ _ Hi) as Hlt.
        destruct (Hbody i Hlt) as (mi & Hmi & Eb).
        rewrite Hi in Hmi. injection Hmi as <-.
        rewrite H in Eb by lia. destruct (Z.leb_spec m L); [done|].
        discriminate Eb.
      * intros i m m' Hi Hi'. pose proof (lookup_lt_Some _ _ _ Hi') as Hlt.
        destruct (Hbody (Datatypes.S i) Hlt) as (mi & Hmi & Eb).
        rewrite Hi' in Hmi. injection Hmi as <-.
        rewrite H in Eb by lia. rewrite Hi in Eb.
        destruct (m' <=? L); [|discriminate Eb].
        destruct (Z.ltb_spec m m'); [done|discriminate Eb].
    + intros [Hle Hasc] j Hj.
      destruct (Hbody (Z.to_nat j)) as (mi & Hmi & Eb); [lia|].
      rewrite Z2Nat.id in Eb by lia. rewrite Eb.
      destruct (Z.leb_spec mi L) as [_|Hgt]; [|specialize (Hle _ _ Hmi); lia].
      destruct (Z.to_nat j) as [|j'] eqn:Ej; [done|].
      destruct (lookup_lt_is_Some_2 mv j') as [mp Hmp]; [lia|].
      rewrite Hmp. destruct (Z.ltb_spec mp mi); [done|].
      specialize (Hasc _ _ _ Hmp Hmi). lia.
  - destruct (iterM (length mv) 0 body tt) as [[]|f] eqn:E; [by left|right].
    destruct (Herr f eq_refl) as (j & Hj & Ej).
    destruct (Hbody (Z.to_nat j)) as (mi & Hmi & Eb); [lia|].
    rewrite Z2Nat.id in Eb by lia. rewrite Eb in Ej.
    destruct (mi <=? L); [|left; congruence].
    destruct (Z.to_nat j) as [|j'] eqn:Ej'; [done|].
    destruct (lookup_lt_is_Some_2 mv j') as [mp Hmp]; [lia|].
    rewrite Hmp in Ej. destruct (mp <? mi); [done|right; congruence].
Qed.

Lemma explicit_checks_inv L mv ms b :
  Alm_Base_explicit L mv ms = Ok b ->
  mv <> [] /\ length ms = length mv /\ ascending_below L mv /\ mval b = mv.
Proof.
  destruct (check_mval_spec L mv) as [Hiff _].
  unfold Alm_Base_explicit, MR_assert.
  destruct (Z.ltb_spec 0 (vsize mv)) as [Hpos|]; [|done]. cbn [bind].
  destruct (Z.eqb_spec (vsize ms) (vsize mv)) as [Hlen|]; [|done]. cbn [bind].
  destruct (check_mval L mv) as [[]|] eqn:Hc; [|done]. cbn [bind].
  destruct (vback mv); [|done]. cbn [bind]. cbv zeta.
  destruct (for_lt _ _ _ _) as [[ms' asz]|]; [|done]. cbn [bind].
  intros [= <-]. split; [by intros ->|]. unfold vsize in Hlen.
  split; [lia|]. split; [by apply Hiff|done].
Qed.

(** X6.  Both sparse constructors refuse, with a [ShapeError] and before
    the table of offsets is built, an empty [mval] ("no m indices supplied"), an
    [mval] with an entry above lmax ("m >= lmax") and an [mval] that does
    not ascend strictly; the explicit one also refuses an [mstart] whose
    length differs from that of [mval].  So a layout that either
    constructor returns has a non-empty, strictly ascending [mval] with
    entries up to lmax. *)
Theorem sparse_constructors_check_mval (junk L : Z) (mv ms : list Z) :
  (mv = [] ->
   Alm_Base_explicit L mv ms = Err (ShapeError "no m indices supplied") /\
   Alm_Base_sparse junk L mv = Err (ShapeError "no m indices supplied")) /\
  (mv <> [] -> length ms <> length mv ->
   Alm_Base_explicit L mv ms
   = Err (ShapeError "mval and mstart have different sizes")) /\
  (mv <> [] -> ~ ascending_below L mv ->
   (length ms = length mv ->
    Alm_Base_explicit L mv ms = Err (ShapeError "m >= lmax") \/
    Alm_Base_explicit L mv ms = Err (ShapeError "m not strictly ascending")) /\
   (Alm_Base_sparse junk L mv = Err (ShapeError "m >= lmax") \/
    Alm_Base_sparse junk L mv = Err (ShapeError "m not strictly ascending"))) /\
  (forall b, Alm_Base_explicit L mv ms = Ok b ->
     mv <> [] /\ length ms = length mv /\ ascending_below L mv /\ mval b = mv) /\
  (forall b, Alm_Base_sparse junk L mv = Ok b ->
     mv <> [] /\ ascending_below L mv /\ mval b = mv).
Proof.
  destruct (check_mval_spec L mv) as [Hiff Hcases].
  assert (Hne : mv <> [] -> (0 <? vsize mv) = true).
  { intros H. apply Z.ltb_lt. unfold vsize. destruct mv; [done|cbn; lia]. }
  assert (Hbad : ~ ascending_below L mv ->
            check_mval L mv = Err (ShapeError "m >= lmax") \/
            check_mval L mv = Err (ShapeError "m not strictly ascending")).
  { intros Hn. destruct Hcases as [H|H]; [|done]. by apply Hiff in H. }
  split; [|split; [|split; [|split]]].
  - intros ->. split; reflexivity.
  - intros Hmv Hlen. unfold Alm_Base_explicit, MR_assert. rewrite (Hne Hmv).
    cbn [bind]. unfold vsize. destruct (Z.eqb_spec (Z.of_nat (length ms))
                                          (Z.of_nat (length mv))); [lia|done].
  - intros Hmv Hn. split.
    + intros Hlen. unfold Alm_Base_explicit, MR_assert. rewrite (Hne Hmv).
      cbn [bind]. unfold vsize. rewrite Hlen, Z.eqb_refl. cbn [bind].
      destruct (Hbad Hn) as [-> | ->]; [by left|by right].
    + unfold Alm_Base_sparse, MR_assert. rewrite (Hne Hmv). cbn [bind].
      destruct (Hbad Hn) as [-> | ->]; [by left|by right].
  - intros b. apply explicit_checks_inv.
  - intros b. unfold Alm_Base_sparse, MR_assert.
    destruct (Z.ltb_spec 0 (vsize mv)) as [Hpos|]; [|done]. cbn [bind].
    destruct (check_mval L mv) as [[]|] eqn:Hc; [|done]. cbn [bind].
    destruct (vback mv); [|done]. cbn [bind]. cbv zeta.
    destruct (sparse_fill _ _ _ _ _ _ _) as [ms'|]; [|done]. cbn [bind].
    destruct (vback ms'); [|done]. cbn [bind].
    destruct (ptr_add _ _); [|done]. cbn [bind].
    intros [= <-]. split; [by intros ->|]. split; [by apply Hiff|done].
Qed.

(** ** The layout built by the explicit constructor *)

Lemma iterM_inv_ok {S : Type} (I : Z -> S -> Prop) (body : Z -> S -> res S) n :
  forall i s s',
    iterM n i body s = Ok s' -> I i s ->
    (forall j t t', i <= j < i + Z.of_nat n -> I j t -> body j t = Ok t' ->
                    I (j + 1) t') ->
    I (i + Z.of_nat n) s'.
Proof.
  induction n as [|n IH]; intros i s s' E Hs Hstep.
  - cbn in E. injection E as <-. by rewrite Z.add_0_r.
  - cbn [iterM] in E. destruct (body i s) as [t|] eqn:Et; [|done].
    cbn [bind] in E.
    replace (i + Z.of_nat (Datatypes.S n)) with (i + 1 + Z.of_nat n) by lia.
    apply (IH (i + 1) t s' E).
    + apply (Hstep i s t); [lia|done|done].
    + intros j u u' Hj. apply Hstep. lia.
Qed.

Lemma ascending_lt L mv : ascending_below L mv ->
  forall k j a c, (j < k)%nat -> mv !! j = Some a -> mv !! k = Some c -> a < c.
Proof.
  intros [_ Hasc]. induction k as [|k IH]; intros j a c Hj Ha Hc; [lia|].
  destruct (lookup_lt_is_Some_2 mv k) as [x Hx].
  { apply lookup_lt_Some in Hc. lia. }
  pose proof (Hasc k x c Hx Hc). destruct (decide (j = k)) as [->|].
  - rewrite Hx in Ha. injection Ha as <-. done.
  - pose proof (IH j a x ltac:(lia) Ha Hx). lia.
Qed.

Lemma foldr_max_snoc (es : list Z) e :
  foldr Z.max 0 (es ++ [e]) = Z.max (foldr Z.max 0 es) e.
Proof. induction es as [|x es IH]; cbn; [lia|]. rewrite IH. lia. Qed.

Lemma foldr_max_nonneg (es : list Z) : 0 <= foldr Z.max 0 es.
Proof. induction es as [|x es IH]; cbn; lia. Qed.

(** The number of entries the explicit constructor counts for the offsets
    [ms]: the largest of the [s + (lmax + 1)], and at least 0. *)
Definition extent (L : Z) (ms_ : list Z) : Z :=
  foldr Z.max 0 ((fun s => s + to_signed (wrap (L + 1))) <$> ms_).

(** The state of the loop of the explicit constructor after [k] rounds. *)
Definition explicit_inv (L : Z) (mv ms_ ms0 : list Z) (i : Z)
    (st : list Z * Z) : Prop :=
  let k := Z.to_nat i in
  length st.1 = length ms0 /\
  st.2 = extent L (take k ms_) /\
  st.2 <= PTRDIFF_MAX /\
  (forall j m s, (j < k)%nat -> mv !! j = Some m -> ms_ !! j = Some s ->
     0 <= m /\ st.1 !! Z.to_nat m = Some s) /\
  (forall p, (forall j m, (j < k)%nat -> mv !! j = Some m -> Z.to_nat m <> p) ->
     st.1 !! p = ms0 !! p).

Lemma explicit_loop L mv ms_ ms0 ms asz :
  ascending_below L mv -> length ms_ = length mv ->
  for_lt 0 (vsize mv)
    (fun i '(ms, asz) =>
       mi <- vget mv i ;;
       si <- vget ms_ i ;;
       ms' <- vset ms mi si ;;
       e <- ptr_add si (to_signed (wrap (L + 1))) ;;
       Ok (ms', wrap (Z.max (to_signed asz) e)))
    (ms0, 0) = Ok (ms, asz) ->
  explicit_inv L mv ms_ ms0 (vsize mv) (ms, asz).
Proof.
  intros Hasc Hlen E. unfold for_lt in E. rewrite Z.sub_0_r in E.
  apply (iterM_inv_ok (explicit_inv L mv ms_ ms0)) in E.
  - unfold vsize in E. by rewrite Nat2Z.id in E.
  - unfold explicit_inv. cbn. split; [done|]. split; [done|].
    split; [unfold PTRDIFF_MAX; lia|]. split; [lia|done].
  - clear E. intros i [ms1 asz1] [ms2 asz2] Hi (H1 & H2 & H3 & H4 & H5).
    cbn [fst snd] in H1, H2, H3, H4, H5. unfold vsize in Hi.
    unfold vget at 1. destruct (Z.leb_spec 0 i); [|lia].
    destruct (mv !! Z.to_nat i) as [mi|] eqn:Emi; [|done]. cbn [bind].
    unfold vget at 1. destruct (Z.leb_spec 0 i); [|lia].
    destruct (ms_ !! Z.to_nat i) as [si|] eqn:Esi; [|done]. cbn [bind].
    unfold vset. destruct (Z.leb_spec 0 mi) as [Hmi|]; [|done].
    destruct (Z.ltb_spec mi (Z.of_nat (length ms1))) as [Hmi'|]; [|done].
    cbn [andb bind]. unfold ptr_add, ptr_check.
    destruct (Z.leb_spec PTRDIFF_MIN (si + to_signed (wrap (L + 1)))); [|done].
    destruct (Z.leb_spec (si + to_signed (wrap (L + 1))) PTRDIFF_MAX); [|done].
    cbn [andb bind]. intros [= <- <-].
    assert (Hk : Z.to_nat (i + 1) = Datatypes.S (Z.to_nat i)) by lia.
    assert (Hext : extent L (take (Datatypes.S (Z.to_nat i)) ms_)
                   = Z.max asz1 (si + to_signed (wrap (L + 1)))).
    { rewrite (take_S_r _ _ _ Esi), H2. unfold extent. rewrite fmap_app.
      apply foldr_max_snoc. }
    assert (Hnn : 0 <= asz1) by (rewrite H2; apply foldr_max_nonneg).
    unfold explicit_inv. cbn [fst snd]. rewrite Hk, Hext.
    split; [by rewrite length_insert|].
    rewrite (to_signed_small asz1) by (unfold PTRDIFF_MAX in *; lia).
    split; [apply wrap_small; unfold PTRDIFF_MAX in *; lia|].
    split; [rewrite wrap_small; unfold PTRDIFF_MAX in *; lia|]. split.
    + intros j m s Hj Hm Hs. destruct (decide (j = Z.to_nat i)) as [->|Hne].
      * rewrite Emi in Hm. rewrite Esi in Hs. injection Hm as <-.
        injection Hs as <-. split; [done|].
        apply list_lookup_insert_eq. lia.
      * destruct (H4 j m s ltac:(lia) Hm Hs) as [Hm0 Hl]. split; [done|].
        rewrite list_lookup_insert_ne; [done|].
        pose proof (ascending_lt L mv Hasc (Z.to_nat i) j m mi ltac:(lia) Hm Emi).
        lia.
    + intros p Hp. rewrite list_lookup_insert_ne.
      * apply H5. intros j m Hj. apply Hp. lia.
      * apply (Hp (Z.to_nat i) mi); [lia|done].
Qed.

(** X7.  A layout [b] returned by [Alm_Base(lmax, mval, mstart)] keeps
    [lmax] and [mval]; its table has one entry per m up to the last of
    [mval]; the column of [mval[i]] starts where [mstart[i]] says, so that
    a(l, mval[i]) is at [mstart[i] + l] (as a [size_t]); an m below the
    last one that is not in [mval] has the offset [-2*lmax], no error being
    raised for it; and [n_entries()] is the largest of the
    [mstart[i] + ptrdiff_t(lmax + 1)], or 0 when they are all negative. *)
Theorem explicit_constructor_layout (L : Z) (mv ms_ : list Z) (b : Alm_Base) :
  Alm_Base_explicit L mv ms_ = Ok b ->
  lmax b = L /\ mval b = mv /\
  (exists bk, list.last mv = Some bk /\ 0 <= bk /\ vsize (mstart b) = bk + 1) /\
  (forall i m s, mv !! i = Some m -> ms_ !! i = Some s ->
     index_l0 b m = Ok (wrap s) /\
     forall l, index b l m = Ok (wrap (s + l))) /\
  (forall m, 0 <= m < vsize (mstart b) -> m ∉ mv ->
     index_l0 b m = Ok (wrap (-2 * L))) /\
  n_entries b = extent L ms_ /\ 0 <= n_entries b <= PTRDIFF_MAX.
Proof.
  intros E.
  destruct (explicit_checks_inv L mv ms_ b E) as (Hne & Hlen & Hasc & _).
  revert E. unfold Alm_Base_explicit, MR_assert.
  destruct (0 <? vsize mv); [|done]. cbn [bind].
  destruct (vsize ms_ =? vsize mv); [|done]. cbn [bind].
  destruct (check_mval L mv) as [[]|]; [|done]. cbn [bind].
  unfold vback. destruct (list.last mv) as [bk|] eqn:Ebk; [|done].
  cbn [bind]. cbv zeta.
  destruct (for_lt _ _ _ _) as [[ms asz]|] eqn:Eloop; [|done]. cbn [bind].
  intros [= <-]. cbn [lmax mval mstart arrsize n_entries].
  apply (explicit_loop L mv ms_ _ ms asz Hasc Hlen) in Eloop.
  destruct Eloop as (H1 & H2 & H3 & H4 & H5). cbn [fst snd] in *.
  unfold vsize in *. rewrite Nat2Z.id in *.
  rewrite length_replicate in H1.
  assert (Hall : forall j m, mv !! j = Some m ->
            exists s, ms_ !! j = Some s /\ 0 <= m /\ ms !! Z.to_nat m = Some s).
  { intros j m Hm. pose proof (lookup_lt_Some _ _ _ Hm) as Hj.
    destruct (lookup_lt_is_Some_2 ms_ j) as [s Hs]; [lia|].
    exists s. split; [done|]. by apply (H4 j m s). }
  assert (Hbk : 0 <= bk /\ Z.of_nat (length ms) = bk + 1).
  { rewrite last_lookup in Ebk. destruct (Hall _ _ Ebk) as (s & _ & Hb0 & Hs).
    apply lookup_lt_Some in Hs. split; [done|]. rewrite H1.
    pose proof (wrap_range (bk + 1)). rewrite H1 in Hs.
    assert (wrap (bk + 1) <= bk + 1) by (unfold wrap; zmod). lia. }
  split; [done|]. split; [done|]. split; [by exists bk|]. split; [|split].
  - intros i m s Hm Hs. destruct (Hall i m Hm) as (s' & Hs' & Hm0 & Hl).
    rewrite Hs in Hs'. injection Hs' as <-.
    assert (E0 : index_l0 (mkAlmBase L asz mv ms) m = Ok (wrap s)).
    { unfold index_l0. cbn [mstart]. by rewrite (vget_ok ms m s Hm0 Hl). }
    split; [exact E0|]. intros l. unfold index. rewrite E0. cbn [bind].
    by rewrite wrap_add_l.
  - intros m Hm Hnin. unfold index_l0. cbn [mstart].
    assert (El : ms !! Z.to_nat m = Some (sentinel L)).
    { rewrite H5.
      - apply lookup_replicate_2. lia.
      - intros j m' _ Hm' Heq. destruct (Hall j m' Hm') as (_ & _ & Hm0 & _).
        assert (m' = m) as -> by lia. apply Hnin. by eapply list_elem_of_lookup_2. }
    rewrite (vget_ok ms m _ ltac:(lia) El). cbn [bind]. unfold sentinel.
    by rewrite wrap_to_signed, wrap_wrap.
  - rewrite firstn_all2 in H2 by lia. split; [done|]. split; [|done].
    rewrite H2. apply foldr_max_nonneg.
Qed.

Lemma explicit_constructor_layout_witness :
  Alm_Base_explicit 2 [0; 2] [0; 1] = Ok (mkAlmBase 2 4 [0; 2] [0; -4; 1]) /\
  index (mkAlmBase 2 4 [0; 2] [0; -4; 1]) 2 2 = Ok (wrap (1 + 2)) /\
  n_entries (mkAlmBase 2 4 [0; 2] [0; -4; 1]) = extent 2 [0; 1].
Proof.
  assert (E : Alm_Base_explicit 2 [0; 2] [0; 1]
              = Ok (mkAlmBase 2 4 [0; 2] [0; -4; 1])) by reflexivity.
  pose proof (explicit_constructor_layout 2 [0; 2] [0; 1] _ E)
    as (_ & _ & _ & Hidx & _ & Hn & _).
  split; [exact E|]. split; [|exact Hn].
  exact (proj2 (Hidx 1%nat 2 1 eq_refl eq_refl) 2).
Defined.

(** What the explicit constructor needs beyond its own checks: entries of
    [mval] that are [size_t] values below the largest one, and offsets to
    which lmax + 1 can be added as a [ptrdiff_t]. *)
Definition explicit_fits (L : Z) (mv ms_ : list Z) : Prop :=
  Forall (fun m => 0 <= m < SIZE_MAX) mv /\
  Forall (fun s => PTRDIFF_MIN <= s + to_signed (wrap (L + 1)) <= PTRDIFF_MAX) ms_.

Lemma ascending_last L mv bk :
  ascending_below L mv -> list.last mv = Some bk ->
  forall j m, mv !! j = Some m -> m <= bk.
Proof.
  intros Hasc Ebk j m Hm. rewrite last_lookup in Ebk.
  pose proof (lookup_lt_Some _ _ _ Hm) as Hj.
  destruct (decide (j = Nat.pred (length mv))) as [->|Hne].
  - rewrite Ebk in Hm. injection Hm as <-. lia.
  - pose proof (ascending_lt L mv Hasc (Nat.pred (length mv)) j m bk
                  ltac:(lia) Hm Ebk). lia.
Qed.

Lemma explicit_run L mv ms_ :
  mv <> [] -> length ms_ = length mv -> ascending_below L mv ->
  explicit_fits L mv ms_ ->
  exists b, Alm_Base_explicit L mv ms_ = Ok b.
Proof.
  intros Hne Hlen Hasc [Hmv Hms].
  destruct (check_mval_spec L mv) as [Hiff _].
  unfold Alm_Base_explicit, MR_assert.
  assert (Hpos : (0 <? vsize mv) = true).
  { apply Z.ltb_lt. unfold vsize. destruct mv; [done|cbn; lia]. }
  rewrite Hpos. cbn [bind]. unfold vsize at 1 2. rewrite Hlen, Z.eqb_refl.
  cbn [bind]. rewrite (proj2 Hiff Hasc). cbn [bind]. unfold vback.
  destruct (list.last mv) as [bk|] eqn:Ebk.
  2: { apply last_None in Ebk. done. }
  cbn [bind]. cbv zeta.
  assert (Hbk : 0 <= bk < SIZE_MAX).
  { rewrite last_lookup in Ebk. apply list_elem_of_lookup_2 in Ebk.
    by apply (proj1 (Forall_forall _ _) Hmv). }
  rewrite (wrap_small (bk + 1)) by (unfold SIZE_MAX in Hbk; lia).
  run_for_lt (fun st : list Z * Z => length st.1 = Z.to_nat (bk + 1)).
  - cbn [fst]. by rewrite length_replicate.
  - intros i [ms asz] Hi Hst. cbn [fst] in Hst. cbv beta iota.
    unfold vsize in Hi.
    destruct (lookup_lt_is_Some_2 mv (Z.to_nat i)) as [mi Hmi]; [lia|].
    destruct (lookup_lt_is_Some_2 ms_ (Z.to_nat i)) as [si Hsi]; [lia|].
    rewrite (vget_ok mv i mi ltac:(lia) Hmi). cbn [bind].
    rewrite (vget_ok ms_ i si ltac:(lia) Hsi). cbn [bind].
    pose proof (ascending_last L mv bk Hasc Ebk _ _ Hmi) as Hle.
    pose proof (proj1 (Forall_forall _ _) Hmv mi
                  (list_elem_of_lookup_2 _ _ _ Hmi)) as Hmi0.
    cbv beta in Hmi0.
    rewrite vset_ok by lia. cbn [bind].
    pose proof (proj1 (Forall_forall _ _) Hms si
                  (list_elem_of_lookup_2 _ _ _ Hsi)) as Hsi0.
    cbv beta in Hsi0.
    unfold ptr_add, ptr_check.
    destruct (Z.leb_spec PTRDIFF_MIN (si + to_signed (wrap (L + 1)))); [|lia].
    destruct (Z.leb_spec (si + to_signed (wrap (L + 1))) PTRDIFF_MAX); [|lia].
    cbn [andb bind]. eexists. split; [reflexivity|]. cbn [fst].
    by rewrite length_insert.
  - destruct s as [ms asz]. cbv beta iota. by eexists.
Qed.

(** X8.  For an [mval] of [size_t] values below 2^64 - 1 and an [mstart]
    to whose entries lmax + 1 can be added without leaving [ptrdiff_t],
    [Alm_Base(lmax, mval, mstart)] succeeds exactly when [mval] is not
    empty, [mstart] has its length, and [mval] ascends strictly with
    entries up to lmax; otherwise it fails with a [ShapeError]. *)
Theorem explicit_constructor_succeeds_iff (L : Z) (mv ms_ : list Z) :
  explicit_fits L mv ms_ ->
  ((exists b, Alm_Base_explicit L mv ms_ = Ok b) <->
   mv <> [] /\ length ms_ = length mv /\ ascending_below L mv) /\
  ((forall b, Alm_Base_explicit L mv ms_ <> Ok b) ->
   is_shape_error (Alm_Base_explicit L mv ms_) = true).
Proof.
  intros Hfit.
  assert (Hiff : (exists b, Alm_Base_explicit L mv ms_ = Ok b) <->
                 mv <> [] /\ length ms_ = length mv /\ ascending_below L mv).
  { split.
    - intros [b E]. destruct (explicit_checks_inv L mv ms_ b E) as (? & ? & ? & _).
      done.
    - intros (Hne & Hlen & Hasc). by apply explicit_run. }
  split; [exact Hiff|]. intros Hno.
  destruct (check_mval_spec L mv) as [Hc Hcases].
  unfold Alm_Base_explicit, MR_assert.
  destruct (Z.ltb_spec 0 (vsize mv)) as [Hpos|]; [|done]. cbn [bind].
  destruct (Z.eqb_spec (vsize ms_) (vsize mv)) as [Hlen|]; [|done]. cbn [bind].
  destruct Hcases as [H|[-> | ->]]; [|done|done].
  exfalso. destruct (proj2 Hiff) as [b Eb]; [|by apply (Hno b)].
  split; [|split].
  - intros ->. unfold vsize in Hpos. cbn in Hpos. lia.
  - unfold vsize in Hlen. lia.
  - by apply Hc.
Qed.

Lemma explicit_constructor_succeeds_iff_witness :
  explicit_fits 2 [0; 2] [0; 1] /\
  (exists b, Alm_Base_explicit 2 [0; 2] [0; 1] = Ok b) /\
  is_shape_error (Alm_Base_explicit 2 [2; 0] [0; 1]) = true.
Proof.
  assert (H1 : explicit_fits 2 [0; 2] [0; 1]).
  { split; repeat constructor; vm_compute; congruence. }
  assert (H2 : explicit_fits 2 [2; 0] [0; 1]).
  { split; repeat constructor; vm_compute; congruence. }
  split; [exact H1|]. split.
  - apply (proj1 (explicit_constructor_succeeds_iff 2 [0; 2] [0; 1] H1)).
    split; [done|]. split; [done|]. split.
    + intros [|[|[|i]]] m [= <-]; lia.
    + intros [|[|i]] m m' [= <-] [= <-]. lia.
  - apply (proj2 (explicit_constructor_succeeds_iff 2 [2; 0] [0; 1] H2)).
    intros b E. discriminate E.
Defined.

Lemma foldr_max_eq (es : list Z) v :
  0 <= v -> v ∈ es -> (forall e, e ∈ es -> e <= v) -> foldr Z.max 0 es = v.
Proof.
  intros Hv Hin Hle.
  assert (Hub : foldr Z.max 0 es <= v).
  { clear Hin. induction es as [|x es IH]; cbn; [lia|].
    pose proof (Hle x ltac:(left)).
    assert (foldr Z.max 0 es <= v); [|lia].
    apply IH. intros e He. apply Hle. by right. }
  assert (Hlb : v <= foldr Z.max 0 es).
  { clear Hle Hub. induction es as [|x es IH]; [by apply elem_of_nil in Hin|].
    cbn. apply elem_of_cons in Hin as [->|Hin]; [lia|].
    specialize (IH Hin). lia. }
  lia.
Qed.

Lemma col_start_offset_mono L m m' :
  0 <= m <= m' -> m' <= L + 1 -> col_start L m - m <= col_start L m' - m'.
Proof.
  intros Hm Hm'. pose proof (col_start_double L m) as E.
  pose proof (col_start_double L m') as E'.
  assert (Hd : 2 * ((col_start L m' - m') - (col_start L m - m))
               = (m' - m) * (2 * L + 1 - m - m')) by lia.
  destruct (decide (m = m')) as [->|]; [lia|].
  assert (0 <= (m' - m) * (2 * L + 1 - m - m')) by (apply Z.mul_nonneg_nonneg; lia).
  lia.
Qed.

(** X9.  The explicit constructor reproduces the dense one: given the
    [mval] and [mstart] of the layout that [Alm_Base(L, M)] builds, it
    returns that very layout, [n_entries()] included. *)
Theorem explicit_of_dense_layout (L M : Z) (b : Alm_Base) :
  0 <= M <= L -> num_alms_exact L M <= PTRDIFF_MAX ->
  Alm_Base_dense L M = Ok b ->
  Alm_Base_explicit L (mval b) (mstart b) = Ok b.
Proof.
  intros HM Hfit Eb.
  assert (HL : L + 1 <= PTRDIFF_MAX).
  { pose proof (dense_slot_bounds L M L 0 ltac:(lia) ltac:(lia) ltac:(lia)) as [H1 H2].
    rewrite col_start_0 in H1. lia. }
  assert (Hp : (M + 1) * (M + 2) < SIZE_MOD).
  { pose proof (consecutive_even (M + 2)) as E.
    replace (M + 2 - 1) with (M + 1) in E by lia.
    rewrite (Z.mul_comm (M + 2)) in E.
    assert (0 <= (M + 1) * (L - M)) by (apply Z.mul_nonneg_nonneg; lia).
    unfold num_alms_exact, PTRDIFF_MAX, SIZE_MOD in *. lia. }
  destruct (Alm_Base_dense_layout L M HM Hp)
    as (b' & Eb' & Hl & Ha & Hmv & Hlen & Hms).
  { unfold PTRDIFF_MAX, SIZE_MOD in *. lia. }
  rewrite Eb in Eb'. injection Eb' as <-.
  assert (Hoff : forall m, 0 <= m <= M ->
            0 <= col_start L m - m /\
            col_start L m - m + (L + 1) <= num_alms_exact L M).
  { intros m Hm.
    pose proof (col_start_offset_mono L 0 m ltac:(lia) ltac:(lia)) as H0.
    rewrite col_start_0 in H0.
    pose proof (col_start_offset_mono L m M ltac:(lia) ltac:(lia)).
    rewrite num_alms_exact_col_start, col_start_succ. lia. }
  assert (Hms' : forall m, 0 <= m <= M ->
            mstart b !! Z.to_nat m = Some (col_start L m - m)).
  { intros m Hm. rewrite Hms by done. f_equal.
    destruct (Hoff m Hm). rewrite wrap_small, to_signed_small;
      unfold PTRDIFF_MAX in *; lia. }
  assert (Hext : to_signed (wrap (L + 1)) = L + 1).
  { rewrite wrap_small, to_signed_small; unfold PTRDIFF_MAX in *; lia. }
  destruct (explicit_run L (mval b) (mstart b)) as [b2 E2].
  - rewrite Hmv. intros E. apply (f_equal length) in E.
    rewrite length_seqZ in E. cbn in E. lia.
  - rewrite Hmv, length_seqZ. lia.
  - rewrite Hmv. split.
    + intros i m Hi. apply lookup_seqZ in Hi. lia.
    + intros i m m' Hi Hi'. apply lookup_seqZ in Hi, Hi'. lia.
  - split.
    + rewrite Hmv. apply Forall_forall. intros m Hm.
      apply elem_of_seqZ in Hm. unfold SIZE_MAX, PTRDIFF_MAX in *. lia.
    + apply Forall_forall. intros s Hs. rewrite Hext.
      apply list_elem_of_lookup_1 in Hs as [j Hj].
      pose proof (lookup_lt_Some _ _ _ Hj) as Hjl.
      rewrite <- (Nat2Z.id j), (Hms' (Z.of_nat j)) in Hj by lia.
      injection Hj as <-. destruct (Hoff (Z.of_nat j)); [lia|].
      unfold PTRDIFF_MIN, PTRDIFF_MAX in *. lia.
  - rewrite E2. f_equal.
    destruct (explicit_checks_inv _ _ _ _ E2) as (_ & _ & Hasc & Hmv2).
    revert E2. unfold Alm_Base_explicit, MR_assert.
    destruct (0 <? vsize (mval b)); [|done]. cbn [bind].
    destruct (vsize (mstart b) =? vsize (mval b)); [|done]. cbn [bind].
    destruct (check_mval L (mval b)) as [[]|]; [|done]. cbn [bind].
    unfold vback. destruct (list.last (mval b)) as [bk|] eqn:Ebk; [|done].
    cbn [bind]. cbv zeta.
    destruct (for_lt _ _ _ _) as [[ms asz]|] eqn:Eloop; [|done]. cbn [bind].
    intros [= <-].
    assert (Hbk : bk = M).
    { rewrite Hmv, last_lookup, length_seqZ in Ebk.
      apply lookup_seqZ in Ebk. lia. }
    subst bk.
    apply explicit_loop in Eloop; [|done|rewrite Hmv, length_seqZ; lia].
    destruct Eloop as (H1 & H2 & _ & H4 & _). cbn [fst snd] in H1, H2, H4.
    rewrite length_replicate, (wrap_small (M + 1)) in H1
      by (unfold PTRDIFF_MAX in *; lia).
    assert (Hvs : Z.to_nat (vsize (mval b)) = length (mstart b)).
    { unfold vsize. rewrite Hmv, Nat2Z.id, length_seqZ. lia. }
    rewrite Hvs in H2, H4. rewrite firstn_all in H2.
    destruct b as [bl ba bmv bms]. cbn [lmax arrsize mval mstart] in *.
    subst bl bmv. f_equal.
    + rewrite H2, Ha. unfold extent. apply foldr_max_eq.
      * destruct (Hoff M ltac:(lia)). lia.
      * apply list_elem_of_fmap. exists (col_start L M - M). split.
        -- rewrite Hext, num_alms_exact_col_start, col_start_succ. lia.
        -- eapply list_elem_of_lookup_2. apply (Hms' M). lia.
      * intros e He. apply list_elem_of_fmap in He as (s & -> & Hs).
        apply list_elem_of_lookup_1 in Hs as [j Hj].
        pose proof (lookup_lt_Some _ _ _ Hj) as Hjl.
        rewrite <- (Nat2Z.id j), (Hms' (Z.of_nat j)) in Hj by lia.
        injection Hj as <-. rewrite Hext. apply (Hoff (Z.of_nat j)). lia.
    + apply list_eq. intros j. destruct (decide (j < length bms)%nat) as [Hj|Hj].
      * destruct (lookup_lt_is_Some_2 bms j Hj) as [s Hs].
        destruct (H4 j (Z.of_nat j) s Hj) as [_ H]; [|done|].
        { rewrite lookup_seqZ. lia. }
        rewrite Nat2Z.id in H. by rewrite H, Hs.
      * rewrite !lookup_ge_None_2; [done|lia|lia].
Qed.

Lemma explicit_of_dense_layout_witness :
  0 <= 1 <= 2 /\ num_alms_exact 2 1 <= PTRDIFF_MAX /\
  Alm_Base_dense 2 1 = Ok (mkAlmBase 2 5 [0; 1] [0; 2]) /\
  Alm_Base_explicit 2 [0; 1] [0; 2] = Ok (mkAlmBase 2 5 [0; 1] [0; 2]).
Proof.
  assert (H1 : 0 <= 1 <= 2) by lia.
  assert (H2 : num_alms_exact 2 1 <= PTRDIFF_MAX) by (vm_compute; discriminate).
  assert (H3 : Alm_Base_dense 2 1 = Ok (mkAlmBase 2 5 [0; 1] [0; 2]))
    by reflexivity.
  exact (conj H1 (conj H2 (conj H3 (explicit_of_dense_layout 2 1 _ H1 H2 H3)))).
Defined.

(** ** Dense stores *)

(** X10.  The dense constructors refuse mmax > lmax with the [ShapeError]
    of [Num_Alms], after the loop over m has filled the tables without
    leaving them; for mmax = 2^64 - 1 the tables have length 0 and the
    first round of the loop writes outside them. *)
Theorem dense_constructors_reject_mmax_above_lmax {T : Type} (zero_T : T)
    (data : list T) (L M : Z) :
  L < M -> 0 <= M <= SIZE_MAX ->
  (M < SIZE_MAX ->
   Alm_Base_dense L M = Err (ShapeError "mmax must not be larger than lmax") /\
   Alm_new data L M = Err (ShapeError "mmax must not be larger than lmax") /\
   Alm_alloc zero_T L M = Err (ShapeError "mmax must not be larger than lmax")) /\
  (M = SIZE_MAX ->
   Alm_Base_dense L M = Err OutOfBounds /\
   Alm_new data L M = Err OutOfBounds /\
   Alm_alloc zero_T L M = Err OutOfBounds).
Proof.
  intros HLM HM. split.
  - intros HM1. destruct (Alm_Base_dense_run L M ltac:(lia)) as (ms & E & _).
    assert (Eb : Alm_Base_dense L M
                 = Err (ShapeError "mmax must not be larger than lmax")).
    { rewrite E. unfold Num_Alms, MR_assert.
      destruct (Z.leb_spec M L); [lia|done]. }
    unfold Alm_new, Alm_alloc. by rewrite Eb.
  - intros ->. unfold Alm_new, Alm_alloc. by rewrite Alm_Base_dense_max.
Qed.

Lemma dense_constructors_reject_mmax_above_lmax_witness :
  2 < 3 /\ 0 <= 3 <= SIZE_MAX /\
  Alm_new [1; 2; 3] 2 3 = Err (ShapeError "mmax must not be larger than lmax").
Proof.
  assert (H1 : 2 < 3) by lia.
  assert (H2 : 0 <= 3 <= SIZE_MAX) by (unfold SIZE_MAX; lia).
  assert (H3 : 3 < SIZE_MAX) by (unfold SIZE_MAX; lia).
  split; [exact H1|]. split; [exact H2|].
  exact (proj1 (proj2 (proj1
    (dense_constructors_reject_mmax_above_lmax 0 [1; 2; 3] 2 3 H1 H2) H3))).
Defined.

(** X11.  On the store built by [Alm(data, L, M)], writing [x] to a(l, m)
    through [operator()] and reading a(l, m) back gives [x]; every other
    coefficient reads as before the write; and the write changes neither
    the layout nor the length of the buffer. *)
Theorem alm_write_then_read {T : Type} (data : list T) (L M : Z) (a : Alm T)
    (l m : Z) (x : T) :
  0 <= M <= L -> Alm_new data L M = Ok a ->
  mav_size data = num_alms_exact L M ->
  0 <= m <= M -> m <= l <= L ->
  exists a',
    Alm_put a l m x = Ok a' /\ Alm_get a' l m = Ok x /\ same_shape a a' /\
    forall l' m', 0 <= m' <= M -> m' <= l' <= L -> (l', m') <> (l, m) ->
      Alm_get a' l' m' = Alm_get a l' m' /\ is_ok (Alm_get a l' m') = true.
Proof.
  intros HM Ha Hsz Hm Hl.
  destruct (dense_store_facts data L M a HM Ha Hsz)
    as (_ & _ & _ & Hd & _ & Hidx & Hinj).
  destruct (Hidx l m Hm Hl) as [Ei Hi].
  set (i := col_start L m - m + l) in *.
  assert (Eput : Alm_put a l m x = Ok (mkAlm (base a) (<[Z.to_nat i := x]> data))).
  { unfold Alm_put, mav_set. rewrite Ei. cbn [bind]. rewrite Hd.
    by rewrite vset_ok by lia. }
  eexists. split; [exact Eput|]. split; [|split].
  - unfold Alm_get, mav_get. cbn [base alm]. rewrite Ei. cbn [bind].
    apply vget_ok; [lia|]. apply list_lookup_insert_eq. lia.
  - by eapply Alm_put_shape.
  - intros l' m' Hm' Hl' Hne. destruct (Hidx l' m' Hm' Hl') as [Ei' Hi'].
    set (i' := col_start L m' - m' + l') in *.
    assert (Hii : i' <> i).
    { intros Heq. rewrite Heq in Ei'.
      destruct (Hinj l' m' l m i Hm' Hl' Hm Hl Ei' Ei) as [-> ->]. done. }
    unfold Alm_get, mav_get. cbn [base alm]. rewrite Ei', Hd. cbn [bind].
    destruct (lookup_lt_is_Some_2 data (Z.to_nat i')) as [v Hv]; [lia|].
    rewrite (vget_ok data i' v ltac:(lia) Hv). split; [|done].
    apply vget_ok; [lia|]. rewrite list_lookup_insert_ne by lia. done.
Qed.

Lemma alm_write_then_read_witness :
  0 <= 1 <= 1 /\ Alm_new [10; 20; 30] 1 1 = Ok (mkAlm (mkAlmBase 1 3 [0; 1] [0; 1]) [10; 20; 30]) /\
  exists a',
    Alm_put (mkAlm (mkAlmBase 1 3 [0; 1] [0; 1]) [10; 20; 30]) 1 0 7 = Ok a' /\
    Alm_get a' 1 0 = Ok 7.
Proof.
  assert (H1 : 0 <= 1 <= 1) by lia.
  assert (H2 : Alm_new [10; 20; 30] 1 1
               = Ok (mkAlm (mkAlmBase 1 3 [0; 1] [0; 1]) [10; 20; 30]))
    by reflexivity.
  assert (H3 : mav_size [10; 20; 30] = num_alms_exact 1 1) by reflexivity.
  destruct (alm_write_then_read [10; 20; 30] 1 1 _ 1 0 7 H1 H2 H3
              ltac:(lia) ltac:(lia)) as (a' & E & Eg & _).
  split; [exact H1|]. split; [exact H2|]. exists a'. split; [exact E|exact Eg].
Defined.

Lemma applyLM_dense {T : Type} (data : list T) L M (a : Alm T)
    (func : Z -> Z -> T -> res T) (g : Z -> Z -> T -> T) :
  0 <= M <= L -> Alm_new data L M = Ok a ->
  mav_size data = num_alms_exact L M ->
  (forall l m v, 0 <= m <= M -> m <= l <= L -> func l m v = Ok (g l m v)) ->
  exists a',
    applyLM func a = Ok a' /\ same_shape a a' /\
    forall l m, 0 <= m <= M -> m <= l <= L ->
      exists v, Alm_get a l m = Ok v /\ Alm_get a' l m = Ok (g l m v).
Proof.
  intros HM Ha Hsz Hf.
  destruct (dense_store_facts data L M a HM Ha Hsz)
    as (HL1 & Hl & Hmv & Hd & _ & Hidx & Hinj).
  rewrite applyLM_visits by (rewrite Hl; lia).
  unfold stored_pairs. rewrite Hl, Hmv, Hd.
  assert (Hdom : forall l m, (l, m) ∈ pairs_of L (seqZ 0 (M + 1)) <->
                             0 <= m <= M /\ m <= l <= L).
  { intros l m. rewrite elem_of_pairs_of, elem_of_seqZ. lia. }
  destruct (visits_spec (base a) func g (pairs_of L (seqZ 0 (M + 1))))
    with (buf := data) as (buf' & E & Hlen & Hspec).
  - intros l m v Hin. apply Hdom in Hin as [? ?]. by apply Hf.
  - apply NoDup_pairs_of, NoDup_seqZ.
  - intros l m l' m' i Hin Hin' Hi Hi'.
    apply Hdom in Hin as [? ?]. apply Hdom in Hin' as [? ?].
    destruct (Hinj l m l' m' i) as [-> ->]; done.
  - intros l m Hin. apply Hdom in Hin as [? ?].
    destruct (Hidx l m) as [Ei Hi]; [done|done|]. eexists. split; [exact Ei|lia].
  - rewrite E. cbn [bind]. eexists. split; [reflexivity|].
    split; [split; [done|cbn [alm]; by rewrite Hd]|].
    intros l m Hm Hlm. destruct (Hidx l m Hm Hlm) as [Ei Hi].
    destruct (lookup_lt_is_Some_2 data (Z.to_nat (col_start L m - m + l)))
      as [v Hv]; [lia|].
    exists v. unfold Alm_get, mav_get. cbn [base alm]. rewrite Ei, Hd.
    cbn [bind]. split; [apply vget_ok; [lia|done]|].
    apply vget_ok; [lia|]. apply (Hspec l m); [by apply Hdom|done|done].
Qed.

Section Scaling.
Context {T T2 : Type}.
Variable mul_assign : T -> T2 -> T.

(** X12.  [ScaleL(factor)] fails with its [ShapeError] whenever [factor]
    has at most lmax entries, whatever the layout; on the store built by
    [Alm(data, L, M)], M <= L, over exactly (M+1)(M+2)/2 + (M+1)(L-M)
    entries (the value of [Num_Alms] when it does not wrap) and a longer
    [factor] it multiplies every coefficient a(l, m) by [factor[l]], once,
    and keeps layout and buffer length. *)
Theorem scaleL_multiplies_by_degree (data : list T) (L M : Z) (a : Alm T)
    (factor : list T2) :
  0 <= M <= L -> Alm_new data L M = Ok a ->
  mav_size data = num_alms_exact L M ->
  (forall a0 : Alm T,
     mav_size factor <= lmax (base a0) ->
     ScaleL mul_assign factor a0
     = Err (ShapeError "alm.ScaleL: factor array too short")) /\
  (L < mav_size factor ->
   exists a',
     ScaleL mul_assign factor a = Ok a' /\ same_shape a a' /\
     forall l m, 0 <= m <= M -> m <= l <= L ->
       exists v f,
         Alm_get a l m = Ok v /\ factor !! Z.to_nat l = Some f /\
         Alm_get a' l m = Ok (mul_assign v f)).
Proof.
  intros HM Ha Hsz. split.
  - intros a0 Hshort. unfold ScaleL, MR_assert.
    destruct (Z.ltb_spec (lmax (base a0)) (mav_size factor)); [lia|done].
  - intros Hlong.
    destruct (dense_store_facts data L M a HM Ha Hsz) as (_ & Hl & _).
    unfold ScaleL, MR_assert. rewrite Hl.
    destruct (Z.ltb_spec L (mav_size factor)); [|lia]. cbn [bind].
    destruct (applyLM_dense data L M a
                (fun l _ v => f <- mav_get factor l ;; Ok (mul_assign v f))
                (fun l _ v => match factor !! Z.to_nat l with
                              | Some f => mul_assign v f
                              | None => v
                              end) HM Ha Hsz) as (a' & E & Hs & Hspec).
    { intros l m v Hm Hlm.
      destruct (lookup_lt_is_Some_2 factor (Z.to_nat l)) as [f Hf].
      { unfold mav_size, vsize in Hlong. lia. }
      unfold mav_get. rewrite (vget_ok factor l f ltac:(lia) Hf), Hf. done. }
    exists a'. split; [exact E|]. split; [exact Hs|].
    intros l m Hm Hlm. destruct (Hspec l m Hm Hlm) as (v & Hv & Hv').
    destruct (lookup_lt_is_Some_2 factor (Z.to_nat l)) as [f Hf].
    { unfold mav_size, vsize in Hlong. lia. }
    exists v, f. rewrite Hf in Hv'. done.
Qed.

(** X13.  [ScaleM(factor)] fails with its [ShapeError] whenever [factor]
    has at most [Mmax()] entries; on the store built by [Alm(data, L, M)],
    M <= L, over exactly (M+1)(M+2)/2 + (M+1)(L-M) entries (the value of
    [Num_Alms] when it does not wrap), where [Mmax()] is M, and a longer
    [factor] it multiplies every coefficient a(l, m) by [factor[m]], once,
    and keeps layout and buffer length. *)
Theorem scaleM_multiplies_by_order (data : list T) (L M : Z) (a : Alm T)
    (factor : list T2) :
  0 <= M <= L -> Alm_new data L M = Ok a ->
  mav_size data = num_alms_exact L M ->
  Mmax (base a) = Ok M /\
  (forall (a0 : Alm T) mm,
     Mmax (base a0) = Ok mm -> mav_size factor <= mm ->
     ScaleM mul_assign factor a0
     = Err (ShapeError "alm.ScaleM: factor array too short")) /\
  (M < mav_size factor ->
   exists a',
     ScaleM mul_assign factor a = Ok a' /\ same_shape a a' /\
     forall l m, 0 <= m <= M -> m <= l <= L ->
       exists v f,
         Alm_get a l m = Ok v /\ factor !! Z.to_nat m = Some f /\
         Alm_get a' l m = Ok (mul_assign v f)).
Proof.
  intros HM Ha Hsz.
  destruct (dense_store_facts data L M a HM Ha Hsz) as (_ & _ & Hmv & _).
  assert (HMmax : Mmax (base a) = Ok M).
  { unfold Mmax, vback. rewrite Hmv, last_lookup, length_seqZ.
    rewrite lookup_seqZ_lt by lia. do 2 f_equal. lia. }
  split; [exact HMmax|]. split.
  - intros a0 mm Hmm Hshort. unfold ScaleM, MR_assert. rewrite Hmm.
    cbn [bind]. destruct (Z.ltb_spec mm (mav_size factor)); [lia|done].
  - intros Hlong. unfold ScaleM, MR_assert. rewrite HMmax. cbn [bind].
    destruct (Z.ltb_spec M (mav_size factor)); [|lia]. cbn [bind].
    destruct (applyLM_dense data L M a
                (fun _ m v => f <- mav_get factor m ;; Ok (mul_assign v f))
                (fun _ m v => match factor !! Z.to_nat m with
                              | Some f => mul_assign v f
                              | None => v
                              end) HM Ha Hsz) as (a' & E & Hs & Hspec).
    { intros l m v Hm Hlm.
      destruct (lookup_lt_is_Some_2 factor (Z.to_nat m)) as [f Hf].
      { unfold mav_size, vsize in Hlong. lia. }
      unfold mav_get. rewrite (vget_ok factor m f ltac:(lia) Hf), Hf. done. }
    exists a'. split; [exact E|]. split; [exact Hs|].
    intros l m Hm Hlm. destruct (Hspec l m Hm Hlm) as (v & Hv & Hv').
    destruct (lookup_lt_is_Some_2 factor (Z.to_nat m)) as [f Hf].
    { unfold mav_size, vsize in Hlong. lia. }
    exists v, f. rewrite Hf in Hv'. done.
Qed.

End Scaling.

Lemma scaleL_multiplies_by_degree_witness :
  0 <= 1 <= 1 /\
  ScaleL Z.mul [2; 3] (mkAlm (mkAlmBase 1 3 [0; 1] [0; 1]) [10; 20; 30])
  = Ok (mkAlm (mkAlmBase 1 3 [0; 1] [0; 1]) [20; 60; 90]) /\
  ScaleL Z.mul [2] (mkAlm (mkAlmBase 1 3 [0; 1] [0; 1]) [10; 20; 30])
  = Err (ShapeError "alm.ScaleL: factor array too short").
Proof.
  assert (H1 : 0 <= 1 <= 1) by lia.
  assert (H2 : Alm_new [10; 20; 30] 1 1
               = Ok (mkAlm (mkAlmBase 1 3 [0; 1] [0; 1]) [10; 20; 30]))
    by reflexivity.
  assert (H3 : mav_size [10; 20; 30] = num_alms_exact 1 1) by reflexivity.
  split; [exact H1|]. split; [reflexivity|].
  apply (proj1 (scaleL_multiplies_by_degree Z.mul [10; 20; 30] 1 1 _ [2]
                  H1 H2 H3)).
  vm_compute. discriminate.
Defined.

Lemma scaleM_multiplies_by_order_witness :
  0 <= 1 <= 1 /\
  Mmax (mkAlmBase 1 3 [0; 1] [0; 1]) = Ok 1 /\
  ScaleM Z.mul [2; 3] (mkAlm (mkAlmBase 1 3 [0; 1] [0; 1]) [10; 20; 30])
  = Ok (mkAlm (mkAlmBase 1 3 [0; 1] [0; 1]) [20; 40; 90]).
Proof.
  assert (H1 : 0 <= 1 <= 1) by lia.
  assert (H2 : Alm_new [10; 20; 30] 1 1
               = Ok (mkAlm (mkAlmBase 1 3 [0; 1] [0; 1]) [10; 20; 30]))
    by reflexivity.
  assert (H3 : mav_size [10; 20; 30] = num_alms_exact 1 1) by reflexivity.
  split; [exact H1|]. split; [|reflexivity].
  exact (proj1 (scaleM_multiplies_by_order Z.mul [10; 20; 30] 1 1 _ [2; 3]
                  H1 H2 H3)).
Defined.

(** X14.  [Add(num)] fails with its [ShapeError] when the first stored m
    is not 0; on the store built by [Alm(data, L, M)], M <= L, over exactly
    (M+1)(M+2)/2 + (M+1)(L-M) entries (the value of [Num_Alms] when it does
    not wrap) it adds [num] to a(0, 0) and leaves every other coefficient,
    the layout and the length of the buffer as they were. *)
Theorem add_constant_changes_a00_only {T T2 : Type} (add_assign : T -> T2 -> T)
    (data : list T) (L M : Z) (a : Alm T) (num : T2) :
  0 <= M <= L -> Alm_new data L M = Ok a ->
  mav_size data = num_alms_exact L M ->
  (forall (a0 : Alm T) m0,
     vget (mval (base a0)) 0 = Ok m0 -> m0 <> 0 ->
     Add_num add_assign num a0
     = Err (ShapeError "cannot add a constant: no m=0 mode present")) /\
  exists a' v,
    Add_num add_assign num a = Ok a' /\ same_shape a a' /\
    Alm_get a 0 0 = Ok v /\ Alm_get a' 0 0 = Ok (add_assign v num) /\
    forall l m, 0 <= m <= M -> m <= l <= L -> (l, m) <> (0, 0) ->
      Alm_get a' l m = Alm_get a l m.
Proof.
  intros HM Ha Hsz. split.
  - intros a0 m0 Hm0 Hne. unfold Add_num, MR_assert. rewrite Hm0. cbn [bind].
    destruct (Z.eqb_spec m0 0); [done|done].
  - destruct (dense_store_facts data L M a HM Ha Hsz)
      as (_ & _ & Hmv & Hd & _ & Hidx & Hinj).
    destruct (Hidx 0 0 ltac:(lia) ltac:(lia)) as [E00 H00].
    rewrite col_start_0 in E00, H00. cbn in E00, H00.
    assert (El0 : index_l0 (base a) 0 = Ok 0).
    { revert E00. unfold index. destruct (index_l0 (base a) 0) as [i0|] eqn:E0;
        [|done].
      cbn [bind]. intros [= E]. f_equal. revert E0 E. unfold index_l0.
      destruct (vget _ 0); [|done]. cbn [bind]. intros [= <-].
      rewrite Z.add_0_r, wrap_wrap. done. }
    destruct (lookup_lt_is_Some_2 data O) as [v Hv]; [lia|].
    exists (mkAlm (base a) (<[O := add_assign v num]> data)), v.
    assert (Eadd : Add_num add_assign num a
                   = Ok (mkAlm (base a) (<[O := add_assign v num]> data))).
    { unfold Add_num, MR_assert. rewrite Hmv.
      assert (E0 : vget (seqZ 0 (M + 1)) 0 = Ok 0).
      { apply vget_ok; [lia|]. by rewrite lookup_seqZ_lt by lia. }
      rewrite E0. cbn [bind]. rewrite El0. cbn [bind]. unfold mav_get, mav_set.
      rewrite Hd, (vget_ok data 0 v ltac:(lia) Hv). cbn [bind].
      rewrite vset_ok by lia. done. }
    split; [exact Eadd|]. split; [|split; [|split]].
    + split; [done|]. cbn [alm]. by rewrite length_insert, Hd.
    + unfold Alm_get, mav_get. rewrite E00, Hd. cbn [bind].
      by apply vget_ok.
    + unfold Alm_get, mav_get. cbn [base alm]. rewrite E00. cbn [bind].
      apply vget_ok; [lia|]. apply list_lookup_insert_eq. lia.
    + intros l m Hm Hl Hne. destruct (Hidx l m Hm Hl) as [Ei Hi].
      set (i := col_start L m - m + l) in *.
      assert (i <> 0).
      { intros Heq. rewrite Heq in Ei.
        destruct (Hinj l m 0 0 0 Hm Hl ltac:(lia) ltac:(lia) Ei E00) as [-> ->].
        done. }
      unfold Alm_get, mav_get. cbn [base alm]. rewrite Ei, Hd. cbn [bind].
      unfold vget. destruct (Z.leb_spec 0 i); [|done].
      rewrite list_lookup_insert_ne by lia. done.
Qed.

Lemma add_constant_changes_a00_only_witness :
  0 <= 1 <= 1 /\
  Add_num Z.add 5 (mkAlm (mkAlmBase 1 3 [0; 1] [0; 1]) [10; 20; 30])
  = Ok (mkAlm (mkAlmBase 1 3 [0; 1] [0; 1]) [15; 20; 30]) /\
  Add_num Z.add 5 (mkAlm (mkAlmBase 1 3 [1] [-2; 1]) [10; 20; 30])
  = Err (ShapeError "cannot add a constant: no m=0 mode present").
Proof.
  assert (H1 : 0 <= 1 <= 1) by lia.
  assert (H2 : Alm_new [10; 20; 30] 1 1
               = Ok (mkAlm (mkAlmBase 1 3 [0; 1] [0; 1]) [10; 20; 30]))
    by reflexivity.
  assert (H3 : mav_size [10; 20; 30] = num_alms_exact 1 1) by reflexivity.
  split; [exact H1|]. split; [reflexivity|].
  apply (proj1 (add_constant_changes_a00_only Z.add [10; 20; 30] 1 1 _ 5
                  H1 H2 H3) (mkAlm (mkAlmBase 1 3 [1] [-2; 1]) [10; 20; 30]) 1).
  - reflexivity.
  - lia.
Defined.

Lemma Alm_new_mval {T : Type} (data : list T) L M (a : Alm T) :
  is_size_t M -> Alm_new data L M = Ok a ->
  M < SIZE_MAX /\ mval (base a) = seqZ 0 (M + 1) /\ lmax (base a) = L /\
  alm a = data /\ Num_Alms L M = Ok (mav_size data).
Proof.
  unfold is_size_t. intros HM Ha.
  destruct (Alm_new_inv data L M a Ha) as (Hb & Hd & Hl & Hn).
  assert (HM1 : M < SIZE_MAX).
  { assert (Hne : M <> SIZE_MAX); [|lia].
    clear Ha. intros ->. rewrite Alm_Base_dense_max in Hb. discriminate Hb. }
  destruct (Alm_Base_dense_run L M ltac:(lia)) as (ms & E & _).
  rewrite Hb in E. destruct (Num_Alms L M) as [n|]; [|done]. cbn [bind] in E.
  injection E as E. rewrite E. done.
Qed.

(** X15.  For two stores built by [Alm(data, L, M)], [Add(other)] adds the
    buffers entry by entry when the two have the same lmax and mmax, and
    fails with "A_lm are not conformable" otherwise; [conformable] holds
    exactly when lmax and mmax agree. *)
Theorem add_of_built_stores {T : Type} (add_T : T -> T -> T)
    (d1 d2 : list T) (L1 M1 L2 M2 : Z) (a1 a2 : Alm T) :
  is_size_t M1 -> is_size_t M2 ->
  Alm_new d1 L1 M1 = Ok a1 -> Alm_new d2 L2 M2 = Ok a2 ->
  (conformable (base a1) (base a2) = true <-> L1 = L2 /\ M1 = M2) /\
  (L1 = L2 /\ M1 = M2 ->
   length d2 = length d1 /\
   Add add_T a2 a1 = Ok (mkAlm (base a1) (zip_with add_T d1 d2))) /\
  (~ (L1 = L2 /\ M1 = M2) ->
   Add add_T a2 a1 = Err (ShapeError "A_lm are not conformable")).
Proof.
  intros HM1 HM2 Ha1 Ha2.
  destruct (Alm_new_mval d1 L1 M1 a1 HM1 Ha1) as (HM1' & Hmv1 & Hl1 & Hd1 & Hn1).
  destruct (Alm_new_mval d2 L2 M2 a2 HM2 Ha2) as (HM2' & Hmv2 & Hl2 & Hd2 & Hn2).
  destruct (Alm_new_inv d1 L1 M1 a1 Ha1) as (Hb1 & _).
  destruct (Alm_new_inv d2 L2 M2 a2 Ha2) as (Hb2 & _).
  unfold is_size_t in *.
  assert (Hconf : conformable (base a1) (base a2) = true <-> L1 = L2 /\ M1 = M2).
  { unfold conformable, list_Z_eqb. rewrite !andb_true_iff, Z.eqb_eq.
    rewrite !bool_decide_eq_true, Hl1, Hl2, Hmv1, Hmv2. split.
    - intros [[HL Hmv] _]. split; [done|]. apply (f_equal length) in Hmv.
      rewrite !length_seqZ in Hmv. lia.
    - intros [-> ->]. rewrite Hb1 in Hb2. injection Hb2 as <-. done. }
  split; [exact Hconf|]. split.
  - intros [-> ->]. rewrite Hn1 in Hn2. injection Hn2 as Hsz.
    assert (Hlen : length d2 = length d1) by (unfold mav_size, vsize in Hsz; lia).
    split; [done|]. rewrite <- Hd1, <- Hd2. apply Add_zip.
    + apply Hconf. done.
    + by rewrite Hd1, Hd2.
  - intros Hne. unfold Add, MR_assert.
    destruct (conformable (base a1) (base a2)) eqn:Ec; [|done].
    exfalso. apply Hne, Hconf. done.
Qed.

Lemma add_of_built_stores_witness :
  is_size_t 1 /\ is_size_t 0 /\
  Add Z.add (mkAlm (mkAlmBase 1 3 [0; 1] [0; 1]) [1; 2; 3])
    (mkAlm (mkAlmBase 1 3 [0; 1] [0; 1]) [10; 20; 30])
  = Ok (mkAlm (mkAlmBase 1 3 [0; 1] [0; 1]) [11; 22; 33]) /\
  Add Z.add (mkAlm (mkAlmBase 1 2 [0] [0]) [1; 2])
    (mkAlm (mkAlmBase 1 3 [0; 1] [0; 1]) [10; 20; 30])
  = Err (ShapeError "A_lm are not conformable").
Proof.
  assert (H1 : is_size_t 1) by (unfold is_size_t, SIZE_MAX; lia).
  assert (H0 : is_size_t 0) by (unfold is_size_t, SIZE_MAX; lia).
  assert (Ha : Alm_new [10; 20; 30] 1 1
               = Ok (mkAlm (mkAlmBase 1 3 [0; 1] [0; 1]) [10; 20; 30]))
    by reflexivity.
  assert (Hb : Alm_new [1; 2] 1 0 = Ok (mkAlm (mkAlmBase 1 2 [0] [0]) [1; 2]))
    by reflexivity.
  split; [exact H1|]. split; [exact H0|]. split; [reflexivity|].
  apply (proj2 (proj2 (add_of_built_stores Z.add [10; 20; 30] [1; 2] 1 1 1 0
                         _ _ H1 H0 Ha Hb))).
  intros [_ H]. discriminate H.
Defined.

Lemma vget_inv {A : Type} (v : list A) i x :
  vget v i = Ok x -> 0 <= i /\ v !! Z.to_nat i = Some x.
Proof.
  unfold vget. destruct (Z.leb_spec 0 i); [|done].
  destruct (v !! Z.to_nat i); [|done]. intros [= <-]. done.
Qed.

Lemma dense_onto L (k : nat) : forall j,
  Z.of_nat k <= L -> 0 <= j < col_start L (Z.of_nat k + 1) ->
  exists l m, 0 <= m <= Z.of_nat k /\ m <= l <= L /\ col_start L m - m + l = j.
Proof.
  induction k as [|k IH]; intros j Hk Hj.
  - change (Z.of_nat 0 + 1) with (0 + 1) in Hj.
    rewrite col_start_succ, col_start_0 in Hj.
    exists j, 0. rewrite col_start_0. lia.
  - rewrite col_start_succ in Hj.
    destruct (Z.lt_ge_cases j (col_start L (Z.of_nat (Datatypes.S k)))) as [Hlt|Hge].
    + replace (Z.of_nat (Datatypes.S k)) with (Z.of_nat k + 1) in Hlt by lia.
      destruct (IH j ltac:(lia) ltac:(lia)) as (l & m & Hm & Hl & E).
      exists l, m. lia.
    + exists (j - col_start L (Z.of_nat (Datatypes.S k)) + Z.of_nat (Datatypes.S k)),
        (Z.of_nat (Datatypes.S k)).
      lia.
Qed.

(** X16.  The buffer of the store built by [Alm(data, L, M)], M <= L,
    over exactly (M+1)(M+2)/2 + (M+1)(L-M) entries (the value of [Num_Alms]
    when it does not wrap) has no gap: every one of its [n_entries()]
    slots is the position of a coefficient a(l, m) with m <= M and
    m <= l <= L.  Hence [Scale(factor)], which walks the buffer, and the
    traversal of the stored (l, m) pairs that multiplies each coefficient
    by [factor] return the same store. *)
Theorem dense_store_has_no_gap {T T2 : Type} (mul_assign : T -> T2 -> T)
    (data : list T) (L M : Z) (a : Alm T) (factor : T2) :
  0 <= M <= L -> Alm_new data L M = Ok a ->
  mav_size data = num_alms_exact L M ->
  (forall j, 0 <= j < n_entries (base a) ->
     exists l m, 0 <= m <= M /\ m <= l <= L /\ index (base a) l m = Ok j) /\
  mav_size (alm a) = n_entries (base a) /\
  applyLM (fun _ _ v => Ok (mul_assign v factor)) a
  = Scale mul_assign factor a.
Proof.
  intros HM Ha Hsz.
  destruct (dense_store_facts data L M a HM Ha Hsz)
    as (_ & _ & _ & Hd & Hn & Hidx & _).
  assert (Honto : forall j, 0 <= j < num_alms_exact L M ->
            exists l m, 0 <= m <= M /\ m <= l <= L /\ index (base a) l m = Ok j).
  { intros j Hj. rewrite num_alms_exact_col_start in Hj.
    destruct (dense_onto L (Z.to_nat M) j) as (l & m & Hm & Hl & E);
      [lia|by rewrite Z2Nat.id by lia|].
    exists l, m. split; [lia|]. split; [done|].
    rewrite <- E. apply Hidx; lia. }
  split; [by rewrite Hn|]. split; [by rewrite Hd, Hn|].
  rewrite Scale_map.
  destruct (applyLM_dense data L M a (fun _ _ v => Ok (mul_assign v factor))
              (fun _ _ v => mul_assign v factor) HM Ha Hsz)
    as (a' & E & [Hb Hlen] & Hspec); [done|].
  rewrite E. f_equal. destruct a' as [b' buf']. cbn [base alm] in *.
  subst b'. f_equal. rewrite Hd in *. apply list_eq. intros j.
  change (map ?f ?l) with (f <$> l). rewrite list_lookup_fmap.
  destruct (decide (j < length data)%nat) as [Hj|Hj].
  - destruct (Honto (Z.of_nat j)) as (l & m & Hm & Hl & Ei).
    { unfold mav_size, vsize in Hsz. lia. }
    destruct (Hspec l m Hm Hl) as (v & Hv & Hv').
    unfold Alm_get, mav_get in Hv, Hv'. cbn [base alm] in Hv, Hv'.
    rewrite Ei in Hv, Hv'. cbn [bind] in Hv, Hv'. rewrite Hd in Hv.
    apply vget_inv in Hv as [_ Hv]. apply vget_inv in Hv' as [_ Hv'].
    rewrite Nat2Z.id in Hv, Hv'. by rewrite Hv, Hv'.
  - rewrite !lookup_ge_None_2; [done|lia|lia].
Qed.

Lemma dense_store_has_no_gap_witness :
  0 <= 1 <= 1 /\
  applyLM (fun _ _ v => Ok (Z.mul v 2))
    (mkAlm (mkAlmBase 1 3 [0; 1] [0; 1]) [10; 20; 30])
  = Scale Z.mul 2 (mkAlm (mkAlmBase 1 3 [0; 1] [0; 1]) [10; 20; 30]).
Proof.
  assert (H1 : 0 <= 1 <= 1) by lia.
  assert (H2 : Alm_new [10; 20; 30] 1 1
               = Ok (mkAlm (mkAlmBase 1 3 [0; 1] [0; 1]) [10; 20; 30]))
    by reflexivity.
  assert (H3 : mav_size [10; 20; 30] = num_alms_exact 1 1) by reflexivity.
  split; [exact H1|].
  exact (proj2 (proj2 (dense_store_has_no_gap Z.mul [10; 20; 30] 1 1 _ 2
                         H1 H2 H3))).
Defined.

(** X17.  [Alm(lmax, mmax)] allocates its own buffer of [Num_Alms]
    entries.  For mmax <= lmax such that [Num_Alms] does not wrap, that is
    when [Alm(data, lmax, mmax)] builds its store over exactly
    (M+1)(M+2)/2 + (M+1)(L-M) entries: the store [Alm(lmax, mmax)] returns
    is the one [Alm(data, lmax, mmax)] builds around that buffer, every
    coefficient a(l, m) of it can be read and holds the initial value, and
    [SetToZero] brings the store built by [Alm(data, lmax, mmax)] to that
    state. *)
Theorem alm_alloc_is_zero_store {T : Type} (zero_T : T) (data : list T)
    (L M : Z) (a : Alm T) :
  0 <= M <= L -> Alm_new data L M = Ok a ->
  mav_size data = num_alms_exact L M ->
  Alm_alloc zero_T L M = Ok (SetToZero zero_T a) /\
  Alm_new (alm (SetToZero zero_T a)) L M = Ok (SetToZero zero_T a) /\
  same_shape a (SetToZero zero_T a) /\
  forall l m, 0 <= m <= M -> m <= l <= L ->
    Alm_get (SetToZero zero_T a) l m = Ok zero_T.
Proof.
  intros HM Ha Hsz.
  destruct (dense_store_facts data L M a HM Ha Hsz)
    as (_ & Hl & _ & Hd & _ & Hidx & _).
  destruct (Alm_new_inv data L M a Ha) as (Hb & _ & _ & Hn).
  assert (Hlen : length (alm a) = Z.to_nat (mav_size data)).
  { rewrite Hd. unfold mav_size, vsize. lia. }
  split; [|split; [|split]].
  - unfold Alm_alloc, SetToZero. rewrite Hb. cbn [bind]. rewrite Hl, Hn.
    cbn [bind]. by rewrite Hlen.
  - unfold Alm_new, SetToZero. cbn [alm]. rewrite Hb. cbn [bind].
    rewrite Hl, Hn. cbn [bind]. unfold MR_assert, mav_size at 1, vsize.
    rewrite length_replicate, Hd.
    destruct (Z.eqb_spec (Z.of_nat (length data)) (mav_size data)) as [_|Hne];
      [done|].
    by unfold mav_size, vsize in Hne.
  - split; [done|]. unfold SetToZero. cbn [alm]. by rewrite length_replicate.
  - intros l m Hm Hlm. destruct (Hidx l m Hm Hlm) as [Ei Hi].
    unfold Alm_get, mav_get, SetToZero. cbn [base alm]. rewrite Ei. cbn [bind].
    apply vget_ok; [lia|]. apply lookup_replicate_2. rewrite Hd. lia.
Qed.

Lemma alm_alloc_is_zero_store_witness :
  0 <= 1 <= 1 /\
  Alm_alloc 0 1 1 = Ok (mkAlm (mkAlmBase 1 3 [0; 1] [0; 1]) [0; 0; 0]) /\
  Alm_get (mkAlm (mkAlmBase 1 3 [0; 1] [0; 1]) [0; 0; 0]) 1 1 = Ok 0.
Proof.
  assert (H1 : 0 <= 1 <= 1) by lia.
  assert (H2 : Alm_new [10; 20; 30] 1 1
               = Ok (mkAlm (mkAlmBase 1 3 [0; 1] [0; 1]) [10; 20; 30]))
    by reflexivity.
  assert (H3 : mav_size [10; 20; 30] = num_alms_exact 1 1) by reflexivity.
  pose proof (alm_alloc_is_zero_store 0 [10; 20; 30] 1 1 _ H1 H2 H3)
    as (Ea & _ & _ & Hg).
  split; [exact H1|]. split; [exact Ea|]. apply (Hg 1 1); lia.
Defined.

(** ** The Wigner recursion *)

(** X18.  The constructor of the recursion for band-limit [lmax] and angle
    [ang] stores sin(ang/2) and cos(ang/2), starts the degree counter at -1,
    gives both matrices lmax + 1 rows and 2 lmax + 1 columns, and fills a
    table of 2 lmax + 1 square roots: entry m is sqrt(double(m)). *)
Theorem wigner_new_tables (dsin dcos : double -> double) (L : Z) (ang : double) :
  0 <= L -> 2 * L + 1 < SIZE_MOD ->
  exists w,
    wigner_new dsin dcos L ang = Ok w /\
    w_p w = dsin (ddiv ang (double_of_Z 2)) /\
    w_q w = dcos (ddiv ang (double_of_Z 2)) /\
    w_n w = -1 /\
    mat_ok (L + 1) (2 * L + 1) (w_d w) /\ mat_ok (L + 1) (2 * L + 1) (w_dd w) /\
    vsize (w_sqt w) = 2 * L + 1 /\
    forall m, 0 <= m <= 2 * L -> vget (w_sqt w) m = Ok (dsqrt (double_of_Z m)).
Proof.
  unfold SIZE_MOD. intros HL Hfit. unfold wigner_new. cbv zeta.
  rewrite !wrap_small by lia. unfold for_lt, vsize.
  rewrite length_replicate, Z.sub_0_r, Nat2Z.id.
  destruct (iterM_inv
              (fun m (v : list double) =>
                 vsize v = 2 * L + 1 /\
                 forall k, 0 <= k < m ->
                   v !! Z.to_nat k = Some (dsqrt (double_of_Z k)))
              (fun m sqt => vset sqt m (dsqrt (double_of_Z m)))
              (Z.to_nat (2 * L + 1)) 0
              (replicate (Z.to_nat (2 * L + 1)) dzero))
    as (sqt & -> & Hlen & Htab).
  - split; [|lia]. unfold vsize. rewrite length_replicate. lia.
  - intros m v Hm [Hlen Htab].
    destruct (vset_total v m (dsqrt (double_of_Z m)) (2 * L + 1) Hlen)
      as (v' & E & Hlen'); [lia|].
    exists v'. split; [exact E|]. split; [exact Hlen'|].
    rewrite vset_ok in E by (unfold vsize in Hlen; lia). injection E as <-.
    intros k Hk. destruct (decide (k = m)) as [->|Hne].
    + apply list_lookup_insert_eq. unfold vsize in Hlen. lia.
    + rewrite list_lookup_insert_ne by lia. apply Htab. lia.
  - cbn [bind]. eexists. split; [reflexivity|]. cbn [w_p w_q w_n w_d w_dd w_sqt].
    split; [done|]. split; [done|]. split; [done|].
    split; [apply mav2_new_ok; lia|]. split; [apply mav2_new_ok; lia|].
    split; [done|]. intros m Hm. apply vget_ok; [lia|]. apply Htab. lia.
Qed.

Lemma wigner_new_tables_witness :
  0 <= 1 /\ 2 * 1 + 1 < SIZE_MOD /\
  exists w,
    wigner_new (fun x => x) (fun x => x) 1 dzero = Ok w /\
    vget (w_sqt w) 2 = Ok (dsqrt (double_of_Z 2)).
Proof.
  assert (H1 : 0 <= 1) by lia.
  assert (H2 : 2 * 1 + 1 < SIZE_MOD) by (unfold SIZE_MOD; lia).
  destruct (wigner_new_tables (fun x => x) (fun x => x) 1 dzero H1 H2)
    as (w & E & _ & _ & _ & _ & _ & _ & Htab).
  split; [exact H1|]. split; [exact H2|]. exists w. split; [exact E|].
  apply Htab. lia.
Defined.

Lemma recurses_ok L (k : nat) w0 :
  wigner_ok L (-1) w0 -> Z.of_nat k <= L + 1 -> L < 1073741824 ->
  exists w, recurses k w0 = Ok w /\ wigner_ok L (Z.of_nat k - 1) w.
Proof.
  intros Hw0 Hk HL. induction k as [|k IH].
  - exists w0. split; [done|]. exact Hw0.
  - destruct IH as (w & E & Hw); [lia|]. cbn [recurses]. rewrite E. cbn [bind].
    destruct (recurse_total L (Z.of_nat k - 1) w Hw) as (w' & E' & Hw');
      [lia|done|].
    exists w'. split; [exact E'|].
    by replace (Z.of_nat (Datatypes.S k) - 1) with (Z.of_nat k - 1 + 1) by lia.
Qed.

Lemma recurse_past_lmax L w :
  0 <= L < 1073741824 -> wigner_ok L L w -> recurse w = Err OutOfBounds.
Proof.
  intros HL (Hsq & Hd & Hdd & Hn). unfold recurse, ptr_add, ptr_check.
  rewrite Hn.
  destruct (Z.leb_spec PTRDIFF_MIN (L + 1)); [|unfold PTRDIFF_MIN in *; lia].
  destruct (Z.leb_spec (L + 1) PTRDIFF_MAX); [|unfold PTRDIFF_MAX in *; lia].
  cbn [andb bind]. cbv zeta.
  destruct (Z.eqb_spec (L + 1) 0) as [|_]; [lia|].
  destruct (Z.eqb_spec (L + 1) 1) as [E1|N1].
  - assert (L = 0) as -> by lia. unfold vget.
    destruct (Z.leb_spec 0 2); [|lia].
    rewrite lookup_ge_None_2; [done|]. unfold vsize in Hsq. lia.
  - unfold wigner_pad, for_int_le.
    assert (En : exists n, Z.to_nat (Z.min (2 * (L + 1) - 2) INT_MAX + 1 - 0)
                           = Datatypes.S n).
    { exists (Z.to_nat (2 * L)). unfold INT_MAX. lia. }
    destruct En as [n ->]. cbn [iterM].
    destruct (mat_get_total (L + 1) (2 * L + 1) (w_d w) (L + 1 - 2)
                (2 * (L + 1) - 2 - 0)) as [x ->]; [done|lia|lia|].
    cbn [bind]. unfold mat_set, mav2_inside. destruct Hd as (-> & _ & _).
    destruct (Z.ltb_spec (L + 1) (L + 1)); [lia|].
    rewrite andb_false_r. reflexivity.
Qed.

(** X19.  A recursion set up for band-limit [lmax] below 2^30 can be
    advanced lmax + 1 times, once per degree 0, ..., lmax: each call
    returns, leaves the tables and the shapes of the matrices as they
    are and raises the degree by one, the first call storing 1 in d(0,0);
    one more call writes outside the matrix (or, for lmax = 0, reads
    outside the table of square roots). *)
Theorem recurse_lmax_plus_one_times (dsin dcos : double -> double) (L : Z)
    (ang : double) :
  0 <= L < 1073741824 ->
  exists w0,
    wigner_new dsin dcos L ang = Ok w0 /\
    (forall k : nat, Z.of_nat k <= L + 1 ->
       exists w,
         recurses k w0 = Ok w /\ w_n w = Z.of_nat k - 1 /\
         w_p w = w_p w0 /\ w_q w = w_q w0 /\ w_sqt w = w_sqt w0 /\
         mat_ok (L + 1) (2 * L + 1) (w_d w) /\
         mat_ok (L + 1) (2 * L + 1) (w_dd w)) /\
    (exists w1, recurses 1 w0 = Ok w1 /\ mat_get (w_d w1) 0 0 = Ok done_1) /\
    recurses (Z.to_nat (L + 2)) w0 = Err OutOfBounds.
Proof.
  intros HL. destruct (wigner_new_total dsin dcos L ang HL) as (w0 & E0 & Hw0).
  exists w0. split; [exact E0|].
  assert (Hkeep : forall w w', recurse w = Ok w' ->
            w_p w' = w_p w /\ w_q w' = w_q w /\ w_sqt w' = w_sqt w).
  { intros w w'. unfold recurse. destruct (ptr_add _ _) as [n|]; [|done].
    cbn [bind]. cbv zeta. destruct (n =? 0).
    - destruct (mat_set _ _ _ _); [|done]. cbn [bind]. by intros [= <-].
    - destruct (n =? 1).
      + destruct (vget _ _); [|done]. cbn [bind].
        repeat (match goal with
                | |- context [bind ?m _] => destruct m; [|done]; cbn [bind]
                end).
        by intros [= <-].
      + destruct (wigner_pad _ _); [|done]. cbn [bind].
        destruct (for_int_le _ _ _ _) as [[d dd]|]; [|done]. cbn [bind].
        by intros [= <-]. }
  split; [|split].
  - intros k Hk. induction k as [|k IH].
    + exists w0. destruct Hw0 as (_ & ? & ? & ?). done.
    + destruct IH as (w & E & Hn & Hp & Hq & Hs & _); [lia|].
      destruct (recurses_ok L k w0 Hw0 ltac:(lia) ltac:(lia)) as (w' & E' & Hw').
      rewrite E in E'. injection E' as <-.
      destruct (recurse_total L (Z.of_nat k - 1) w Hw') as (w2 & E2 & Hw2);
        [lia|lia|].
      destruct (Hkeep w w2 E2) as (Hp2 & Hq2 & Hs2).
      exists w2. cbn [recurses]. rewrite E. cbn [bind].
      destruct Hw2 as (_ & Hd2 & Hdd2 & Hn2).
      split; [exact E2|]. split; [lia|]. split; [congruence|].
      split; [congruence|]. split; [congruence|]. done.
  - destruct Hw0 as (Hsq & Hd & Hdd & Hn).
    cbn [recurses bind]. unfold recurse, ptr_add, ptr_check. rewrite Hn.
    change (-1 + 1) with 0. cbn [bind]. cbv zeta.
    change (0 =? 0) with true. cbv iota.
    destruct (mat_set_total (L + 1) (2 * L + 1) (w_d w0) 0 0 done_1 Hd)
      as (d1 & E1 & Hd1); [lia|lia|].
    assert (Ept : ptr_check 0 = Ok 0) by reflexivity.
    unfold ptr_check in Ept. rewrite Ept. cbn [bind]. rewrite E1. cbn [bind].
    eexists. split; [reflexivity|]. cbn [w_d].
    revert E1. unfold mat_set, mat_get.
    rewrite (mav2_inside_true (L + 1) (2 * L + 1) (w_d w0)) by (done || lia).
    rewrite (mav2_inside_true (L + 1) (2 * L + 1) d1) by (done || lia).
    destruct Hd as (_ & Hc & Hcells). rewrite Hc.
    rewrite vset_ok by (unfold vsize in Hcells; nia). cbn [bind].
    intros [= <-]. cbn [cols cells]. apply vget_ok; [lia|].
    apply list_lookup_insert_eq. unfold vsize in Hcells. nia.
  - replace (Z.to_nat (L + 2)) with (Datatypes.S (Z.to_nat (L + 1))) by lia.
    cbn [recurses].
    destruct (recurses_ok L (Z.to_nat (L + 1)) w0 Hw0 ltac:(lia) ltac:(lia))
      as (w & -> & Hw).
    cbn [bind]. apply (recurse_past_lmax L); [done|].
    by replace (Z.of_nat (Z.to_nat (L + 1)) - 1) with L in Hw by lia.
Qed.

Lemma recurse_lmax_plus_one_times_witness :
  0 <= 1 < 1073741824 /\
  exists w0,
    wigner_new (fun x => x) (fun x => x) 1 dzero = Ok w0 /\
    (exists w, recurses 2 w0 = Ok w /\ w_n w = 1) /\
    recurses 3 w0 = Err OutOfBounds.
Proof.
  assert (H1 : 0 <= 1 < 1073741824) by lia.
  destruct (recurse_lmax_plus_one_times (fun x => x) (fun x => x) 1 dzero H1)
    as (w0 & E0 & Hk & _ & Hend).
  split; [exact H1|]. exists w0. split; [exact E0|]. split; [|exact Hend].
  destruct (Hk 2%nat ltac:(lia)) as (w & E & Hn & _).
  exists w. split; [exact E|exact Hn].
Defined.

(** ** What the implicit sparse constructor computes *)

Lemma sum_list_Z_app xs ys : sum_list_Z (xs ++ ys) = sum_list_Z xs + sum_list_Z ys.
Proof. induction xs as [|x xs IH]; cbn; [done|]. rewrite IH. lia. Qed.

(** The counter [cnt] of the loop when it reaches [mval[k]]: the lengths
    of the columns of [mval[1]], ..., [mval[k]]. *)
Definition shifted_count (L : Z) (mv : list Z) (k : nat) : Z :=
  sum_list_Z ((fun m => L - m + 1) <$> take k (drop 1 mv)).

Lemma shifted_count_succ L mv k m :
  mv !! Datatypes.S k = Some m ->
  shifted_count L mv (Datatypes.S k) = shifted_count L mv k + (L - m + 1).
Proof.
  intros Hm. unfold shifted_count.
  assert (Hd : drop 1 mv !! k = Some m) by (rewrite lookup_drop; exact Hm).
  rewrite (take_S_r _ _ _ Hd), fmap_app, sum_list_Z_app. cbn. lia.
Qed.

Lemma ascending_ge_index L mv :
  ascending_below L mv -> Forall (fun m => 0 <= m) mv ->
  forall j m, mv !! j = Some m -> Z.of_nat j <= m <= L.
Proof.
  intros [Hle Hasc] Hnn. induction j as [|j IH]; intros m Hm.
  - pose proof (proj1 (Forall_forall _ _) Hnn m (list_elem_of_lookup_2 _ _ _ Hm)).
    pose proof (Hle _ _ Hm). cbv beta in *. lia.
  - destruct (lookup_lt_is_Some_2 mv j) as [x Hx].
    { apply lookup_lt_Some in Hm. lia. }
    pose proof (IH x Hx). pose proof (Hasc j x m Hx Hm). pose proof (Hle _ _ Hm). lia.
Qed.

Lemma shifted_count_range L mv :
  ascending_below L mv -> Forall (fun m => 0 <= m) mv ->
  forall k, (k < length mv)%nat ->
    0 <= shifted_count L mv k <= Z.of_nat k * (L + 1).
Proof.
  intros Hasc Hnn. induction k as [|k IH]; intros Hk.
  - unfold shifted_count. rewrite take_0. cbn. lia.
  - destruct (lookup_lt_is_Some_2 mv (Datatypes.S k) Hk) as [m Hm].
    rewrite (shifted_count_succ L mv k m Hm).
    pose proof (ascending_ge_index L mv Hasc Hnn _ _ Hm).
    specialize (IH ltac:(lia)). nia.
Qed.

Lemma sparse_fill_run junk L mv bk :
  ascending_below L mv -> Forall (fun m => 0 <= m) mv -> L < 2147483648 ->
  list.last mv = Some bk ->
  forall n k cnt ms,
    (n + k = length mv)%nat ->
    (n <> O -> cnt = shifted_count L mv k) ->
    length ms = Z.to_nat (bk + 1) ->
    exists ms',
      sparse_fill junk L mv n (Z.of_nat k) cnt ms = Ok ms' /\
      length ms' = Z.to_nat (bk + 1) /\
      (forall j m, (k <= j)%nat -> mv !! j = Some m ->
         ms' !! Z.to_nat m = Some (shifted_count L mv j - m)) /\
      (forall p, (forall j m, (k <= j)%nat -> mv !! j = Some m -> Z.to_nat m <> p) ->
         ms' !! p = ms !! p).
Proof.
  intros Hasc Hnn HL Ebk.
  induction n as [|n IH]; intros k cnt ms Hnk Hcnt Hlen.
  - exists ms. split; [done|]. split; [done|]. split; [|done].
    intros j m Hj Hm. apply lookup_lt_Some in Hm. lia.
  - cbn [sparse_fill]. rewrite (Hcnt ltac:(done)). clear Hcnt.
    destruct (lookup_lt_is_Some_2 mv k) as [mi Hmi]; [lia|].
    rewrite (vget_ok mv (Z.of_nat k) mi) by (rewrite ?Nat2Z.id; first [lia|done]).
    cbn [bind].
    pose proof (ascending_ge_index L mv Hasc Hnn _ _ Hmi) as Hmi0.
    pose proof (ascending_last L mv bk Hasc Ebk _ _ Hmi) as Hmib.
    pose proof (shifted_count_range L mv Hasc Hnn k ltac:(lia)) as Hsc.
    assert (Hk : Z.of_nat k <= L) by lia.
    assert (Hsc' : shifted_count L mv k <= 4611686018427387904) by nia.
    unfold ptr_sub, ptr_check.
    rewrite (to_signed_small (shifted_count L mv k)), (to_signed_small mi) by lia.
    destruct (Z.leb_spec PTRDIFF_MIN (shifted_count L mv k - mi));
      [|unfold PTRDIFF_MIN in *; lia].
    destruct (Z.leb_spec (shifted_count L mv k - mi) PTRDIFF_MAX);
      [|unfold PTRDIFF_MAX in *; lia].
    cbn [andb bind]. rewrite vset_ok by lia. cbn [bind]. cbv zeta.
    replace (Z.of_nat k + 1) with (Z.of_nat (Datatypes.S k)) by lia.
    lazymatch goal with
    | |- context [sparse_fill _ _ _ n _ ?c ?m] =>
        destruct (IH (Datatypes.S k) c m) as (ms' & E & Hlen' & Hset & Hfr)
    end.
    + lia.
    + intros Hn. destruct (lookup_lt_is_Some_2 mv (Datatypes.S k)) as [mn Hmn]; [lia|].
      rewrite (vget_ok mv (Z.of_nat (Datatypes.S k)) mn)
        by (rewrite ?Nat2Z.id; first [lia|done]).
      rewrite (shifted_count_succ L mv k mn Hmn).
      pose proof (ascending_ge_index L mv Hasc Hnn _ _ Hmn).
      rewrite (wrap_small (L - mn + 1)) by lia. apply wrap_small. lia.
    + rewrite length_insert. exact Hlen.
    + exists ms'. split; [exact E|]. split; [exact Hlen'|]. split.
      * intros j m Hj Hm. destruct (decide (j = k)) as [->|Hne].
        -- rewrite Hmi in Hm. injection Hm as <-. rewrite Hfr.
           ++ apply list_lookup_insert_eq. lia.
           ++ intros j m' Hj' Hm'.
              pose proof (ascending_lt L mv Hasc j k mi m' ltac:(lia) Hmi Hm').
              lia.
        -- apply Hset; [lia|done].
      * intros p Hp. rewrite Hfr.
        -- apply list_lookup_insert_ne. apply (Hp k mi); [lia|done].
        -- intros j m Hj. apply Hp. lia.
Qed.

(** X20.  What [Alm_Base(lmax, mval)] builds, for lmax below 2^31 and a
    non-empty, strictly ascending [mval] of [size_t] values up to lmax: it
    returns, and the column of [mval[k]] starts after the lengths
    lmax - mval[j] + 1 of the columns j = 1, ..., k (and not 0, ..., k - 1),
    so that a(l, mval[k]) is at that sum minus mval[k] plus l; an m in
    between has the offset [-2*lmax]; [n_entries()] is the start of the
    last column plus its length; and none of this depends on what is read
    past the end of [mval]. *)
Theorem sparse_constructor_layout (L : Z) (mv : list Z) :
  mv <> [] -> ascending_below L mv -> Forall (fun m => 0 <= m) mv ->
  L < 2147483648 ->
  exists b bk,
    (forall junk, Alm_Base_sparse junk L mv = Ok b) /\
    lmax b = L /\ mval b = mv /\ list.last mv = Some bk /\
    vsize (mstart b) = bk + 1 /\
    (forall k m, mv !! k = Some m ->
       forall l, m <= l <= L ->
         index b l m = Ok (shifted_count L mv k - m + l)) /\
    (forall m, 0 <= m <= bk -> m ∉ mv -> index_l0 b m = Ok (wrap (-2 * L))) /\
    n_entries b = shifted_count L mv (Nat.pred (length mv)) + (L - bk + 1).
Proof.
  intros Hne Hasc Hnn HL.
  destruct (check_mval_spec L mv) as [Hiff _].
  destruct (list.last mv) as [bk|] eqn:Ebk.
  2: { apply last_None in Ebk. done. }
  pose proof Ebk as Ebk'. rewrite last_lookup in Ebk'.
  pose proof (ascending_ge_index L mv Hasc Hnn _ _ Ebk') as Hbk.
  assert (Hlen0 : (0 < length mv)%nat) by (apply lookup_lt_Some in Ebk'; lia).
  pose proof (shifted_count_range L mv Hasc Hnn (Nat.pred (length mv))
                ltac:(lia)) as Hsc.
  assert (Hpred : Z.of_nat (Nat.pred (length mv)) <= L) by lia.
  assert (Hsc' : shifted_count L mv (Nat.pred (length mv))
                 <= 4611686018427387904) by nia.
  set (ms0 := replicate (Z.to_nat (bk + 1)) (sentinel L)).
  assert (Hrun : forall junk, exists ms,
            sparse_fill junk L mv (length mv) 0 0 ms0 = Ok ms /\
            length ms = Z.to_nat (bk + 1) /\
            (forall j m, mv !! j = Some m ->
               ms !! Z.to_nat m = Some (shifted_count L mv j - m)) /\
            (forall p, (forall j m, mv !! j = Some m -> Z.to_nat m <> p) ->
               ms !! p = ms0 !! p)).
  { intros junk.
    destruct (sparse_fill_run junk L mv bk Hasc Hnn HL Ebk (length mv) O 0 ms0)
      as (ms & E & Hlen & Hset & Hfr).
    - lia.
    - done.
    - unfold ms0. by rewrite length_replicate.
    - exists ms. split; [exact E|]. split; [exact Hlen|]. split.
      + intros j m Hm. apply Hset; [lia|done].
      + intros p Hp. apply Hfr. intros j m _. apply Hp. }
  destruct (Hrun 0) as (ms & E0 & Hlen & Hset & Hfr).
  assert (Hmem : forall (p : nat) j m, mv !! j = Some m -> Z.to_nat m = p ->
            Z.of_nat p ∈ mv).
  { intros p j m Hm Heq.
    pose proof (ascending_ge_index L mv Hasc Hnn _ _ Hm).
    replace (Z.of_nat p) with m by lia. by eapply list_elem_of_lookup_2. }
  exists (mkAlmBase L (shifted_count L mv (Nat.pred (length mv)) + (L - bk + 1))
            mv ms), bk.
  cbn [lmax mval mstart arrsize n_entries].
  split; [|split; [done|split; [done|split; [done|split; [|split; [|split]]]]]].
  - intros junk. destruct (Hrun junk) as (ms' & E' & Hlen' & Hset' & Hfr').
    assert (ms' = ms) as ->.
    { apply list_eq. intros p.
      destruct (decide (Z.of_nat p ∈ mv)) as [Hin|Hnin].
      - apply list_elem_of_lookup_1 in Hin as [j Hj].
        pose proof (Hset j _ Hj) as H1. pose proof (Hset' j _ Hj) as H2.
        rewrite Nat2Z.id in H1, H2. by rewrite H1, H2.
      - rewrite Hfr, Hfr'; [done| |].
        + intros j m Hm Heq. apply Hnin. by eapply Hmem.
        + intros j m Hm Heq. apply Hnin. by eapply Hmem. }
    unfold Alm_Base_sparse, MR_assert.
    assert (Hpos : (0 <? vsize mv) = true) by (apply Z.ltb_lt; unfold vsize; lia).
    rewrite Hpos. cbn [bind]. rewrite (proj2 Hiff Hasc). cbn [bind].
    unfold vback. rewrite Ebk. cbn [bind]. cbv zeta.
    rewrite (wrap_small (bk + 1)) by lia. fold ms0. rewrite E'. cbn [bind].
    assert (Elast : list.last ms
                    = Some (shifted_count L mv (Nat.pred (length mv)) - bk)).
    { rewrite last_lookup, Hlen.
      replace (Nat.pred (Z.to_nat (bk + 1))) with (Z.to_nat bk) by lia.
      by apply Hset. }
    rewrite Elast. cbn [bind].
    rewrite (wrap_small (L + 1)), (to_signed_small (L + 1)) by lia.
    unfold ptr_add, ptr_check.
    destruct (Z.leb_spec PTRDIFF_MIN
                (shifted_count L mv (Nat.pred (length mv)) - bk + (L + 1)));
      [|unfold PTRDIFF_MIN in *; lia].
    destruct (Z.leb_spec
                (shifted_count L mv (Nat.pred (length mv)) - bk + (L + 1))
                PTRDIFF_MAX); [|unfold PTRDIFF_MAX in *; lia].
    cbn [andb bind]. rewrite wrap_small by lia. do 2 f_equal. lia.
  - unfold vsize. lia.
  - intros k m Hm l Hl.
    pose proof (ascending_ge_index L mv Hasc Hnn _ _ Hm) as Hm0.
    pose proof (shifted_count_range L mv Hasc Hnn k
                  ltac:(apply lookup_lt_Some in Hm; lia)) as Hsck.
    assert (Hk : Z.of_nat k <= L) by lia.
    assert (Hsck' : shifted_count L mv k <= 4611686018427387904) by nia.
    unfold index, index_l0. cbn [mstart].
    rewrite (vget_ok ms m _ ltac:(lia) (Hset k m Hm)). cbn [bind].
    rewrite wrap_add_l. f_equal. apply wrap_small. lia.
  - intros m Hm Hnin. unfold index_l0. cbn [mstart].
    assert (El : ms !! Z.to_nat m = Some (sentinel L)).
    { rewrite Hfr.
      - apply lookup_replicate_2. lia.
      - intros j m' Hm' Heq. apply Hnin.
        replace m with (Z.of_nat (Z.to_nat m)) by lia. by eapply Hmem. }
    rewrite (vget_ok ms m _ ltac:(lia) El). cbn [bind]. unfold sentinel.
    by rewrite wrap_to_signed, wrap_wrap.
  - done.
Qed.

Lemma sparse_constructor_layout_witness :
  [0; 2; 3] <> [] /\ ascending_below 3 [0; 2; 3] /\
  Forall (fun m => 0 <= m) [0; 2; 3] /\ 3 < 2147483648 /\
  exists b,
    (forall junk, Alm_Base_sparse junk 3 [0; 2; 3] = Ok b) /\
    index b 2 2 = Ok (shifted_count 3 [0; 2; 3] 1 - 2 + 2) /\
    shifted_count 3 [0; 2; 3] 1 = 2.
Proof.
  assert (H1 : [0; 2; 3] <> []) by done.
  assert (H2 : ascending_below 3 [0; 2; 3]).
  { split.
    - intros [|[|[|i]]] m [= <-]; lia.
    - intros [|[|[|i]]] m m' [= <-] [= <-]; lia. }
  assert (H3 : Forall (fun m => 0 <= m) [0; 2; 3]).
  { repeat constructor; lia. }
  assert (H4 : 3 < 2147483648) by lia.
  destruct (sparse_constructor_layout 3 [0; 2; 3] H1 H2 H3 H4)
    as (b & bk & Hb & _ & _ & _ & _ & Hidx & _).
  split; [exact H1|]. split; [exact H2|]. split; [exact H3|]. split; [exact H4|].
  exists b. split; [exact Hb|]. split; [|reflexivity].
  apply (Hidx 1%nat 2 eq_refl 2). lia.
Defined.

(** ** The monopole under a rotation *)

Lemma recurse_first L w :
  0 <= L -> wigner_ok L (-1) w ->
  exists w', recurse w = Ok w' /\ wigner_ok L 0 w' /\
             mat_get (w_d w') 0 0 = Ok done_1.
Proof.
  intros HL (Hsq & Hd & Hdd & Hn).
  unfold recurse, ptr_add. rewrite Hn. change (ptr_check (-1 + 1)) with (Ok 0).
  cbn [bind]. cbv zeta. change (0 =? 0) with true. cbv iota.
  destruct (mat_set_total (L + 1) (2 * L + 1) (w_d w) 0 0 done_1 Hd)
    as (d1 & E1 & Hd1); [lia|lia|].
  rewrite E1. cbn [bind]. eexists. split; [reflexivity|]. split; [done|].
  cbn [w_d]. revert E1. unfold mat_set, mat_get.
  rewrite (mav2_inside_true (L + 1) (2 * L + 1) (w_d w)) by (done || lia).
  rewrite (mav2_inside_true (L + 1) (2 * L + 1) d1) by (done || lia).
  destruct Hd as (_ & Hc & Hcells). rewrite Hc.
  rewrite vset_ok by (unfold vsize in Hcells; nia). cbn [bind].
  intros [= <-]. cbn [cols cells]. apply vget_ok; [lia|].
  apply list_lookup_insert_eq. unfold vsize in Hcells. nia.
Qed.

Section Monopole.
Context {T : Type}.
Variable default_nthreads : Z.
Variable dsin dcos : double -> double.
Variable polar : double -> double -> Cplx double.
Variable cd_mul : Cplx double -> Cplx double -> Cplx double.
Variable cd_add : Cplx double -> Cplx double -> Cplx double.
Variable cd_scale : Cplx double -> double -> Cplx double.
Variable to_cd : Cplx T -> Cplx double.
Variable of_cd : Cplx double -> Cplx T.

(** A store with the layout and the buffer length of [a] whose a(0,0)
    is [v]. *)
Definition monopole_is (a : Alm (Cplx T)) (v : Cplx T) (a2 : Alm (Cplx T))
  : Prop :=
  same_shape a a2 /\ Alm_get a2 0 0 = Ok v.

Lemma monopole_addressable L (data : list (Cplx T)) a v a2 :
  0 <= L -> Alm_new data L L = Ok a -> mav_size data = num_alms_exact L L ->
  monopole_is a v a2 -> addressable L a2.
Proof.
  intros HL Ha Hsz [[Hb Hlen] _] l m Hm Hl.
  destruct (dense_store_facts data L L a ltac:(lia) Ha Hsz)
    as (_ & _ & _ & Hd & _ & Hidx & _).
  destruct (Hidx l m ltac:(lia) ltac:(lia)) as [Ei Hi].
  eexists. rewrite Hb. split; [exact Ei|]. unfold vsize. rewrite Hlen, Hd. lia.
Qed.

Lemma put_keeps_monopole L (data : list (Cplx T)) a v a2 l m x :
  0 <= L -> Alm_new data L L = Ok a -> mav_size data = num_alms_exact L L ->
  monopole_is a v a2 -> 0 <= m <= l -> l <= L -> 1 <= l ->
  exists a3, Alm_put a2 l m x = Ok a3 /\ monopole_is a v a3.
Proof.
  intros HL Ha Hsz [[Hb Hlen] Hv] Hm Hl Hl1.
  destruct (dense_store_facts data L L a ltac:(lia) Ha Hsz)
    as (_ & _ & _ & Hd & _ & Hidx & Hinj).
  destruct (Hidx l m ltac:(lia) ltac:(lia)) as [Ei Hi].
  destruct (Hidx 0 0 ltac:(lia) ltac:(lia)) as [E0 H0].
  set (i := col_start L m - m + l) in *. set (i0 := col_start L 0 - 0 + 0) in *.
  assert (Hne : i <> i0).
  { intros Heq. rewrite Heq in Ei.
    destruct (Hinj l m 0 0 i0 ltac:(lia) ltac:(lia) ltac:(lia) ltac:(lia) Ei E0).
    lia. }
  unfold Alm_put, mav_set. rewrite Hb, Ei. cbn [bind].
  rewrite vset_ok by (rewrite Hlen, Hd; lia). cbn [bind].
  eexists. split; [reflexivity|]. split.
  - split; [done|]. cbn [alm]. by rewrite length_insert.
  - revert Hv. unfold Alm_get, mav_get. cbn [base alm]. rewrite Hb, E0.
    cbn [bind]. unfold vget. destruct (Z.leb_spec 0 i0); [|done].
    rewrite list_lookup_insert_ne by lia. done.
Qed.

Lemma put_sets_monopole L (data : list (Cplx T)) a v a2 x :
  0 <= L -> Alm_new data L L = Ok a -> mav_size data = num_alms_exact L L ->
  monopole_is a v a2 ->
  exists a3, Alm_put a2 0 0 x = Ok a3 /\ monopole_is a x a3.
Proof.
  intros HL Ha Hsz [[Hb Hlen] Hv].
  destruct (dense_store_facts data L L a ltac:(lia) Ha Hsz)
    as (_ & _ & _ & Hd & _ & Hidx & _).
  destruct (Hidx 0 0 ltac:(lia) ltac:(lia)) as [E0 H0].
  unfold Alm_put, mav_set. rewrite Hb, E0. cbn [bind].
  rewrite vset_ok by (rewrite Hlen, Hd; lia). cbn [bind].
  eexists. split; [reflexivity|]. split.
  - split; [done|]. cbn [alm]. by rewrite length_insert.
  - unfold Alm_get, mav_get. cbn [base alm]. rewrite E0. cbn [bind].
    apply vget_ok; [lia|]. apply list_lookup_insert_eq. rewrite Hlen, Hd. lia.
Qed.

End Monopole.

(** X21.  A rotation with theta not zero of a complete store of band-limit
    below 2^30 returns, with the recursion advanced to degree lmax, and
    leaves the monopole where it was: the new a(0,0) is the old one,
    converted to [complex<double>], multiplied by d(0,0) = 1 and by
    polar(1, -phi*0), and converted back; no later degree writes it. *)
Theorem rotate_keeps_monopole {T : Type} (default_nthreads : Z)
    (dsin dcos : double -> double) (polar : double -> double -> Cplx double)
    (cd_mul cd_add : Cplx double -> Cplx double -> Cplx double)
    (cd_scale : Cplx double -> double -> Cplx double)
    (to_cd : Cplx T -> Cplx double) (of_cd : Cplx double -> Cplx T)
    (cT_mul_assign : Cplx T -> Cplx double -> Cplx T)
    (g : Distribution) (data : list (Cplx T)) (L : Z) (a : Alm (Cplx T))
    (psi theta phi : double) :
  0 <= L < 1073741824 -> Alm_new data L L = Ok a ->
  SFeqb theta dzero = false ->
  exists a' w a00,
    rotate_alm default_nthreads dsin dcos polar cd_mul cd_add cd_scale to_cd
      of_cd cT_mul_assign g a psi theta phi = Ok (a', Some w) /\
    Alm_get a 0 0 = Ok a00 /\
    Alm_get a' 0 0
    = Ok (of_cd (cd_mul (cd_scale (to_cd a00) done_1)
                   (polar done_1 (dmul (dneg phi) (double_of_Z 0))))) /\
    same_shape a a' /\ w_n w = L.
Proof.
  intros HL Ha Hth.
  assert (Hsz : mav_size data = num_alms_exact L L).
  { destruct (Alm_new_inv data L L a Ha) as (_ & _ & _ & Hn).
    rewrite Num_Alms_exact in Hn.
    - by injection Hn.
    - lia.
    - unfold SIZE_MOD. nia.
    - unfold num_alms_exact, SIZE_MOD.
      assert ((L + 1) * (L + 2) / 2 <= (L + 1) * (L + 2))
        by (apply Z.div_le_upper_bound; nia).
      nia. }
  assert (HL0 : 0 <= L) by lia.
  destruct (complete_dense_store data L a HL0 Ha Hsz)
    as (_ & Hl & _ & Hc & Hd & Hidx & _).
  destruct (Hidx 0 0 ltac:(lia) ltac:(lia)) as (i0 & Ei0 & Hi0).
  destruct (lookup_lt_is_Some_2 data (Z.to_nat i0)) as [a00 Ha00]; [lia|].
  assert (Hget0 : Alm_get a 0 0 = Ok a00).
  { unfold Alm_get, mav_get. rewrite Ei0, Hd. cbn [bind]. apply vget_ok; [lia|done]. }
  assert (Hmono0 : monopole_is a a00 a) by (split; [split|]; done).
  set (e0 := polar done_1 (dmul (dneg phi) (double_of_Z 0))).
  set (target := of_cd (cd_mul (cd_scale (to_cd a00) done_1) e0)).
  unfold rotate_alm, MR_assert. rewrite Hc, Hth. cbn [bind negb].
  unfold rotate_general. cbv zeta. unfold Lmax. rewrite Hl.
  rewrite !wrap_small by lia.
  (* the phase tables *)
  lazymatch goal with
  | |- context [bind (for_le ?lo ?hi ?body ?s) _] =>
      destruct (for_le_inv
                  (fun m (st : list (Cplx double) * list (Cplx double)) =>
                     vsize st.1 = L + 1 /\ vsize st.2 = L + 1 /\
                     (1 <= m -> st.2 !! O = Some e0))
                  lo hi body s)
        as ([exppsi expphi] & -> & Hpsi & Hphi & He0)
  end.
  { lia. }
  { unfold SIZE_MAX. lia. }
  { unfold vsize. cbn [fst snd]. rewrite length_replicate.
    split; [lia|]. split; lia. }
  { intros m [e1 e2] Hm (H1 & H2 & H3). cbn [fst snd] in H1, H2, H3.
    cbv beta iota. run_vset (L + 1).
    rewrite vset_ok by (unfold vsize in H2; lia). cbn [bind].
    eexists. split; [reflexivity|]. cbn [fst snd]. split; [done|].
    split; [unfold vsize; rewrite length_insert; exact H2|].
    intros _. destruct (decide (m = 0)) as [->|Hne].
    - apply list_lookup_insert_eq. unfold vsize in H2. lia.
    - rewrite list_lookup_insert_ne by lia. apply H3. lia. }
  cbn [fst snd] in Hpsi, Hphi, He0. specialize (He0 ltac:(lia)).
  cbn [bind]. cbv beta iota.
  destruct (wigner_new_total dsin dcos L theta HL) as (rec & -> & Hrec).
  cbn [bind].
  rewrite for_le_first by lia. cbv beta iota.
  (* degree 0 *)
  destruct (recurse_first L rec HL0 Hrec) as (rec0 & -> & Hrec0 & Hd00).
  cbn [bind]. rewrite Hget0. cbn [bind].
  pose proof Hrec0 as (_ & Hdm & _ & _).
  assert (Htmp0 : vsize (replicate (Z.to_nat (L + 1)) (@czero)) = L + 1).
  { unfold vsize. rewrite length_replicate. lia. }
  rewrite (for_le_first 0 0) by lia. cbv beta.
  change (wrap (0 + 0)) with 0. rewrite Hd00. cbn [bind].
  rewrite vset_ok by (unfold vsize in Htmp0; lia). cbn [bind].
  rewrite for_le_none by (unfold SIZE_MAX; lia). cbn [bind].
  change (wrap (0 + 1)) with 1.
  destruct (run_execStatic_one default_nthreads g 1 0)
    as (dist & dist' & -> & Hids & Hnext); [unfold SIZE_MAX; lia|].
  cbn [bind]. unfold thread_map. rewrite Hids. cbn [foldM].
  unfold rotate_job at 1. rewrite Hnext. cbn [bind]. cbv beta iota.
  rewrite for_le_none by (unfold SIZE_MAX; lia). cbn [bind]. cbv beta iota.
  cbn [bind]. cbv beta iota.
  rewrite (for_le_first 0 0) by lia. cbv beta.
  set (tmp1 := <[Z.to_nat 0 := cd_scale (to_cd a00) done_1]>
                 (replicate (Z.to_nat (L + 1)) czero)).
  assert (Htmp1 : vsize tmp1 = L + 1).
  { unfold tmp1, vsize. rewrite length_insert. exact Htmp0. }
  rewrite (vget_ok tmp1 0 (cd_scale (to_cd a00) done_1)); [|lia|].
  2: { unfold tmp1. apply list_lookup_insert_eq. unfold vsize in Htmp0. lia. }
  cbn [bind]. rewrite (vget_ok expphi 0 e0 ltac:(lia) He0). cbn [bind].
  fold target.
  destruct (put_sets_monopole L data a a00 a target HL0 Ha Hsz Hmono0)
    as (a1 & -> & Hmono1).
  cbn [bind]. rewrite for_le_none by (unfold SIZE_MAX; lia). cbn [bind].
  change (0 + 1) with 1.
  (* the degrees from 1 on *)
  lazymatch goal with
  | |- context [bind (for_le ?lo ?hi ?body ?s) _] =>
      destruct (for_le_inv
                  (fun l (st : Alm (Cplx T) * wigner_d_risbo_openmp
                               * list (Cplx double)) =>
                     monopole_is a target st.1.1 /\
                     wigner_ok L (l - 1) st.1.2 /\ vsize st.2 = L + 1)
                  lo hi body s)
        as ([[a' w] tmp] & -> & Ha' & Hw & _)
  end.
  { lia. }
  { unfold SIZE_MAX. lia. }
  { cbn [fst snd]. done. }
  { intros l [[a2 rec2] tmp2] Hl' (Ha2 & Hrec2 & Htmp2).
    cbn [fst snd] in Ha2, Hrec2, Htmp2. cbv beta iota.
    pose proof (monopole_addressable L data a target a2 HL0 Ha Hsz Ha2) as Haddr.
    destruct (recurse_total L (l - 1) rec2 Hrec2) as (rec' & -> & Hrec');
      [lia|lia|].
    replace (l - 1 + 1) with l in Hrec' by lia.
    pose proof Hrec' as (_ & Hdl & _ & _).
    cbn [bind].
    destruct (Alm_get_total L a2 l 0) as [al0 ->]; [done|lia|lia|].
    cbn [bind].
    run_for_le (fun v : list (Cplx double) => vsize v = L + 1).
    { unfold SIZE_MAX. lia. }
    { done. }
    { intros m v Hm Hv. cbv beta. rewrite !wrap_small by lia.
      run_mat (L + 1) (2 * L + 1). by apply vset_total; [|lia]. }
    rewrite !wrap_small by lia.
    destruct (run_execStatic_one default_nthreads g (l + 1) 0)
      as (dist2 & dist2' & -> & Hids2 & Hnext2); [unfold SIZE_MAX; lia|].
    cbn [bind]. unfold thread_map. rewrite Hids2. cbn [foldM].
    destruct (rotate_job_total cd_mul cd_add to_cd L a2 exppsi (w_d rec') l 0
                dist2 dist2' s)
      as ([dist3 tmp3] & -> & Htmp3); [done|done|done|done|lia|lia|done|].
    cbn [snd] in Htmp3. cbn [bind]. cbv beta iota.
    run_for_le (monopole_is a target).
    { unfold SIZE_MAX. lia. }
    { done. }
    { intros m a3 Hm Ha3. cbv beta. run_vget. run_vget.
      apply (put_keeps_monopole L data); [lia|done|done|done|lia|lia|lia]. }
    eexists. split; [reflexivity|]. cbn [fst snd].
    replace (l + 1 - 1) with l by lia. done. }
  cbn [fst snd] in Ha', Hw. cbn [bind]. cbv beta iota.
  replace (L + 1 - 1) with L in Hw by lia.
  destruct Ha' as [Hshape Hget']. destruct Hw as (_ & _ & _ & Hn).
  exists a', w, a00. done.
Qed.

Lemma rotate_keeps_monopole_witness :
  0 <= 1 < 1073741824 /\ Alm_new sample_data 1 1 = Ok sample_store /\
  SFeqb (double_of_Z 1) dzero = false /\
  exists a' w,
    rotate_alm 1 (fun x => x) (fun x => x) sample_polar sample_mul sample_add
      sample_scale (fun z => z) (fun z => z) sample_mul garbage0 sample_store
      (double_of_Z 1) (double_of_Z 1) (double_of_Z 2) = Ok (a', Some w) /\
    Alm_get a' 0 0
    = Ok (sample_mul (sample_scale (mkC (double_of_Z 3) (double_of_Z 4)) done_1)
            (sample_polar done_1 (dmul (dneg (double_of_Z 2)) (double_of_Z 0)))).
Proof.
  assert (H1 : 0 <= 1 < 1073741824) by lia.
  assert (H2 : Alm_new sample_data 1 1 = Ok sample_store) by reflexivity.
  assert (H3 : SFeqb (double_of_Z 1) dzero = false) by reflexivity.
  destruct (rotate_keeps_monopole 1 (fun x => x) (fun x => x) sample_polar
              sample_mul sample_add sample_scale (fun z => z) (fun z => z)
              sample_mul garbage0 sample_data 1 sample_store (double_of_Z 1)
              (double_of_Z 1) (double_of_Z 2) H1 H2 H3)
    as (a' & w & a00 & E & E0 & E1 & _).
  split; [exact H1|]. split; [exact H2|]. split; [exact H3|].
  exists a', w. split; [exact E|].
  assert (a00 = mkC (double_of_Z 3) (double_of_Z 4)) as ->.
  { assert (E00 : Alm_get sample_store 0 0
                  = Ok (mkC (double_of_Z 3) (double_of_Z 4))) by reflexivity.
    rewrite E00 in E0. injection E0 as <-. reflexivity. }
  exact E1.
Defined.

(** ** Two phase twists in a row *)

Lemma Alm_new_same_shape {T : Type} (data : list T) L M (a a' : Alm T) :
  Alm_new data L M = Ok a -> same_shape a a' -> Alm_new (alm a') L M = Ok a'.
Proof.
  intros Ha [Hb Hlen]. destruct (Alm_new_inv data L M a Ha) as (Eb & Hd & Hl & Hn).
  unfold Alm_new. rewrite Eb. cbn [bind]. rewrite Hl, Hn. cbn [bind].
  unfold MR_assert.
  assert (E : mav_size (alm a') = mav_size data).
  { unfold mav_size, vsize. by rewrite Hlen, Hd. }
  rewrite E, Z.eqb_refl. cbn [bind]. destruct a' as [b' buf'].
  cbn [base] in Hb. by rewrite Hb.
Qed.

(** X22.  For the complete store built by [Alm(data, L, L)] over exactly
    (L+1)(L+2)/2 entries (the value of [Num_Alms] when it does not wrap):
    the store that a rotation with theta = 0 returns is again a complete
    store of the same band-limit, so that a second such rotation applies to
    it; the two in a row multiply every coefficient a(l, m) by
    polar(1, -(psi1+phi1)*m) and then by polar(1, -(psi2+phi2)*m). *)
Theorem rotate_phase_twice {T : Type} (default_nthreads : Z)
    (dsin dcos : double -> double) (polar : double -> double -> Cplx double)
    (cd_mul cd_add : Cplx double -> Cplx double -> Cplx double)
    (cd_scale : Cplx double -> double -> Cplx double)
    (to_cd : Cplx T -> Cplx double) (of_cd : Cplx double -> Cplx T)
    (cT_mul_assign : Cplx T -> Cplx double -> Cplx T)
    (g : Distribution) (data : list (Cplx T)) (L : Z) (a : Alm (Cplx T))
    (psi1 phi1 psi2 phi2 : double) :
  0 <= L -> Alm_new data L L = Ok a -> mav_size data = num_alms_exact L L ->
  exists a1 a2,
    rotate_alm default_nthreads dsin dcos polar cd_mul cd_add cd_scale to_cd
      of_cd cT_mul_assign g a psi1 dzero phi1 = Ok (a1, None) /\
    Alm_new (alm a1) L L = Ok a1 /\ complete (base a1) = true /\
    rotate_alm default_nthreads dsin dcos polar cd_mul cd_add cd_scale to_cd
      of_cd cT_mul_assign g a1 psi2 dzero phi2 = Ok (a2, None) /\
    same_shape a a2 /\
    forall l m, 0 <= m <= l -> l <= L ->
      exists v,
        Alm_get a l m = Ok v /\
        Alm_get a2 l m
        = Ok (cT_mul_assign
                (cT_mul_assign v
                   (polar done_1 (dmul (dneg (dadd psi1 phi1)) (double_of_Z m))))
                (polar done_1 (dmul (dneg (dadd psi2 phi2)) (double_of_Z m)))).
Proof.
  intros HL Ha Hsz.
  destruct (complete_dense_store data L a HL Ha Hsz)
    as (_ & _ & _ & Hc & Hd & _).
  destruct (rotate_phase_dense polar cT_mul_assign data L a psi1 phi1 HL Ha Hsz)
    as (a1 & E1 & Hb1 & Hlen1 & Hspec1).
  assert (Hs1 : same_shape a a1) by (split; done).
  pose proof (Alm_new_same_shape data L L a a1 Ha Hs1) as Ha1.
  assert (Hsz1 : mav_size (alm a1) = num_alms_exact L L).
  { unfold mav_size, vsize in *. rewrite Hlen1, Hd. exact Hsz. }
  destruct (complete_dense_store (alm a1) L a1 HL Ha1 Hsz1)
    as (_ & _ & _ & Hc1 & _).
  destruct (rotate_phase_dense polar cT_mul_assign (alm a1) L a1 psi2 phi2
              HL Ha1 Hsz1) as (a2 & E2 & Hb2 & Hlen2 & Hspec2).
  exists a1, a2.
  assert (Hz : SFeqb dzero dzero = true) by reflexivity.
  split; [|split; [done|split; [done|split; [|split]]]].
  - unfold rotate_alm, MR_assert. rewrite Hc, Hz. cbn [bind negb].
    rewrite E1. done.
  - unfold rotate_alm, MR_assert. rewrite Hc1, Hz. cbn [bind negb].
    rewrite E2. done.
  - split; congruence.
  - intros l m Hm Hl.
    destruct (Hspec1 l m Hm Hl) as (i & v & Ei & Hv & Hv1).
    destruct (Hspec2 l m Hm Hl) as (i' & v' & Ei' & Hv' & Hv2).
    rewrite Hb1, Ei in Ei'. injection Ei' as <-.
    rewrite Hv1 in Hv'. injection Hv' as <-.
    assert (Hi : 0 <= i).
    { revert Ei. unfold index. destruct (index_l0 _ _); [|done]. cbn [bind].
      intros [= <-]. apply wrap_range. }
    exists v. unfold Alm_get, mav_get. rewrite Hb2, Hb1, Ei. cbn [bind].
    split; apply vget_ok; done.
Qed.

Lemma rotate_phase_twice_witness :
  0 <= 1 /\ Alm_new sample_data 1 1 = Ok sample_store /\
  mav_size sample_data = num_alms_exact 1 1 /\
  exists a1 a2,
    rotate_alm 1 (fun x => x) (fun x => x) sample_polar sample_mul sample_add
      sample_scale (fun z => z) (fun z => z) sample_mul garbage0 sample_store
      (double_of_Z 1) dzero (double_of_Z 2) = Ok (a1, None) /\
    rotate_alm 1 (fun x => x) (fun x => x) sample_polar sample_mul sample_add
      sample_scale (fun z => z) (fun z => z) sample_mul garbage0 a1
      (double_of_Z 3) dzero (double_of_Z 4) = Ok (a2, None) /\
    same_shape sample_store a2.
Proof.
  assert (H1 : 0 <= 1) by lia.
  assert (H2 : Alm_new sample_data 1 1 = Ok sample_store) by reflexivity.
  assert (H3 : mav_size sample_data = num_alms_exact 1 1) by reflexivity.
  destruct (rotate_phase_twice 1 (fun x => x) (fun x => x) sample_polar
              sample_mul sample_add sample_scale (fun z => z) (fun z => z)
              sample_mul garbage0 sample_data 1 sample_store (double_of_Z 1)
              (double_of_Z 2) (double_of_Z 3) (double_of_Z 4) H1 H2 H3)
    as (a1 & a2 & E1 & _ & _ & E2 & Hs & _).
  split; [exact H1|]. split; [exact H2|]. split; [exact H3|].
  exists a1, a2. split; [exact E1|]. split; [exact E2|exact Hs].
Defined.

(** ** STATIC scheduling with the default chunk size *)

(** X23.  [execStatic] with chunk size 0 splits the work into one block
    per worker, provided nwork + n - 1 and nwork + n*C do not exceed
    2^64 - 1, for n workers and C = (nwork + n - 1) / n: then n*C >= nwork
    and (for C < nwork, so that the call does not degrade to SINGLE) the
    first [getNext] of worker t returns [t*C, min((t+1)*C, nwork)), or the
    empty range when t*C >= nwork, and every later [getNext] of the same
    worker returns the empty range, in whatever order the workers call. *)
Theorem static_default_one_block_per_worker (dflt nwork nthreads : Z)
    (g : Distribution) (sched : list Z) :
  is_size_t nwork -> is_size_t nthreads -> 1 <= dflt <= SIZE_MAX ->
  nwork + eff_threads dflt nthreads - 1 <= SIZE_MAX ->
  nwork + eff_threads dflt nthreads
          * ((nwork + eff_threads dflt nthreads - 1) / eff_threads dflt nthreads)
  <= SIZE_MAX ->
  (nwork + eff_threads dflt nthreads - 1) / eff_threads dflt nthreads < nwork ->
  Forall (fun t => 0 <= t < eff_threads dflt nthreads) sched ->
  exists d rs d',
    run_execStatic dflt g nwork nthreads 0 = Ok d /\
    nthreads_ d = eff_threads dflt nthreads /\
    chunksize_ d = (nwork + nthreads_ d - 1) / nthreads_ d /\
    nwork <= nthreads_ d * chunksize_ d /\
    calls sched d = Ok (rs, d') /\ length rs = length sched /\
    forall i t, sched !! i = Some t ->
      rs !! i
      = Some (if calls_before t i sched =? 0
              then if nwork <=? t * chunksize_ d then Range0
                   else mkRange (t * chunksize_ d)
                          (Z.min (t * chunksize_ d + chunksize_ d) nwork)
              else Range0).
Proof.
  intros Hw Hn Hd Hf1 Hf2 Hlt Hall.
  set (n := eff_threads dflt nthreads) in *.
  assert (Hn1 : 1 <= n) by (apply eff_threads_pos; [lia|apply Hn]).
  assert (HC : eff_chunk nwork n 0 = (nwork + n - 1) / n) by reflexivity.
  assert (H0 : is_size_t 0) by (unfold is_size_t, SIZE_MAX; lia).
  assert (Hfit : static_fits nwork n 0).
  { split; [done|]. rewrite HC. done. }
  pose proof (static_holds dflt nwork nthreads 0 Hw Hn H0 Hd Hfit) as Hok.
  unfold static_ok in Hok. cbv zeta in Hok. specialize (Hok g).
  fold n in Hok. rewrite HC in Hok.
  set (C := (nwork + n - 1) / n) in *.
  destruct (Z.leb_spec nwork C) as [|_]; [lia|].
  destruct Hok as (d & E & Hm & Hids & Hcalls & _).
  destruct (Hcalls sched Hall) as (rs & d' & Ec & Hlen & Hrs).
  assert (Hcover : nwork <= n * C).
  { unfold C. pose proof (Z.div_mod (nwork + n - 1) n ltac:(lia)).
    pose proof (Z.mod_pos_bound (nwork + n - 1) n ltac:(lia)). lia. }
  assert (Hd' : nthreads_ d = n /\ chunksize_ d = C).
  { revert E. unfold run_execStatic, execStatic. cbv zeta. dist_simpl.
    fold (eff_threads dflt nthreads). fold n.
    change (0 <? 1) with true. cbv iota.
    rewrite wrap_small by (unfold SIZE_MAX, is_size_t in *; lia). fold C.
    destruct (Z.leb_spec nwork C); [lia|].
    destruct (for_lt _ _ _ _); [|done]. cbn [bind]. intros [= <-]. done. }
  destruct Hd' as [Hdn HdC].
  exists d, rs, d'. rewrite Hdn, HdC.
  split; [exact E|]. split; [done|]. split; [done|]. split; [done|].
  split; [exact Ec|]. split; [exact Hlen|].
  intros i t Hi. rewrite (Hrs i t Hi). f_equal.
  pose proof (proj1 (Forall_forall _ _) Hall t (list_elem_of_lookup_2 _ _ _ Hi))
    as Ht. cbv beta in Ht.
  assert (Hk : 0 <= calls_before t i sched) by (unfold calls_before; lia).
  unfold static_range. cbv zeta.
  destruct (Z.eqb_spec (calls_before t i sched) 0) as [->|Hne].
  - by rewrite Z.mul_0_l, Z.add_0_r.
  - destruct (Z.leb_spec nwork ((t + calls_before t i sched * n) * C)); [done|].
    assert (0 <= C) by (unfold C, is_size_t in *; apply Z.div_pos; lia). nia.
Qed.

Lemma static_default_one_block_per_worker_witness :
  is_size_t 10 /\ is_size_t 4 /\
  exists d rs d',
    run_execStatic 8 garbage0 10 4 0 = Ok d /\
    calls [0; 3; 0; 1] d = Ok (rs, d') /\
    rs = [mkRange 0 3; mkRange 9 10; Range0; mkRange 3 6].
Proof.
  assert (H1 : is_size_t 10) by (unfold is_size_t, SIZE_MAX; lia).
  assert (H2 : is_size_t 4) by (unfold is_size_t, SIZE_MAX; lia).
  assert (H3 : 1 <= 8 <= SIZE_MAX) by (unfold SIZE_MAX; lia).
  assert (H4 : 10 + eff_threads 8 4 - 1 <= SIZE_MAX) by (vm_compute; discriminate).
  assert (H5 : 10 + eff_threads 8 4 * ((10 + eff_threads 8 4 - 1) / eff_threads 8 4)
               <= SIZE_MAX) by (vm_compute; discriminate).
  assert (H6 : (10 + eff_threads 8 4 - 1) / eff_threads 8 4 < 10)
    by (vm_compute; reflexivity).
  assert (H7 : Forall (fun t => 0 <= t < eff_threads 8 4) [0; 3; 0; 1]).
  { repeat constructor; vm_compute; congruence. }
  destruct (static_default_one_block_per_worker 8 10 4 garbage0 [0; 3; 0; 1]
              H1 H2 H3 H4 H5 H6 H7)
    as (d & rs & d' & E & _ & _ & _ & Ec & _ & _).
  split; [exact H1|]. split; [exact H2|].
  exists d, rs, d'. split; [exact E|]. split; [exact Ec|].
  assert (E0 : run_execStatic 8 garbage0 10 4 0
               = Ok (mkDist 4 10 7 3 dzero [0; 3; 6; 9] STATIC true))
    by reflexivity.
  rewrite E0 in E. injection E as <-.
  assert (Ec0 : calls [0; 3; 0; 1] (mkDist 4 10 7 3 dzero [0; 3; 6; 9] STATIC true)
                = Ok ([mkRange 0 3; mkRange 9 10; Range0; mkRange 3 6],
                      mkDist 4 10 7 3 dzero [12; 15; 6; 21] STATIC true))
    by reflexivity.
  rewrite Ec0 in Ec. injection Ec as <- _. reflexivity.
Defined.

(** ** The dense layout in closed form *)

Lemma sum_column_lengths L (k : nat) :
  sum_list_Z ((fun m => L - m + 1) <$> seqZ 0 (Z.of_nat k))
  = col_start L (Z.of_nat k).
Proof.
  induction k as [|k IH]; [done|].
  rewrite seqZ_S, fmap_app, sum_list_Z_app, IH.
  replace (Z.of_nat (Datatypes.S k)) with (Z.of_nat k + 1) by lia.
  rewrite col_start_succ. cbn [fmap list_fmap sum_list_Z]. lia.
Qed.

(** X24.  In the layout built by [Alm_Base(L, M)] the coefficient a(l, m)
    has the index m (2L + 1 - m) / 2 + l; the columns are packed one after
    the other in the order m = 0, ..., M: a(0,0) has index 0, within a
    column the index grows with l by ones, each column starts right after
    the end of the one before, and [n_entries()] is the sum of the column
    lengths L - m + 1. *)
Theorem dense_index_closed_form (L M : Z) (b : Alm_Base) :
  0 <= M <= L -> (M + 1) * (M + 2) < SIZE_MOD -> num_alms_exact L M < SIZE_MOD ->
  Alm_Base_dense L M = Ok b ->
  (forall l m, 0 <= m <= M -> m <= l <= L ->
     index b l m = Ok (m * (2 * L + 1 - m) / 2 + l)) /\
  (forall m, 0 <= m < M ->
     index b (m + 1) (m + 1) = Ok (m * (2 * L + 1 - m) / 2 + L + 1)) /\
  packs_consecutively L (seqZ 0 (M + 1)) b.
Proof.
  intros HM Hp Hx Eb.
  destruct (Alm_Base_dense_layout L M HM Hp Hx)
    as (b' & Eb' & Hl & Ha & Hmv & Hlen & Hms).
  rewrite Eb in Eb'. injection Eb' as <-.
  assert (Hcf : forall m, col_start L m - m = m * (2 * L + 1 - m) / 2).
  { intros m. pose proof (col_start_double L m) as E.
    apply Z.div_unique_exact; [lia|]. lia. }
  assert (Hidx : forall l m, 0 <= m <= M -> m <= l <= L ->
            index b l m = Ok (m * (2 * L + 1 - m) / 2 + l)).
  { intros l m Hm Hlm. rewrite <- Hcf.
    apply (dense_index L M); [done|done|by apply Hms|done|done]. }
  split; [exact Hidx|]. split; [|split; [|split]].
  - intros m Hm. rewrite Hidx by lia. f_equal. rewrite <- !Hcf.
    rewrite col_start_succ. lia.
  - intros m0 Hm0. apply lookup_seqZ in Hm0 as [-> _].
    rewrite Hidx by lia. done.
  - intros i m m' Hi Hi'. apply lookup_seqZ in Hi as [-> Hi].
    apply lookup_seqZ in Hi' as [-> Hi'].
    exists (Z.of_nat i * (2 * L + 1 - Z.of_nat i) / 2 + L).
    rewrite !Hidx by lia. split; [f_equal; lia|]. f_equal. rewrite <- !Hcf.
    replace (0 + Z.of_nat (Datatypes.S i)) with (Z.of_nat i + 1) by lia.
    rewrite col_start_succ. lia.
  - rewrite Ha, num_alms_exact_col_start.
    replace (M + 1) with (Z.of_nat (Z.to_nat (M + 1))) by lia.
    by rewrite sum_column_lengths.
Qed.

Lemma dense_index_closed_form_witness :
  0 <= 2 <= 3 /\ (2 + 1) * (2 + 2) < SIZE_MOD /\ num_alms_exact 3 2 < SIZE_MOD /\
  Alm_Base_dense 3 2 = Ok (mkAlmBase 3 9 [0; 1; 2] [0; 3; 5]) /\
  index (mkAlmBase 3 9 [0; 1; 2] [0; 3; 5]) 3 2 = Ok (2 * (2 * 3 + 1 - 2) / 2 + 3).
Proof.
  assert (H1 : 0 <= 2 <= 3) by lia.
  assert (H2 : (2 + 1) * (2 + 2) < SIZE_MOD) by (unfold SIZE_MOD; lia).
  assert (H3 : num_alms_exact 3 2 < SIZE_MOD) by (vm_compute; reflexivity).
  assert (H4 : Alm_Base_dense 3 2 = Ok (mkAlmBase 3 9 [0; 1; 2] [0; 3; 5]))
    by reflexivity.
  split; [exact H1|]. split; [exact H2|]. split; [exact H3|]. split; [exact H4|].
  apply (proj1 (dense_index_closed_form 3 2 _ H1 H2 H3 H4)); lia.
Defined.

